(* ===== verification/_CoqProject ===== *)
-Q . S2P
Prelude.v
Random.v
WrappingIntegers.v
ByteStream.v
OrderedMap.v
StreamReassembler.v
Buffer.v
Parser.v
Checksum.v
TCPSegment.v
IPv4.v
Ethernet.v
Adapter.v
TCPReceiver.v
TCPSender.v
TCPConnection.v
Outbound.v
Handshake.v
Progress.v
Closing.v
Network.v
Text.v
Benchmark.v
BenchmarkLive.v
Address.v
FileDescriptor.v
EventLoop.v
Channel.v
Socket.v
NetworkInterface.v
DatagramAdapter.v
StreamCopy.v
SpongeSocket.v
Sockets.v
Printing.v
Options.v
UdpTcpdump.v
StackSockets.v
Threads.v
Programs.v
