(* ===== verification/Prelude.v ===== *)
(** * Sponge: a verification of the CS144 user-space TCP implementation

    The program is a TCP/IP stack in user space.  A [TCPConnection] joins a
    [TCPSender] (a [ByteStream] cut into segments, retransmitted on a timer) and a
    [TCPReceiver] (a [StreamReassembler] that turns segments back into a
    [ByteStream]); sequence numbers wrap at 32 bits.  [TCPSpongeSocket] runs a
    connection in a thread, between the stream its owner reads and writes and a
    datagram adapter; an [EventLoop] over [poll(2)] calls its four rules.  The
    adapters carry segments in IPv4 datagrams on a TUN device, in Ethernet frames
    on a TAP device or in UDP datagrams, with or without artificial loss.  Headers
    are read and written by [NetParser] and [NetUnparser], checked by
    [InternetChecksum], and kept in shared [Buffer]s.  The applications under
    [src/apps] build sockets from a command line, copy streams, fetch a page or
    print packets.

    ** Files

    Definitions have the names of the source; paths are below [src/libsponge]
    unless they begin with [apps].

    - [Prelude]: machine words, record update, exceptions ([outcome]), bytes, lists
      indexed by integers, and the tactics [word], [nowrap], [zlia], [split_if];
    - [Random]: [timestamp_ms] and [get_random_generator] of [util/util.cc], with the
      [seed_seq] and [mt19937] of the C++ standard;
    - [WrappingIntegers]: [wrapping_integers.hh/.cc];
    - [ByteStream]: [byte_stream.hh/.cc], and the abstract FIFO it refines;
    - [OrderedMap], [StreamReassembler]: [std::map] and
      [stream_reassembler.hh/.cc];
    - [Buffer], [Parser], [Checksum]: [util/buffer], [util/parser] and the checksum
      of [util/util.cc];
    - [TCPSegment], [IPv4], [Ethernet]: the headers, segments, datagrams, frames and
      ARP messages of [tcp_helpers];
    - [TCPReceiver], [TCPSender], [TCPConnection]: the three classes,
      [tcp_helpers/tcp_config.hh] and [tcp_state];
    - [Outbound], [Handshake], [Progress], [Closing]: lemmas on connections that their
      clients share (what an operation leaves of the outbound stream; when a SYN is
      sent again; how a batch of segments brings both directions forward; how a
      connection ends);
    - [Network]: two connections and a network that drops, duplicates, delays and
      reorders segments (a step relation; it models no file, it is what the program
      is for);
    - [Adapter]: what the adapters of [fd_adapter], [tcp_over_ip], [lossy_fd_adapter]
      and [tuntap_adapter] do with segments;
    - [Text], [Address]: numbers as text, and [util/address];
    - [FileDescriptor], [EventLoop], [Channel], [Socket]: [util/file_descriptor],
      [util/eventloop], stream descriptors with their kernel's answers, and
      [util/socket] with [util/tun];
    - [NetworkInterface], [DatagramAdapter]: [network_interface] (placeholders in
      this repository), and the adapters joined to their devices as instances of
      one class, which is all that [TCPSpongeSocket] knows of them;
    - [StreamCopy]: [apps/bidirectional_stream_copy.cc];
    - [SpongeSocket], [StackSockets]: [tcp_helpers/tcp_sponge_socket] with its helper
      classes, and what [apps/webget.cc] and [apps/tcp_native.cc] do with a socket;
    - [Sockets]: two sockets and the network between their adapters (a step relation
      over [SpongeSocket]; like [Network] it models no file);
    - [Printing]: the [to_string] and [summary] methods and [hexdump];
    - [Options]: the command lines of [apps/tcp_udp.cc], [apps/tcp_ipv4.cc] and
      [apps/tcp_ip_ethernet.cc];
    - [UdpTcpdump]: [apps/udp_tcpdump.cc] and the packets of [apps/tun.cc];
    - [Threads]: the thread of a socket from its start to the join;
    - [Programs]: the [main] functions of the programs, which put the components
      together;
    - [Benchmark], [BenchmarkLive]: [apps/tcp_benchmark.cc], and that it completes.

    ** Modelling

    A class is a module with a record [t] of its members; a method takes the object
    last and returns the new object.  Unsigned arithmetic is written out with its
    width ([u8], [u16], [u32], [u64]) where the C++ expression has it.  A method
    that can throw returns an [outcome]; one that can exit or meet undefined
    behaviour returns a [run] ([Options]).  The kernel, libc's resolver, the clock
    and random numbers are outside: their answers are arguments, or fields of a
    class whose laws are what the manual pages say ([ResolverLaws]), with a concrete
    instance that satisfies them.  Buffers share their storage, but nobody writes
    to it, so a buffer is a value.  All handles to a descriptor share one
    [FDWrapper], which is what the operations act on.

    Loops that are not structural have fuel: three rounds for the folding of a
    checksum (two suffice, [value_is_ones_complement]), one per pending segment and
    one more in the reassembler, the bytes in the buffer and two more in
    [fill_window] ([fill_loop_terminates]), the number of arguments in the command
    lines ([programs_safe]), the length of the packet in [udp_tcpdump]
    ([process_in_bounds]), the length of the string and 32 more rounds in the
    benchmark ([benchmark_succeeds]); each theorem named shows that the fuel suffices.  Loops
    that wait for the kernel ([write], the event loops) recurse on the list of its
    answers.  The two threads of a socket meet only in the kernel, in the flag
    [_abort] and when one joins the other: [Threads.with_thread] runs either on the
    answers it gets, and the rounds of the thread say when it sees the flag.

    ** Theorems

    - Contract: [end_to_end] (whatever the network does, a late SYN included, what one
      application has read is a prefix of what the other wrote; for streams below
      2 GiB), [end_to_end_long] (for longer streams, when no segment arrives half the
      sequence space late and no SYN after data), [sockets_end_to_end] (the same as
      the first of two whole sockets and their owners' streams, however the rounds
      of their threads interleave), [socket_refines_endpoint] (the thread of a socket
      does nothing that an endpoint of [Network] could not do, for every adapter),
      [thread_ends] (when the connection is over, under the conditions listed there,
      the thread hands out and sends what is left, and ends), [stream_copy_faithful].
    - The program run as a whole: [benchmark_rounds] (two connections that exchange
      their segments directly, in order or reversed: here no SYN comes late, which
      is proved) and [benchmark_succeeds] (the transfer completes, both connections
      end, and [main] returns 0).
    - Sender and receiver: invariants over all reachable states
      ([receiver_in_order], [sender_invariant], [backoff_exponential]), the exact
      behaviour of the operations ([fill_window_exact], [ack_received_correct],
      [tick_retransmits]), progress ([segment_answered], [linger_ends], and, not a
      claim of its own, [receiver_progress]) and error paths ([reset_received],
      [too_many_retransmissions]).
    - Reassembly and streams: [push_substring_correct], [reassembly_in_order],
      [reassembly_completes], [stream_refines_fifo].
    - Formats: round trips of segments, datagrams, frames, ARP messages and
      addresses; damaged segments are rejected; parsing is total; what an adapter
      hands out comes from the peer ([unwrap_accepts_only_peer]); segments survive the TUN device and UDP sockets
      ([tun_roundtrip], [udp_roundtrip]).
    - System layer: [write_all_complete], [wait_next_event_returns],
      [events_dispatched], and (not claims of their own) [udp_recv_correct],
      [send_pending_flushes], [lossless_transparent], [abort_joins] (the destructor of
      a socket does not block), [random_numbers_alive].
    - Applications: [programs_safe] (whatever the arguments, the kernel and the peer
      do, no exception leaves [main] of the five programs with a socket, only a failed
      system call or adapter can end their TCP thread and with it the process, and
      success says what was passed on), [command_line_understood],
      [process_in_bounds], [tcpdump_shows_segment], and (not claims of their own)
      [capture_ends], [tun_loop_shows], [hexdump_lines].  [demo_webget] computes a
      whole run of [webget], from the arguments to the join.

    ** Deviations the models show

    Theorems state where the code does not do what it or its documentation says:
    [unwrap_isn_not_closest], [unwrap_closest] (near [2^64]), [late_duplicate_syn],
    [as_string_out_of_bounds],
    [short_data_offset_accepted], [ipv4_checksum_not_enforced],
    [short_frame_accepted], [reset_ignored_at_end], [finishes_without_fin],
    [poll_error_ignored], [abort_drops_reset], [udp_ports_unchecked],
    [ethernet_adapter_silent], [short_ipv4_out_of_bounds],
    [short_udp_out_of_bounds], [loss_rate_unchecked], [advertised_window],
    [listen_host_ignored], [file_option_unknown], [capture_ends] (the error message of a capture is read
    from a closed handle), [unknown_link_type], [abandoned_never_ends],
    [reset_undone_by_reading], [backlog_after_shutdown].

    ** Not modelled

    Reference counting of descriptors and buffers (the C++ runtime's);
    the clock and [random_device] (their readings are arguments);
    messages on [cerr], except those that go with an exit status; the counts that
    the thread's last [shutdown] adds to the owner's descriptor; the throughput
    that [apps/tcp_benchmark.cc] measures. *)
From Stdlib Require Export ZArith Lia ZifyBool.
From Stdlib Require Strings.Byte Strings.String.
From stdpp Require Export base numbers list strings.

#[global] Open Scope Z_scope.
#[export] Set Default Goal Selector "!".

(** ** Machine words

    A C++ unsigned integer of width [w] is a [Z] in [[0, 2^w)]; every
    arithmetic result is brought back by [u8], [u16], [u32] or [u64] at the
    place where the C++ expression has that type. *)

Definition u8 (x : Z) : Z := x mod 256.
Definition u16 (x : Z) : Z := x mod 65536.
Definition u32 (x : Z) : Z := x mod 4294967296.
Definition u64 (x : Z) : Z := x mod 18446744073709551616.

(** Conversions to [int32_t] and [ssize_t]. *)
Definition i32 (x : Z) : Z := if u32 x <? 2147483648 then u32 x else u32 x - 4294967296.
Definition i64 (x : Z) : Z :=
  if u64 x <? 9223372036854775808 then u64 x else u64 x - 18446744073709551616.

Abbreviation MAX8 := 256 (only parsing).
Abbreviation MAX16 := 65536 (only parsing).
Abbreviation MAX32 := 4294967296 (only parsing).
Abbreviation MAX64 := 18446744073709551616 (only parsing).

(** [word] decides linear goals about wrapped arithmetic. *)
Ltac word :=
  unfold u8, u16, u32, u64 in *; Z.div_mod_to_equations; lia.

Lemma u8_small x : 0 <= x < MAX8 -> u8 x = x.
Proof. intros. word. Qed.
Lemma u16_small x : 0 <= x < MAX16 -> u16 x = x.
Proof. intros. word. Qed.
Lemma u32_small x : 0 <= x < MAX32 -> u32 x = x.
Proof. intros. word. Qed.
Lemma u64_small x : 0 <= x < MAX64 -> u64 x = x.
Proof. intros. word. Qed.

Lemma u8_range x : 0 <= u8 x < MAX8.
Proof. word. Qed.
Lemma u16_range x : 0 <= u16 x < MAX16.
Proof. word. Qed.
Lemma u32_range x : 0 <= u32 x < MAX32.
Proof. word. Qed.
Lemma u64_range x : 0 <= u64 x < MAX64.
Proof. word. Qed.

Lemma i32_small x : -2147483648 <= x < 2147483648 -> i32 x = x.
Proof. intros. unfold i32. destruct (u32 x <? _) eqn:E; word. Qed.
Lemma i64_small x : 0 <= x < 9223372036854775808 -> i64 x = x.
Proof. intros. unfold i64. rewrite u64_small by lia. by replace (x <? _) with true by lia. Qed.

Create HintDb words.
Create Rewrite HintDb words.
#[export] Hint Rewrite u8_small u16_small u32_small u64_small using lia : words.
#[export] Hint Resolve u8_range u16_range u32_range u64_range : words.

(** [nowrap] removes the wrap-arounds that provably do nothing. *)
Ltac nowrap := autorewrite with words.
Tactic Notation "nowrap" "in" ident(H) := autorewrite with words in H.

(** ** Record update

    [r <| f := v |>] is the C++ assignment [r.f = v].  A record type gives its
    eta expansion as an [Eta] instance; the update of one field is found from
    it. *)

Class Eta (R : Type) := eta : R -> R.
Class Setter {R T : Type} (p : R -> T) := modify : (T -> T) -> R -> R.

Ltac find_setter :=
  match goal with
  | |- @Setter ?R ?T ?p =>
      let e := eval hnf in (@eta R _) in
      let e := eval pattern p in e in
      match e with
      | ?F _ =>
          let b := constr:(fun (g : T -> T) (r : R) => F (fun r' => g (p r')) r) in
          let b := eval cbv beta in b in
          exact b
      end
  end.
#[export] Hint Extern 1 (Setter _) => find_setter : typeclass_instances.
Arguments modify {R T} p {_} _ _ / : assert.

Declare Scope record_scope.
Notation "r <| p := v |>" := (modify p (fun _ => v) r)
  (at level 1, p at level 10, v at level 200, left associativity,
   format "r  <| p  :=  v |>") : record_scope.
#[global] Open Scope record_scope.

(** ** Exceptions

    A method that can throw returns an [outcome]. *)

Inductive exn : Type :=
| out_of_range (what : string)
| runtime_error (what : string)
| invalid_argument (what : string)
| unix_error (attempt : string) (errno : Z)
| gai_error (attempt : string) (code : Z).

Inductive outcome (A : Type) : Type :=
| Ok (a : A)
| Throw (e : exn).
Arguments Ok {A} a.
Arguments Throw {A} e.

Definition obind {A B} (o : outcome A) (k : A -> outcome B) : outcome B :=
  match o with Ok a => k a | Throw e => Throw e end.

Declare Scope outcome_scope.
Notation "'let!' x ':=' o 'in' k" := (obind o (fun x => k))
  (at level 10, x pattern, o at level 100, k at level 200) : outcome_scope.
#[global] Open Scope outcome_scope.

Definition is_Ok {A} (o : outcome A) : Prop := exists a, o = Ok a.

(** ** Bytes and strings

    [std::string], [std::string_view] and [std::deque<char>] are lists of
    bytes. *)

Abbreviation byte := Corelib.Init.Byte.byte.
Abbreviation bytes := (list byte).

#[export] Instance byte_eq_dec : EqDecision byte := Byte.byte_eq_dec.
#[export] Instance byte_inhabited : Inhabited byte := populate Corelib.Init.Byte.x00.

(** A string literal of the source. *)
Definition str (s : string) : bytes := String.list_byte_of_string s.

Definition byte_val (b : byte) : Z := Z.of_N (Byte.to_N b).

(** The conversion of an integer to [uint8_t] (or of a [uint8_t] to [char]). *)
Definition byte_of (z : Z) : byte :=
  default Corelib.Init.Byte.x00 (Byte.of_N (Z.to_N (u8 z))).

Lemma byte_val_range b : 0 <= byte_val b < MAX8.
Proof. unfold byte_val. pose proof (Byte.to_N_bounded b). lia. Qed.

Lemma byte_of_val b : byte_of (byte_val b) = b.
Proof.
  unfold byte_of. rewrite u8_small by apply byte_val_range.
  unfold byte_val. by rewrite N2Z.id, Byte.of_to_N.
Qed.

Lemma byte_val_of z : byte_val (byte_of z) = u8 z.
Proof.
  unfold byte_of, byte_val. pose proof (u8_range z).
  destruct (Byte.of_N (Z.to_N (u8 z))) as [b|] eqn:E; simpl.
  - apply Byte.to_of_N in E. rewrite E. lia.
  - apply Byte.of_N_None_iff in E. lia.
Qed.

#[export] Hint Resolve byte_val_range : words.

(** ** Lists indexed by [Z] *)

Section zlist.
Context {A : Type}.
Implicit Types (l : list A) (i n : Z).

Definition zlen l : Z := Z.of_nat (length l).
Definition ztake n l : list A := take (Z.to_nat n) l.
Definition zdrop n l : list A := drop (Z.to_nat n) l.
Definition zget l i : option A := if i <? 0 then None else l !! Z.to_nat i.

(** [data.substr(pos, n)] for [pos <= data.size()]. *)
Definition substr l pos n : list A := ztake n (zdrop pos l).

Lemma zlen_nil : zlen [] = 0.
Proof. done. Qed.
Lemma zlen_cons x l : zlen (x :: l) = 1 + zlen l.
Proof. unfold zlen. simpl. lia. Qed.
Lemma zlen_app l k : zlen (l ++ k) = zlen l + zlen k.
Proof. unfold zlen. rewrite length_app. lia. Qed.
Lemma zlen_nonneg l : 0 <= zlen l.
Proof. unfold zlen. lia. Qed.
Lemma zlen_ztake n l : zlen (ztake n l) = Z.max 0 (Z.min n (zlen l)).
Proof. unfold zlen, ztake. rewrite length_take. lia. Qed.
Lemma zlen_zdrop n l : zlen (zdrop n l) = Z.max 0 (zlen l - Z.max 0 n).
Proof. unfold zlen, zdrop. rewrite length_drop. lia. Qed.
Lemma zlen_substr l pos n :
  zlen (substr l pos n) = Z.max 0 (Z.min n (Z.max 0 (zlen l - Z.max 0 pos))).
Proof. unfold substr. by rewrite zlen_ztake, zlen_zdrop. Qed.
Lemma zlen_0_nil l : zlen l = 0 -> l = [].
Proof. destruct l; [done|]. rewrite zlen_cons. pose proof (zlen_nonneg l). lia. Qed.

Lemma ztake_all n l : zlen l <= n -> ztake n l = l.
Proof. unfold zlen, ztake. intros. apply take_ge. lia. Qed.
Lemma ztake_nonpos n l : n <= 0 -> ztake n l = [].
Proof. unfold ztake. intros. replace (Z.to_nat n) with 0%nat by lia. apply take_0. Qed.
Lemma zdrop_nonpos n l : n <= 0 -> zdrop n l = l.
Proof. unfold zdrop. intros. replace (Z.to_nat n) with 0%nat by lia. apply drop_0. Qed.
Lemma zdrop_all n l : zlen l <= n -> zdrop n l = [].
Proof. unfold zlen, zdrop. intros. apply drop_ge. lia. Qed.
Lemma ztake_zdrop n l : ztake n l ++ zdrop n l = l.
Proof. apply take_drop. Qed.
Lemma substr_full l n : zlen l <= n -> substr l 0 n = l.
Proof. intros. unfold substr. rewrite zdrop_nonpos by lia. by apply ztake_all. Qed.
Lemma ztake_app_exact l k : ztake (zlen l) (l ++ k) = l.
Proof. unfold ztake, zlen. rewrite Nat2Z.id. apply take_app_length. Qed.
Lemma zdrop_app_exact l k : zdrop (zlen l) (l ++ k) = k.
Proof. unfold zdrop, zlen. rewrite Nat2Z.id. apply drop_app_length. Qed.

Lemma zdrop_zdrop n m l : 0 <= n -> 0 <= m -> zdrop n (zdrop m l) = zdrop (m + n) l.
Proof. unfold zdrop. intros. rewrite drop_drop. f_equal. lia. Qed.
Lemma ztake_clip n l : ztake (Z.min n (zlen l)) l = ztake n l.
Proof.
  destruct (Z_le_gt_dec n (zlen l)); [by rewrite Z.min_l by lia|].
  rewrite Z.min_r by lia. by rewrite !ztake_all by lia.
Qed.
Lemma zdrop_clip n l : zdrop (Z.min n (zlen l)) l = zdrop n l.
Proof.
  destruct (Z_le_gt_dec n (zlen l)); [by rewrite Z.min_l by lia|].
  rewrite Z.min_r by lia. by rewrite !zdrop_all by lia.
Qed.

Lemma ztake_ztake n m l : ztake n (ztake m l) = ztake (Z.min n m) l.
Proof. unfold ztake. rewrite take_take. f_equal. lia. Qed.
Lemma ztake_app_le n l k : n <= zlen l -> ztake n (l ++ k) = ztake n l.
Proof. unfold ztake, zlen. intros. apply take_app_le. lia. Qed.

Lemma zdrop_app_le n l k : n <= zlen l -> zdrop n (l ++ k) = zdrop n l ++ k.
Proof. unfold zdrop, zlen. intros. apply drop_app_le. lia. Qed.
Lemma zdrop_app_ge n l k : zlen l <= n -> zdrop n (l ++ k) = zdrop (n - zlen l) k.
Proof. unfold zdrop, zlen. intros. rewrite drop_app_ge by lia. f_equal. lia. Qed.

Lemma zget_Some_range l i x : zget l i = Some x -> 0 <= i < zlen l.
Proof.
  unfold zget, zlen. case_match; [done|]. intros Hx%lookup_lt_Some. lia.
Qed.
Lemma zget_is_Some l i : is_Some (zget l i) <-> 0 <= i < zlen l.
Proof.
  split; [intros [x H]; by eapply zget_Some_range|].
  unfold zget, zlen. intros. case_match; [lia|]. apply lookup_lt_is_Some. lia.
Qed.
Lemma zget_None l i : i < 0 \/ zlen l <= i -> zget l i = None.
Proof.
  unfold zget, zlen. intros. case_match; [done|]. apply lookup_ge_None. lia.
Qed.
Lemma zget_nil l i : zlen l = 0 -> zget l i = None.
Proof. intros. apply zget_None. lia. Qed.
Lemma zget_app l k i :
  zget (l ++ k) i = if i <? zlen l then zget l i else zget k (i - zlen l).
Proof.
  unfold zget, zlen. destruct (i <? 0) eqn:?; destruct (i <? Z.of_nat (length l)) eqn:?; try lia; try done.
  - apply lookup_app_l. lia.
  - destruct (i - Z.of_nat (length l) <? 0) eqn:?; [lia|].
    rewrite lookup_app_r by lia. f_equal. lia.
Qed.
Lemma zget_ztake l n i : zget (ztake n l) i = if i <? n then zget l i else None.
Proof.
  unfold zget, ztake. destruct (i <? 0) eqn:?; [by case_match|].
  rewrite lookup_take. destruct (decide _), (i <? n) eqn:?; first [done | lia].
Qed.
Lemma zget_zdrop l n i : 0 <= n -> 0 <= i -> zget (zdrop n l) i = zget l (n + i).
Proof.
  unfold zget, zdrop. intros. repeat case_match; try lia.
  rewrite lookup_drop. f_equal. lia.
Qed.
Lemma zget_substr l pos n i :
  0 <= pos -> 0 <= i -> zget (substr l pos n) i = if i <? n then zget l (pos + i) else None.
Proof.
  intros. unfold substr. rewrite zget_ztake. case_match; [|done]. by apply zget_zdrop.
Qed.
Lemma zget_ext l k : (forall i, 0 <= i -> zget l i = zget k i) -> l = k.
Proof.
  intros H. apply list_eq. intros i. specialize (H (Z.of_nat i)).
  unfold zget in H. destruct (Z.of_nat i <? 0) eqn:?; [lia|].
  rewrite Nat2Z.id in H. apply H. lia.
Qed.

(** A prefix of [l] can be extended by the next elements of [l]. *)
Lemma ztake_extend l d n :
  0 <= n -> n + zlen d <= zlen l ->
  (forall i, 0 <= i < zlen d -> zget d i = zget l (n + i)) ->
  ztake (n + zlen d) l = ztake n l ++ d.
Proof.
  intros Hn Hd H. apply zget_ext. intros i Hi.
  rewrite zget_app, !zget_ztake, zlen_ztake. pose proof (zlen_nonneg d).
  rewrite Z.min_l, Z.max_r by lia.
  destruct (i <? n) eqn:?.
  - by replace (i <? n + zlen d) with true by lia.
  - destruct (i <? n + zlen d) eqn:?.
    + rewrite H by lia. f_equal. lia.
    + symmetry. apply zget_None. lia.
Qed.
End zlist.

(** [std::string::resize]. *)
Definition resize (n : Z) (l : bytes) : bytes :=
  ztake n l ++ replicate (Z.to_nat (n - zlen l)) Corelib.Init.Byte.x00.

Lemma zlen_resize n l : zlen (resize n l) = Z.max 0 n.
Proof.
  unfold resize, ztake, zlen. rewrite length_app, length_take, length_replicate. lia.
Qed.

Lemma resize_shrink n l : 0 <= n <= zlen l -> resize n l = ztake n l.
Proof.
  intros. unfold resize. replace (Z.to_nat (n - zlen l)) with 0%nat by lia. apply app_nil_r.
Qed.

(** A buffer whose beginning the kernel has overwritten, cut to what it stored. *)
Lemma resize_stored n data old :
  zlen data <= n -> resize (zlen data) (resize n (data ++ zdrop (zlen data) (resize n old))) = data.
Proof.
  intros Hn. pose proof (zlen_nonneg data). rewrite resize_shrink by (rewrite zlen_resize; lia).
  unfold resize at 1. rewrite ztake_app_le.
  - rewrite ztake_ztake, Z.min_l by lia. apply ztake_app_exact.
  - rewrite zlen_ztake, zlen_app, zlen_zdrop, zlen_resize. lia.
Qed.

Arguments zlen : simpl never.
Arguments ztake : simpl never.
Arguments zdrop : simpl never.
Arguments zget : simpl never.
Arguments substr : simpl never.

Create Rewrite HintDb zlen.
#[export] Hint Rewrite @zlen_nil @zlen_cons @zlen_app @zlen_ztake @zlen_zdrop @zlen_substr : zlen.

(** [zlia]: linear arithmetic about lengths of lists. *)
Ltac pose_zlen :=
  repeat match goal with
  | |- context [zlen ?l] =>
      lazymatch goal with H : 0 <= zlen l |- _ => fail | _ => pose proof (zlen_nonneg l) end
  | H : context [zlen ?l] |- _ =>
      lazymatch goal with H' : 0 <= zlen l |- _ => fail | _ => pose proof (zlen_nonneg l) end
  end.
Ltac zlia := autorewrite with zlen in *; pose_zlen; lia.

(** [split_if] splits on one condition of the goal. *)
Ltac split_if :=
  match goal with
  | |- context [if ?b then _ else _] => let E := fresh "Eif" in destruct b eqn:E
  end.
