(* ===== verification/Random.v ===== *)
(** * Time and random numbers: [timestamp_ms] and [get_random_generator] of [util/util.cc]

    The clock and [random_device] are outside: their readings are arguments.
    [seed_seq] and [mt19937] are the algorithms that the C++ standard prescribes
    ([rand.util.seedseq], [rand.eng.mers]); a generator is the last 624 words of its
    sequence. *)
From S2P Require Import Prelude.

Module Random.

(** ** Time *)

(** [program_start] and [now] are readings of the steady clock, in nanoseconds. *)
Definition timestamp_ms (program_start now : Z) : Z := u64 (Z.quot (now - program_start) 1000000).

(** ** [std::seed_seq] *)

(** [begin[i]], in range in all uses below, and the assignment to it. *)
Definition word (l : list Z) (i : Z) : Z := nth (Z.to_nat i) l 0.
Definition set_word (l : list Z) (i v : Z) : list Z := <[Z.to_nat i := v]> l.

Definition scramble (x : Z) : Z := Z.lxor x (Z.shiftr x 27).

Definition seed_t (n : Z) : Z :=
  if 623 <=? n then 11 else if 68 <=? n then 7 else if 39 <=? n then 5 else if 7 <=? n then 3 else (n - 1) / 2.
Definition seed_p (n : Z) : Z := (n - seed_t n) / 2.
Definition seed_q (n : Z) : Z := seed_p n + seed_t n.

(** The two transformations of [generate], at step [k], with the seeds [v]. *)
Definition mix_add (v : list Z) (n : Z) (begin_ : list Z) (k : Z) : list Z :=
  let i := k mod n in
  let ip := (k + seed_p n) mod n in
  let iq := (k + seed_q n) mod n in
  let r1 := u32 (1664525 * scramble (Z.lxor (Z.lxor (word begin_ i) (word begin_ ip)) (word begin_ ((k - 1) mod n)))) in
  let r2 := u32 (r1 + (if k =? 0 then zlen v else if k <=? zlen v then i + word v (k - 1) else i)) in
  let begin_ := set_word begin_ ip (u32 (word begin_ ip + r1)) in
  let begin_ := set_word begin_ iq (u32 (word begin_ iq + r2)) in
  set_word begin_ i r2.

Definition mix_xor (n : Z) (begin_ : list Z) (k : Z) : list Z :=
  let i := k mod n in
  let ip := (k + seed_p n) mod n in
  let iq := (k + seed_q n) mod n in
  let r3 := u32 (1566083941 * scramble (u32 (word begin_ i + word begin_ ip + word begin_ ((k - 1) mod n)))) in
  let r4 := u32 (r3 - i) in
  let begin_ := set_word begin_ ip (Z.lxor (word begin_ ip) r3) in
  let begin_ := set_word begin_ iq (Z.lxor (word begin_ iq) r4) in
  set_word begin_ i r4.

Definition steps (from count : Z) : list Z := map (fun i => from + Z.of_nat i) (seq 0 (Z.to_nat count)).

Definition generate (v : list Z) (n : Z) : list Z :=
  let begin_ := replicate (Z.to_nat n) 2341178251 in
  let m := Z.max (zlen v + 1) n in
  let begin_ := fold_left (mix_add v n) (steps 0 m) begin_ in
  fold_left (mix_xor n) (steps m n) begin_.

(** ** [std::mt19937] *)

Definition state_size : Z := 624.
Definition shift_size : Z := 397.
Definition upper_mask : Z := 2147483648.
Definition lower_mask : Z := 2147483647.
Definition xor_mask : Z := 2567483615.

(** The constructor from a seed sequence: a state that would give zeros only is
    replaced. *)
Definition of_seed_seq (v : list Z) : list Z :=
  let x := generate v state_size in
  if (Z.land (hd 0 x) upper_mask =? 0) && forallb (fun w => w =? 0) (tail x)
  then upper_mask :: tail x else x.

(** The next word of the sequence. *)
Definition next_word (x : list Z) : Z :=
  let y := Z.lor (Z.land (word x 0) upper_mask) (Z.land (word x 1) lower_mask) in
  Z.lxor (Z.lxor (word x shift_size) (Z.shiftr y 1)) (if Z.odd y then xor_mask else 0).

Definition temper (z : Z) : Z :=
  let z := Z.lxor z (Z.shiftr z 11) in
  let z := Z.lxor z (Z.land (u32 (Z.shiftl z 7)) 2636928640) in
  let z := Z.lxor z (Z.land (u32 (Z.shiftl z 15)) 4022730752) in
  Z.lxor z (Z.shiftr z 18).

(** [operator()]. *)
Definition draw (x : list Z) : Z * list Z :=
  let w := next_word x in (temper w, tail x ++ [w]).

Fixpoint draws (n : nat) (x : list Z) : list Z :=
  match n with
  | O => []
  | S n => let '(z, x) := draw x in z :: draws n x
  end.

(** ** [get_random_generator]; [rd] are the numbers that the device gives *)
Definition get_random_generator (rd : list Z) : list Z :=
  let seed_data := map u32 (ztake state_size rd) in
  of_seed_seq seed_data.

(** ** Check values of the standard *)

Example seed_seq_check :
  generate [1; 2; 3; 4; 5] 10 =
    [4204997637; 4246533866; 1856049002; 1129615051; 690460811; 1075771511; 46783058; 3904109078; 1534123438; 1495905678].
Proof. vm_compute. reflexivity. Qed.

(** The 10000th number of a generator seeded with its default seed, as
    [rand.predef] gives it. *)
Fixpoint seeded (n : nat) (i x : Z) : list Z :=
  match n with
  | O => []
  | S n => x :: seeded n (i + 1) (u32 (1812433253 * Z.lxor x (Z.shiftr x 30) + (i + 1)))
  end.

Example mt19937_check :
  (draw (Z.iter 9999 (fun x => (draw x).2) (seeded 624 0 5489))).1 = 4123659995.
Proof. vm_compute. reflexivity. Qed.

(** ** Words *)

Definition is_word (w : Z) : Prop := 0 <= w < MAX32.

Lemma word_bits w : is_word w <-> 0 <= w /\ Z.log2 w < 32.
Proof.
  unfold is_word. change MAX32 with (2 ^ 32). destruct (Z.eq_dec w 0) as [->|Hw]; [simpl; lia|].
  split; intros [H0 H1]; (split; [done|]); [apply Z.log2_lt_pow2 in H1; lia|apply Z.log2_lt_pow2; lia].
Qed.

Lemma lxor_word a b : is_word a -> is_word b -> is_word (Z.lxor a b).
Proof.
  rewrite !word_bits. intros [Ha Ha'] [Hb Hb']. split; [by apply Z.lxor_nonneg|].
  pose proof (Z.log2_lxor a b Ha Hb). lia.
Qed.

Lemma lor_word a b : is_word a -> is_word b -> is_word (Z.lor a b).
Proof.
  rewrite !word_bits. intros [Ha Ha'] [Hb Hb']. split; [by apply Z.lor_nonneg|]. rewrite Z.log2_lor by done. lia.
Qed.

Lemma land_word a b : is_word a -> 0 <= b -> is_word (Z.land a b).
Proof.
  rewrite !word_bits. intros [Ha Ha'] Hb. split; [apply Z.land_nonneg; auto|].
  pose proof (Z.log2_land a b Ha Hb). lia.
Qed.

Lemma shiftr_word a n : is_word a -> 0 <= n -> is_word (Z.shiftr a n).
Proof.
  unfold is_word. intros Ha Hn. rewrite Z.shiftr_div_pow2 by done.
  assert (1 <= 2 ^ n) by (change 1 with (2 ^ 0); apply Z.pow_le_mono_r; lia).
  split; [apply Z.div_pos; lia|]. apply Z.div_lt_upper_bound; nia.
Qed.

Lemma u32_word x : is_word (u32 x).
Proof. apply Z.mod_pos_bound. done. Qed.

Create HintDb words.
#[local] Hint Resolve lxor_word lor_word land_word shiftr_word u32_word : words.
#[local] Hint Extern 1 (0 <= _) => lia : words.
#[local] Hint Extern 1 (is_word (Zpos _)) => (unfold is_word; lia) : words.
#[local] Hint Extern 1 (is_word 0) => (unfold is_word; lia) : words.

Definition words (n : nat) (l : list Z) : Prop := length l = n /\ Forall is_word l.

Lemma word_in n l i : words n l -> is_word (word l i).
Proof.
  intros [_ Hl]. unfold word. destruct (nth_in_or_default (Z.to_nat i) l 0) as [Hi| ->]; [|auto with words].
  rewrite Forall_forall in Hl. apply Hl. by apply list_elem_of_In.
Qed.

Lemma set_word_in n l i v : words n l -> is_word v -> words n (set_word l i v).
Proof. intros [Hn Hl] Hv. split; [by unfold set_word; rewrite length_insert|by apply Forall_insert]. Qed.

#[local] Hint Resolve word_in set_word_in : words.

Lemma mix_words v n len l k : words len l -> words len (mix_add v n l k) /\ words len (mix_xor n l k).
Proof.
  intros Hl. pose proof (word_in len) as Hw. pose proof (set_word_in len) as Hs. pose proof u32_word. pose proof lxor_word.
  clear - Hl Hw Hs H H0. split; unfold mix_add, mix_xor; cbv zeta; auto 15.
Qed.

Lemma generate_words v n : words (Z.to_nat n) (generate v n).
Proof.
  unfold generate. cbv zeta.
  assert (forall (f : list Z -> Z -> list Z) ks l, (forall l k, words (Z.to_nat n) l -> words (Z.to_nat n) (f l k)) ->
    words (Z.to_nat n) l -> words (Z.to_nat n) (fold_left f ks l)) as Hfold.
  { intros f ks. induction ks as [|k ks IH]; intros l Hf Hl; simpl; auto. }
  apply Hfold; [intros; by apply (mix_words [])|]. apply Hfold; [intros; by apply mix_words|].
  split; [apply length_replicate|]. apply Forall_replicate. unfold is_word. lia.
Qed.

(** ** The generator never dies *)

(** The states from which only zeros would come. *)
Definition dead (x : list Z) : Prop := Z.land (hd 0 x) upper_mask = 0 /\ Forall (fun w => w = 0) (tail x).

Record alive (x : list Z) : Prop := {
  alive_words : words 624 x;
  alive_not_dead : ~ dead x }.

Lemma next_word_word x : words 624 x -> is_word (next_word x).
Proof.
  intros Hx. unfold next_word. cbv zeta. pose proof (word_in 624 x) as Hw.
  apply lxor_word; [apply lxor_word; [by apply Hw|]|by destruct (Z.odd _)].
  apply shiftr_word; [|lia]. by apply lor_word; apply land_word; auto.
Qed.

Lemma temper_word z : is_word z -> is_word (temper z).
Proof. intros Hz. unfold temper. cbv zeta. auto 15 with words. Qed.

Lemma masks_split x : is_word x -> Z.lor (Z.land x upper_mask) (Z.land x lower_mask) = x.
Proof.
  intros Hx. rewrite <- Z.land_lor_distr_r. change (Z.lor upper_mask lower_mask) with (Z.ones 32).
  rewrite Z.land_ones by lia. by apply Z.mod_small.
Qed.

(** A dead state only comes from a dead state. *)
Lemma dead_before x : words 624 x -> dead (draw x).2 -> dead x.
Proof.
  intros Hx. pose proof Hx as [Hlen Hall]. destruct x as [|x0 [|x1 rest]]; [done|done|]. cbn [draw snd tail app hd].
  intros [Hu Hz]. cbn [hd tail] in *. rewrite Forall_app, Forall_singleton in Hz. destruct Hz as [Hrest Hw].
  assert (word (x0 :: x1 :: rest) shift_size = 0) as Hm.
  { unfold word. change (Z.to_nat shift_size) with (S (S 395)). cbn [nth].
    destruct (nth_in_or_default 395 rest 0) as [Hi|]; [|done]. rewrite Forall_forall in Hrest.
    apply Hrest. by apply list_elem_of_In. }
  unfold next_word in Hw. cbv zeta in Hw. rewrite Hm, Z.lxor_0_l in Hw.
  change (word (x0 :: x1 :: rest) 0) with x0 in Hw. change (word (x0 :: x1 :: rest) 1) with x1 in Hw.
  set (y := Z.lor _ _) in Hw. inversion Hall as [|? ? H0 Hall1]; subst. inversion Hall1 as [|? ? H1 _]; subst.
  assert (is_word y) as Hy by (apply lor_word; apply land_word; (done || (unfold upper_mask, lower_mask; lia))).
  apply Z.lxor_eq in Hw. rewrite Z.shiftr_div_pow2 in Hw by lia. change (2 ^ 1) with 2 in Hw. unfold is_word in Hy.
  assert (y = 0) as Ey.
  { pose proof (Z.div_mod y 2 ltac:(lia)) as Hd. rewrite Zmod_odd in Hd. unfold xor_mask in Hw.
    destruct (Z.odd y); lia. }
  apply Z.lor_eq_0_iff in Ey as [E0 E1].
  assert (x1 = 0) as -> by (rewrite <- (masks_split x1 H1); by rewrite Hu, E1).
  split; [done|]. cbn [tail]. by constructor.
Qed.

Lemma draw_alive x : alive x -> alive (draw x).2 /\ is_word (draw x).1.
Proof.
  intros [Hx Hd]. pose proof (next_word_word x Hx) as Hw. split; [|by apply temper_word]. split.
  - destruct Hx as [Hl Ha]. destruct x as [|x0 x]; [done|]. cbn [draw snd tail]. inversion Ha; subst. split.
    + rewrite length_app. simpl in *. lia.
    + apply Forall_app. by split; [|apply Forall_singleton].
  - intros Hdead. by apply Hd, dead_before.
Qed.

Lemma seeded_alive rd : alive (get_random_generator rd).
Proof.
  unfold get_random_generator, of_seed_seq. cbv zeta.
  pose proof (generate_words (map u32 (ztake state_size rd)) state_size : words 624 _) as Hx. revert Hx.
  generalize (generate (map u32 (ztake state_size rd)) state_size). intros x [Hl Ha]. destruct (_ && _) eqn:E.
  - split.
    + destruct x as [|x0 x]; [done|]. inversion Ha; subst. split; [done|]. by constructor.
    + intros [Hd _]. done.
  - split; [done|]. intros [Hd Hz]. apply andb_false_iff in E as [E|E]; [apply Z.eqb_neq in E; done|].
    apply not_true_iff_false in E. apply E, forallb_forall. intros w Hw. rewrite Forall_forall in Hz.
    apply Z.eqb_eq, Hz. by apply list_elem_of_In.
Qed.

(** The numbers that decide which segments are lost: whatever the
    device gives as seeds, every number drawn is a 32-bit word, and the generator
    never reaches a state from which only zeros come (with which a lossy link
    would drop everything). *)
Theorem random_numbers_alive (rd : list Z) (n : nat) :
  let x := Nat.iter n (fun x => (draw x).2) (get_random_generator rd) in
  alive x /\ is_word (draw x).1.
Proof.
  cbv zeta. assert (alive (Nat.iter n (fun x => (draw x).2) (get_random_generator rd))) as Hx.
  { induction n as [|n IH]; [apply seeded_alive|]. by apply draw_alive. }
  split; [done|]. by apply draw_alive.
Qed.

(** ** Elapsed time *)

(** The clock is steady: the difference of two time stamps is the time
    between them, to the millisecond. *)
Lemma timestamps_differ program_start t1 t2 :
  program_start <= t1 <= t2 -> t2 - program_start < 1000000 * MAX64 ->
  let ms := u64 (timestamp_ms program_start t2 - timestamp_ms program_start t1) in
  1000000 * (ms - 1) < t2 - t1 < 1000000 * (ms + 1).
Proof.
  intros H1 H2. unfold timestamp_ms. rewrite !Z.quot_div_nonneg by lia. cbv zeta.
  rewrite !(u64_small (_ / _)) by (Z.div_mod_to_equations; lia). rewrite u64_small by (Z.div_mod_to_equations; lia).
  Z.div_mod_to_equations. lia.
Qed.

End Random.
