(* ===== verification/WrappingIntegers.v ===== *)
(** * 32-bit sequence numbers: [libsponge/wrapping_integers.hh] and [.cc]

    [WrappingInt32] with its operators, [wrap] (absolute 64-bit sequence number
    to 32-bit relative one) and [unwrap] (the inverse, near a checkpoint).  The
    theorems say that [unwrap] always returns a number that wraps to its
    argument, that it undoes [wrap] within half a wrap of the checkpoint, that
    the answer is the closest one, and on which inputs it is not. *)
From S2P Require Import Prelude.

Module WrappingIntegers.

Record WrappingInt32 := mkWrapping { raw_value : Z }.

#[global] Instance WrappingInt32_eq_dec : EqDecision WrappingInt32.
Proof. solve_decision. Defined.

Definition wf (a : WrappingInt32) : Prop := 0 <= raw_value a < MAX32.

(** [WrappingInt32{x}] for a [uint32_t] (or wider) [x]. *)
Definition WrappingInt32_of (x : Z) : WrappingInt32 := mkWrapping (u32 x).

Definition wrap (n : Z) (isn : WrappingInt32) : WrappingInt32 :=
  let seqno_64bits := u64 (n + raw_value isn) in
  let seqno_32bits := u32 seqno_64bits in
  mkWrapping seqno_32bits.

Definition MAX_U32 : Z := 4294967296.

Definition unwrap (n isn : WrappingInt32) (checkpoint : Z) : Z :=
  let abs_seqno := u32 (raw_value n - raw_value isn) in
  let abs_seqno :=
    if abs_seqno <? checkpoint then
      let index_diff := u64 (checkpoint - abs_seqno) in
      if index_diff mod MAX_U32 =? 0 then checkpoint
      else u64 (abs_seqno + u64 (MAX_U32 * u64 (index_diff / MAX_U32 + 1)))
    else abs_seqno in
  if u64 (abs_seqno - checkpoint) <? MAX_U32 / 2 then abs_seqno
  else if MAX_U32 <? abs_seqno then u64 (abs_seqno - MAX_U32) else abs_seqno.

(** [operator-(WrappingInt32, WrappingInt32)]: the difference as an [int32_t]. *)
Definition sub (a b : WrappingInt32) : Z :=
  let d := u32 (raw_value a - raw_value b) in
  if d <? 2147483648 then d else d - MAX_U32.

Definition eqb (a b : WrappingInt32) : bool := raw_value a =? raw_value b.

Definition neqb (a b : WrappingInt32) : bool := negb (eqb a b).

Definition add (a : WrappingInt32) (b : Z) : WrappingInt32 :=
  mkWrapping (u32 (raw_value a + b)).

(** [operator-(WrappingInt32, uint32_t)]: [a + -b]. *)
Definition sub_u32 (a : WrappingInt32) (b : Z) : WrappingInt32 := add a (u32 (- b)).

(** The absolute sequence numbers that [n] can stand for. *)
Definition wraps_to (isn n : WrappingInt32) (x : Z) : Prop :=
  0 <= x < MAX64 /\ wrap x isn = n.

(** ** Lemmas *)

Lemma eqb_eq a b : eqb a b = true <-> a = b.
Proof.
  destruct a as [a], b as [b]. unfold eqb. simpl. rewrite Z.eqb_eq.
  split; [by intros -> | by intros [=]].
Qed.

Lemma wrap_wf n isn : wf (wrap n isn).
Proof. apply u32_range. Qed.

Lemma raw_wrap n isn : raw_value (wrap n isn) = (n + raw_value isn) mod MAX32.
Proof. unfold wrap. simpl. word. Qed.

(** [wrap x isn] is [n] exactly when [x] and the 32-bit difference agree
    modulo [2^32]. *)
Lemma wrap_eq_iff x isn n :
  wf isn -> wf n ->
  wrap x isn = n <-> x mod MAX32 = u32 (raw_value n - raw_value isn).
Proof.
  intros Hi Hn. destruct n as [n]. unfold wf in *. simpl in *.
  split.
  - intros [= H]. word.
  - intros H. unfold wrap. f_equal. word.
Qed.

(** The value of [unwrap] in closed form, when the sums stay below [2^64]: the
    first candidate at or above the checkpoint if it is less than [2^31] away,
    else the one before it, except that [2^32] is never lowered to [0]. *)
Lemma unwrap_closed_form n isn cp :
  0 <= cp <= MAX64 - MAX32 ->
  unwrap n isn cp =
    let d := u32 (raw_value n - raw_value isn) in
    let a := cp + (d - cp) mod MAX32 in
    if cp <=? d then d
    else if a - cp <? 2147483648 then a
    else if MAX32 <? a then a - MAX32 else a.
Proof.
  intros Hcp. pose proof (u32_range (raw_value n - raw_value isn)) as Hd.
  unfold unwrap. set (d := u32 _) in *. unfold MAX_U32. clearbody d. simpl.
  destruct (Z_lt_le_dec d cp) as [Hlt|Hge].
  - replace (d <? cp) with true by lia. replace (cp <=? d) with false by lia.
    rewrite (u64_small (cp - d)) by lia.
    destruct ((cp - d) mod MAX32 =? 0) eqn:E.
    + replace ((d - cp) mod MAX32) with 0 by word. rewrite Z.add_0_r, Z.sub_diag. done.
    + replace (u64 (d + u64 (MAX32 * u64 ((cp - d) / MAX32 + 1))))
        with (cp + (d - cp) mod MAX32) by word.
      repeat case_match; word.
  - replace (d <? cp) with false by lia. replace (cp <=? d) with true by lia.
    repeat case_match; word.
Qed.

(** The same without the bound on the sums: [a] is the first candidate at or above the
    checkpoint. *)
Lemma unwrap_candidates n isn cp :
  0 <= cp < MAX64 ->
  unwrap n isn cp =
    let d := u32 (raw_value n - raw_value isn) in
    let a := cp + (d - cp) mod MAX32 in
    if MAX64 <=? a then a - MAX64
    else if cp <=? d then d
    else if a - cp <? 2147483648 then a
    else if MAX32 <? a then a - MAX32 else a.
Proof.
  intros Hcp. destruct (Z_le_gt_dec cp (MAX64 - MAX32)) as [Hle|Hgt].
  { rewrite unwrap_closed_form by lia. cbv zeta. set (d := u32 _). replace (MAX64 <=? _) with false by word. done. }
  pose proof (u32_range (raw_value n - raw_value isn)) as Hd.
  unfold unwrap. set (d := u32 _) in *. unfold MAX_U32. clearbody d. cbv zeta.
  replace (d <? cp) with true by lia. replace (cp <=? d) with false by lia.
  rewrite (u64_small (cp - d)) by lia.
  destruct ((cp - d) mod MAX32 =? 0) eqn:E.
  - replace ((d - cp) mod MAX32) with 0 by word. rewrite Z.add_0_r, Z.sub_diag. repeat split_if; word.
  - replace (u64 (d + u64 (MAX32 * u64 ((cp - d) / MAX32 + 1)))) with (u64 (cp + (d - cp) mod MAX32)) by word.
    repeat split_if; word.
Qed.

Lemma unwrap_near x cp isn :
  wf isn -> 0 <= x -> 0 <= cp <= MAX64 - MAX32 ->
  Z.abs (x - cp) < 2147483648 -> (x = 0 -> cp = 0) ->
  unwrap (wrap x isn) isn cp = x.
Proof.
  intros Hi Hx Hcp Hnear H0. rewrite unwrap_closed_form by done.
  replace (u32 (raw_value (wrap x isn) - raw_value isn)) with (x mod MAX32)
    by (rewrite raw_wrap; unfold wf in Hi; word).
  cbv zeta. repeat case_match; word.
Qed.

(** A checkpoint of [2^64 - 1] counts as [-1]. *)
Lemma unwrap_minus_one x isn :
  wf isn -> 0 <= x < 2147483647 -> unwrap (wrap x isn) isn (MAX64 - 1) = x.
Proof.
  intros Hi Hx. unfold unwrap.
  replace (u32 (raw_value (wrap x isn) - raw_value isn)) with x
    by (rewrite raw_wrap; unfold wf in Hi; word).
  unfold MAX_U32. replace (x <? MAX64 - 1) with true by lia.
  rewrite (u64_small (MAX64 - 1 - x)) by lia.
  replace ((MAX64 - 1 - x) mod 4294967296 =? 0) with false by word.
  replace ((MAX64 - 1 - x) / 4294967296 + 1) with 4294967296 by word.
  change (u64 (4294967296 * u64 4294967296)) with 0. rewrite Z.add_0_r, (u64_small x) by lia.
  replace (u64 (x - (MAX64 - 1))) with (x + 1) by word.
  by replace (x + 1 <? 4294967296 / 2) with true by word.
Qed.

(** An old SYN is taken for the start of the next round of sequence numbers. *)
Lemma unwrap_old_isn isn cp :
  wf isn -> 1 <= cp < 2147483648 -> unwrap (wrap 0 isn) isn cp = MAX32.
Proof.
  intros Hi Hcp. rewrite unwrap_closed_form by lia.
  replace (u32 (raw_value (wrap 0 isn) - raw_value isn)) with 0
    by (rewrite raw_wrap; unfold wf in Hi; word).
  cbv zeta. repeat split_if; word.
Qed.

Lemma unwrap_next_epoch x isn :
  wf isn -> 1 <= x < 2147483647 -> unwrap (wrap x isn) isn (MAX32 - 1) = MAX32 + x.
Proof.
  intros Hi Hx. rewrite unwrap_closed_form by lia.
  replace (u32 (raw_value (wrap x isn) - raw_value isn)) with x
    by (rewrite raw_wrap; unfold wf in Hi; word).
  cbv zeta. repeat split_if; word.
Qed.

Lemma unwrap_epoch x cp isn :
  wf isn -> 0 <= x -> 0 <= cp <= MAX64 - MAX32 -> Z.abs (MAX32 + x - cp) < 2147483648 ->
  unwrap (wrap x isn) isn cp = MAX32 + x.
Proof.
  intros Hi Hx Hcp Hn. replace (wrap x isn) with (wrap (MAX32 + x) isn) by (unfold wrap; f_equal; word).
  apply unwrap_near; [done|lia..].
Qed.

(** Whatever the relative number, the result stays near the checkpoint. *)
Lemma unwrap_range n isn cp :
  0 <= cp <= MAX64 - 2 * MAX32 -> 0 <= unwrap n isn cp <= cp + MAX32.
Proof.
  intros Hcp. rewrite unwrap_closed_form by lia. pose proof (u32_range (raw_value n - raw_value isn)).
  cbv zeta. repeat split_if; word.
Qed.

(** ** Properties *)

(** Whatever the checkpoint, the absolute sequence number [unwrap] returns
    is a 64-bit number that wraps back to the relative one it was given. *)
Lemma unwrap_wraps_to (n isn : WrappingInt32) (cp : Z) :
  wf n -> wf isn -> 0 <= cp < MAX64 -> wraps_to isn n (unwrap n isn cp).
Proof.
  intros Hn Hi Hcp.
  assert (0 <= unwrap n isn cp < MAX64 /\ (unwrap n isn cp) mod MAX32 = u32 (raw_value n - raw_value isn)) as [Hr Hm].
  { pose proof (u32_range (raw_value n - raw_value isn)) as Hd.
    unfold unwrap. set (d := u32 _) in *. unfold MAX_U32. clearbody d.
    repeat case_match; word. }
  split; [done|]. by apply wrap_eq_iff.
Qed.

(** C27: [unwrap] and [wrap], for every absolute sequence number less than [2^31]
    away from the checkpoint, exactly.  The number is recovered, with two
    exceptions: [0], once the checkpoint has moved, comes back as [2^32]; and a
    number below the checkpoint in the last [2^32] of the 64-bit numbers comes back
    as the one among the first [2^32] that wraps alike. *)
Theorem unwrap_wrap (x cp : Z) (isn : WrappingInt32) :
  wf isn -> 0 <= x < MAX64 -> 0 <= cp < MAX64 -> Z.abs (x - cp) < 2147483648 ->
  unwrap (wrap x isn) isn cp =
    if (x =? 0) && (0 <? cp) then MAX32
    else if (x <? cp) && (MAX64 - MAX32 <=? x) then x - (MAX64 - MAX32)
    else x.
Proof.
  intros Hi Hx Hcp Hnear. rewrite unwrap_candidates by done.
  replace (u32 (raw_value (wrap x isn) - raw_value isn)) with (x mod MAX32)
    by (rewrite raw_wrap; unfold wf in Hi; word).
  destruct (Z_lt_le_dec x cp).
  - replace ((x mod MAX32 - cp) mod MAX32) with (MAX32 + x - cp) by word. cbv zeta.
    replace (x <? cp) with true by lia. cbn [andb]. repeat split_if; word.
  - replace ((x mod MAX32 - cp) mod MAX32) with (x - cp) by word. cbv zeta.
    replace (x <? cp) with false by lia. cbn [andb]. repeat split_if; word.
Qed.

Lemma unwrap_wrap_witness :
  unwrap (wrap 4294967301 (mkWrapping 7)) (mkWrapping 7) 4294967390 = 4294967301.
Proof. apply unwrap_wrap; unfold wf; simpl; lia. Defined.

(** C28: the number closest to the checkpoint, for every 64-bit checkpoint.  Let [a]
    be the first number at or above the checkpoint that wraps to [n].  If [a] does not
    fit 64 bits, [unwrap] returns it modulo [2^64] (so the checkpoint [2^64 - 1]
    counts as -1); if [n] is the ISN and the checkpoint between [1] and [2^31 - 1],
    it returns [2^32]; in all other cases the result wraps to [n] and no other number
    that does is closer to the checkpoint. *)
Theorem unwrap_closest (n isn : WrappingInt32) (cp : Z) :
  wf n -> wf isn -> 0 <= cp < MAX64 ->
  let a := cp + (raw_value n - raw_value isn - cp) mod MAX32 in
  if MAX64 <=? a then unwrap n isn cp = a - MAX64
  else if eqb n isn && (0 <? cp) && (cp <? 2147483648) then unwrap n isn cp = MAX32
  else wraps_to isn n (unwrap n isn cp) /\
    forall x, wraps_to isn n x -> Z.abs (unwrap n isn cp - cp) <= Z.abs (x - cp).
Proof.
  intros Hn Hi Hcp a.
  assert (wraps_to isn n (unwrap n isn cp)) as Hback by (by apply unwrap_wraps_to).
  rewrite unwrap_candidates in * by done. pose proof (u32_range (raw_value n - raw_value isn)) as Hd.
  assert ((raw_value n - raw_value isn - cp) mod MAX32 = (u32 (raw_value n - raw_value isn) - cp) mod MAX32) as Ea by word.
  assert (eqb n isn = (u32 (raw_value n - raw_value isn) =? 0)) as -> by (unfold eqb, wf in *; word).
  unfold a. rewrite Ea. cbv zeta in Hback |- *. set (d := u32 (raw_value n - raw_value isn)) in *.
  assert (0 <= (d - cp) mod MAX32 < MAX32) as Hm by (apply Z.mod_pos_bound; lia).
  destruct (MAX64 <=? _) eqn:E64; [repeat split_if; lia|].
  destruct (_ && _ && _) eqn:Eb.
  { assert (d = 0 /\ 0 < cp < 2147483648) as [Hd0 Hc] by lia. rewrite Hd0 in *. repeat split_if; word. }
  split; [exact Hback|]. intros x [Hx Hw]. apply wrap_eq_iff in Hw; [|done..]. fold d in Hw.
  clearbody d. repeat split_if; word.
Qed.

Lemma unwrap_closest_witness :
  wraps_to (mkWrapping 10) (mkWrapping 4294967295) (unwrap (mkWrapping 4294967295) (mkWrapping 10) 3) /\
  forall x, wraps_to (mkWrapping 10) (mkWrapping 4294967295) x ->
    Z.abs (unwrap (mkWrapping 4294967295) (mkWrapping 10) 3 - 3) <= Z.abs (x - 3).
Proof. apply (unwrap_closest (mkWrapping 4294967295) (mkWrapping 10) 3); unfold wf; simpl; lia. Defined.

(** The remaining case.  When [n] is the ISN itself and the checkpoint is
    between [1] and [2^31 - 1], [unwrap] returns [2^32] although [0] wraps to
    [n] and is strictly closer. *)
Theorem unwrap_isn_not_closest (isn : WrappingInt32) (cp : Z) :
  wf isn -> 0 < cp < 2147483648 ->
  unwrap isn isn cp = MAX32 /\ wraps_to isn isn 0 /\
  Z.abs (0 - cp) < Z.abs (unwrap isn isn cp - cp).
Proof.
  intros Hi Hcp.
  assert (unwrap isn isn cp = MAX32) as ->.
  { rewrite unwrap_closed_form by lia. rewrite Z.sub_diag. cbv zeta.
    repeat case_match; word. }
  repeat split; try lia. apply wrap_eq_iff; [done..|]. rewrite Z.sub_diag. done.
Qed.

Lemma unwrap_isn_not_closest_witness :
  unwrap (mkWrapping 5) (mkWrapping 5) 1 = MAX32 /\ wraps_to (mkWrapping 5) (mkWrapping 5) 0 /\
  Z.abs (0 - 1) < Z.abs (unwrap (mkWrapping 5) (mkWrapping 5) 1 - 1).
Proof. apply unwrap_isn_not_closest; unfold wf; simpl; lia. Defined.

(** The operators agree with modular arithmetic: adding undoes the
    subtraction of two points, and stepping back undoes stepping forward. *)
Theorem operators_consistent (a b : WrappingInt32) (k : Z) :
  wf a -> wf b ->
  add b (u32 (sub a b)) = a /\ sub_u32 (add a k) (u32 k) = a /\
  - 2147483648 <= sub a b < 2147483648 /\ (sub a b = 0 <-> eqb a b = true).
Proof.
  intros Ha Hb. destruct a as [a], b as [b].
  unfold wf, sub, sub_u32, add, eqb, MAX_U32 in *. simpl in *.
  repeat split; [f_equal.. | | | |]; try (case_match; word). word.
Qed.

Lemma operators_consistent_witness :
  add (mkWrapping 4294967295) (u32 (sub (mkWrapping 3) (mkWrapping 4294967295))) = mkWrapping 3 /\
  sub_u32 (add (mkWrapping 3) 9) (u32 9) = mkWrapping 3 /\
  - 2147483648 <= sub (mkWrapping 3) (mkWrapping 4294967295) < 2147483648 /\
  (sub (mkWrapping 3) (mkWrapping 4294967295) = 0 <->
   eqb (mkWrapping 3) (mkWrapping 4294967295) = true).
Proof. apply operators_consistent; unfold wf; simpl; lia. Defined.

End WrappingIntegers.
