(* ===== verification/ByteStream.v ===== *)
(** * The in-order byte stream: [libsponge/byte_stream.hh] and [.cc]

    [ByteStream.t] is the class with its six members; every method is a
    definition.  The abstract specification [Fifo.t] keeps the whole history of
    accepted bytes and how many of them were consumed; [simulates] relates the
    two, and every method simulates its abstract counterpart. *)
From S2P Require Import Prelude.

Module ByteStream.

Record t := mk {
  _capacity : Z;
  _buffer : bytes;
  _error : bool;
  _end_input : bool;
  _bytes_read : Z;
  _bytes_written : Z }.

#[global] Instance eta_t : Eta t := fun s =>
  mk (_capacity s) (_buffer s) (_error s) (_end_input s) (_bytes_read s) (_bytes_written s).

(** The constructor [ByteStream(capacity)]. *)
Definition make (capacity : Z) : t := mk capacity [] false false 0 0.

Definition input_ended (s : t) : bool := _end_input s.

Definition buffer_size (s : t) : Z := zlen (_buffer s).

Definition buffer_empty (s : t) : bool := zlen (_buffer s) =? 0.

Definition eof (s : t) : bool := buffer_empty s && input_ended s.

Definition bytes_written (s : t) : Z := _bytes_written s.

Definition bytes_read (s : t) : Z := _bytes_read s.

Definition remaining_capacity (s : t) : Z := u64 (_capacity s - zlen (_buffer s)).

Definition error (s : t) : bool := _error s.

Definition set_error (s : t) : t := s <| _error := true |>.

Definition end_input (s : t) : t := s <| _end_input := true |>.

(** [write] returns the number of bytes accepted and the new stream. *)
Definition write (data : bytes) (s : t) : Z * t :=
  if input_ended s then (0, s)
  else
    let max_bytes_written := Z.min (zlen data) (remaining_capacity s) in
    let s := s <| _buffer := _buffer s ++ ztake max_bytes_written data |> in
    let s := s <| _bytes_written := u64 (_bytes_written s + max_bytes_written) |> in
    (max_bytes_written, s).

Definition peek_output (len : Z) (s : t) : bytes :=
  let max_bytes_peek := Z.min len (zlen (_buffer s)) in
  ztake max_bytes_peek (_buffer s).

Definition pop_output (len : Z) (s : t) : t :=
  let max_bytes_pop := Z.min len (zlen (_buffer s)) in
  let s := s <| _buffer := zdrop max_bytes_pop (_buffer s) |> in
  s <| _bytes_read := u64 (_bytes_read s + max_bytes_pop) |>.

Definition read (len : Z) (s : t) : bytes * t :=
  let str_bytes_read := peek_output len s in
  (str_bytes_read, pop_output len s).

(** ** Invariant *)

Record wf (s : t) : Prop := {
  wf_fits : zlen (_buffer s) <= _capacity s < MAX64;
  wf_read : 0 <= _bytes_read s < MAX64;
  wf_written : 0 <= _bytes_written s < MAX64 }.

Lemma make_wf capacity : 0 <= capacity < MAX64 -> wf (make capacity).
Proof. intros. split; simpl; zlia. Qed.

Lemma remaining_capacity_wf s : wf s -> remaining_capacity s = _capacity s - zlen (_buffer s).
Proof. intros []. unfold remaining_capacity. apply u64_small. zlia. Qed.

Lemma remaining_capacity_range s : wf s -> 0 <= remaining_capacity s <= _capacity s.
Proof. intros H. rewrite remaining_capacity_wf by done. destruct H. zlia. Qed.

Lemma write_wf data s : wf s -> wf (write data s).2.
Proof.
  intros H. pose proof (remaining_capacity_wf s H). unfold write.
  case_match; simpl; [done|]. destruct H. split; simpl; auto with words. zlia.
Qed.

Lemma pop_output_wf n s : wf s -> wf (pop_output n s).
Proof. intros []. split; simpl; auto with words. zlia. Qed.

Lemma read_wf n s : wf s -> wf (read n s).2.
Proof. apply pop_output_wf. Qed.

Lemma end_input_wf s : wf s -> wf (end_input s).
Proof. by intros []. Qed.

Lemma set_error_wf s : wf s -> wf (set_error s).
Proof. by intros []. Qed.

Create HintDb stream.
#[export] Hint Resolve make_wf write_wf pop_output_wf read_wf end_input_wf set_error_wf : stream.

(** What an accepted write does. *)
Definition append (data : bytes) (s : t) : t :=
  s <| _buffer := _buffer s ++ data |>
    <| _bytes_written := u64 (_bytes_written s + zlen data) |>.

(** A write that fits into an open stream is accepted whole. *)
Lemma write_fits data s :
  wf s -> input_ended s = false -> zlen data <= remaining_capacity s ->
  write data s = (zlen data, append data s).
Proof.
  intros Hwf Hopen Hfit. unfold write. rewrite Hopen, Z.min_l by lia.
  by rewrite ztake_all by lia.
Qed.

Lemma append_nil s : wf s -> append [] s = s.
Proof.
  intros []. unfold append. destruct s. simpl in *. rewrite app_nil_r, zlen_nil. f_equal. word.
Qed.

Lemma append_append d e s : append e (append d s) = append (d ++ e) s.
Proof.
  unfold append. simpl. rewrite <- app_assoc, zlen_app. f_equal. word.
Qed.

Lemma append_wf d s : wf s -> zlen d <= remaining_capacity s -> wf (append d s).
Proof.
  intros H ?. rewrite remaining_capacity_wf in * by done. destruct H.
  split; simpl; auto with words. zlia.
Qed.

Lemma remaining_capacity_append d s :
  wf s -> zlen d <= remaining_capacity s ->
  remaining_capacity (append d s) = remaining_capacity s - zlen d.
Proof.
  intros H ?. rewrite !remaining_capacity_wf; [simpl; zlia|done|by apply append_wf].
Qed.

Lemma peek_prefix n k s : 0 <= k -> 0 <= n <= zlen (peek_output k s) -> ztake n (peek_output k s) = peek_output n s.
Proof.
  intros Hk. unfold peek_output. rewrite zlen_ztake, ztake_ztake. pose proof (zlen_nonneg (_buffer s)).
  intros Hn. f_equal. lia.
Qed.

Lemma read_length n s : zlen (read n s).1 = Z.max 0 (Z.min n (zlen (_buffer s))).
Proof. unfold read, peek_output. simpl. zlia. Qed.

Lemma read_split n s : (read n s).1 ++ _buffer (read n s).2 = _buffer s.
Proof. unfold read, peek_output, pop_output. simpl. apply ztake_zdrop. Qed.

End ByteStream.

(** ** The abstract specification *)

Module Fifo.

Record t := mk {
  limit : Z;            (* most bytes held at a time *)
  history : bytes;      (* every byte accepted so far *)
  consumed : Z;         (* how many of them were removed *)
  closed : bool;
  failed : bool }.

Definition held (a : t) : bytes := zdrop (consumed a) (history a).

Definition make (limit : Z) : t := mk limit [] 0 false false.

Definition room (a : t) : Z := limit a - zlen (held a).

Definition write (data : bytes) (a : t) : Z * t :=
  let n := if closed a then 0 else Z.min (zlen data) (room a) in
  (n, mk (limit a) (history a ++ ztake n data) (consumed a) (closed a) (failed a)).

Definition pop (n : Z) (a : t) : bytes * t :=
  (ztake n (held a),
   mk (limit a) (history a) (Z.min (zlen (history a)) (consumed a + n)) (closed a) (failed a)).

Definition close (a : t) : t := mk (limit a) (history a) (consumed a) true (failed a).

Definition fail (a : t) : t := mk (limit a) (history a) (consumed a) (closed a) true.

End Fifo.

Module StreamSpec.
Import ByteStream.

Record simulates (s : t) (a : Fifo.t) : Prop := {
  sim_limit : _capacity s = Fifo.limit a;
  sim_limit_range : 0 <= Fifo.limit a < MAX64;
  sim_fits : zlen (Fifo.held a) <= Fifo.limit a;
  sim_consumed : 0 <= Fifo.consumed a <= zlen (Fifo.history a);
  sim_buffer : _buffer s = Fifo.held a;
  sim_closed : _end_input s = Fifo.closed a;
  sim_failed : _error s = Fifo.failed a;
  sim_read : _bytes_read s = u64 (Fifo.consumed a);
  sim_written : _bytes_written s = u64 (zlen (Fifo.history a)) }.

(** The operations of the two interfaces of the class, and what they return. *)
Inductive op :=
| Write (data : bytes)
| Pop (n : Z)
| Read (n : Z)
| EndInput
| SetError.

Inductive ret := RSize (n : Z) | RData (d : bytes) | RVoid.

(** The lengths passed to [pop_output] and [read] are [size_t]. *)
Definition op_wf (o : op) : Prop :=
  match o with Pop n | Read n => 0 <= n | _ => True end.

Definition exec (o : op) (s : t) : ret * t :=
  match o with
  | Write data => let '(n, s) := write data s in (RSize n, s)
  | Pop n => (RVoid, pop_output n s)
  | Read n => let '(d, s) := read n s in (RData d, s)
  | EndInput => (RVoid, end_input s)
  | SetError => (RVoid, set_error s)
  end.

Definition spec_exec (o : op) (a : Fifo.t) : ret * Fifo.t :=
  match o with
  | Write data => let '(n, a) := Fifo.write data a in (RSize n, a)
  | Pop n => (RVoid, (Fifo.pop n a).2)
  | Read n => let '(d, a) := Fifo.pop n a in (RData d, a)
  | EndInput => (RVoid, Fifo.close a)
  | SetError => (RVoid, Fifo.fail a)
  end.

Fixpoint run {S : Type} (f : op -> S -> ret * S) (os : list op) (s : S) : list ret * S :=
  match os with
  | [] => ([], s)
  | o :: os => let '(r, s) := f o s in let '(rs, s) := run f os s in (r :: rs, s)
  end.

Lemma make_simulates c : 0 <= c < MAX64 -> simulates (make c) (Fifo.make c).
Proof. intros. split; unfold Fifo.held; simpl; first [done | zlia]. Qed.

Lemma held_app a data :
  0 <= Fifo.consumed a <= zlen (Fifo.history a) ->
  zdrop (Fifo.consumed a) (Fifo.history a ++ data) = Fifo.held a ++ data.
Proof.
  intros. unfold Fifo.held, zdrop. apply drop_app_le. unfold zlen in *. lia.
Qed.

Lemma write_simulates data s a :
  simulates s a ->
  (write data s).1 = (Fifo.write data a).1 /\ simulates (write data s).2 (Fifo.write data a).2.
Proof.
  intros [Hl Hr Hf Hc Hb Hcl Hfa Hrd Hwr]. unfold write, input_ended, remaining_capacity, Fifo.write, Fifo.room.
  rewrite Hcl, Hl, Hb. rewrite u64_small by zlia.
  destruct (Fifo.closed a) eqn:E; simpl.
  - split; [done|]. rewrite ztake_nonpos, app_nil_r by lia. split; simpl; first [done | congruence].
  - set (n := Z.min _ _). split; [done|].
    split; unfold Fifo.held; simpl; rewrite ?held_app by done;
      first [done | congruence | unfold n; zlia | idtac].
    + autorewrite with zlen. pose_zlen. rewrite Hwr. unfold n. word.
Qed.

Lemma pop_simulates n s a :
  0 <= n -> simulates s a ->
  peek_output n s = (Fifo.pop n a).1 /\ simulates (pop_output n s) (Fifo.pop n a).2.
Proof.
  intros Hn [Hl Hr Hf Hc Hb Hcl Hfa Hrd Hwr]. unfold peek_output, pop_output, Fifo.pop.
  rewrite Hb. simpl. unfold Fifo.held in *. split.
  - apply ztake_clip.
  - split; unfold Fifo.held; simpl; try done; try zlia.
    + rewrite zdrop_clip, zdrop_zdrop, Z.min_comm by zlia. symmetry. apply zdrop_clip.
    + rewrite Hrd. autorewrite with zlen. pose_zlen. word.
Qed.

Lemma exec_simulates o s a :
  op_wf o -> simulates s a ->
  (exec o s).1 = (spec_exec o a).1 /\ simulates (exec o s).2 (spec_exec o a).2.
Proof.
  intros Ho Hs. destruct o as [data|n|n| |]; simpl in *.
  - destruct (write_simulates data s a Hs) as [Hr Hs'].
    destruct (write data s). simpl in *. by rewrite Hr.
  - destruct (pop_simulates n s a Ho Hs). done.
  - destruct (pop_simulates n s a Ho Hs) as [-> ?]. done.
  - split; [done|]. destruct Hs. by split.
  - split; [done|]. destruct Hs. by split.
Qed.

(** C29: refinement.  Whatever sequence of operations is applied to a fresh
    stream, every call returns what the same call on the abstract FIFO returns,
    and the final stream holds exactly the unconsumed part of the history, with
    both counters equal to the abstract ones modulo [2^64]. *)
Theorem stream_refines_fifo (c : Z) (os : list op) :
  0 <= c < MAX64 -> Forall op_wf os ->
  (run exec os (make c)).1 = (run spec_exec os (Fifo.make c)).1 /\
  simulates (run exec os (make c)).2 (run spec_exec os (Fifo.make c)).2.
Proof.
  intros Hc Hos. generalize (make_simulates c Hc). generalize (make c) (Fifo.make c).
  induction Hos as [|o os Ho Hos IH]; intros s a Hs; simpl; [done|].
  destruct (exec_simulates o s a Ho Hs) as [Hr Hs'].
  destruct (exec o s) as [r s'], (spec_exec o a) as [r' a']. simpl in *.
  destruct (IH s' a' Hs') as [Hrs Hs''].
  destruct (run exec os s'), (run spec_exec os a'). simpl in *. by rewrite Hr, Hrs.
Qed.

Definition demo_ops : list op :=
  [Write [Byte.x61; Byte.x62; Byte.x63]; Read 2; Write [Byte.x64; Byte.x65]; EndInput;
   Write [Byte.x66]; Pop 1].

Lemma stream_refines_fifo_witness :
  (run exec demo_ops (make 3)).1 = (run spec_exec demo_ops (Fifo.make 3)).1 /\
  simulates (run exec demo_ops (make 3)).2 (run spec_exec demo_ops (Fifo.make 3)).2.
Proof. apply stream_refines_fifo; [lia|]. repeat constructor; simpl; lia. Defined.

(** What the calls of a run accepted and delivered. *)
Fixpoint accepted (os : list op) (rs : list ret) : bytes :=
  match os, rs with
  | Write data :: os, RSize n :: rs => ztake n data ++ accepted os rs
  | _ :: os, _ :: rs => accepted os rs
  | _, _ => []
  end.

Fixpoint delivered (rs : list ret) : bytes :=
  match rs with
  | RData d :: rs => d ++ delivered rs
  | _ :: rs => delivered rs
  | [] => []
  end.

Definition keeps_data (o : op) : bool := match o with Pop _ => false | _ => true end.

(** No byte is lost, duplicated or reordered.  As long as bytes are removed
    by [read] only, the bytes delivered followed by the bytes still buffered are
    the bytes accepted, in order, and never more than the capacity is held. *)
Theorem stream_in_order (c : Z) (os : list op) :
  0 <= c < MAX64 -> Forall (fun o => keeps_data o = true) os ->
  let '(rs, s) := run exec os (make c) in
  delivered rs ++ _buffer s = accepted os rs /\ zlen (_buffer s) <= c.
Proof.
  intros Hc Hos.
  enough (forall s, wf s -> let '(rs, s') := run exec os s in
    delivered rs ++ _buffer s' = _buffer s ++ accepted os rs /\
    zlen (_buffer s') <= _capacity s) as H by apply (H _ (make_wf c Hc)).
  clear Hc. induction Hos as [|o os Ho Hos IH]; intros s Hs; simpl.
  { rewrite app_nil_r. split; [done|]. destruct Hs. lia. }
  destruct o as [data|n|n| |]; simpl in *; try discriminate.
  - specialize (IH _ (write_wf data s Hs)). unfold write in *.
    destruct (input_ended s); simpl in *; destruct (run exec os _) as [rs s']; simpl in *;
      destruct IH as [-> ?]; split; try done; by rewrite <- ?app_assoc.
  - specialize (IH _ (pop_output_wf n s Hs)).
    destruct (run exec os _) as [rs s']; simpl in *. destruct IH as [IH ?]. split; [|done].
    rewrite <- app_assoc, IH, app_assoc. f_equal. apply (read_split n s).
  - specialize (IH _ (end_input_wf s Hs)). by destruct (run exec os _).
  - specialize (IH _ (set_error_wf s Hs)). by destruct (run exec os _).
Qed.

Definition demo_reads : list op :=
  [Write [Byte.x61; Byte.x62; Byte.x63; Byte.x64]; Read 2; Write [Byte.x65]; EndInput; Read 9].

Lemma stream_in_order_witness :
  let '(rs, s) := run exec demo_reads (make 3) in
  delivered rs ++ _buffer s = accepted demo_reads rs /\ zlen (_buffer s) <= 3.
Proof. apply (stream_in_order 3 demo_reads); [lia|]. repeat constructor. Defined.

End StreamSpec.
