(* ===== verification/OrderedMap.v ===== *)
(** * [std::map<size_t, std::string>] as the reassembler uses it

    A [std::map] is its list of entries in ascending key order.  [insert] keeps
    an existing entry; [upper_bound] is the entry an iterator at key [k] moves
    to, looked up in the current map, because the source inserts while it
    iterates.  [chain] is the shape the reassembler maintains: non-empty,
    disjoint pieces in order between two bounds. *)
From S2P Require Import Prelude.

Module OrderedMap.

Abbreviation t := (list (Z * bytes)).

Fixpoint insert (k : Z) (v : bytes) (m : t) : t :=
  match m with
  | [] => [(k, v)]
  | (k', v') :: m' =>
      if k <? k' then (k, v) :: m
      else if k =? k' then m
      else (k', v') :: insert k v m'
  end.

Fixpoint upper_bound (k : Z) (m : t) : option (Z * bytes) :=
  match m with
  | [] => None
  | (k', v') :: m' => if k <? k' then Some (k', v') else upper_bound k m'
  end.

(** ** Pieces of a byte sequence, addressed by position *)

Definition total (m : t) : Z := foldr (fun e n => zlen e.2 + n) 0 m.

Fixpoint chain (lo : Z) (m : t) (hi : Z) : Prop :=
  match m with
  | [] => lo <= hi
  | (k, v) :: m' => lo <= k /\ 0 < zlen v /\ chain (k + zlen v) m' hi
  end.

(** The byte at position [p]. *)
Fixpoint get (m : t) (p : Z) : option byte :=
  match m with
  | [] => None
  | (k, v) :: m' => if (k <=? p) && (p <? k + zlen v) then zget v (p - k) else get m' p
  end.

Lemma chain_le m : forall lo hi, chain lo m hi -> lo <= hi.
Proof.
  induction m as [|[k v] m IH]; simpl; intros lo hi H; [done|].
  destruct H as (? & ? & H). apply IH in H. lia.
Qed.

Lemma chain_total m : forall lo hi, chain lo m hi -> 0 <= total m <= hi - lo.
Proof.
  induction m as [|[k v] m IH]; simpl; intros lo hi H; [lia|].
  destruct H as (? & ? & H). apply IH in H. lia.
Qed.

Lemma chain_weaken m : forall lo lo' hi hi',
  chain lo m hi -> lo' <= lo -> hi <= hi' -> chain lo' m hi'.
Proof.
  induction m as [|[k v] m IH]; simpl; intros lo lo' hi hi' H ??; [lia|].
  destruct H as (? & ? & H). repeat split; try lia. eapply IH; [done|lia..].
Qed.

Lemma chain_app m1 : forall m2 lo hi,
  chain lo (m1 ++ m2) hi <-> exists mid, chain lo m1 mid /\ chain mid m2 hi.
Proof.
  induction m1 as [|[k v] m1 IH]; simpl; intros m2 lo hi.
  - split; [intros; exists lo; split; [lia|done]|].
    intros (mid & ? & H). eapply chain_weaken; [done|lia..].
  - rewrite IH. split.
    + intros (? & ? & mid & ? & ?). by exists mid.
    + intros (mid & (? & ? & ?) & ?). split_and!; try done. by exists mid.
Qed.

Lemma total_app m1 m2 : total (m1 ++ m2) = total m1 + total m2.
Proof. induction m1 as [|[k v] m1 IH]; simpl in *; lia. Qed.

Lemma get_below m : forall lo hi p, chain lo m hi -> p < lo -> get m p = None.
Proof.
  induction m as [|[k v] m IH]; simpl; intros lo hi p H ?; [done|].
  destruct H as (? & ? & H). case_match; [lia|]. eapply IH; [done|lia].
Qed.

Lemma get_range m : forall lo hi p b, chain lo m hi -> get m p = Some b -> lo <= p < hi.
Proof.
  induction m as [|[k v] m IH]; simpl; intros lo hi p b H; [done|].
  destruct H as (? & ? & H). pose proof (chain_le _ _ _ H). case_match; intros; [lia|].
  eapply IH in H; [|done]. lia.
Qed.

Lemma insert_between m1 : forall k v m2 lo hi,
  chain lo m1 k -> chain (k + 1) m2 hi -> insert k v (m1 ++ m2) = m1 ++ (k, v) :: m2.
Proof.
  induction m1 as [|[k' v'] m1 IH]; simpl; intros k v m2 lo hi H1 H2.
  - destruct m2 as [|[k2 v2] m2]; simpl in *; [done|].
    replace (k <? k2) with true by lia. done.
  - destruct H1 as (? & ? & H1). pose proof (chain_le _ _ _ H1).
    replace (k <? k') with false by lia. replace (k =? k') with false by lia.
    f_equal. by eapply IH.
Qed.

Lemma upper_bound_skip m1 : forall k m2 lo,
  chain lo m1 (k + 1) -> upper_bound k (m1 ++ m2) = upper_bound k m2.
Proof.
  induction m1 as [|[k' v'] m1 IH]; simpl; intros k m2 lo H; [done|].
  destruct H as (? & ? & H). pose proof (chain_le _ _ _ H).
  replace (k <? k') with false by lia. by eapply IH.
Qed.

Lemma upper_bound_head k m lo hi : chain lo m hi -> k < lo -> upper_bound k m = head m.
Proof.
  destruct m as [|[k' v'] m]; simpl; [done|]. intros (? & _) ?.
  by replace (k <? k') with true by lia.
Qed.

(** ** Filling the gaps of a chain with a new substring *)

Definition piece (data : bytes) (index lo hi : Z) : t :=
  let b := Z.min (index + zlen data) (Z.max index lo) in
  let e := Z.max b (Z.min (index + zlen data) hi) in
  if e <=? b then [] else [(b, substr data (b - index) (e - b))].

Fixpoint fill (data : bytes) (index lo : Z) (m : t) : t :=
  match m with
  | [] => piece data index lo (index + zlen data)
  | (k, v) :: m' => piece data index lo k ++ (k, v) :: fill data index (k + zlen v) m'
  end.

Lemma piece_chain data index lo hi :
  lo <= hi -> chain lo (piece data index lo hi) hi.
Proof.
  intros. unfold piece. case_match; simpl; [lia|]. autorewrite with zlen. pose_zlen. lia.
Qed.

Lemma piece_bounds data index lo hi b v :
  piece data index lo hi = [(b, v)] -> lo <= b /\ 0 < zlen v /\ b + zlen v <= hi.
Proof.
  unfold piece. case_match; intros [=]. subst. autorewrite with zlen. pose_zlen. lia.
Qed.

Lemma piece_total_nil data index lo hi :
  total (piece data index lo hi) <= 0 -> piece data index lo hi = [].
Proof.
  unfold piece. case_match; simpl; [done|]. autorewrite with zlen. pose_zlen. lia.
Qed.

Lemma piece_total data index lo hi top :
  lo <= top -> hi <= top -> 0 <= total (piece data index lo hi) <= top - lo.
Proof.
  intros. destruct (Z_le_gt_dec lo hi) as [Hle|].
  - pose proof (chain_total _ _ _ (piece_chain data index lo hi Hle)). lia.
  - unfold piece. case_match; simpl; [lia|]. autorewrite with zlen. pose_zlen. lia.
Qed.

Lemma piece_whole data index lo :
  lo <= index -> 0 < zlen data -> piece data index lo (index + zlen data) = [(index, data)].
Proof.
  intros. unfold piece. replace (_ <=? _) with false by lia.
  replace (Z.min _ _) with index by lia. rewrite Z.sub_diag, substr_full by lia. done.
Qed.

Lemma piece_past data index lo hi : index + zlen data <= lo -> piece data index lo hi = [].
Proof. intros. unfold piece. by replace (_ <=? _) with true by zlia. Qed.

Lemma piece_get data index lo hi p :
  get (piece data index lo hi) p =
    if (lo <=? p) && (p <? hi) then zget data (p - index) else None.
Proof.
  unfold piece. pose proof (zlen_nonneg data). case_match; simpl.
  - case_match; [|done]. symmetry. apply zget_None. lia.
  - rewrite zlen_substr.
    destruct ((lo <=? p) && (p <? hi)) eqn:?.
    + case_match.
      * rewrite zget_substr by lia. replace (_ <? _) with true by lia. f_equal. lia.
      * symmetry. apply zget_None. lia.
    + case_match; [lia|done].
Qed.

Lemma fill_chain data index m : forall lo hi,
  chain lo m hi -> index + zlen data <= hi -> chain lo (fill data index lo m) hi.
Proof.
  induction m as [|[k v] m IH]; simpl; intros lo hi H Hhi.
  - destruct (Z_le_gt_dec lo (index + zlen data)) as [|].
    + eapply chain_weaken; [by apply piece_chain|lia..].
    + rewrite piece_past by lia. done.
  - destruct H as (? & ? & H). apply chain_app. exists k. split; [by apply piece_chain|].
    simpl. split_and!; [lia|done|]. by apply IH.
Qed.

Lemma get_app m1 m2 p lo mid hi :
  chain lo m1 mid -> chain mid m2 hi ->
  get (m1 ++ m2) p = if p <? mid then get m1 p else get m2 p.
Proof.
  revert lo. induction m1 as [|[k v] m1 IH]; simpl; intros lo H1 H2.
  - case_match; [|done]. eapply get_below; [done|lia].
  - destruct H1 as (? & ? & H1). pose proof (chain_le _ _ _ H1).
    rewrite (IH _ H1 H2). repeat case_match; try lia; done.
Qed.

Lemma fill_past data index m : forall lo hi,
  chain lo m hi -> index + zlen data <= lo -> fill data index lo m = m.
Proof.
  induction m as [|[k v] m IH]; simpl; intros lo hi H ?.
  - by apply piece_past.
  - destruct H as (? & ? & H). rewrite piece_past by lia. simpl. f_equal.
    eapply IH; [done|lia].
Qed.

Lemma get_full m : forall lo hi p,
  chain lo m hi -> total m = hi - lo -> lo <= p < hi -> is_Some (get m p).
Proof.
  induction m as [|[k v] m IH]; simpl; intros lo hi p H Ht ?; [lia|].
  destruct H as (? & ? & H). pose proof (chain_total _ _ _ H).
  case_match; [apply zget_is_Some; lia|]. apply (IH (k + zlen v) hi); [done|lia..].
Qed.

Lemma fill_tight data index m : forall lo hi,
  chain lo m hi -> total m = hi - lo -> index + zlen data <= hi -> fill data index lo m = m.
Proof.
  induction m as [|[k v] m IH]; simpl; intros lo hi H Ht ?.
  - apply piece_total_nil. pose proof (piece_total data index lo (index + zlen data) hi). lia.
  - destruct H as (? & ? & H). pose proof (chain_total _ _ _ H).
    rewrite (piece_total_nil data index lo k).
    + simpl. f_equal. apply (IH _ hi); [done|lia..].
    + pose proof (piece_total data index lo k k). lia.
Qed.

Lemma chain_last x m2 : forall m1 lo hi,
  chain lo (m1 ++ x :: m2) hi ->
  exists pre f s, m1 ++ x :: m2 = pre ++ [(f, s)] /\
    chain lo (m1 ++ x :: m2) (f + zlen s) /\ f + zlen s <= hi /\ x.1 + zlen x.2 <= f + zlen s.
Proof.
  intros m1 lo hi H.
  destruct (exists_last (l:=m1 ++ x :: m2)) as (pre & [f s] & E); [by destruct m1|].
  exists pre, f, s. split; [done|]. rewrite E in H |- *. apply chain_app in H as (mid & H1 & H2).
  simpl in H2. split_and!; try lia.
  - apply chain_app. exists mid. split; [done|]. simpl. lia.
  - destruct (decide (m2 = [])) as [->|Hne].
    + apply app_inj_tail in E as [_ ->]. simpl. lia.
    + destruct (exists_last Hne) as (m2' & e & ->).
      rewrite app_comm_cons, app_assoc in E. apply app_inj_tail in E as [E _].
      subst pre. apply chain_app in H1 as (mid' & _ & H1). destruct x as [k v]. simpl in *.
      destruct H1 as (_ & _ & H1). apply chain_le in H1. lia.
Qed.

(** The content after filling: what was there, else what the substring has. *)
Lemma fill_get data index m p : forall lo hi,
  chain lo m hi ->
  get (fill data index lo m) p =
    match get m p with
    | Some b => Some b
    | None => if lo <=? p then zget data (p - index) else None
    end.
Proof.
  induction m as [|[k v] m IH]; simpl; intros lo hi H.
  - rewrite piece_get. destruct (lo <=? p) eqn:?; simpl; [|done].
    case_match; [done|]. symmetry. apply zget_None. lia.
  - destruct H as (? & ? & H). pose proof (chain_le _ _ _ H).
    rewrite (get_app _ _ _ lo k (Z.max hi (index + zlen data))); cycle 1.
    + by apply piece_chain.
    + simpl. split_and!; [lia|done|]. apply fill_chain; [|lia].
      eapply chain_weaken; [done|lia..].
    + rewrite piece_get. simpl.
      destruct ((k <=? p) && (p <? k + zlen v)) eqn:Hin.
      * replace (p <? k) with false by lia.
        destruct (zget v (p - k)) eqn:E; [done|].
        assert (is_Some (zget v (p - k))) as [??] by (apply zget_is_Some; lia). congruence.
      * destruct (p <? k) eqn:?.
        -- rewrite (get_below _ _ _ _ H) by lia. rewrite andb_true_r. done.
        -- rewrite (IH _ _ H). case_match; [done|].
           replace (k + zlen v <=? p) with true by lia.
           replace (lo <=? p) with true by lia. done.
Qed.

End OrderedMap.
