(* ===== verification/StreamReassembler.v ===== *)
(** * The stream reassembler: [libsponge/stream_reassembler.hh] and [.cc]

    [StreamReassembler.t] is the class with its members; every method is a
    definition.  The invariant [inv] says that the stored pieces are non-empty,
    disjoint, in order, all within the receive window and none at the front of
    it.  [push_refines] is the functional specification: which positions are
    held after a call, and which bytes reach the output. *)
From S2P Require Import Prelude ByteStream OrderedMap.

Module StreamReassembler.

Record t := mk {
  _reassembler : OrderedMap.t;
  _eof : bool;
  _eof_index : Z;
  _capacity_for_reassmbler : Z;
  _num_bytes_free : Z;
  _next_index : Z;
  _output : ByteStream.t;
  _capacity : Z }.

#[global] Instance eta_t : Eta t := fun r =>
  mk (_reassembler r) (_eof r) (_eof_index r) (_capacity_for_reassmbler r) (_num_bytes_free r)
     (_next_index r) (_output r) (_capacity r).

(** The constructor [StreamReassembler(capacity)]. *)
Definition make (capacity : Z) : t :=
  mk [] false 0 capacity capacity 0 (ByteStream.make capacity) capacity.

Definition stream_out (r : t) : ByteStream.t := _output r.

Definition get_next_index (r : t) : Z := _next_index r.

Definition empty (r : t) : bool := zlen (_reassembler r) =? 0.

Definition unassembled_bytes (r : t) : Z :=
  fold_left (fun n e => u64 (n + zlen e.2)) (_reassembler r) 0.

Definition update_free_space (r : t) : t :=
  let r := r <| _capacity_for_reassmbler := ByteStream.remaining_capacity (stream_out r) |> in
  r <| _num_bytes_free :=
         u64 (ByteStream.remaining_capacity (stream_out r) - unassembled_bytes r) |>.

(** The position passed to [data.substr] is never past the end
    ([resize_segment_no_throw] below), so the call does not throw. *)
Definition resize_segment (data : bytes) (index begin_idx end_idx : Z) : bytes * Z :=
  let begin_idx := Z.max index begin_idx in
  let begin_idx := Z.min (u64 (index + zlen data)) begin_idx in
  let end_idx := Z.min (u64 (index + zlen data)) end_idx in
  let end_idx := Z.max begin_idx end_idx in
  (substr data (u64 (begin_idx - index)) (u64 (end_idx - begin_idx)), begin_idx).

Definition insert_in_reassembler (data : bytes) (index : Z) (r : t) : Z * t :=
  if zlen data =? 0 then (0, r)
  else
    let size_insert := Z.min (_num_bytes_free r) (zlen data) in
    let seg := substr data 0 size_insert in
    let r := r <| _reassembler := OrderedMap.insert index seg (_reassembler r) |> in
    let r := r <| _num_bytes_free := u64 (_num_bytes_free r - size_insert) |> in
    (size_insert, r).

(** How control leaves the range-for of [fit_in_reassembler]. *)
Inductive flow := Returned | FellThrough.

(** The range-for over [_reassembler]: [it] is the entry the iterator points to;
    the increment looks up the following entry in the map as it is then, since
    the body inserts into the map it iterates over. *)
Fixpoint fit_loop (fuel : nat) (data : bytes) (index index_data_end : Z)
    (it : option (Z * bytes)) (next_index : Z) (r : t) : option (flow * t) :=
  match fuel with
  | O => None
  | S fuel =>
      match it with
      | None => Some (FellThrough, r)
      | Some (first, second) =>
          if _num_bytes_free r =? 0 then Some (Returned, r)
          else
            let data_idx_slot := resize_segment data index next_index first in
            let r := (insert_in_reassembler data_idx_slot.1 data_idx_slot.2 r).2 in
            let next_index := u64 (first + zlen second) in
            if index_data_end <=? next_index then Some (FellThrough, r)
            else fit_loop fuel data index index_data_end
                   (OrderedMap.upper_bound first (_reassembler r)) next_index r
      end
  end.

(** The part after the loop. *)
Definition fit_rest (data : bytes) (index : Z) (r : t) : t :=
  if _num_bytes_free r =? 0 then r
  else
    match last (_reassembler r) with
    | None => r
    | Some (first, second) =>
        let last_index := u64 (first + zlen second) in
        let data_idx_end := resize_segment data index last_index (u64 (index + zlen data)) in
        (insert_in_reassembler data_idx_end.1 data_idx_end.2 r).2
    end.

Definition fit_in_reassembler (data : bytes) (index : Z) (r : t) : t :=
  if _num_bytes_free r =? 0 then r
  else
    let next_index := _next_index r in
    let data_idx_pre := resize_segment data index next_index
                          (u64 (next_index + _capacity_for_reassmbler r)) in
    let data := data_idx_pre.1 in
    let index := data_idx_pre.2 in
    let index_data_end := u64 (index + zlen data) in
    if zlen data =? 0 then r
    else if empty r then (insert_in_reassembler data index r).2
    else
      (* one more than the entries there are: enough by [fit_loop_fill] *)
      match fit_loop (S (length (_reassembler r))) data index index_data_end
              (head (_reassembler r)) next_index r with
      | Some (Returned, r) => r
      | Some (FellThrough, r) => fit_rest data index r
      | None => r
      end.

(** The loop of [push_into_output]: the first entry is removed while it starts
    at [_next_index]; [m] is the current [_reassembler]. *)
Fixpoint push_loop (m : OrderedMap.t) (r : t) : t :=
  match m with
  | [] => r
  | (first, second) :: m =>
      if _next_index r =? first then
        let r := r <| _output := (ByteStream.write second (stream_out r)).2 |> in
        let r := r <| _next_index := u64 (_next_index r + zlen second) |> in
        let r := r <| _num_bytes_free := u64 (_num_bytes_free r + zlen second) |> in
        let r := r <| _reassembler := m |> in
        push_loop m r
      else r
  end.

Definition push_into_output (r : t) : t :=
  let r := push_loop (_reassembler r) r in
  if (unassembled_bytes r =? 0) && _eof r && (_next_index r =? _eof_index r)
  then r <| _output := ByteStream.end_input (stream_out r) |>
  else r.

Definition push_substring (data : bytes) (index : Z) (eof : bool) (r : t) : t :=
  let r := if eof
           then r <| _eof := true |> <| _eof_index := u64 (index + zlen data) |>
           else r in
  let r := update_free_space r in
  if _num_bytes_free r =? 0 then r
  else
    let data_copy := data in
    let r := fit_in_reassembler data_copy index r in
    push_into_output r.

(** The owner of the reassembler reads the output through [stream_out()]. *)
Definition with_output (f : ByteStream.t -> ByteStream.t) (r : t) : t :=
  r <| _output := f (_output r) |>.

(** ** Invariant *)

Abbreviation chain := OrderedMap.chain.
Abbreviation total := OrderedMap.total.

(** The first position after the window: bytes from there on are discarded. *)
Definition window_end (r : t) : Z := _next_index r + ByteStream.remaining_capacity (_output r).

Record inv (r : t) : Prop := {
  inv_output : ByteStream.wf (_output r);
  inv_chain : chain (_next_index r) (_reassembler r) (window_end r);
  inv_front : OrderedMap.get (_reassembler r) (_next_index r) = None }.

(** The window lies below [2^64]. *)
Definition roomy (r : t) : Prop :=
  0 <= _next_index r /\ _next_index r + ByteStream._capacity (_output r) < MAX64.

Lemma roomy_window r : ByteStream.wf (_output r) -> roomy r ->
  0 <= _next_index r /\ _next_index r <= window_end r < MAX64.
Proof.
  intros H [? ?]. unfold window_end. pose proof (ByteStream.remaining_capacity_range _ H). lia.
Qed.

Lemma make_inv c : 0 <= c < MAX64 -> inv (make c) /\ roomy (make c).
Proof.
  intros. unfold roomy. simpl. split; [|lia]. split; simpl; [by apply ByteStream.make_wf| |done].
  unfold window_end, ByteStream.remaining_capacity, zlen. simpl. nowrap. lia.
Qed.

(** ** The methods on chains *)

Lemma fold_total m : forall n, 0 <= n -> 0 <= total m -> n + total m < MAX64 ->
  Forall (fun e => 0 <= zlen (A:=byte) e.2) m ->
  fold_left (fun n (e : Z * bytes) => u64 (n + zlen e.2)) m n = n + total m.
Proof.
  induction m as [|[k v] m IH]; simpl; intros n Hn Ht Hb HF; [lia|].
  assert (0 <= total m) by (clear; induction m as [|[? w] m IH]; simpl; [lia|]; pose_zlen; lia).
  pose_zlen. rewrite u64_small by lia. rewrite IH by (lia || by inversion HF). lia.
Qed.

Lemma unassembled_bytes_total r lo hi :
  chain lo (_reassembler r) hi -> hi - lo < MAX64 -> unassembled_bytes r = total (_reassembler r).
Proof.
  intros H ?. apply OrderedMap.chain_total in H. unfold unassembled_bytes.
  rewrite fold_total; [done|lia..|]. apply Forall_forall. intros. apply zlen_nonneg.
Qed.

(** [substr] is never called with a position past the end of the string, even
    when [index + data.length()] wraps around. *)
Lemma resize_segment_no_throw (data : bytes) index begin_idx :
  0 <= index < MAX64 -> 0 <= begin_idx < MAX64 -> zlen data < MAX64 ->
  u64 (Z.min (u64 (index + zlen data)) (Z.max index begin_idx) - index) <= zlen data.
Proof.
  intros. pose_zlen. destruct (Z_lt_le_dec (index + zlen data) MAX64).
  - rewrite (u64_small (index + zlen data)), u64_small by lia. lia.
  - replace (u64 (index + zlen data)) with (index + zlen data - MAX64) by word.
    rewrite Z.min_l by lia. word.
Qed.

Lemma resize_segment_piece data index lo hi :
  0 <= index -> index + zlen data < MAX64 -> 0 <= lo ->
  let s := resize_segment data index lo hi in
  OrderedMap.piece data index lo hi = (if zlen s.1 =? 0 then [] else [(s.2, s.1)]).
Proof.
  intros ? ? ?. unfold resize_segment, OrderedMap.piece. pose_zlen. simpl.
  rewrite (u64_small (index + zlen data)) by lia.
  set (b := Z.min _ _). set (e := Z.max b _).
  assert (index <= b <= index + zlen data) by lia.
  assert (b <= e <= index + zlen data) by lia.
  rewrite (u64_small (b - index)), (u64_small (e - b)) by lia.
  rewrite zlen_substr. repeat case_match; try lia; done.
Qed.

Lemma insert_piece data index lo hi r pre rest bot top :
  _reassembler r = pre ++ rest -> chain bot pre lo -> chain hi rest top ->
  0 <= index -> index + zlen data < MAX64 -> 0 <= lo ->
  total (OrderedMap.piece data index lo hi) <= _num_bytes_free r < MAX64 ->
  let s := resize_segment data index lo hi in
  (insert_in_reassembler s.1 s.2 r).2 =
    r <| _reassembler := pre ++ OrderedMap.piece data index lo hi ++ rest |>
      <| _num_bytes_free := _num_bytes_free r - total (OrderedMap.piece data index lo hi) |>.
Proof.
  intros Hm Hpre Hrest ? ? ? Hfree s. unfold insert_in_reassembler.
  pose proof (resize_segment_piece data index lo hi) as Hp. cbv zeta in Hp. fold s in Hp.
  pose proof (OrderedMap.piece_bounds data index lo hi s.2 s.1) as Hb.
  clearbody s. rewrite Hp in * by done. destruct (zlen s.1 =? 0) eqn:E; simpl in *.
  - rewrite Z.sub_0_r. destruct r. simpl in *. by rewrite Hm.
  - destruct (Hb eq_refl) as (? & ? & ?).
    rewrite Z.min_r, substr_full, Hm by lia.
    rewrite (OrderedMap.insert_between pre s.2 s.1 rest bot top).
    + nowrap. by rewrite Z.add_0_r.
    + eapply OrderedMap.chain_weaken; [done|lia..].
    + eapply OrderedMap.chain_weaken; [done|lia..].
Qed.

(** The loop and what follows it fill the gaps of the chain: the fuel suffices,
    nothing is truncated, and the early exits skip only empty pieces. *)
Definition fit_finish (data : bytes) (index : Z) (o : option (flow * t)) : option t :=
  match o with
  | Some (Returned, r) => Some r
  | Some (FellThrough, r) => Some (fit_rest data index r)
  | None => None
  end.

Lemma fit_rest_fill data index lo hi r pre first second :
  let nxt := first + zlen second in
  _reassembler r = pre ++ [(first, second)] -> chain lo (_reassembler r) nxt ->
  nxt <= hi < MAX64 -> 0 <= lo -> 0 <= index -> index + zlen data <= hi ->
  _num_bytes_free r = hi - lo - total (_reassembler r) ->
  fit_rest data index r =
    r <| _reassembler := _reassembler r ++ OrderedMap.piece data index nxt (index + zlen data) |>
      <| _num_bytes_free := hi - lo - total (_reassembler r)
           - total (OrderedMap.piece data index nxt (index + zlen data)) |>.
Proof.
  intros nxt Hm Hch Hhi ? ? ? Hfree. unfold fit_rest. pose_zlen.
  pose proof (OrderedMap.chain_total _ _ _ Hch). pose proof (OrderedMap.chain_le _ _ _ Hch).
  pose proof (OrderedMap.piece_total data index nxt (index + zlen data) hi) as Hp.
  destruct (_num_bytes_free r =? 0) eqn:E.
  - rewrite (OrderedMap.piece_total_nil data index nxt) by lia.
    rewrite app_nil_r. simpl. destruct r. simpl in *. f_equal. lia.
  - rewrite Hm at 1. rewrite last_snoc. fold nxt.
    rewrite (u64_small nxt), (u64_small (index + zlen data)) by lia.
    rewrite (insert_piece data index nxt (index + zlen data) r (_reassembler r) [] lo
      (index + zlen data)); rewrite ?app_nil_r; try done; try lia; [by rewrite Hfree|].
    simpl. lia.
Qed.

Lemma fit_loop_fill data index lo hi : forall rest pre nxt r fuel,
  0 <= lo -> 0 <= index -> index + zlen data <= hi -> hi < MAX64 ->
  (length rest < fuel)%nat ->
  _reassembler r = pre ++ rest -> chain lo pre nxt -> chain nxt rest hi ->
  (rest = [] -> exists pre' f s, pre = pre' ++ [(f, s)] /\ nxt = f + zlen s) ->
  _num_bytes_free r = hi - lo - total (_reassembler r) ->
  fit_finish data index
    (fit_loop fuel data index (index + zlen data) (head rest) nxt r) =
  Some (r <| _reassembler := pre ++ OrderedMap.fill data index nxt rest |>
          <| _num_bytes_free := hi - lo - total (pre ++ OrderedMap.fill data index nxt rest) |>).
Proof.
  induction rest as [|[k v] rest IH]; intros pre nxt r fuel Hlo Hix Hend Hhi Hfuel Hm Hpre Hrest Hlast Hfree;
    destruct fuel as [|fuel]; try (simpl in Hfuel; lia); pose proof (OrderedMap.chain_le _ _ _ Hpre);
    rewrite Hm, OrderedMap.total_app in Hfree; pose proof (OrderedMap.chain_total _ _ _ Hpre);
    pose proof (OrderedMap.chain_total _ _ _ Hrest).
  - destruct (Hlast eq_refl) as (pre' & f & s & -> & ->). rewrite app_nil_r in Hm. simpl in *.
    f_equal. rewrite (fit_rest_fill data index lo hi r pre' f s); rewrite ?Hm; try done; try lia.
    simpl. f_equal. rewrite (OrderedMap.total_app (_ ++ _)). lia.
  - simpl in Hrest. destruct Hrest as (? & ? & Hrest).
    cbn [fit_loop head OrderedMap.fill].
    pose proof (OrderedMap.chain_total _ _ _ Hrest). pose proof (OrderedMap.chain_le _ _ _ Hrest).
    pose proof (OrderedMap.piece_total data index nxt k k) as Hp.
    destruct (_num_bytes_free r =? 0) eqn:E.
    + pose proof (OrderedMap.fill_tight data index ((k, v) :: rest) nxt hi) as Hf. simpl in Hf, Hfree.
      rewrite Hf by (lia || done). simpl. f_equal. rewrite OrderedMap.total_app. simpl.
      destruct r. simpl in *. f_equal; [done|lia].
    + simpl in Hfree. pose_zlen.
      rewrite (insert_piece data index nxt k r pre ((k, v) :: rest) lo hi) by (done || lia).
      set (pc := OrderedMap.piece data index nxt k) in *.
      assert (chain lo (pre ++ pc ++ (k, v) :: rest) hi) as Hch.
      { apply OrderedMap.chain_app. exists nxt. split; [done|]. apply OrderedMap.chain_app.
        exists k. split; [by apply OrderedMap.piece_chain|done]. }
      rewrite (u64_small (k + zlen v)) by lia. cbn [_reassembler modify].
      destruct (index + zlen data <=? k + zlen v) eqn:Hbrk.
      * rewrite (OrderedMap.fill_past data index rest (k + zlen v) hi) by (done || lia).
        rewrite app_assoc in Hch |- *.
        destruct (OrderedMap.chain_last _ _ _ _ _ Hch) as (pre' & f & s & Heq & Hch' & ? & ?).
        simpl. f_equal. simpl in *.
        rewrite (fit_rest_fill data index lo hi _ pre' f s); simpl; try done; try lia.
        -- rewrite OrderedMap.piece_past by lia. simpl. by rewrite app_nil_r, Z.sub_0_r.
        -- rewrite !OrderedMap.total_app. simpl. lia.
      * rewrite app_assoc, (OrderedMap.upper_bound_skip (pre ++ pc) k _ lo).
        -- simpl. rewrite Z.ltb_irrefl. 
           rewrite (OrderedMap.upper_bound_head k rest (k + zlen v) hi) by (done || lia).
           rewrite (IH ((pre ++ pc) ++ [(k, v)]) (k + zlen v)); simpl; try done; try lia.
           ++ by rewrite <- !app_assoc.
           ++ simpl in Hfuel. lia.
           ++ by rewrite <- !app_assoc.
           ++ apply OrderedMap.chain_app. exists k. split; [|simpl; lia].
              apply OrderedMap.chain_app. exists nxt. split; [done|]. by apply OrderedMap.piece_chain.
           ++ intros _. by exists (pre ++ pc), k, v.
           ++ rewrite !OrderedMap.total_app. simpl. lia.
        -- apply OrderedMap.chain_app. exists nxt. split; [done|].
           eapply OrderedMap.chain_weaken; [by apply OrderedMap.piece_chain|lia..].
Qed.

(** ** [fit_in_reassembler] *)

(** The byte a substring offers for position [p].  A substring whose end wraps
    around [2^64] offers nothing. *)
Definition offered (data : bytes) (index p : Z) : option byte :=
  if index + zlen data <? MAX64 then zget data (p - index) else None.

(** The bytes known after a substring was offered: those stored, else those
    offered inside the window. *)
Definition merged (r : t) (data : bytes) (index p : Z) : option byte :=
  match OrderedMap.get (_reassembler r) p with
  | Some b => Some b
  | None =>
      if (_next_index r <=? p) && (p <? window_end r) then offered data index p else None
  end.

(** The substring trimmed to the window. *)
Lemma resize_segment_trim data index lo hi :
  0 <= index < MAX64 -> zlen data < MAX64 -> 0 <= lo ->
  let s := resize_segment data index lo hi in
  (forall p, lo <= p < hi -> zget s.1 (p - s.2) = offered data index p) /\
  (0 < zlen s.1 -> lo <= s.2 /\ s.2 + zlen s.1 <= hi /\ 0 <= s.2).
Proof.
  intros Hix Hlen Hlo s. unfold offered. pose_zlen.
  destruct (Z_lt_le_dec (index + zlen data) MAX64).
  - replace (_ <? _) with true by lia.
    pose proof (resize_segment_piece data index lo hi) as Hp. cbv zeta in Hp. fold s in Hp.
    pose proof (OrderedMap.piece_get data index lo hi) as Hg.
    pose proof (OrderedMap.piece_bounds data index lo hi s.2 s.1) as Hb.
    rewrite Hp in * by lia. clearbody s. destruct (zlen s.1 =? 0) eqn:E.
    + split; [|lia]. intros p ?. rewrite zget_nil by lia. specialize (Hg p).
      by replace ((lo <=? p) && (p <? hi)) with true in Hg by lia.
    + specialize (Hb eq_refl). split; [|lia]. intros p ?. specialize (Hg p). simpl in Hg.
      replace ((lo <=? p) && (p <? hi)) with true in Hg by lia. rewrite <- Hg.
      case_match; [done|]. apply zget_None. lia.
  - replace (_ <? _) with false by lia.
    assert (zlen s.1 = 0) as E.
    { unfold s, resize_segment. cbn [fst]. rewrite zlen_substr.
      replace (u64 (index + zlen data)) with (index + zlen data - MAX64) by word.
      rewrite (Z.min_l _ (Z.max index lo)) by lia.
      replace (u64 (index + zlen data - MAX64 - index)) with (zlen data) by word. lia. }
    split; [|lia]. intros. by apply zget_nil.
Qed.

Lemma fit_empty d i r lo hi :
  _reassembler r = [] -> lo <= i -> 0 < zlen d -> i + zlen d <= hi -> hi - lo < MAX64 ->
  _num_bytes_free r = hi - lo ->
  (insert_in_reassembler d i r).2 =
    r <| _reassembler := OrderedMap.fill d i lo [] |>
      <| _num_bytes_free := hi - lo - total (OrderedMap.fill d i lo []) |>.
Proof.
  intros Hm ? ? ? ? Hfree. unfold insert_in_reassembler. replace (_ =? _) with false by lia.
  cbn [OrderedMap.fill]. rewrite OrderedMap.piece_whole, Hfree, Hm by done.
  rewrite Z.min_r, substr_full by lia. simpl.
  by rewrite Hfree, Z.add_0_r, u64_small by lia.
Qed.

Lemma fit_nonempty d i r lo hi :
  _reassembler r <> [] -> 0 <= lo -> 0 <= i -> i + zlen d <= hi -> hi < MAX64 ->
  chain lo (_reassembler r) hi -> _num_bytes_free r = hi - lo - total (_reassembler r) ->
  match fit_loop (S (length (_reassembler r))) d i (i + zlen d) (head (_reassembler r)) lo r with
  | Some (Returned, r) => r
  | Some (FellThrough, r) => fit_rest d i r
  | None => r
  end =
    r <| _reassembler := OrderedMap.fill d i lo (_reassembler r) |>
      <| _num_bytes_free := hi - lo - total (OrderedMap.fill d i lo (_reassembler r)) |>.
Proof.
  intros Hne ? ? ? ? Hch Hfree.
  assert (fit_finish d i (fit_loop (S (length (_reassembler r))) d i (i + zlen d)
    (head (_reassembler r)) lo r) = Some
    (r <| _reassembler := [] ++ OrderedMap.fill d i lo (_reassembler r) |>
       <| _num_bytes_free := hi - lo - total ([] ++ OrderedMap.fill d i lo (_reassembler r)) |>)) as Hf.
  { apply fit_loop_fill; try done; [lia|..]. simpl. lia. }
  destruct (fit_loop _ _ _ _ _ _ _) as [[[|] r']|]; cbn [fit_finish] in Hf;
    [by apply (inj Some) in Hf..|done].
Qed.

Lemma fit_spec data index r (hi := window_end r) :
  0 <= index < MAX64 -> zlen data < MAX64 -> 0 <= _next_index r -> hi < MAX64 ->
  chain (_next_index r) (_reassembler r) hi ->
  _capacity_for_reassmbler r = hi - _next_index r ->
  _num_bytes_free r = hi - _next_index r - total (_reassembler r) ->
  exists m',
    fit_in_reassembler data index r =
      r <| _reassembler := m' |> <| _num_bytes_free := hi - _next_index r - total m' |> /\
    chain (_next_index r) m' hi /\ forall p, OrderedMap.get m' p = merged r data index p.
Proof.
  intros Hix Hlen Hnx Hhi Hch Hcap Hfree. unfold fit_in_reassembler, merged. fold hi.
  assert (r = r <| _reassembler := _reassembler r |>
                <| _num_bytes_free := hi - _next_index r - total (_reassembler r) |>) as Hr
    by (rewrite <- Hfree; by destruct r).
  destruct (_num_bytes_free r =? 0) eqn:E.
  { exists (_reassembler r). split_and!; try done. intros p. case_match; [done|].
    destruct ((_next_index r <=? p) && (p <? hi)) eqn:Hp; [|done].
    destruct (OrderedMap.get_full _ _ _ p Hch); [lia..|congruence]. }
  rewrite (u64_small (_next_index r + _)) by (pose proof (OrderedMap.chain_le _ _ _ Hch); lia).
  replace (_next_index r + _capacity_for_reassmbler r) with hi by lia.
  destruct (resize_segment_trim data index (_next_index r) hi) as [Htrim Hpos]; [lia..|].
  cbv zeta in *. set (s := resize_segment _ _ _ _) in *. clearbody s. destruct s as [d i].
  cbn [fst snd] in *.
  destruct (zlen d =? 0) eqn:Ed.
  { exists (_reassembler r). split_and!; try done. intros p. case_match; [done|].
    destruct ((_next_index r <=? p) && (p <? hi)) eqn:Hp; [|done].
    rewrite <- Htrim by lia. symmetry. apply zget_nil. lia. }
  pose_zlen. destruct Hpos as (? & ? & ?); [lia|].
  exists (OrderedMap.fill d i (_next_index r) (_reassembler r)). split_and!.
  - rewrite (u64_small (i + zlen d)) by lia. unfold empty.
    destruct (zlen (_reassembler r) =? 0) eqn:Em.
    + apply Z.eqb_eq, zlen_0_nil in Em. rewrite Em in *. simpl in Hfree.
      apply fit_empty; try done; lia.
    + apply fit_nonempty; try done. intros Hnil. by rewrite Hnil in Em.
  - by apply OrderedMap.fill_chain.
  - intros p. rewrite (OrderedMap.fill_get d i _ p _ _ Hch). case_match; [done|].
    destruct (_next_index r <=? p) eqn:?; simpl; [|done].
    destruct (p <? hi) eqn:?; [apply Htrim; lia|]. apply zget_None. lia.
Qed.

(** ** [push_into_output] *)

Lemma push_loop_spec m : forall r hi,
  _reassembler r = m -> chain (_next_index r) m hi -> 0 <= _next_index r -> hi < MAX64 ->
  ByteStream.wf (_output r) ->
  (ByteStream.input_ended (_output r) = false \/ OrderedMap.get m (_next_index r) = None) ->
  hi - _next_index r <= ByteStream.remaining_capacity (_output r) ->
  0 <= _num_bytes_free r -> _num_bytes_free r + total m < MAX64 ->
  exists d m',
    push_loop m r =
      r <| _output := ByteStream.append d (_output r) |>
        <| _next_index := _next_index r + zlen d |>
        <| _num_bytes_free := _num_bytes_free r + zlen d |>
        <| _reassembler := m' |> /\
    chain (_next_index r + zlen d) m' hi /\
    OrderedMap.get m' (_next_index r + zlen d) = None /\
    zlen d <= hi - _next_index r /\
    (forall p, _next_index r <= p < _next_index r + zlen d ->
       zget d (p - _next_index r) = OrderedMap.get m p) /\
    (forall p, _next_index r + zlen d <= p -> OrderedMap.get m' p = OrderedMap.get m p).
Proof.
  assert (forall r m0, ByteStream.wf (_output r) -> _reassembler r = m0 ->
    r = r <| _output := ByteStream.append [] (_output r) |> <| _next_index := _next_index r |>
          <| _num_bytes_free := _num_bytes_free r |> <| _reassembler := m0 |>) as Hsame.
  { intros r m0 Hwf <-. rewrite ByteStream.append_nil by done. by destruct r. }
  induction m as [|[k v] m IH]; intros r hi Hm Hch Hnx Hhi Hwf Hopen Hroom Hf0 Hf.
  - simpl in Hch. exists [], []. rewrite zlen_nil, !Z.add_0_r. split_and!; try done; try (intros; lia).
    by apply Hsame.
  - pose proof Hch as (Hk & Hv & Hch'). pose proof (OrderedMap.chain_le _ _ _ Hch').
    pose proof (OrderedMap.chain_total _ _ _ Hch'). cbn [push_loop].
    destruct (_next_index r =? k) eqn:E; cycle 1.
    + exists [], ((k, v) :: m). rewrite zlen_nil, !Z.add_0_r. split_and!; try done; try (intros; lia).
      * by apply Hsame.
      * apply (OrderedMap.get_below _ k hi); [|lia]. simpl. split_and!; [lia|done..].
    + apply Z.eqb_eq in E. simpl in Hf.
      assert (ByteStream.input_ended (_output r) = false) as Ho.
      { destruct Hopen as [|Hnone]; [done|]. simpl in Hnone.
        replace ((k <=? _next_index r) && (_next_index r <? k + zlen v)) with true in Hnone by lia.
        assert (is_Some (zget v (_next_index r - k))) as [??] by (apply zget_is_Some; lia). congruence. }
      unfold stream_out. rewrite ByteStream.write_fits by (done || lia). cbn [snd].
      set (r1 := _ <| _reassembler := m |>).
      assert (_next_index r1 = k + zlen v) as Hn1 by (unfold r1; simpl; rewrite E, u64_small; lia).
      assert (_num_bytes_free r1 = _num_bytes_free r + zlen v) as Hf1
        by (unfold r1; simpl; rewrite u64_small; lia).
      destruct (IH r1 hi) as (d & m' & Heq & ? & ? & ? & Hd & Hm'); rewrite ?Hn1, ?Hf1 in *; try done; try lia.
      { by apply ByteStream.append_wf; [|lia]. }
      { by left. }
      { change (_output r1) with (ByteStream.append v (_output r)).
        rewrite ByteStream.remaining_capacity_append by (done || lia). lia. }
      exists (v ++ d), m'. rewrite zlen_app, E, !Z.add_assoc. split_and!; try done; try lia.
      * rewrite Heq. change (_output r1) with (ByteStream.append v (_output r)).
        by rewrite ByteStream.append_append.
      * intros p ?. rewrite zget_app. simpl.
        destruct (p - k <? zlen v) eqn:?.
        -- by replace ((k <=? p) && (p <? k + zlen v)) with true by lia.
        -- replace ((k <=? p) && (p <? k + zlen v)) with false by lia.
           rewrite <- Hd by lia. f_equal. lia.
      * intros p ?. pose_zlen. rewrite Hm' by lia. simpl.
        by replace ((k <=? p) && (p <? k + zlen v)) with false by lia.
Qed.

(** ** [push_substring] *)

(** What one call with an open output stream does: [d] are the bytes it appends
    to the output.  They are the known bytes from [_next_index] up to the first
    unknown position; the known bytes after it stay stored; the output is closed
    when the end was announced, reached, and nothing is left over. *)
Record pushed (r : t) (data : bytes) (index : Z) (eof : bool) (d : bytes) (r' : t) : Prop := {
  pushed_inv : inv r';
  pushed_next : _next_index r' = _next_index r + zlen d;
  pushed_output : exists o, o = ByteStream.append d (_output r) /\
    _output r' =
      if (0 <? ByteStream.remaining_capacity (_output r)) && (zlen (_reassembler r') =? 0) &&
         _eof r' && (_next_index r' =? _eof_index r')
      then ByteStream.end_input o else o;
  pushed_bytes : forall p, _next_index r <= p < _next_index r' ->
    zget d (p - _next_index r) = merged r data index p;
  pushed_gap : merged r data index (_next_index r') = None;
  pushed_stored : forall p, _next_index r' <= p ->
    OrderedMap.get (_reassembler r') p = merged r data index p;
  pushed_eof : _eof r' = eof || _eof r;
  pushed_eof_index : _eof_index r' = if eof then u64 (index + zlen data) else _eof_index r }.

Lemma update_free_space_spec r :
  inv r -> roomy r ->
  let rc := ByteStream.remaining_capacity (_output r) in
  update_free_space r =
    r <| _capacity_for_reassmbler := rc |> <| _num_bytes_free := rc - total (_reassembler r) |> /\
  (rc - total (_reassembler r) = 0 <-> rc = 0) /\ 0 <= total (_reassembler r) <= rc.
Proof.
  intros [Hwf Hch Hfr] Hroom. destruct (roomy_window r Hwf Hroom) as [? ?].
  pose proof (ByteStream.remaining_capacity_range _ Hwf).
  unfold window_end in *. pose proof (OrderedMap.chain_total _ _ _ Hch).
  destruct Hroom. cbv zeta. split_and!; try lia.
  - unfold update_free_space, stream_out. cbn -[ByteStream.remaining_capacity unassembled_bytes].
    f_equal. rewrite (unassembled_bytes_total _ (_next_index r) (window_end r)); [|done|].
    + simpl. rewrite u64_small; lia.
    + unfold window_end. lia.
  - split; [|lia]. intros.
    destruct (Z.eq_dec (ByteStream.remaining_capacity (_output r)) 0) as [|Hne]; [done|].
    destruct (OrderedMap.get_full _ _ _ (_next_index r) Hch); [lia..|congruence].
Qed.

Lemma zlen_total_0 lo m hi : chain lo m hi -> total m = 0 <-> zlen m = 0.
Proof.
  intros H. destruct m as [|[k v] m]; simpl in *; [done|].
  destruct H as (? & ? & H). apply OrderedMap.chain_total in H. zlia.
Qed.

Lemma close_inv r : inv r -> inv (r <| _output := ByteStream.end_input (_output r) |>).
Proof. intros [? ? ?]. split; simpl; [by apply ByteStream.end_input_wf|done..]. Qed.

Lemma push_ready r data index (rc := ByteStream.remaining_capacity (_output r)) :
  inv r -> roomy r ->
  (ByteStream.input_ended (_output r) = false \/ merged r data index (_next_index r) = None) ->
  0 <= index < MAX64 -> zlen data < MAX64 -> 0 < rc ->
  _capacity_for_reassmbler r = rc -> _num_bytes_free r = rc - total (_reassembler r) ->
  exists d, pushed r data index false d (push_into_output (fit_in_reassembler data index r)).
Proof.
  intros [Hwf Hch Hfr] Hroom Hopen Hix Hlen Hrc Hcap Hfree.
  destruct (roomy_window _ Hwf Hroom) as [? ?].
  assert (window_end r - _next_index r = rc) as Hw by (unfold window_end; lia).
  destruct (fit_spec data index r) as (m' & -> & Hch' & Hget); try done; try lia.
  rewrite Hw in *. set (r2 := _ <| _num_bytes_free := _ |>).
  pose proof (OrderedMap.chain_total _ _ _ Hch').
  destruct (push_loop_spec m' r2 (window_end r))
    as (d & m'' & Heq & Hch'' & Hgap & Hd & Hbytes & Hstored); try done; try (simpl; lia).
  { simpl. by rewrite Hget. }
  simpl in Hch'', Hgap, Hd, Hbytes, Hstored.
  assert (ByteStream.remaining_capacity (ByteStream.append d (_output r)) = rc - zlen d) as Hrc'
    by (apply ByteStream.remaining_capacity_append; [done|lia]).
  exists d. unfold push_into_output. cbn [_reassembler r2 modify]. rewrite Heq.
  set (r3 := _ <| _reassembler := m'' |>).
  rewrite (unassembled_bytes_total r3 (_next_index r + zlen d) (window_end r)) by (done || zlia).
  assert ((total (_reassembler r3) =? 0) = (zlen (_reassembler r3) =? 0)) as ->.
  { pose proof (zlen_total_0 _ _ _ Hch''). simpl. lia. }
  set (close := _ && _).
  assert (_next_index r + zlen d + (rc - zlen d) = window_end r) as Hwin by (unfold window_end; lia).
  assert (inv r3) as Hinv3.
  { split; simpl; [by apply ByteStream.append_wf; [|lia]| |done].
    unfold window_end. simpl. by rewrite Hrc', Hwin. }
  set (rf := if close then _ else r3).
  assert (_reassembler rf = m'' /\ _next_index rf = _next_index r + zlen d /\
          _eof rf = _eof r /\ _eof_index rf = _eof_index r) as (Em & En & Ee & Ei)
    by (unfold rf; destruct close; done).
  split; rewrite ?Em, ?En, ?Ee, ?Ei; try done.
  - unfold rf. destruct close; [by apply close_inv|done].
  - exists (ByteStream.append d (_output r)). split; [done|]. fold rc.
    replace (0 <? rc) with true by lia. unfold rf, close. by destruct (_ && _ && _).
  - intros p. rewrite <- Hget. apply Hbytes.
  - rewrite <- Hget, <- Hstored; simpl; [done|lia].
  - intros p. rewrite <- Hget. apply Hstored.
Qed.

Lemma push_pushed (r : t) (data : bytes) (index : Z) (eof : bool) :
  inv r -> roomy r ->
  (ByteStream.input_ended (_output r) = false \/ merged r data index (_next_index r) = None) ->
  0 <= index < MAX64 -> zlen data < MAX64 ->
  exists d, pushed r data index eof d (push_substring data index eof r).
Proof.
  intros Hinv Hroom Hopen Hix Hlen. unfold push_substring.
  set (r0 := if eof then _ else r).
  assert (inv r0 /\ roomy r0) as [Hinv0 Hroom0].
  { unfold r0. destruct eof; simpl; [|done]. destruct Hinv. split; [by split|done]. }
  destruct (update_free_space_spec r0 Hinv0 Hroom0) as (-> & Hzero & Htot).
  set (r1 := _ <| _num_bytes_free := _ |>).
  assert (inv r1 /\ roomy r1) as [Hinv1 Hroom1].
  { unfold r1. destruct Hinv0. split; [by split|done]. }
  assert (_reassembler r1 = _reassembler r /\ _next_index r1 = _next_index r /\
          _output r1 = _output r /\ _eof r1 = eof || _eof r /\
          _eof_index r1 = (if eof then u64 (index + zlen data) else _eof_index r) /\
          _output r0 = _output r) as (Em & En & Eo & Ee & Ei & Eo0)
    by (unfold r1, r0; by destruct eof).
  assert (forall p, merged r1 data index p = merged r data index p) as Emg
    by (intros; unfold merged, window_end; by rewrite Em, En, Eo).
  destruct (_num_bytes_free r1 =? 0) eqn:E.
  - exists []. destruct Hinv as [Hwf Hch Hfr]. apply Z.eqb_eq, Hzero in E. rewrite Eo0 in E.
    assert (forall p, merged r data index p = OrderedMap.get (_reassembler r) p) as Hsame.
    { intros p. unfold merged, window_end. rewrite E.
      replace (_ && _) with false by lia. by destruct (OrderedMap.get _ p). }
    split; rewrite ?Em, ?En, ?Eo, ?Ee, ?Ei, ?Hsame, ?zlen_nil, ?Z.add_0_r; try done; try (intros; lia).
    exists (_output r). rewrite ByteStream.append_nil by done. split; [done|].
    by replace (0 <? _) with false by lia.
  - destruct (push_ready r1 data index) as (d & [Hi Hn (o & -> & Ho) Hb Hg Hs He Hx]); try done.
    + by rewrite Eo, Emg, En.
    + rewrite Eo. rewrite Eo0 in Hzero, Htot. simpl in E. rewrite Eo0 in E. lia.
    + rewrite Eo, En, Ee, Ei in *. exists d. split; try done.
      * by exists (ByteStream.append d (_output r)).
      * intros p ?. rewrite <- Emg. by apply Hb.
      * by rewrite <- Emg.
      * intros p ?. rewrite <- Emg. by apply Hs.
Qed.

(** ** Reassembling a stream *)

(** A substring of the stream [S], as a peer that follows the protocol sends it:
    its bytes are those of [S] at their positions (positions no window can
    reach are not constrained), and only the last byte of [S] can be marked as
    the last one. *)
Record segment_of (S : bytes) (cap : Z) (data : bytes) (index : Z) (eof : bool) : Prop := {
  seg_index : 0 <= index < MAX64;
  seg_length : zlen data < MAX64;
  seg_bytes : forall p b, p < zlen S + cap -> offered data index p = Some b -> zget S p = Some b;
  seg_eof : eof = true -> zlen S <= u64 (index + zlen data) }.

(** The states a reassembler can be in while substrings of [S] arrive, in any
    order and any number of times, and the owner reads; [del] is what the owner
    has read so far. *)
Inductive reach (S : bytes) (cap : Z) : bytes -> t -> Prop :=
| reach_make : reach S cap [] (make cap)
| reach_push del r data index eof :
    reach S cap del r -> segment_of S cap data index eof ->
    reach S cap del (push_substring data index eof r)
| reach_read del r n :
    reach S cap del r -> 0 <= n ->
    reach S cap (del ++ (ByteStream.read n (_output r)).1)
      (with_output (fun o => (ByteStream.read n o).2) r).

Record consistent (S : bytes) (cap : Z) (del : bytes) (r : t) : Prop := {
  con_inv : inv r;
  con_cap : ByteStream._capacity (_output r) = cap;
  con_next : 0 <= _next_index r <= zlen S;
  con_prefix : del ++ ByteStream._buffer (_output r) = ztake (_next_index r) S;
  con_stored : forall p b, OrderedMap.get (_reassembler r) p = Some b -> zget S p = Some b;
  con_eof : _eof r = true -> zlen S <= _eof_index r;
  con_ended : ByteStream.input_ended (_output r) = true -> _next_index r = zlen S }.

Lemma consistent_roomy S cap del r :
  zlen S + cap < MAX64 -> consistent S cap del r -> roomy r.
Proof. intros ? [? Hc ? ? ? ? ?]. unfold roomy. rewrite Hc. lia. Qed.

Lemma consistent_merged S cap del r data index eof p b :
  consistent S cap del r -> segment_of S cap data index eof ->
  merged r data index p = Some b -> zget S p = Some b.
Proof.
  intros [Hinv Hcap Hnx Hpre Hst Heof Hend] [Hix Hlen Hby Hse]. unfold merged.
  destruct (OrderedMap.get (_reassembler r) p) eqn:E; [intros [= ->]; by apply Hst|].
  case_match; [|done]. apply Hby. unfold window_end in *.
  pose proof (ByteStream.remaining_capacity_range _ (inv_output _ Hinv)). lia.
Qed.

Lemma consistent_pushed S cap del r data index eof :
  zlen S + cap < MAX64 -> consistent S cap del r -> segment_of S cap data index eof ->
  exists d, pushed r data index eof d (push_substring data index eof r).
Proof.
  intros Hfit Hcon Hseg. pose proof (consistent_roomy _ _ _ _ Hfit Hcon) as Hroom.
  apply push_pushed; [apply Hcon|done| |apply Hseg..].
  destruct (ByteStream.input_ended (_output r)) eqn:E; [right|by left].
  destruct (merged r data index (_next_index r)) as [b|] eqn:Eb; [|done].
  eapply consistent_merged, zget_Some_range in Eb; [|done|done]. rewrite (con_ended _ _ _ _ Hcon E) in Eb. lia.
Qed.

Lemma push_consistent S cap del r data index eof :
  zlen S + cap < MAX64 -> consistent S cap del r -> segment_of S cap data index eof ->
  consistent S cap del (push_substring data index eof r).
Proof.
  intros Hfit Hcon Hseg.
  assert (forall p b, merged r data index p = Some b -> zget S p = Some b) as Hmg
    by (intros p b; by eapply consistent_merged).
  destruct (consistent_pushed _ _ _ _ _ _ _ Hfit Hcon Hseg) as (d & [Hi Hn (o & -> & Ho) Hb Hg Hs He Hx]).
  destruct Hcon as [Hinv Hcap Hnx Hpre Hst Heof Hend]. destruct Hseg as [Hix Hlen Hby Hse].
  set (r' := push_substring data index eof r) in *. clearbody r'. pose_zlen.
  assert (forall i, 0 <= i < zlen d -> zget d i = zget S (_next_index r + i)) as HdS.
  { intros i ?. specialize (Hb (_next_index r + i)).
    replace (_next_index r + i - _next_index r) with i in Hb by lia.
    destruct (proj2 (zget_is_Some d i)) as [b Hbi]; [lia|].
    rewrite Hbi in *. symmetry. apply Hmg. rewrite <- Hb by lia. done. }
  assert (_next_index r + zlen d <= zlen S) as Hle.
  { destruct (Z.eq_dec (zlen d) 0); [lia|].
    destruct (proj2 (zget_is_Some d (zlen d - 1))) as [b Hbi]; [lia|].
    rewrite HdS in Hbi by lia. apply zget_Some_range in Hbi. lia. }
  assert (_eof r' = true -> zlen S <= _eof_index r') as Heof'.
  { rewrite He, Hx. destruct eof; simpl; auto. }
  split; try done; try lia.
  - rewrite Ho. by split_if.
  - rewrite Hn, ztake_extend by (done || lia). rewrite <- Hpre, <- app_assoc. f_equal.
    rewrite Ho. by split_if.
  - intros p b Hp. apply Hmg. rewrite <- Hs; [done|].
    eapply OrderedMap.get_range in Hp; [|by destruct Hi]. lia.
  - rewrite Ho. split_if; simpl.
    + intros _. destruct (_eof r'); [|lia]. specialize (Heof' eq_refl). lia.
    + intros E. rewrite (Hend E) in *. lia.
Qed.

(** A call after which every byte of [S] and the end mark are known closes the
    output. *)
Lemma push_completes S cap del r data index eof (r' := push_substring data index eof r) :
  zlen S + cap < MAX64 -> consistent S cap del r -> segment_of S cap data index eof ->
  0 < ByteStream.remaining_capacity (_output r) ->
  (forall p, _next_index r <= p < zlen S -> is_Some (merged r data index p)) ->
  _eof r' = true -> _eof_index r' = zlen S ->
  _next_index r' = zlen S /\ ByteStream.input_ended (_output r') = true /\ _reassembler r' = [].
Proof.
  intros Hfit Hcon Hseg Hrc Hall He Hx.
  pose proof (push_consistent _ _ _ _ _ _ _ Hfit Hcon Hseg) as Hcon'. fold r' in Hcon'.
  destruct (consistent_pushed _ _ _ _ _ _ _ Hfit Hcon Hseg) as (d & [Hi Hn (o & -> & Ho) _ Hg Hs _ _]).
  fold r' in Hi, Hn, Ho, Hg, Hs. clearbody r'. destruct Hcon' as [_ _ Hnx' Hpre' Hst' _ _].
  assert (_next_index r' = zlen S) as HnS.
  { destruct (Z_lt_le_dec (_next_index r') (zlen S)); [|lia].
    destruct (Hall (_next_index r')) as [? ?]; [zlia|congruence]. }
  assert (_reassembler r' = []) as Hnil.
  { destruct (_reassembler r') as [|[k v] m] eqn:Em; [done|]. destruct Hi as [_ Hch _].
    rewrite Em in Hch. destruct Hch as (? & ? & _).
    destruct (proj2 (zget_is_Some v 0)) as [b Hb]; [lia|].
    assert (zget S k = Some b) as Hk.
    { apply Hst'. simpl. replace (_ && _) with true by lia. by rewrite Z.sub_diag. }
    apply zget_Some_range in Hk. lia. }
  split_and!; [done| |done].
  rewrite Ho, Hnil, He, HnS, Hx, !Z.eqb_refl. apply Z.ltb_lt in Hrc. by rewrite Hrc.
Qed.

(** The output goes past every run of known bytes. *)
Lemma push_passes S cap del r data index eof e (r' := push_substring data index eof r) :
  zlen S + cap < MAX64 -> consistent S cap del r -> segment_of S cap data index eof ->
  (forall p, _next_index r <= p < e -> is_Some (merged r data index p)) -> e <= _next_index r'.
Proof.
  intros Hfit Hcon Hseg Hall. destruct (consistent_pushed _ _ _ _ _ _ _ Hfit Hcon Hseg) as (d & [_ Hn _ _ Hg _ _ _]).
  fold r' in Hn, Hg. pose_zlen. apply Z.nlt_ge. intros Hlt.
  destruct (Hall (_next_index r')) as [? ?]; [lia|congruence].
Qed.

(** What is offered inside the window is known. *)
Lemma merged_offered r data index p :
  index <= _next_index r -> index + zlen data < MAX64 ->
  _next_index r <= p < Z.min (index + zlen data) (window_end r) -> is_Some (merged r data index p).
Proof.
  intros Hi Hm Hp. unfold merged. destruct (OrderedMap.get _ _); [done|]. unfold offered.
  replace (_ && _) with true by lia. replace (_ <? MAX64) with true by lia. apply zget_is_Some. lia.
Qed.

Lemma read_consistent S cap del r n :
  consistent S cap del r ->
  consistent S cap (del ++ (ByteStream.read n (_output r)).1)
    (with_output (fun o => (ByteStream.read n o).2) r).
Proof.
  intros [[Hwf Hch Hfr] Hcap Hnx Hpre Hst Heof Hend]. split; try done.
  - split; simpl; [by apply ByteStream.read_wf| |done].
    eapply OrderedMap.chain_weaken; [done|lia|]. unfold window_end. simpl.
    rewrite !ByteStream.remaining_capacity_wf by (done || by apply ByteStream.read_wf). simpl. zlia.
  - etransitivity; [|exact Hpre]. rewrite <- app_assoc. f_equal.
    apply (ByteStream.read_split n (_output r)).
Qed.

Lemma reach_consistent S cap del r :
  0 <= cap -> zlen S + cap < MAX64 -> reach S cap del r -> consistent S cap del r.
Proof.
  intros Hcap Hfit H. induction H as [|del r data index eof H IH Hseg|del r n H IH Hn].
  - pose_zlen. split; try done; simpl; try lia. apply make_inv. lia.
  - by apply push_consistent.
  - by apply read_consistent.
Qed.

(** ** Properties *)

(** C8: the functional behaviour of [push_substring].  For every state that
    satisfies the invariant and every substring (overlapping, duplicated, out of
    the window, or running past [2^64]), one call appends to the output exactly
    the known bytes up to the first missing position, keeps every other known
    byte of the window, discards the rest, never overruns the output, and
    re-establishes the invariant: [pushed]. *)
Theorem push_substring_correct (r : t) (data : bytes) (index : Z) (eof : bool) :
  inv r -> roomy r -> ByteStream.input_ended (_output r) = false ->
  0 <= index < MAX64 -> zlen data < MAX64 ->
  exists d, pushed r data index eof d (push_substring data index eof r).
Proof. intros. apply push_pushed; try done. by left. Qed.

Lemma push_substring_correct_witness :
  exists d, pushed (make 8) (str "cde") 2 false d (push_substring (str "cde") 2 false (make 8)).
Proof.
  apply push_substring_correct; try apply make_inv; try reflexivity; vm_compute; intuition congruence.
Defined.

(** C9: reassembly is safe.  Whatever substrings of [S] arrive, in whatever
    order and however often, and however the owner interleaves its reads, the
    bytes delivered so far followed by those waiting in the output are the first
    [_next_index] bytes of [S]; the output is closed only after all of [S]; and
    what is stored never exceeds the free part of the capacity. *)
Theorem reassembly_in_order (S : bytes) (cap : Z) (del : bytes) (r : t) :
  0 <= cap -> zlen S + cap < MAX64 -> reach S cap del r ->
  del ++ ByteStream._buffer (_output r) = ztake (_next_index r) S /\
  (ByteStream.input_ended (_output r) = true ->
     del ++ ByteStream._buffer (_output r) = S) /\
  unassembled_bytes r + ByteStream.buffer_size (_output r) <= cap.
Proof.
  intros Hcap Hfit H. destruct (reach_consistent _ _ _ _ Hcap Hfit H) as [[Hwf Hch Hfr] Hc Hnx Hpre Hst Heof Hend].
  split_and!; [done|..].
  - intros E. rewrite Hpre, Hend by done. apply ztake_all. lia.
  - pose proof (OrderedMap.chain_total _ _ _ Hch).
    pose proof (ByteStream.remaining_capacity_wf _ Hwf). unfold window_end in *.
    rewrite (unassembled_bytes_total _ _ _ Hch) by (unfold window_end; zlia).
    unfold ByteStream.buffer_size. lia.
Qed.

(** A run of three substrings and a read, used as witness. *)
Definition demo_S : bytes := str "abcdef".

Lemma demo_segment data index eof :
  0 <= index -> index + zlen data <= 6 -> substr demo_S index (zlen data) = data ->
  (eof = true -> index + zlen data = 6) -> segment_of demo_S 4 data index eof.
Proof.
  intros Hix Hle Hd He. change 6 with (zlen demo_S) in Hle, He.
  assert (zlen demo_S = 6) as H6 by reflexivity. pose_zlen. split; try lia.
  - intros p b Hp Hb. unfold offered in Hb. replace (_ <? _) with true in Hb by lia.
    pose proof (zget_Some_range _ _ _ Hb). rewrite <- Hd in Hb.
    rewrite zget_substr in Hb by lia. rewrite <- Hb. split_if; [f_equal; lia|lia].
  - intros E. rewrite u64_small by lia. specialize (He E). lia.
Defined.

Definition demo_r : t :=
  push_substring (str "abc") 0 false (push_substring (str "cd") 2 false (make 4)).

Definition demo_r' : t := with_output (fun o => (ByteStream.read 2 o).2) demo_r.

Lemma demo_reach : reach demo_S 4 (str "ab") demo_r'.
Proof.
  assert (str "ab" = [] ++ (ByteStream.read 2 (_output demo_r)).1) as -> by (vm_compute; reflexivity).
  apply reach_read; [|lia]. apply reach_push; [apply reach_push; [constructor|]|];
    apply demo_segment; vm_compute; intuition congruence.
Defined.

Lemma reassembly_in_order_witness :
  str "ab" ++ ByteStream._buffer (_output demo_r') = ztake (_next_index demo_r') demo_S /\
  (ByteStream.input_ended (_output demo_r') = true ->
     str "ab" ++ ByteStream._buffer (_output demo_r') = demo_S) /\
  unassembled_bytes demo_r' + ByteStream.buffer_size (_output demo_r') <= 4.
Proof.
  apply (reassembly_in_order demo_S 4 (str "ab")); [lia|vm_compute; done|apply demo_reach].
Defined.

(** C10: reassembly makes progress.  In a reachable state a substring of [S] that
    starts at or before the next index takes the output past all of it that fits
    the window; with the substring, the output goes past every run of known bytes
    from the next index on (so a gap that is filled releases what was stored behind
    it); the output is the beginning of [S] up to the new index; and when there is
    room, every byte of [S] is known and so is its end, the output is all of [S],
    is closed, and nothing is left stored. *)
Theorem reassembly_completes (S : bytes) (cap : Z) (del : bytes) (r : t)
    (data : bytes) (index : Z) (eof : bool) :
  0 <= cap -> zlen S + cap < MAX64 -> reach S cap del r -> segment_of S cap data index eof ->
  let r' := push_substring data index eof r in
  let got := del ++ ByteStream._buffer (_output r') in
  (index <= _next_index r -> index + zlen data < MAX64 ->
     Z.min (index + zlen data) (window_end r) <= _next_index r') /\
  (forall e, (forall p, _next_index r <= p < e -> is_Some (merged r data index p)) -> e <= _next_index r') /\
  got = ztake (_next_index r') S /\
  (0 < ByteStream.remaining_capacity (_output r) ->
   (forall p, _next_index r <= p < zlen S -> is_Some (merged r data index p)) ->
   (if eof then u64 (index + zlen data) = zlen S else _eof r = true /\ _eof_index r = zlen S) ->
   got = S /\ ByteStream.input_ended (_output r') = true /\ empty r' = true).
Proof.
  intros Hcap Hfit Hre Hseg r' got. pose proof (reach_consistent _ _ _ _ Hcap Hfit Hre) as Hcon.
  pose proof (con_prefix _ _ _ _ (push_consistent _ _ _ _ _ _ _ Hfit Hcon Hseg)) as Hpre. fold r' in Hpre. fold got in Hpre.
  split_and!; [|intros e; by eapply push_passes|done|].
  - intros Hi Hm. eapply push_passes; [done..|]. intros p Hp. by apply merged_offered.
  - intros Hrc Hall He. destruct (consistent_pushed _ _ _ _ _ _ _ Hfit Hcon Hseg) as (d & [_ _ _ _ _ _ He' Hx']).
    destruct (push_completes _ _ _ _ _ _ _ Hfit Hcon Hseg Hrc Hall) as (HnS & Hend & Hnil).
    + rewrite He'. destruct eof; [done|apply He].
    + rewrite Hx'. destruct eof; [done|apply He].
    + split_and!; [|done|unfold r', empty; by rewrite Hnil].
      rewrite Hpre. unfold r'. rewrite HnS. apply ztake_all. lia.
Qed.

(** The end of the stream arrives while its middle is stored. *)
Lemma reassembly_completes_witness :
  let r' := push_substring (str "def") 3 true demo_r' in
  let got := str "ab" ++ ByteStream._buffer (_output r') in
  (3 <= _next_index demo_r' -> 3 + zlen (str "def") < MAX64 ->
     Z.min (3 + zlen (str "def")) (window_end demo_r') <= _next_index r') /\
  (forall e, (forall p, _next_index demo_r' <= p < e -> is_Some (merged demo_r' (str "def") 3 p)) -> e <= _next_index r') /\
  got = ztake (_next_index r') demo_S /\
  (0 < ByteStream.remaining_capacity (_output demo_r') ->
   (forall p, _next_index demo_r' <= p < zlen demo_S -> is_Some (merged demo_r' (str "def") 3 p)) ->
   u64 (3 + zlen (str "def")) = zlen demo_S ->
   got = demo_S /\ ByteStream.input_ended (_output r') = true /\ empty r' = true).
Proof.
  apply (reassembly_completes demo_S 4 (str "ab") demo_r' (str "def") 3 true); try (vm_compute; done).
  - apply demo_reach.
  - apply demo_segment; vm_compute; intuition congruence.
Defined.

Example demo_completes :
  let r' := push_substring (str "def") 3 true demo_r' in
  _next_index demo_r' = 4 /\ _next_index r' = 6 /\ ByteStream.input_ended (_output r') = true.
Proof. vm_compute. split_and!; reflexivity. Qed.

End StreamReassembler.
