(* ===== verification/Buffer.v ===== *)
(** * Reference-counted strings: [libsponge/util/buffer.hh] and [.cc]

    [Buffer.t] is a shared read-only string with a starting offset; nothing
    writes through the shared pointer, so sharing is not observable and the
    storage is a value.  [BufferList.t] is a deque of buffers, [BufferViewList.t]
    a deque of views.  The theorems relate each operation to the plain string
    the object stands for. *)
From S2P Require Import Prelude.

Module Buffer.

Record t := mk {
  _storage : option bytes;
  _starting_offset : Z }.

#[global] Instance eta_t : Eta t := fun b => mk (_storage b) (_starting_offset b).

#[global] Instance buffer_eq_dec : EqDecision t.
Proof. solve_decision. Defined.

(** [Buffer()] and [Buffer(std::string &&)]. *)
Definition default : t := mk None 0.
Definition of_string (s : bytes) : t := mk (Some s) 0.

Definition str (b : t) : bytes :=
  match _storage b with
  | None => []
  | Some s => substr s (_starting_offset b) (u64 (zlen s - _starting_offset b))
  end.

Definition at_ (n : Z) (b : t) : outcome Z :=
  match zget (str b) n with
  | Some c => Ok (byte_val c)
  | None => Throw (out_of_range "basic_string_view::at")
  end.

Definition size (b : t) : Z := zlen (str b).

Definition copy (b : t) : bytes := str b.

Definition remove_prefix (n : Z) (b : t) : outcome t :=
  if zlen (str b) <? n then Throw (out_of_range "Buffer::remove_prefix")
  else
    let b := b <| _starting_offset := u64 (_starting_offset b + n) |> in
    match _storage b with
    | Some s => if _starting_offset b =? zlen s then Ok (b <| _storage := None |>) else Ok b
    | None => Ok b
    end.

(** The offset stays inside the storage. *)
Definition wf (b : t) : Prop :=
  0 <= _starting_offset b < MAX64 /\
  match _storage b with Some s => _starting_offset b <= zlen s < MAX64 | None => True end.

Lemma default_wf : wf default.
Proof. done. Qed.

Lemma of_string_wf s : zlen s < MAX64 -> wf (of_string s).
Proof. unfold wf. simpl. zlia. Qed.

Lemma str_of_string s : zlen s < MAX64 -> str (of_string s) = s.
Proof.
  intros. unfold str. simpl. pose_zlen. rewrite Z.sub_0_r, u64_small by lia. by apply substr_full.
Qed.

Lemma str_wf b : wf b ->
  str b = match _storage b with Some s => zdrop (_starting_offset b) s | None => [] end.
Proof.
  unfold wf, str. destruct (_storage b) as [s|]; [|done]. intros. pose_zlen.
  rewrite u64_small by lia. unfold substr. apply ztake_all. zlia.
Qed.

Lemma str_length b : wf b -> zlen (str b) < MAX64.
Proof. intros H. rewrite str_wf by done. destruct H. destruct (_storage b); zlia. Qed.

(** [remove_prefix] drops the first [n] bytes or throws, and never leaves a
    dangling offset. *)
Lemma remove_prefix_spec n b :
  wf b -> 0 <= n ->
  if n <=? zlen (str b)
  then exists b', remove_prefix n b = Ok b' /\ wf b' /\ str b' = zdrop n (str b)
  else remove_prefix n b = Throw (out_of_range "Buffer::remove_prefix").
Proof.
  intros Hwf Hn. unfold remove_prefix. pose proof (str_wf b Hwf) as Hs. pose_zlen.
  destruct (n <=? zlen (str b)) eqn:E; [|by replace (zlen (str b) <? n) with true by lia].
  replace (zlen (str b) <? n) with false by lia. rewrite Hs in *. unfold wf in *. simpl.
  destruct (_storage b) as [s|] eqn:Es.
  - rewrite zlen_zdrop in *. rewrite (u64_small (_ + n)) by lia.
    destruct (_starting_offset b + n =? zlen s) eqn:E2; eexists; (split; [done|]); simpl;
      rewrite ?Es; (split; [zlia|]).
    + unfold str. simpl. rewrite zdrop_zdrop by lia. symmetry. apply zdrop_all. lia.
    + rewrite str_wf by (unfold wf; simpl; rewrite ?Es; zlia). simpl. rewrite ?Es.
      by rewrite zdrop_zdrop by lia.
  - rewrite zlen_nil in *. replace n with 0 by lia. rewrite Z.add_0_r, u64_small by lia.
    eexists. split; [done|]. simpl. rewrite ?Es. split; [zlia|]. unfold str. simpl. by rewrite ?Es.
Qed.

End Buffer.

Module BufferList.

Abbreviation t := (list Buffer.t).

Definition of_buffer (b : Buffer.t) : t := [b].

Definition append (other : t) (l : t) : t := l ++ other.

(** [BufferList(std::string &&)]. *)
Definition of_string (s : bytes) : t := append [Buffer.of_string s] [].

(** [operator Buffer()]. *)
Definition to_buffer (l : t) : outcome Buffer.t :=
  match l with
  | [] => Ok Buffer.default
  | [b] => Ok b
  | _ => Throw (runtime_error
      "BufferList: please use concatenate() to combine a multi-Buffer BufferList into one Buffer")
  end.

Definition size (l : t) : Z := fold_left (fun ret b => u64 (ret + Buffer.size b)) l 0.

Definition concatenate (l : t) : bytes := fold_left (fun ret b => ret ++ Buffer.str b) l [].

(** The [while (n > 0)] loop; each round either finishes or pops the front. *)
Fixpoint remove_prefix (n : Z) (l : t) : outcome t :=
  if 0 <? n then
    match l with
    | [] => Throw (out_of_range "BufferList::remove_prefix")
    | front :: rest =>
        if n <? zlen (Buffer.str front) then
          let! front := Buffer.remove_prefix n front in Ok (front :: rest)
        else remove_prefix (n - zlen (Buffer.str front)) rest
    end
  else Ok l.

Lemma concatenate_app l : forall acc,
  fold_left (fun ret b => ret ++ Buffer.str b) l acc = acc ++ concat (map Buffer.str l).
Proof.
  induction l as [|b l IH]; intros acc; simpl; [by rewrite app_nil_r|].
  by rewrite IH, <- app_assoc.
Qed.

Lemma concatenate_concat l : concatenate l = concat (map Buffer.str l).
Proof. apply concatenate_app. Qed.

Lemma concatenate_cons b l : concatenate (b :: l) = Buffer.str b ++ concatenate l.
Proof. by rewrite !concatenate_concat. Qed.

Lemma concatenate_append l k : concatenate (append k l) = concatenate l ++ concatenate k.
Proof. rewrite !concatenate_concat. unfold append. by rewrite map_app, concat_app. Qed.

Lemma concatenate_of_string s : zlen s < MAX64 -> concatenate (of_string s) = s.
Proof.
  intros. rewrite concatenate_concat. simpl. by rewrite app_nil_r, Buffer.str_of_string.
Qed.

Lemma size_concatenate l : zlen (concatenate l) < MAX64 -> size l = zlen (concatenate l).
Proof.
  rewrite concatenate_concat. unfold size.
  enough (forall n, 0 <= n -> n + zlen (concat (map Buffer.str l)) < MAX64 ->
    fold_left (fun ret b => u64 (ret + Buffer.size b)) l n = n + zlen (concat (map Buffer.str l)))
    as H by (intros; apply H; lia).
  induction l as [|b l IH]; simpl; intros n ? Hn; [zlia|].
  rewrite zlen_app in *. pose_zlen. change (Buffer.size b) with (zlen (Buffer.str b)).
  rewrite u64_small by lia.
  rewrite IH by lia. lia.
Qed.

(** Dropping a prefix of a discontiguous string.  [remove_prefix n] on a
    list of well-formed buffers leaves the concatenation without its first [n]
    bytes, in well-formed buffers, and throws [out_of_range] exactly when the
    string is shorter than [n]. *)
Theorem remove_prefix_correct (l : t) (n : Z) :
  Forall Buffer.wf l -> 0 <= n ->
  if n <=? zlen (concatenate l)
  then exists l', remove_prefix n l = Ok l' /\ Forall Buffer.wf l' /\
         concatenate l' = zdrop n (concatenate l)
  else remove_prefix n l = Throw (out_of_range "BufferList::remove_prefix").
Proof.
  intros Hl. revert n. induction Hl as [|b l Hb Hl IH]; intros n Hn.
  - simpl. change (concatenate []) with (@nil byte). rewrite zlen_nil.
    destruct (n <=? 0) eqn:E.
    + replace (0 <? n) with false by lia. exists []. by replace n with 0 by lia.
    + by replace (0 <? n) with true by lia.
  - cbn [remove_prefix]. rewrite concatenate_cons, zlen_app. pose_zlen.
    destruct (0 <? n) eqn:E0; cycle 1.
    { replace n with 0 by lia. replace (0 <=? _) with true by lia. exists (b :: l).
      rewrite concatenate_cons, zdrop_nonpos by lia. auto. }
    destruct (n <? zlen (Buffer.str b)) eqn:E.
    + replace (_ <=? _) with true by lia.
      pose proof (Buffer.remove_prefix_spec n b Hb Hn) as Hr.
      replace (n <=? _) with true in Hr by lia. destruct Hr as (b' & -> & Hb' & Hs).
      exists (b' :: l). rewrite concatenate_cons, Hs. split_and!; [done|auto|].
      symmetry. apply drop_app_le. unfold zlen in *. lia.
    + specialize (IH (n - zlen (Buffer.str b)) ltac:(lia)).
      replace (n <=? zlen (Buffer.str b) + zlen (concatenate l))
        with (n - zlen (Buffer.str b) <=? zlen (concatenate l)) by lia.
      destruct (_ <=? _); [|done]. destruct IH as (l' & -> & Hl' & Hs).
      exists l'. split_and!; [done..|]. rewrite Hs. unfold zdrop.
      rewrite drop_app_ge by (unfold zlen in *; lia). f_equal. unfold zlen in *. lia.
Qed.

Lemma remove_prefix_correct_witness :
  exists l', remove_prefix 3 [Buffer.of_string (str "ab"); Buffer.of_string (str "cde")] = Ok l' /\
    Forall Buffer.wf l' /\
    concatenate l' = zdrop 3 (concatenate [Buffer.of_string (str "ab"); Buffer.of_string (str "cde")]).
Proof.
  apply (remove_prefix_correct [Buffer.of_string (str "ab"); Buffer.of_string (str "cde")] 3).
  - repeat constructor; vm_compute; congruence.
  - lia.
Defined.

End BufferList.

Module BufferViewList.

Abbreviation t := (list bytes).

(** Constructors from a string and from a [BufferList]. *)
Definition of_string (s : bytes) : t := [s].
Definition of_buffers (buffers : BufferList.t) : t := map Buffer.str buffers.

Fixpoint remove_prefix (n : Z) (l : t) : outcome t :=
  if 0 <? n then
    match l with
    | [] => Throw (out_of_range "BufferListView::remove_prefix")
    | front :: rest =>
        if n <? zlen front then Ok (zdrop n front :: rest)
        else remove_prefix (n - zlen front) rest
    end
  else Ok l.

Definition size (l : t) : Z := fold_left (fun ret v => u64 (ret + zlen v)) l 0.

(** One [iovec] (base, length) per view. *)
Definition as_iovecs (l : t) : list (bytes * Z) := map (fun x => (x, zlen x)) l.

(** The view of a buffer list follows the buffers: removing a prefix from either
    leaves the same string, and both throw on the same lengths. *)
Lemma of_buffers_remove_prefix l n :
  Forall Buffer.wf l -> 0 <= n ->
  match BufferList.remove_prefix n l, remove_prefix n (of_buffers l) with
  | Ok l', Ok v => v = of_buffers l'
  | Throw _, Throw _ => True
  | _, _ => False
  end.
Proof.
  intros Hl. revert n. induction Hl as [|b l Hb Hl IH]; intros n Hn; simpl.
  - by destruct (0 <? n).
  - destruct (0 <? n) eqn:E0; [|done]. destruct (n <? zlen (Buffer.str b)) eqn:E.
    + pose proof (Buffer.remove_prefix_spec n b Hb Hn) as Hr.
      replace (n <=? _) with true in Hr by lia. destruct Hr as (b' & -> & Hb' & Hs).
      simpl. unfold of_buffers. simpl. by rewrite Hs.
    + apply IH. lia.
Qed.

(** The string a list of views shows. *)
Lemma concat_of_buffers l : concat (of_buffers l) = BufferList.concatenate l.
Proof.
  induction l as [|b l IH]; [done|]. rewrite BufferList.concatenate_cons, <- IH. done.
Qed.

Lemma view_size l : zlen (concat l) < MAX64 -> size l = zlen (concat l).
Proof.
  intros Hl. unfold size.
  enough (forall k, 0 <= k -> k + zlen (concat l) < MAX64 ->
          fold_left (fun ret v => u64 (ret + zlen v)) l k = k + zlen (concat l)) as ->; [lia..|].
  induction l as [|v l IH]; intros k Hk Hb; simpl in *; [rewrite zlen_nil; lia|].
  rewrite zlen_app in *. pose_zlen. rewrite u64_small by lia. rewrite IH by lia. lia.
Qed.

Lemma view_remove_prefix l n :
  0 <= n <= zlen (concat l) -> exists v, remove_prefix n l = Ok v /\ concat v = zdrop n (concat l).
Proof.
  revert n. induction l as [|v l IH]; intros n Hn; simpl in *.
  - change (zlen _) with 0 in Hn. replace (0 <? n) with false by lia. exists []. by rewrite zdrop_nonpos by lia.
  - rewrite zlen_app in Hn. destruct (0 <? n) eqn:E0.
    + destruct (n <? zlen v) eqn:E.
      * eexists. split; [done|]. simpl. by rewrite zdrop_app_le by lia.
      * destruct (IH (n - zlen v)) as (v' & -> & E'); [lia|]. eexists. split; [done|].
        by rewrite E', zdrop_app_ge by lia.
    + eexists. split; [done|]. by rewrite zdrop_nonpos by lia.
Qed.

End BufferViewList.
