(* ===== verification/Parser.v ===== *)
(** * Network-order integers: [libsponge/util/parser.hh] and [.cc]

    [NetParser.t] is a buffer with a sticky error; [u8], [u16] and [u32] read
    big-endian integers from the front, [NetUnparser] writes them at the back of
    a string.  [be_value] and [be_bytes] are the specification. *)
From S2P Require Import Prelude Buffer.

Inductive ParseResult :=
| NoError
| BadChecksum
| PacketTooShort
| WrongIPVersion
| HeaderTooShort
| TruncatedPacket
| Unsupported.

#[export] Instance ParseResult_eq_dec : EqDecision ParseResult.
Proof. solve_decision. Defined.

(** [static_cast<size_t>(r)]. *)
Definition result_index (r : ParseResult) : Z :=
  match r with
  | NoError => 0 | BadChecksum => 1 | PacketTooShort => 2 | WrongIPVersion => 3
  | HeaderTooShort => 4 | TruncatedPacket => 5 | Unsupported => 6
  end.

Definition _names : list string :=
  ["NoError"; "BadChecksum"; "PacketTooShort"; "WrongIPVersion"; "HeaderTooShort";
   "TruncatedPacket"].

(** [_names[r]]; [None] is an access outside the array (undefined behaviour). *)
Definition as_string (r : ParseResult) : option string := zget _names (result_index r).

(** ** Specification: big-endian integers *)

Definition be_value (l : bytes) : Z := fold_left (fun acc b => acc * 256 + byte_val b) l 0.

Fixpoint be_bytes (n : nat) (v : Z) : bytes :=
  match n with O => [] | S n => be_bytes n (v / 256) ++ [byte_of v] end.

Lemma be_value_snoc l b : be_value (l ++ [b]) = be_value l * 256 + byte_val b.
Proof. unfold be_value. by rewrite fold_left_app. Qed.

Lemma be_value_range l : 0 <= be_value l < 256 ^ zlen l.
Proof.
  induction l as [|b l IH] using rev_ind; [done|]. rewrite be_value_snoc, zlen_app.
  change (zlen [b]) with 1. rewrite Z.pow_add_r by (pose_zlen; lia).
  pose proof (byte_val_range b). nia.
Qed.

Lemma length_be_bytes n : forall v, length (be_bytes n v) = n.
Proof. induction n as [|n IH]; intros v; simpl; [done|]. rewrite length_app, IH. simpl. lia. Qed.

Lemma zlen_be_bytes n v : zlen (be_bytes n v) = Z.of_nat n.
Proof. unfold zlen. by rewrite length_be_bytes. Qed.

Lemma be_value_bytes n : forall v, be_value (be_bytes n v) = v mod 256 ^ Z.of_nat n.
Proof.
  induction n as [|n IH]; intros v; [by rewrite Z.mod_1_r|].
  cbn [be_bytes]. rewrite be_value_snoc, IH, byte_val_of. unfold u8.
  rewrite Nat2Z.inj_succ, Z.pow_succ_r by lia.
  rewrite Z.rem_mul_r by (try lia; apply Z.pow_nonzero; lia). lia.
Qed.

Lemma be_bytes_value l : be_bytes (length l) (be_value l) = l.
Proof.
  induction l as [|b l IH] using rev_ind; [done|].
  rewrite length_app, Nat.add_comm, be_value_snoc. simpl. pose proof (byte_val_range b).
  f_equal.
  - rewrite Z.div_add_l, Z.div_small, Z.add_0_r by lia. done.
  - f_equal. rewrite <- (byte_of_val b) at 2. unfold byte_of. f_equal. f_equal. f_equal. word.
Qed.

Module NetParser.

Record t := mk {
  _buffer : Buffer.t;
  _error : ParseResult }.

#[global] Instance eta_t : Eta t := fun p => mk (_buffer p) (_error p).

Definition make (buffer : Buffer.t) : t := mk buffer NoError.

Definition buffer (p : t) : Buffer.t := _buffer p.

Definition get_error (p : t) : ParseResult := _error p.

Definition set_error (res : ParseResult) (p : t) : t := p <| _error := res |>.

Definition error (p : t) : bool := bool_decide (get_error p <> NoError).

Definition _check_size (size : Z) (p : t) : t :=
  if Buffer.size (_buffer p) <? size then set_error PacketTooShort p else p.

(** [_buffer.at(i)] and [_buffer.remove_prefix(n)] where the size was checked
    before, so that they do not throw ([drop_front_spec] below). *)
Definition byte_at (i : Z) (b : Buffer.t) : Z :=
  match Buffer.at_ i b with Ok v => v | Throw _ => 0 end.

Definition drop_front (n : Z) (b : Buffer.t) : Buffer.t :=
  match Buffer.remove_prefix n b with Ok b => b | Throw _ => b end.

(** [_parse_int<T>] for a [T] of [len] bytes. *)
Definition _parse_int (len : nat) (p : t) : Z * t :=
  let p := _check_size (Z.of_nat len) p in
  if error p then (0, p)
  else
    let uT x := x mod 2 ^ (8 * Z.of_nat len) in
    let ret := fold_left
      (fun ret i => uT (uT (Z.shiftl ret 8) + byte_at (Z.of_nat i) (_buffer p))) (seq 0 len) 0 in
    (ret, p <| _buffer := drop_front (Z.of_nat len) (_buffer p) |>).

Definition remove_prefix (n : Z) (p : t) : t :=
  let p := _check_size n p in
  if error p then p else p <| _buffer := drop_front n (_buffer p) |>.

Definition u32 (p : t) : Z * t := _parse_int 4 p.
Definition u16 (p : t) : Z * t := _parse_int 2 p.
Definition u8 (p : t) : Z * t := _parse_int 1 p.

(** ** Lemmas *)

(** A parser without error whose buffer holds the string [l]. *)
Record holds (p : t) (l : bytes) : Prop := {
  holds_wf : Buffer.wf (_buffer p);
  holds_str : Buffer.str (_buffer p) = l;
  holds_ok : _error p = NoError }.

Lemma make_holds l : zlen l < MAX64 -> holds (make (Buffer.of_string l)) l.
Proof. intros. split; simpl; [by apply Buffer.of_string_wf|by apply Buffer.str_of_string|done]. Qed.

Lemma drop_front_spec n b :
  Buffer.wf b -> 0 <= n <= zlen (Buffer.str b) ->
  Buffer.remove_prefix n b = Ok (drop_front n b) /\
  Buffer.wf (drop_front n b) /\ Buffer.str (drop_front n b) = zdrop n (Buffer.str b).
Proof.
  intros Hb Hn. unfold drop_front. pose proof (Buffer.remove_prefix_spec n b Hb) as H.
  replace (n <=? _) with true in H by lia. destruct H as (b' & -> & ? & ?); [lia|done].
Qed.

(** The loop of [_parse_int] never loses a bit. *)
Lemma parse_fold len l (uT := fun x => x mod 2 ^ (8 * Z.of_nat len)) :
  (length l <= len)%nat ->
  fold_left (fun ret b => uT (uT (Z.shiftl ret 8) + byte_val b)) l 0 = be_value l.
Proof.
  induction l as [|b l IH] using rev_ind; intros Hl; [done|].
  rewrite length_app in Hl. simpl in Hl. rewrite fold_left_app, be_value_snoc. simpl.
  rewrite IH by lia. pose proof (be_value_range l). pose proof (byte_val_range b).
  rewrite Z.shiftl_mul_pow2 by lia. change (2 ^ 8) with 256.
  assert (256 ^ zlen l * 256 <= 2 ^ (8 * Z.of_nat len)).
  { replace (2 ^ (8 * Z.of_nat len)) with (256 ^ Z.of_nat len) by (by rewrite Z.pow_mul_r by lia).
    rewrite Z.mul_comm, <- Z.pow_succ_r by apply zlen_nonneg. apply Z.pow_le_mono_r; unfold zlen; lia. }
  unfold uT. rewrite (Z.mod_small (_ * _)), Z.mod_small by nia. done.
Qed.

Lemma fold_seq_at {A} (f : A -> Z -> A) b a : forall len,
  (len <= length (Buffer.str b))%nat ->
  fold_left (fun ret i => f ret (byte_at (Z.of_nat i) b)) (seq 0 len) a =
  fold_left (fun ret c => f ret (byte_val c)) (take len (Buffer.str b)) a.
Proof.
  induction len as [|len IH]; intros Hl; [by rewrite take_0|].
  destruct (lookup_lt_is_Some_2 (Buffer.str b) len) as [c Hc]; [lia|].
  rewrite seq_S, (take_S_r _ _ c Hc), !fold_left_app, IH by lia. simpl. f_equal.
  unfold byte_at, Buffer.at_, zget. replace (Z.of_nat len <? 0) with false by lia.
  by rewrite Nat2Z.id, Hc.
Qed.

Lemma error_false p : _error p = NoError -> error p = false.
Proof. intros E. unfold error, get_error. rewrite E. apply bool_decide_eq_false_2; tauto. Qed.

Lemma check_size_ok n p : n <= zlen (Buffer.str (_buffer p)) -> _check_size n p = p.
Proof. intros. unfold _check_size, Buffer.size. by replace (_ <? _) with false by lia. Qed.

(** With enough bytes, [_parse_int] returns the big-endian value of the first
    [len] of them and removes them. *)
Lemma parse_int_spec len p l :
  holds p l -> Z.of_nat len <= zlen l ->
  exists p', _parse_int len p = (be_value (take len l), p') /\ holds p' (drop len l).
Proof.
  intros [Hwf Hstr Hok] Hl. unfold _parse_int. rewrite check_size_ok by (rewrite Hstr; lia).
  rewrite error_false by done. unfold zlen in Hl. rewrite <- Hstr in *.
  cbv zeta. rewrite (fold_seq_at (fun ret v => (Z.shiftl ret 8 mod 2 ^ (8 * Z.of_nat len) + v)
                                    mod 2 ^ (8 * Z.of_nat len))) by lia.
  rewrite (parse_fold len) by (rewrite length_take; lia).
  eexists. split; [done|].
  destruct (drop_front_spec (Z.of_nat len) (_buffer p)) as (_ & ? & Hs); [done|unfold zlen; lia|].
  split; simpl; [done| |done]. rewrite Hs. unfold zdrop. by rewrite Nat2Z.id.
Qed.

(** Reading back what [NetUnparser] wrote. *)
Lemma parse_int_app len p v l :
  holds p (be_bytes len v ++ l) -> 0 <= v < 256 ^ Z.of_nat len ->
  exists p', _parse_int len p = (v, p') /\ holds p' l.
Proof.
  intros H Hv. destruct (parse_int_spec len p _ H) as (p' & -> & H').
  { rewrite zlen_app, zlen_be_bytes. pose_zlen. lia. }
  exists p'. pose proof (length_be_bytes len v) as Hlen.
  rewrite take_app_le, take_ge, be_value_bytes, Z.mod_small in * by lia.
  rewrite drop_app_ge, Hlen, Nat.sub_diag in H' by lia. done.
Qed.

(** With too few bytes, it sets the error, returns 0 and removes nothing. *)
Lemma parse_int_short len p :
  zlen (Buffer.str (_buffer p)) < Z.of_nat len ->
  _parse_int len p = (0, p <| _error := PacketTooShort |>).
Proof.
  intros. unfold _parse_int, _check_size, Buffer.size. by replace (_ <? _) with true by lia.
Qed.

(** After an error every read returns 0 and the buffer no longer changes. *)
Lemma parse_int_error len p :
  _error p <> NoError ->
  exists e, e <> NoError /\ _parse_int len p = (0, p <| _error := e |>).
Proof.
  intros He. unfold _parse_int, _check_size. destruct (_ <? _).
  - by exists PacketTooShort.
  - exists (_error p). split; [done|]. unfold error, get_error.
    rewrite bool_decide_eq_true_2 by done. by destruct p.
Qed.

Lemma parser_remove_prefix_spec n p l :
  holds p l -> 0 <= n ->
  if n <=? zlen l then holds (remove_prefix n p) (zdrop n l)
  else remove_prefix n p = p <| _error := PacketTooShort |>.
Proof.
  intros [Hwf Hstr Hok] Hn. unfold remove_prefix, _check_size, Buffer.size. rewrite Hstr.
  destruct (n <=? zlen l) eqn:E.
  - replace (_ <? _) with false by lia. rewrite error_false by done.
    destruct (drop_front_spec n (_buffer p)) as (_ & ? & Hs); [done|rewrite Hstr; lia|].
    split; simpl; [done| |done]. by rewrite Hs, Hstr.
  - by replace (_ <? _) with true by lia.
Qed.

(** ** Reading fields at known offsets

    [tracks l k p]: [p] started on the string [l] and has been asked for [k]
    bytes so far.  [read l k n] is the value of the [n]-byte field at [k], 0
    when the string is too short for it. *)
Definition tracks (l : bytes) (k : Z) (p : t) : Prop :=
  if k <=? zlen l then holds p (zdrop k l) else _error p = PacketTooShort.

Definition read (l : bytes) (k n : Z) : Z :=
  if k + n <=? zlen l then be_value (substr l k n) else 0.

Lemma make_tracks l : zlen l < MAX64 -> tracks l 0 (make (Buffer.of_string l)).
Proof.
  intros H. unfold tracks. pose_zlen. replace (0 <=? _) with true by lia.
  rewrite zdrop_nonpos by lia. by apply make_holds.
Qed.

Lemma make_tracks_buffer b : Buffer.wf b -> tracks (Buffer.str b) 0 (make b).
Proof.
  intros H. unfold tracks. pose_zlen. replace (0 <=? _) with true by lia.
  rewrite zdrop_nonpos by lia. by split.
Qed.

Lemma parse_int_tracks n l k p :
  tracks l k p -> 0 <= k ->
  exists p', _parse_int n p = (read l k (Z.of_nat n), p') /\ tracks l (k + Z.of_nat n) p'.
Proof.
  unfold tracks, read. intros Hp Hk. destruct (k <=? zlen l) eqn:E.
  - destruct (k + Z.of_nat n <=? zlen l) eqn:E2.
    + destruct (parse_int_spec n p _ Hp) as (p' & -> & H); [zlia|]. exists p'. split; [|].
      * f_equal. unfold substr, ztake. by rewrite Nat2Z.id.
      * revert H. unfold zdrop. rewrite drop_drop. by replace (Z.to_nat (k + Z.of_nat n)) with (Z.to_nat k + n)%nat by lia.
    + rewrite parse_int_short; [eauto|]. destruct Hp as [_ -> _]. zlia.
  - replace (k + Z.of_nat n <=? zlen l) with false by lia. unfold _parse_int, _check_size.
    eexists. split; [|exact Hp]. destruct (_ <? _); unfold error, set_error, get_error; simpl;
      rewrite ?Hp; [|done]. destruct p; simpl in *; by subst.
Qed.

Lemma remove_prefix_tracks n l k p :
  tracks l k p -> 0 <= k -> 0 <= n -> tracks l (k + n) (remove_prefix n p).
Proof.
  unfold tracks. intros Hp Hk Hn. destruct (k <=? zlen l) eqn:E.
  - pose proof (parser_remove_prefix_spec n p _ Hp Hn) as H. rewrite zlen_zdrop in H.
    destruct (k + n <=? zlen l) eqn:E2.
    + replace (_ <=? _) with true in H by lia. by rewrite zdrop_zdrop in H by lia.
    + replace (_ <=? _) with false in H by lia. by rewrite H.
  - replace (k + n <=? zlen l) with false by lia. unfold remove_prefix, _check_size.
    destruct (_ <? _); unfold error, set_error, get_error; simpl; by rewrite ?Hp.
Qed.

Lemma tracks_get_error l k p :
  tracks l k p -> get_error p = if k <=? zlen l then NoError else PacketTooShort.
Proof. unfold tracks. destruct (_ <=? _); [by intros []|done]. Qed.

Lemma tracks_error l k p : tracks l k p -> error p = negb (k <=? zlen l).
Proof.
  intros H%tracks_get_error. unfold error. rewrite H. by destruct (_ <=? _).
Qed.

Lemma read_range l k n : 0 <= n -> 0 <= read l k n < 256 ^ n.
Proof.
  intros Hn. unfold read. assert (0 < 256 ^ n) by (apply Z.pow_pos_nonneg; lia).
  split_if; [|lia]. pose proof (be_value_range (substr l k n)) as H'.
  assert (256 ^ zlen (substr l k n) <= 256 ^ n) by (apply Z.pow_le_mono_r; zlia). lia.
Qed.

(** A field read from behind a prefix, and a field at the front. *)
Lemma read_app l k n l' : zlen l <= k -> 0 <= k - zlen l -> read (l ++ l') k n = read l' (k - zlen l) n.
Proof.
  intros. unfold read. rewrite zlen_app. pose_zlen.
  replace (k + n <=? zlen l + zlen l') with (k - zlen l + n <=? zlen l') by lia.
  split_if; [|done]. f_equal. unfold substr. f_equal. unfold zdrop. rewrite drop_app_ge by (unfold zlen in *; lia).
  f_equal. unfold zlen in *. lia.
Qed.

Lemma read_be_bytes n v l : 0 <= v < 256 ^ Z.of_nat n -> read (be_bytes n v ++ l) 0 (Z.of_nat n) = v.
Proof.
  intros. unfold read. rewrite zlen_app, zlen_be_bytes. pose_zlen. replace (_ <=? _) with true by lia.
  unfold substr. rewrite zdrop_nonpos by lia. rewrite <- (zlen_be_bytes n v) at 1.
  by rewrite ztake_app_exact, be_value_bytes, Z.mod_small.
Qed.

End NetParser.

(** [parse_step H] executes the next read of the goal, where [H : tracks l k p]. *)
Ltac parse_step H :=
  unfold NetParser.u8, NetParser.u16, NetParser.u32;
  lazymatch type of H with
  | NetParser.tracks ?l ?k ?p =>
      lazymatch goal with
      | |- context [NetParser._parse_int ?n p] =>
          let p' := fresh "p" in let H' := fresh H in let E := fresh "E" in
          let m := eval vm_compute in (Z.of_nat n) in
          let k' := eval vm_compute in (k + Z.of_nat n) in
          destruct (NetParser.parse_int_tracks n l k p H) as (p' & E & H'); [lia|];
          change (NetParser._parse_int n p = (NetParser.read l k m, p')) in E;
          change (NetParser.tracks l k' p') in H';
          rewrite E; clear H E; rename H' into H; cbv iota beta
      end
  end.

(** [read_field] computes a field of a string written with [NetUnparser]. *)
Ltac read_field :=
  repeat lazymatch goal with
  | |- context [NetParser.read (be_bytes ?n ?v ++ ?l) 0 ?m] =>
      let c := eval vm_compute in (256 ^ Z.of_nat n) in
      replace (NetParser.read (be_bytes n v ++ l) 0 m) with v
        by (symmetry; apply (NetParser.read_be_bytes n v l); change (256 ^ Z.of_nat n) with c; lia)
  | |- context [NetParser.read (be_bytes ?n ?v ++ ?l) ?k ?m] =>
      let k' := eval vm_compute in (k - Z.of_nat n) in
      replace (NetParser.read (be_bytes n v ++ l) k m) with (NetParser.read l k' m)
        by (rewrite (NetParser.read_app (be_bytes n v) k m l); rewrite zlen_be_bytes; [reflexivity|lia..])
  end.

Module NetUnparser.

(** [_unparse_int<T>] for a [T] of [len] bytes: [s.push_back] of each byte, most
    significant first. *)
Definition _unparse_int (len : nat) (val : Z) (s : bytes) : bytes :=
  fold_left
    (fun s i =>
       let the_byte := Z.land (Z.shiftr val ((Z.of_nat len - Z.of_nat i - 1) * 8)) 255 in
       s ++ [byte_of the_byte])
    (seq 0 len) s.

Definition u32 (val : Z) (s : bytes) : bytes := _unparse_int 4 val s.
Definition u16 (val : Z) (s : bytes) : bytes := _unparse_int 2 val s.
Definition u8 (val : Z) (s : bytes) : bytes := _unparse_int 1 val s.

Lemma byte_of_mod x : byte_of (x mod 256) = byte_of x.
Proof. unfold byte_of. f_equal. f_equal. f_equal. word. Qed.

Lemma the_byte_eq val k : 0 <= k -> byte_of (Z.land (Z.shiftr val (k * 8)) 255) = byte_of (val / 256 ^ k).
Proof.
  intros. change 255 with (Z.ones 8). rewrite Z.land_ones, Z.shiftr_div_pow2 by lia.
  change (2 ^ 8) with 256. rewrite byte_of_mod. f_equal. f_equal.
  rewrite Z.mul_comm, Z.pow_mul_r by lia. done.
Qed.

Lemma fold_push {A} (g : A -> byte) l : forall s,
  fold_left (fun s i => s ++ [g i]) l s = s ++ map g l.
Proof.
  induction l as [|i l IH]; intros s; simpl; [by rewrite app_nil_r|]. by rewrite IH, <- app_assoc.
Qed.

Lemma be_bytes_map n : forall v,
  be_bytes n v = map (fun i => byte_of (v / 256 ^ (Z.of_nat n - Z.of_nat i - 1))) (seq 0 n).
Proof.
  induction n as [|n IH]; intros v; [done|]. rewrite seq_S, map_app. cbn [be_bytes map]. f_equal.
  - rewrite IH. apply map_ext_in. intros i Hi%in_seq. f_equal.
    rewrite Z.div_div by (try apply Z.pow_pos_nonneg; lia). f_equal.
    rewrite <- Z.pow_succ_r by lia. f_equal. lia.
  - f_equal. f_equal. replace (_ - _ - 1) with 0 by lia. by rewrite Z.pow_0_r, Z.div_1_r.
Qed.

(** What one [u8]/[u16]/[u32] call appends. *)
Lemma unparse_int_app len val s : _unparse_int len val s = s ++ be_bytes len val.
Proof.
  unfold _unparse_int. rewrite fold_push, be_bytes_map. f_equal. apply map_ext_in.
  intros i Hi%in_seq. apply the_byte_eq. lia.
Qed.

Lemma u32_app val s : u32 val s = s ++ be_bytes 4 val.
Proof. apply unparse_int_app. Qed.
Lemma u16_app val s : u16 val s = s ++ be_bytes 2 val.
Proof. apply unparse_int_app. Qed.
Lemma u8_app val s : u8 val s = s ++ be_bytes 1 val.
Proof. apply unparse_int_app. Qed.

(** Integers survive the wire.  For every width the library uses, what
    [NetUnparser] appends for a value in range is read back by [NetParser]
    as the same value, leaving exactly the bytes that follow. *)
Theorem unparse_parse_roundtrip (len : nat) (val : Z) (rest : bytes) :
  (len = 1 \/ len = 2 \/ len = 4)%nat -> 0 <= val < 256 ^ Z.of_nat len -> zlen rest < MAX32 ->
  exists p',
    NetParser._parse_int len (NetParser.make (Buffer.of_string (_unparse_int len val [] ++ rest)))
      = (val, p') /\ NetParser.holds p' rest.
Proof.
  intros Hlen Hv Hrest. apply NetParser.parse_int_app; [|done].
  rewrite unparse_int_app, app_nil_l. apply NetParser.make_holds.
  rewrite zlen_app, zlen_be_bytes. lia.
Qed.

Lemma unparse_parse_roundtrip_witness :
  exists p',
    NetParser._parse_int 4 (NetParser.make (Buffer.of_string (_unparse_int 4 3735928559 [] ++ str "x")))
      = (3735928559, p') /\ NetParser.holds p' (str "x").
Proof. apply unparse_parse_roundtrip; [auto|vm_compute; intuition congruence|reflexivity]. Defined.

End NetUnparser.

Create Rewrite HintDb unparse.
#[export] Hint Rewrite NetUnparser.u32_app NetUnparser.u16_app NetUnparser.u8_app : unparse.

(** A read past the end is an error value, not an access.  When fewer bytes
    are left than the integer needs, [_parse_int] returns [0], sets
    [PacketTooShort] and consumes nothing, and from then on every later read
    returns [0] and keeps an error set. *)
Theorem parse_error_sticky (len : nat) (p : NetParser.t) :
  zlen (Buffer.str (NetParser._buffer p)) < Z.of_nat len ->
  NetParser._parse_int len p = (0, p <| NetParser._error := PacketTooShort |>) /\
  forall len', exists e, e <> NoError /\
    NetParser._parse_int len' (p <| NetParser._error := PacketTooShort |>) =
      (0, p <| NetParser._error := e |>).
Proof.
  intros H. split; [by apply NetParser.parse_int_short|]. intros len'.
  by destruct (NetParser.parse_int_error len' (p <| NetParser._error := PacketTooShort |>))
    as (e & ? & ?); [|exists e].
Qed.

Lemma parse_error_sticky_witness :
  let p := NetParser.make (Buffer.of_string (str "a")) in
  NetParser._parse_int 2 p = (0, p <| NetParser._error := PacketTooShort |>) /\
  forall len', exists e, e <> NoError /\
    NetParser._parse_int len' (p <| NetParser._error := PacketTooShort |>) =
      (0, p <| NetParser._error := e |>).
Proof. apply parse_error_sticky. reflexivity. Defined.

(** The table of [as_string] has no entry for [Unsupported]: printing that
    result reads past the end of the array. *)
Theorem as_string_out_of_bounds (r : ParseResult) : as_string r = None <-> r = Unsupported.
Proof. by destruct r. Qed.
