(* ===== verification/Checksum.v ===== *)
(** * The Internet checksum: class [InternetChecksum] of [libsponge/util/util.cc]

    The state is the 32-bit running sum and the parity of the number of bytes
    added.  [word_sum] is the sum of the 16-bit big-endian words of a string,
    [ones_complement] the 16-bit one's-complement value of a sum. *)
From S2P Require Import Prelude Parser.

Module InternetChecksum.

Record t := mk {
  _sum : Z;
  _parity : bool }.

#[global] Instance eta_t : Eta t := fun c => mk (_sum c) (_parity c).

Definition make (initial_sum : Z) : t := mk initial_sum false.

Definition add_byte (c : t) (b : byte) : t :=
  let val := byte_val b in
  let val := if negb (_parity c) then u16 (Z.shiftl val 8) else val in
  let c := c <| _sum := u32 (_sum c + val) |> in
  c <| _parity := negb (_parity c) |>.

Definition add (data : bytes) (c : t) : t := fold_left add_byte data c.

(** The [while (ret > 0xffff)] loop of [value]. *)
Fixpoint value_loop (fuel : nat) (ret : Z) : option Z :=
  match fuel with
  | O => None
  | S fuel =>
      if 65535 <? ret then value_loop fuel (u32 (Z.shiftr ret 16 + Z.land ret 65535))
      else Some ret
  end.

(** [return ~ret] converted to [uint16_t].  Two rounds always suffice
    ([value_loop_terminates]), so the fuel of three is never exhausted. *)
Definition value (c : t) : Z :=
  match value_loop 3 (_sum c) with
  | Some ret => u16 (Z.lnot ret)
  | None => 0
  end.

(** ** Specification *)

Fixpoint word_sum (parity : bool) (l : bytes) : Z :=
  match l with
  | [] => 0
  | b :: l => (if parity then byte_val b else 256 * byte_val b) + word_sum (negb parity) l
  end.

(** The one's-complement sum folded to 16 bits: 0 only for 0, else the
    representative in [1 .. 65535] modulo [65535]. *)
Definition ones_complement (s : Z) : Z := if s =? 0 then 0 else 1 + (s - 1) mod 65535.

(** ** Lemmas *)

Lemma word_sum_range l : forall par, 0 <= word_sum par l <= 65535 * zlen l.
Proof.
  induction l as [|b l IH]; intros par; simpl; [zlia|]. specialize (IH (negb par)).
  pose proof (byte_val_range b). rewrite zlen_cons. destruct par; lia.
Qed.

(** A sharper bound: two bytes add at most [65535]. *)
Lemma word_sum_half l :
  2 * word_sum false l <= 65535 * zlen l + 65025 /\ 2 * word_sum true l <= 65535 * zlen l.
Proof.
  induction l as [|b l [IH1 IH2]]; [split; vm_compute; congruence|].
  cbn [word_sum negb]. rewrite zlen_cons. pose proof (byte_val_range b). lia.
Qed.

Fixpoint flip (par : bool) (l : bytes) : bool :=
  match l with [] => par | _ :: l => flip (negb par) l end.

Lemma word_sum_app l1 : forall par l2,
  word_sum par (l1 ++ l2) = word_sum par l1 + word_sum (flip par l1) l2.
Proof. induction l1 as [|b l1 IH]; intros par l2; simpl; [done|]. rewrite IH. lia. Qed.

Lemma flip_even l : forall par, Z.even (zlen l) = true -> flip par l = par.
Proof.
  enough (forall par, flip par l = if Z.even (zlen l) then par else negb par) as H
    by (intros par E; by rewrite H, E).
  induction l as [|b l IH]; intros par; [done|].
  cbn [flip]. rewrite IH, zlen_cons, Z.even_add. simpl. destruct (Z.even (zlen l)), par; done.
Qed.

Lemma add_app l1 l2 c : add (l1 ++ l2) c = add l2 (add l1 c).
Proof. apply fold_left_app. Qed.

Lemma add_spec l : forall c,
  0 <= _sum c -> _sum c + word_sum (_parity c) l < MAX32 ->
  add l c = mk (_sum c + word_sum (_parity c) l) (flip (_parity c) l).
Proof.
  induction l as [|b l IH]; intros c H0 H; simpl in *; [rewrite Z.add_0_r; by destruct c|].
  pose proof (word_sum_range l (negb (_parity c))). pose proof (byte_val_range b).
  unfold add in *. simpl. rewrite IH; unfold add_byte; simpl; destruct (_parity c) eqn:E;
    simpl in *; rewrite ?Z.shiftl_mul_pow2, ?u32_small in * by lia;
    change (2 ^ 8) with 256 in *; rewrite ?u16_small, ?u32_small in * by lia; try lia.
  - f_equal. lia.
  - f_equal. lia.
Qed.

Lemma value_step ret : 0 <= ret < MAX32 -> 65535 < ret ->
  let ret' := u32 (Z.shiftr ret 16 + Z.land ret 65535) in
  0 < ret' < ret /\ ones_complement ret' = ones_complement ret /\
  (ret <= 131070 -> ret' <= 65535) /\ ret' <= 131070.
Proof.
  intros H1 H2. cbv zeta. change (Z.land ret 65535) with (Z.land ret (Z.ones 16)).
  rewrite Z.land_ones, Z.shiftr_div_pow2 by lia. change (2 ^ 16) with 65536.
  rewrite u32_small by word.
  assert (0 < ret / 65536 + ret mod 65536 < ret) by word.
  split_and!; try word. unfold ones_complement. repeat split_if; word.
Qed.

Lemma value_loop_terminates s :
  0 <= s < MAX32 -> value_loop 3 s = Some (ones_complement s).
Proof.
  assert (forall x, 0 <= x -> (65535 <? x) = false -> ones_complement x = x) as Hdone
    by (intros; unfold ones_complement; split_if; word).
  intros Hs. cbn [value_loop].
  destruct (65535 <? s) eqn:E0; [|by rewrite Hdone by lia].
  destruct (value_step s) as (? & <- & _ & ?); [lia..|]. set (s1 := u32 _) in *. clearbody s1.
  destruct (65535 <? s1) eqn:E1; [|by rewrite Hdone by lia].
  destruct (value_step s1) as (? & <- & Hlt & ?); [lia..|]. set (s2 := u32 _) in *. clearbody s2.
  replace (65535 <? s2) with false by lia. by rewrite Hdone by lia.
Qed.

Lemma ones_complement_range s : 0 <= s -> 0 <= ones_complement s <= 65535.
Proof. intros. unfold ones_complement. split_if; word. Qed.

Lemma value_eq c : 0 <= _sum c < MAX32 -> value c = 65535 - ones_complement (_sum c).
Proof.
  intros H. unfold value. rewrite value_loop_terminates by done.
  pose proof (ones_complement_range (_sum c)). unfold Z.lnot. word.
Qed.

Lemma value_zero_iff c : 0 <= _sum c < MAX32 ->
  value c = 0 <-> 0 < _sum c /\ _sum c mod 65535 = 0.
Proof.
  intros H. rewrite value_eq by done. unfold ones_complement. split_if; word.
Qed.

(** C36: [value] returns, for every 32-bit sum: the loop ends after at most two
    rounds and the result is the one's complement of the 16-bit one's-complement
    sum of the words added. *)
Theorem value_is_ones_complement (initial : Z) (l : bytes) :
  0 <= initial -> initial + word_sum false l < MAX32 ->
  value_loop 3 (_sum (add l (make initial))) = Some (ones_complement (initial + word_sum false l)) /\
  value (add l (make initial)) = 65535 - ones_complement (initial + word_sum false l).
Proof.
  intros H0 H. pose proof (word_sum_range l false). rewrite add_spec by done.
  cbn [_sum _parity make]. split; [by apply value_loop_terminates; lia|].
  apply value_eq. cbn [_sum]. lia.
Qed.

Lemma value_is_ones_complement_witness :
  value_loop 3 (_sum (add (str "abcde") (make 4294836000))) =
    Some (ones_complement (4294836000 + word_sum false (str "abcde"))) /\
  value (add (str "abcde") (make 4294836000)) =
    65535 - ones_complement (4294836000 + word_sum false (str "abcde")).
Proof. apply value_is_ones_complement; vm_compute; congruence. Defined.

Lemma value_u16 c : 0 <= value c < MAX16.
Proof. unfold value. destruct (value_loop _ _); [apply u16_range|done]. Qed.

(** The sum of a message that carries its own checksum. *)
Lemma value_self initial l1 l2 c :
  0 <= initial -> Z.even (zlen l1) = true ->
  initial + word_sum false (l1 ++ be_bytes 2 0 ++ l2) + 65535 < MAX32 ->
  c = value (add (l1 ++ be_bytes 2 0 ++ l2) (make initial)) ->
  value (add (l1 ++ be_bytes 2 c ++ l2) (make initial)) = 0.
Proof.
  intros H0 Heven Hb ->. set (s := initial + word_sum false (l1 ++ be_bytes 2 0 ++ l2)) in *.
  pose proof (word_sum_range (l1 ++ be_bytes 2 0 ++ l2) false).
  assert (forall c, 0 <= c <= 65535 -> initial + word_sum false (l1 ++ be_bytes 2 c ++ l2) = s + c) as Hs.
  { intros c Hc. unfold s. rewrite !word_sum_app. rewrite !(flip_even l1) by done.
    simpl. rewrite !byte_val_of. unfold u8. word. }
  rewrite (add_spec (_ ++ be_bytes 2 0 ++ _)) by (cbn [_sum _parity make]; lia).
  pose proof (ones_complement_range s) as Hr.
  cbn [_sum _parity make]. fold s.
  rewrite (value_eq {| _sum := s; _parity := _ |}) by (cbn [_sum]; lia). cbn [_sum].
  set (c := 65535 - ones_complement s). assert (0 <= c <= 65535) by lia.
  rewrite add_spec; cbn [_sum _parity make]; rewrite ?Hs by done; try lia.
  apply value_zero_iff; cbn [_sum]; [lia|].
  unfold c, ones_complement. split_if; word.
Qed.

(** A message verifies against the checksum computed for it.  Computing the
    checksum with the checksum field (at an even offset) zeroed and storing it
    there makes the check over the whole message return 0. *)
Theorem checksum_verifies (initial : Z) (l1 l2 : bytes) :
  0 <= initial -> Z.even (zlen l1) = true ->
  initial + word_sum false (l1 ++ be_bytes 2 0 ++ l2) + 65535 < MAX32 ->
  value (add (l1 ++ be_bytes 2 (value (add (l1 ++ be_bytes 2 0 ++ l2) (make initial))) ++ l2)
    (make initial)) = 0.
Proof. intros. by eapply value_self. Qed.

Lemma checksum_verifies_witness :
  value (add (str "ab" ++ be_bytes 2 (value (add (str "ab" ++ be_bytes 2 0 ++ str "xyz") (make 17)))
    ++ str "xyz") (make 17)) = 0.
Proof. apply checksum_verifies; vm_compute; congruence. Defined.

Lemma value_detects initial l1 l2 b b' :
  0 <= initial < 1048576 -> zlen l1 + zlen l2 < 131000 -> b <> b' ->
  value (add (l1 ++ b :: l2) (make initial)) = 0 ->
  value (add (l1 ++ b' :: l2) (make initial)) <> 0.
Proof.
  intros H0 Hb Hne.
  assert (byte_val b <> byte_val b') as Hv.
  { intros E. apply Hne. by rewrite <- (byte_of_val b), <- (byte_of_val b'), E. }
  pose proof (byte_val_range b). pose proof (byte_val_range b').
  pose proof (word_sum_range (l1 ++ b :: l2) false) as [? _].
  pose proof (word_sum_range (l1 ++ b' :: l2) false) as [? _].
  destruct (word_sum_half (l1 ++ b :: l2)) as [Hr _].
  destruct (word_sum_half (l1 ++ b' :: l2)) as [Hr' _].
  rewrite zlen_app, zlen_cons in Hr, Hr'.
  rewrite !add_spec by (simpl; lia). rewrite !value_zero_iff by (simpl; lia).
  cbn [_sum _parity make]. rewrite !word_sum_app in *. simpl. destruct (flip false l1); word.
Qed.

(** A damaged byte is detected.  If a message verifies, then no message that
    differs from it in the value of exactly one byte does. *)
Theorem checksum_detects_byte (initial : Z) (l1 l2 : bytes) (b b' : byte) :
  0 <= initial < 1048576 -> zlen l1 + zlen l2 < 131000 -> b <> b' ->
  value (add (l1 ++ b :: l2) (make initial)) = 0 ->
  value (add (l1 ++ b' :: l2) (make initial)) <> 0.
Proof. apply value_detects. Qed.

Lemma checksum_detects_byte_witness :
  value (add (str "ab" ++ Byte.x9e :: [Byte.x9d]) (make 0)) = 0 /\
  value (add (str "ab" ++ Byte.x9f :: [Byte.x9d]) (make 0)) <> 0.
Proof.
  split; [reflexivity|].
  apply (checksum_detects_byte 0 (str "ab") [Byte.x9d] Byte.x9e);
    try split; try done; vm_compute; congruence.
Defined.

End InternetChecksum.
