(* ===== verification/TCPSegment.v ===== *)
(** * TCP headers and segments: [tcp_helpers/tcp_header.hh/.cc], [tcp_segment.hh/.cc]

    [TCPHeader.parse] and [TCPHeader.serialize] are translated read by read and
    write by write; [TCPHeader.decode] and [TCPHeader.encode] are the wire format
    (field offsets) they are proved equal to.  [TCPSegment] adds the payload and
    the checksum. *)
From S2P Require Import Prelude Buffer Parser Checksum WrappingIntegers.
Import WrappingIntegers.

Module TCPHeader.

Definition LENGTH : Z := 20.

Record t := mk {
  sport : Z;
  dport : Z;
  seqno : WrappingInt32;
  ackno : WrappingInt32;
  doff : Z;
  urg : bool;
  ack : bool;
  psh : bool;
  rst : bool;
  syn : bool;
  fin : bool;
  win : Z;
  cksum : Z;
  uptr : Z }.

#[global] Instance eta_t : Eta t := fun h =>
  mk (sport h) (dport h) (seqno h) (ackno h) (doff h) (urg h) (ack h) (psh h) (rst h) (syn h)
    (fin h) (win h) (cksum h) (uptr h).

(** [TCPHeader{}]: the default member initialisers. *)
Definition default : t :=
  mk 0 0 (WrappingInt32_of 0) (WrappingInt32_of 0) (LENGTH / 4) false false false false false false
    0 0 0.

(** [static_cast<bool>(b & mask)]. *)
Definition flag (b mask : Z) : bool := negb (Z.land b mask =? 0).

(** [parse]: every field is assigned, whatever the header held before. *)
Definition parse (p : NetParser.t) : ParseResult * t * NetParser.t :=
  let '(sport, p) := NetParser.u16 p in
  let '(dport, p) := NetParser.u16 p in
  let '(seqno, p) := NetParser.u32 p in
  let '(ackno, p) := NetParser.u32 p in
  let '(off, p) := NetParser.u8 p in
  let doff := Z.shiftr off 4 in
  let '(fl_b, p) := NetParser.u8 p in
  let '(win, p) := NetParser.u16 p in
  let '(cksum, p) := NetParser.u16 p in
  let '(uptr, p) := NetParser.u16 p in
  let h := mk sport dport (WrappingInt32_of seqno) (WrappingInt32_of ackno) doff
             (flag fl_b 32) (flag fl_b 16) (flag fl_b 8) (flag fl_b 4) (flag fl_b 2) (flag fl_b 1)
             win cksum uptr in
  if doff <? 5 then (HeaderTooShort, h, p)
  else
    let p := NetParser.remove_prefix (doff * 4 - LENGTH) p in
    if NetParser.error p then (NetParser.get_error p, h, p) else (NoError, h, p).

Definition flags_byte (h : t) : Z :=
  Z.lor (Z.lor (Z.lor (Z.lor (Z.lor (if urg h then 32 else 0) (if ack h then 16 else 0))
    (if psh h then 8 else 0)) (if rst h then 4 else 0)) (if syn h then 2 else 0))
    (if fin h then 1 else 0).

Definition serialize (h : t) : outcome bytes :=
  if doff h <? 5 then Throw (runtime_error "TCP header too short")
  else
    let ret := [] in
    let ret := NetUnparser.u16 (sport h) ret in
    let ret := NetUnparser.u16 (dport h) ret in
    let ret := NetUnparser.u32 (raw_value (seqno h)) ret in
    let ret := NetUnparser.u32 (raw_value (ackno h)) ret in
    let ret := NetUnparser.u8 (u8 (Z.shiftl (doff h) 4)) ret in
    let fl_b := flags_byte h in
    let ret := NetUnparser.u8 fl_b ret in
    let ret := NetUnparser.u16 (win h) ret in
    let ret := NetUnparser.u16 (cksum h) ret in
    let ret := NetUnparser.u16 (uptr h) ret in
    Ok (resize (4 * doff h) ret).

(** [operator==]: leaves out the ports and the checksum. *)
Definition eqb (h other : t) : bool :=
  WrappingIntegers.eqb (seqno h) (seqno other) && WrappingIntegers.eqb (ackno h) (ackno other) &&
  (doff h =? doff other) && Bool.eqb (urg h) (urg other) && Bool.eqb (ack h) (ack other) &&
  Bool.eqb (psh h) (psh other) && Bool.eqb (rst h) (rst other) && Bool.eqb (syn h) (syn other) &&
  Bool.eqb (fin h) (fin other) && (win h =? win other) && (uptr h =? uptr other).

(** ** Well-formedness and the wire format *)

(** Every field in the range of its wire field. *)
Record wf (h : t) : Prop := {
  wf_sport : 0 <= sport h < MAX16;
  wf_dport : 0 <= dport h < MAX16;
  wf_seqno : WrappingIntegers.wf (seqno h);
  wf_ackno : WrappingIntegers.wf (ackno h);
  wf_doff : 0 <= doff h < 16;
  wf_win : 0 <= win h < MAX16;
  wf_cksum : 0 <= cksum h < MAX16;
  wf_uptr : 0 <= uptr h < MAX16 }.

Definition decode (l : bytes) : t :=
  let rd := NetParser.read l in
  let fl_b := rd 13 1 in
  mk (rd 0 2) (rd 2 2) (mkWrapping (rd 4 4)) (mkWrapping (rd 8 4)) (rd 12 1 / 16)
    (Z.testbit fl_b 5) (Z.testbit fl_b 4) (Z.testbit fl_b 3) (Z.testbit fl_b 2)
    (Z.testbit fl_b 1) (Z.testbit fl_b 0) (rd 14 2) (rd 16 2) (rd 18 2).

(** The part of the header before and after the checksum field. *)
Definition encode_head (h : t) : bytes :=
  be_bytes 2 (sport h) ++ be_bytes 2 (dport h) ++ be_bytes 4 (raw_value (seqno h)) ++
  be_bytes 4 (raw_value (ackno h)) ++ be_bytes 1 (u8 (16 * doff h)) ++ be_bytes 1 (flags_byte h) ++
  be_bytes 2 (win h).

Definition encode_tail (h : t) : bytes :=
  be_bytes 2 (uptr h) ++ replicate (Z.to_nat (4 * doff h - 20)) Corelib.Init.Byte.x00.

Definition encode (h : t) : bytes := encode_head h ++ be_bytes 2 (cksum h) ++ encode_tail h.

(** ** Lemmas *)

Lemma flag_testbit b n : 0 <= n -> flag b (2 ^ n) = Z.testbit b n.
Proof.
  intros Hn. unfold flag. destruct (Z.testbit b n) eqn:E.
  - apply negb_true_iff, Z.eqb_neq. intros H%(f_equal (fun x => Z.testbit x n)).
    by rewrite Z.land_spec, E, Z.pow2_bits_true, Z.bits_0 in H by lia.
  - apply negb_false_iff, Z.eqb_eq, Z.bits_inj_0. intros m. rewrite Z.land_spec.
    destruct (decide (m = n)) as [->|]; [by rewrite E|].
    by rewrite Z.pow2_bits_false, andb_false_r by lia.
Qed.

Lemma flag_32 b : flag b 32 = Z.testbit b 5.
Proof. by apply (flag_testbit b 5). Qed.
Lemma flag_16 b : flag b 16 = Z.testbit b 4.
Proof. by apply (flag_testbit b 4). Qed.
Lemma flag_8 b : flag b 8 = Z.testbit b 3.
Proof. by apply (flag_testbit b 3). Qed.
Lemma flag_4 b : flag b 4 = Z.testbit b 2.
Proof. by apply (flag_testbit b 2). Qed.
Lemma flag_2 b : flag b 2 = Z.testbit b 1.
Proof. by apply (flag_testbit b 1). Qed.
Lemma flag_1 b : flag b 1 = Z.testbit b 0.
Proof. by apply (flag_testbit b 0). Qed.

Lemma encode_head_length h : zlen (encode_head h) = 16.
Proof. unfold encode_head. rewrite !zlen_app, !zlen_be_bytes. done. Qed.

Lemma encode_length h : 5 <= doff h -> zlen (encode h) = 4 * doff h.
Proof.
  intros. unfold encode, encode_tail. rewrite !zlen_app, encode_head_length, !zlen_be_bytes.
  unfold zlen. rewrite length_replicate. lia.
Qed.

Lemma serialize_encode h : 5 <= doff h -> serialize h = Ok (encode h).
Proof.
  intros Hd. unfold serialize. replace (doff h <? 5) with false by lia. f_equal.
  cbv zeta. autorewrite with unparse. rewrite ?app_nil_l, <- ?app_assoc, Z.shiftl_mul_pow2 by lia.
  change (2 ^ 4) with 16. rewrite (Z.mul_comm _ 16). unfold resize.
  rewrite !zlen_app, !zlen_be_bytes.
  rewrite ztake_all by (rewrite !zlen_app, !zlen_be_bytes; lia).
  unfold encode, encode_head, encode_tail. by rewrite <- !app_assoc.
Qed.

Lemma serialize_throws h : doff h < 5 -> serialize h = Throw (runtime_error "TCP header too short").
Proof. intros. unfold serialize. by replace (doff h <? 5) with true by lia. Qed.

(** [parse] reads exactly the fields of the wire format. *)
Lemma parse_decode l p :
  NetParser.tracks l 0 p ->
  let h := decode l in
  exists p',
    if doff h <? 5 then parse p = (HeaderTooShort, h, p') /\ NetParser.tracks l 20 p'
    else
      parse p = (if 4 * doff h <=? zlen l then NoError else PacketTooShort, h, p') /\
      NetParser.tracks l (4 * doff h) p'.
Proof.
  intros H. unfold parse. cbv zeta. do 9 parse_step H.
  rewrite flag_32, flag_16, flag_8, flag_4, flag_2, flag_1.
  pose proof (NetParser.read_range l 4 4 ltac:(lia)). pose proof (NetParser.read_range l 8 4 ltac:(lia)).
  change (256 ^ 4) with MAX32 in *. unfold WrappingInt32_of. rewrite !u32_small by lia.
  rewrite Z.shiftr_div_pow2 by lia. change (2 ^ 4) with 16. fold (decode l).
  change (NetParser.read l 12 1 / 16) with (doff (decode l)).
  destruct (doff (decode l) <? 5) eqn:E; [by eexists|].
  set (n := doff (decode l) * 4 - LENGTH). unfold LENGTH in n.
  apply (NetParser.remove_prefix_tracks n) in H; [|lia..].
  replace (20 + n) with (4 * doff (decode l)) in H by lia.
  rewrite (NetParser.tracks_error _ _ _ H), (NetParser.tracks_get_error _ _ _ H).
  eexists. split; [|exact H]. by destruct (_ <=? _).
Qed.

Lemma flags_byte_range h : 0 <= flags_byte h < 64.
Proof. unfold flags_byte. destruct (urg h), (ack h), (psh h), (rst h), (syn h), (fin h); vm_compute; intuition congruence. Qed.

Lemma decode_encode h rest : wf h -> 5 <= doff h -> decode (encode h ++ rest) = h.
Proof.
  intros [? ? Hs Ha ? ? ? ?] Hd. unfold decode, encode, encode_head, encode_tail. rewrite <- !app_assoc.
  pose proof (flags_byte_range h). pose proof (u8_range (16 * doff h)).
  unfold WrappingIntegers.wf in *. cbv zeta.
  repeat read_field. rewrite u8_small by lia. rewrite (Z.mul_comm 16), Z.div_mul by lia.
  destruct h as [? ? [] [] ? f1 f2 f3 f4 f5 f6 ? ? ?]; simpl. unfold flags_byte. simpl.
  f_equal; destruct f1, f2, f3, f4, f5, f6; reflexivity.
Qed.

Lemma decode_wf l : wf (decode l).
Proof.
  assert (forall k n, 0 <= n -> 0 <= NetParser.read l k n < 256 ^ n) as Hr by
    (intros; by apply NetParser.read_range).
  split; cbn [decode sport dport seqno ackno doff win cksum uptr]; unfold WrappingIntegers.wf;
    cbn [raw_value]; try (by apply (Hr _ 2)); try (by apply (Hr _ 4)).
  pose proof (Hr 12 1 ltac:(lia)). change (256 ^ 1) with 256 in *. word.
Qed.

(** Header fields survive the wire.  Serialising a header whose fields are
    in range and parsing the bytes, whatever follows them, returns [NoError], the
    same header in every field, and leaves exactly the following bytes. *)
Theorem tcp_header_roundtrip (h : t) (rest : bytes) :
  wf h -> 5 <= doff h -> zlen rest < MAX32 ->
  exists s p',
    serialize h = Ok s /\ zlen s = 4 * doff h /\
    parse (NetParser.make (Buffer.of_string (s ++ rest))) = (NoError, h, p') /\
    NetParser.holds p' rest.
Proof.
  intros Hwf Hd Hrest. pose proof (encode_length h Hd) as Hlen. pose proof (wf_doff h Hwf) as Hd16.
  destruct (parse_decode (encode h ++ rest) (NetParser.make (Buffer.of_string (encode h ++ rest))))
    as [p' H]; [apply NetParser.make_tracks; rewrite zlen_app; lia|].
  cbv zeta in H. rewrite decode_encode in H by done. replace (doff h <? 5) with false in H by lia.
  unfold NetParser.tracks in H. rewrite zlen_app in H. pose_zlen.
  replace (4 * doff h <=? _) with true in H by lia. destruct H as [Hp Hrst].
  rewrite <- Hlen, zdrop_app_exact in Hrst. rewrite Hlen in *.
  exists (encode h), p'. by rewrite serialize_encode by done.
Qed.

Lemma tcp_header_roundtrip_witness :
  let h := mk 80 4321 (mkWrapping 4294967295) (mkWrapping 7) 6 true false true false true true 512 9 3 in
  exists s p',
    serialize h = Ok s /\ zlen s = 4 * doff h /\
    parse (NetParser.make (Buffer.of_string (s ++ str "data"))) = (NoError, h, p') /\
    NetParser.holds p' (str "data").
Proof.
  apply tcp_header_roundtrip; [|vm_compute; congruence|reflexivity].
  split; vm_compute; intuition congruence.
Defined.

(** C32: parsing a header is total and its verdict is exactly the format's rule.
    On any string, [parse] yields the fields at their offsets (0 where the string
    ends), all in range; the result is [HeaderTooShort] when the data offset is
    below 5, [PacketTooShort] when the string is shorter than the data offset
    claims, and otherwise [NoError] with options and padding skipped. *)
Theorem tcp_header_parse_total (l : bytes) :
  zlen l < MAX64 ->
  let h := decode l in
  wf h /\
  exists p',
    parse (NetParser.make (Buffer.of_string l)) =
      (if doff h <? 5 then HeaderTooShort
       else if 4 * doff h <=? zlen l then NoError else PacketTooShort, h, p') /\
    (5 <= doff h -> 4 * doff h <= zlen l -> NetParser.holds p' (zdrop (4 * doff h) l)).
Proof.
  intros Hl. cbv zeta. split; [apply decode_wf|].
  destruct (parse_decode l (NetParser.make (Buffer.of_string l))) as [p' H];
    [by apply NetParser.make_tracks|].
  cbv zeta in H. exists p'. destruct (doff (decode l) <? 5) eqn:E; destruct H as [-> H];
    (split; [done|]); intros; [lia|].
  unfold NetParser.tracks in H. by replace (_ <=? _) with true in H by lia.
Qed.

Lemma tcp_header_parse_total_witness :
  let l := str "a header that is much longer than its 24 bytes" in
  let h := decode l in
  wf h /\
  exists p',
    parse (NetParser.make (Buffer.of_string l)) =
      (if doff h <? 5 then HeaderTooShort
       else if 4 * doff h <=? zlen l then NoError else PacketTooShort, h, p') /\
    (5 <= doff h -> 4 * doff h <= zlen l -> NetParser.holds p' (zdrop (4 * doff h) l)).
Proof. apply tcp_header_parse_total. reflexivity. Defined.

End TCPHeader.

Module TCPSegment.

Record t := mk {
  _header : TCPHeader.t;
  _payload : Buffer.t }.

#[global] Instance eta_t : Eta t := fun s => mk (_header s) (_payload s).

Definition default : t := mk TCPHeader.default Buffer.default.

Definition header (s : t) : TCPHeader.t := _header s.
Definition payload (s : t) : Buffer.t := _payload s.

(** [parse]: the result of [_header.parse] is not used. *)
Definition parse (buffer : Buffer.t) (datagram_layer_checksum : Z) (s : t) : ParseResult * t :=
  let check := InternetChecksum.make datagram_layer_checksum in
  let check := InternetChecksum.add (Buffer.str buffer) check in
  if negb (InternetChecksum.value check =? 0) then (BadChecksum, s)
  else
    let p := NetParser.make buffer in
    let '(_, h, p) := TCPHeader.parse p in
    let s := s <| _header := h |> in
    let s := s <| _payload := NetParser.buffer p |> in
    (NetParser.get_error p, s).

Definition length_in_sequence_space (s : t) : Z :=
  u64 (zlen (Buffer.str (payload s)) + (if TCPHeader.syn (header s) then 1 else 0)
       + (if TCPHeader.fin (header s) then 1 else 0)).

Definition serialize (datagram_layer_checksum : Z) (s : t) : outcome BufferList.t :=
  let header_out := _header s in
  let header_out := header_out <| TCPHeader.cksum := 0 |> in
  let check := InternetChecksum.make datagram_layer_checksum in
  let! hdr := TCPHeader.serialize header_out in
  let check := InternetChecksum.add hdr check in
  let check := InternetChecksum.add (Buffer.str (_payload s)) check in
  let header_out := header_out <| TCPHeader.cksum := InternetChecksum.value check |> in
  let! hdr := TCPHeader.serialize header_out in
  let ret := BufferList.append (BufferList.of_string hdr) [] in
  let ret := BufferList.append (BufferList.of_buffer (_payload s)) ret in
  Ok ret.

(** ** Lemmas *)

(** What one segment looks like on the wire. *)
Definition wire (d : Z) (s : t) : bytes :=
  let h := header s in
  let pl := Buffer.str (payload s) in
  let c := InternetChecksum.value (InternetChecksum.add
             (TCPHeader.encode_head h ++ be_bytes 2 0 ++ TCPHeader.encode_tail h ++ pl)
             (InternetChecksum.make d)) in
  TCPHeader.encode_head h ++ be_bytes 2 c ++ TCPHeader.encode_tail h ++ pl.

Lemma serialize_wire d s :
  5 <= TCPHeader.doff (header s) -> TCPHeader.doff (header s) < 16 ->
  exists bl, serialize d s = Ok bl /\ BufferList.concatenate bl = wire d s.
Proof.
  intros H1 H2. unfold serialize, header in *. set (h := _header s) in *.
  rewrite TCPHeader.serialize_encode by done. cbn [obind].
  rewrite <- InternetChecksum.add_app. unfold TCPHeader.encode at 1. rewrite <- !app_assoc.
  set (c := InternetChecksum.value _).
  rewrite TCPHeader.serialize_encode by done. cbn [obind].
  eexists. split; [done|]. unfold BufferList.of_buffer, BufferList.of_string.
  rewrite !BufferList.concatenate_append, !BufferList.concatenate_cons.
  rewrite Buffer.str_of_string by
    (rewrite TCPHeader.encode_length by done; change (TCPHeader.doff _) with (TCPHeader.doff h); lia).
  change (BufferList.concatenate []) with (@nil byte). rewrite ?app_nil_l, ?app_nil_r.
  unfold wire, TCPHeader.encode. by rewrite <- !app_assoc.
Qed.

(** Where the payload starts, as the code computes it. *)
Definition payload_start (h : TCPHeader.t) : Z :=
  if TCPHeader.doff h <? 5 then 20 else 4 * TCPHeader.doff h.

Definition checks (d : Z) (l : bytes) : Prop :=
  InternetChecksum.value (InternetChecksum.add l (InternetChecksum.make d)) = 0.

Lemma parse_bad b d s : ~ checks d (Buffer.str b) -> parse b d s = (BadChecksum, s).
Proof. unfold checks, parse. intros. by replace (_ =? 0) with false by lia. Qed.

Lemma parse_good b d s l :
  Buffer.wf b -> Buffer.str b = l -> checks d l ->
  let h := TCPHeader.decode l in
  exists pl,
    parse b d s = (if payload_start h <=? zlen l then NoError else PacketTooShort, mk h pl) /\
    (payload_start h <= zlen l -> Buffer.wf pl /\ Buffer.str pl = zdrop (payload_start h) l).
Proof.
  unfold checks, parse. intros Hb <- ->. cbn [Z.eqb negb].
  destruct (TCPHeader.parse_decode (Buffer.str b) (NetParser.make b)) as [p' H];
    [by apply NetParser.make_tracks_buffer|]. cbv zeta in *.
  exists (NetParser.buffer p'). unfold payload_start. set (h := TCPHeader.decode _) in *.
  destruct (TCPHeader.doff h <? 5); destruct H as [-> H];
    rewrite (NetParser.tracks_get_error _ _ _ H); (split; [by destruct s|]); intros Hle;
    unfold NetParser.tracks in H; rewrite (proj2 (Z.leb_le _ _) Hle) in H; by destruct H.
Qed.

(** The segments the library can put on the wire. *)
Record wf (s : t) : Prop := {
  wf_header : TCPHeader.wf (header s);
  wf_doff : 5 <= TCPHeader.doff (header s);
  wf_payload : zlen (Buffer.str (payload s)) < MAX16 }.

Lemma wire_length d s : wf s ->
  zlen (wire d s) = 4 * TCPHeader.doff (header s) + zlen (Buffer.str (payload s)).
Proof.
  intros [_ ? _]. unfold wire, TCPHeader.encode_tail.
  rewrite !zlen_app, TCPHeader.encode_head_length, !zlen_be_bytes.
  unfold zlen at 1. rewrite length_replicate. lia.
Qed.

Lemma wire_checks d s : wf s -> 0 <= d < 1048576 -> checks d (wire d s).
Proof.
  intros Hwf Hd. unfold checks, wire. cbv zeta.
  set (l2 := TCPHeader.encode_tail (header s) ++ _).
  eapply (InternetChecksum.value_self _ _ l2); [lia| | |done].
  - by rewrite TCPHeader.encode_head_length.
  - destruct (InternetChecksum.word_sum_half (TCPHeader.encode_head (header s) ++ be_bytes 2 0 ++ l2))
      as [Hh _].
    pose proof (wire_length d s Hwf) as Hlen. unfold wire in Hlen. fold l2 in Hlen.
    rewrite !zlen_app, !zlen_be_bytes in *. rewrite Hlen in Hh.
    destruct Hwf as [[] ? ?]. lia.
Qed.

Lemma wire_decode d s : wf s ->
  exists c, TCPHeader.decode (wire d s) = (header s) <| TCPHeader.cksum := c |>.
Proof.
  intros [Hwf ? ?]. unfold wire. cbv zeta. set (c := InternetChecksum.value _).
  pose proof (InternetChecksum.value_u16 _ : 0 <= c < _). exists c. set (h := (header s) <| TCPHeader.cksum := c |>).
  rewrite <- (TCPHeader.decode_encode h (Buffer.str (payload s))); [|by destruct Hwf; split|done].
  unfold TCPHeader.encode. by rewrite <- !app_assoc.
Qed.

(** Parsing the wire form of a segment gives the segment back. *)
Lemma wire_parse d s s0 b :
  wf s -> 0 <= d < 1048576 -> Buffer.wf b -> Buffer.str b = wire d s ->
  exists c pl,
    parse b d s0 = (NoError, mk ((header s) <| TCPHeader.cksum := c |>) pl) /\
    Buffer.wf pl /\ Buffer.str pl = Buffer.str (payload s).
Proof.
  intros Hwf Hd Hb Hstr. destruct (parse_good b d s0 _ Hb Hstr) as (pl & -> & Hpl).
  { by apply wire_checks. }
  destruct (wire_decode d s Hwf) as [c Hc]. exists c, pl.
  pose proof (wire_length d s Hwf) as Hlen. rewrite Hc in *.
  unfold payload_start in *. cbn [modify TCPHeader.doff] in *. pose proof (wf_doff s Hwf).
  replace (TCPHeader.doff (header s) <? 5) with false in * by lia. pose_zlen.
  replace (_ <=? _) with true by lia. destruct Hpl as [? ->]; [lia|]. split_and!; [done..|].
  revert Hlen. unfold wire. cbv zeta. rewrite !app_assoc, zlen_app. set (front := _ ++ TCPHeader.encode_tail _).
  intros Hlen. replace (4 * _) with (zlen front) by lia. apply zdrop_app_exact.
Qed.

Lemma wire_damaged d s l1 l2 b b' :
  wf s -> 0 <= d < 1048576 -> wire d s = l1 ++ b :: l2 -> b <> b' -> ~ checks d (l1 ++ b' :: l2).
Proof.
  intros Hwf Hd E Hne. pose proof (wire_checks d s Hwf Hd) as Hc. rewrite E in Hc.
  pose proof (wire_length d s Hwf) as Hlen. rewrite E, zlen_app, zlen_cons in Hlen.
  destruct Hwf as [[] ? ?].
  eapply (InternetChecksum.value_detects d l1 l2 b b'); [done|lia|done|exact Hc].
Qed.

(** C30: a segment survives the wire.  For every segment with fields in range and
    a payload below 64 KiB, [serialize] succeeds, and [parse] of the resulting
    bytes with the same pseudo-header sum accepts them and returns the same
    header (up to the checksum field it filled in) and the same payload. *)
Theorem tcp_segment_roundtrip (d : Z) (s : t) :
  wf s -> 0 <= d < 1048576 ->
  exists bl s',
    serialize d s = Ok bl /\
    parse (Buffer.of_string (BufferList.concatenate bl)) d default = (NoError, s') /\
    (header s') <| TCPHeader.cksum := 0 |> = (header s) <| TCPHeader.cksum := 0 |> /\
    Buffer.str (payload s') = Buffer.str (payload s) /\
    length_in_sequence_space s' = length_in_sequence_space s.
Proof.
  intros Hwf Hd. pose proof (TCPHeader.wf_doff _ (wf_header s Hwf)).
  destruct (serialize_wire d s (wf_doff s Hwf)) as (bl & -> & Hbl); [lia|].
  pose proof (wire_length d s Hwf) as Hlen. pose proof (wf_payload s Hwf).
  destruct (wire_parse d s default (Buffer.of_string (wire d s))) as (c & pl & E & _ & Hpl);
    [done..|apply Buffer.of_string_wf; lia|apply Buffer.str_of_string; lia|].
  rewrite <- Hbl in E. eexists bl, _. rewrite E. split_and!; [done..|].
  unfold length_in_sequence_space. cbn [payload header _payload _header modify TCPHeader.syn TCPHeader.fin].
  by rewrite Hpl.
Qed.

Definition sample : t :=
  mk (TCPHeader.mk 80 4321 (mkWrapping 4294967295) (mkWrapping 7) 6 true false true false true true
        512 9 3) (Buffer.of_string (str "payload")).

Lemma sample_wf : wf sample.
Proof. repeat split; vm_compute; congruence. Qed.

Lemma tcp_segment_roundtrip_witness :
  exists bl s',
    serialize 1000 sample = Ok bl /\
    parse (Buffer.of_string (BufferList.concatenate bl)) 1000 default = (NoError, s') /\
    (header s') <| TCPHeader.cksum := 0 |> = (header sample) <| TCPHeader.cksum := 0 |> /\
    Buffer.str (payload s') = Buffer.str (payload sample) /\
    length_in_sequence_space s' = length_in_sequence_space sample.
Proof. apply tcp_segment_roundtrip; [apply sample_wf|lia]. Defined.

(** C31: damage to one byte of a segment on the wire is caught: whatever byte of
    the serialised segment is replaced by another value, [parse] answers
    [BadChecksum] and leaves the receiving object as it was. *)
Theorem tcp_segment_damage_detected (d : Z) (s s0 : t) (bl : BufferList.t) (l1 l2 : bytes) (b b' : byte) :
  wf s -> 0 <= d < 1048576 ->
  serialize d s = Ok bl -> BufferList.concatenate bl = l1 ++ b :: l2 -> b <> b' ->
  parse (Buffer.of_string (l1 ++ b' :: l2)) d s0 = (BadChecksum, s0).
Proof.
  intros Hwf Hd Hbl E Hne. pose proof (TCPHeader.wf_doff _ (wf_header s Hwf)).
  destruct (serialize_wire d s (wf_doff s Hwf)) as (bl' & E' & Hw); [lia|].
  assert (bl' = bl) as -> by congruence. rewrite Hw in E.
  pose proof (wire_length d s Hwf) as Hlen. pose proof (wf_payload s Hwf).
  rewrite E, zlen_app, zlen_cons in Hlen.
  apply parse_bad. rewrite Buffer.str_of_string by (rewrite zlen_app, zlen_cons; lia).
  by eapply wire_damaged.
Qed.

Lemma tcp_segment_damage_detected_witness :
  parse (Buffer.of_string (be_bytes 2 80 ++ Corelib.Init.Byte.x00 :: drop 3 (wire 1000 sample))) 1000 default
    = (BadChecksum, default).
Proof.
  destruct (serialize_wire 1000 sample) as (bl & E & Hw); [vm_compute; congruence|reflexivity|].
  apply (tcp_segment_damage_detected 1000 sample default bl _ _ Corelib.Init.Byte.x10).
  - apply sample_wf.
  - lia.
  - exact E.
  - rewrite Hw. vm_compute. reflexivity.
  - discriminate.
Defined.

(** The data-offset check of [TCPHeader::parse] has no effect on segments.
    [TCPSegment::parse] drops its result and returns the parser's own error, so a
    string of at least 20 bytes with a matching checksum and a data offset below
    5 is accepted, with everything after byte 20 as payload. *)
Theorem short_data_offset_accepted (d : Z) (s : t) (l : bytes) :
  zlen l < MAX64 -> 20 <= zlen l -> TCPHeader.doff (TCPHeader.decode l) < 5 -> checks d l ->
  (exists p', TCPHeader.parse (NetParser.make (Buffer.of_string l)) =
     (HeaderTooShort, TCPHeader.decode l, p')) /\
  exists s', parse (Buffer.of_string l) d s = (NoError, s') /\ Buffer.str (payload s') = zdrop 20 l.
Proof.
  intros Hl H20 Hd Hc. split.
  - destruct (TCPHeader.parse_decode l (NetParser.make (Buffer.of_string l))) as [p' H];
      [by apply NetParser.make_tracks|].
    cbv zeta in H. replace (TCPHeader.doff _ <? 5) with true in H by lia. by exists p'; destruct H.
  - destruct (parse_good (Buffer.of_string l) d s l) as (pl & -> & H);
      [by apply Buffer.of_string_wf|by apply Buffer.str_of_string|done|].
    unfold payload_start in *. replace (TCPHeader.doff _ <? 5) with true in * by lia.
    replace (20 <=? zlen l) with true by lia. eexists. split; [done|]. by apply H.
Qed.

Lemma short_data_offset_accepted_witness :
  let l := be_bytes 16 0 ++ be_bytes 2 65535 ++ be_bytes 2 0 in
  (exists p', TCPHeader.parse (NetParser.make (Buffer.of_string l)) =
     (HeaderTooShort, TCPHeader.decode l, p')) /\
  exists s', parse (Buffer.of_string l) 0 default = (NoError, s') /\ Buffer.str (payload s') = zdrop 20 l.
Proof. apply short_data_offset_accepted; vm_compute; congruence. Defined.

End TCPSegment.
