(* ===== verification/IPv4.v ===== *)
(** * IPv4 headers and datagrams: [tcp_helpers/ipv4_header.hh/.cc], [ipv4_datagram.hh/.cc]

    As for TCP, [IPv4Header.parse] and [IPv4Header.serialize] follow the code and
    [IPv4Header.decode] and [IPv4Header.encode] give the wire format. *)
From S2P Require Import Prelude Buffer Parser Checksum TCPSegment.

Module IPv4Header.

Definition LENGTH : Z := 20.
Definition DEFAULT_TTL : Z := 128.
Definition PROTO_TCP : Z := 6.

Record t := mk {
  ver : Z;
  hlen : Z;
  tos : Z;
  len : Z;
  id : Z;
  df : bool;
  mf : bool;
  offset : Z;
  ttl : Z;
  proto : Z;
  cksum : Z;
  src : Z;
  dst : Z }.

#[global] Instance eta_t : Eta t := fun h =>
  mk (ver h) (hlen h) (tos h) (len h) (id h) (df h) (mf h) (offset h) (ttl h) (proto h) (cksum h)
    (src h) (dst h).

Definition default : t := mk 4 (LENGTH / 4) 0 0 0 true false 0 DEFAULT_TTL PROTO_TCP 0 0 0.

(** [parse]: the first check returns before any field of [h] is assigned. *)
Definition parse (p : NetParser.t) (h : t) : ParseResult * t * NetParser.t :=
  let original_serialized_version := NetParser.buffer p in
  let data_size := Buffer.size (NetParser.buffer p) in
  if data_size <? LENGTH then (PacketTooShort, h, p)
  else
    let '(first_byte, p) := NetParser.u8 p in
    let '(tos, p) := NetParser.u8 p in
    let '(len, p) := NetParser.u16 p in
    let '(id, p) := NetParser.u16 p in
    let '(fo_val, p) := NetParser.u16 p in
    let '(ttl, p) := NetParser.u8 p in
    let '(proto, p) := NetParser.u8 p in
    let '(cksum, p) := NetParser.u16 p in
    let '(src, p) := NetParser.u32 p in
    let '(dst, p) := NetParser.u32 p in
    let h := mk (Z.shiftr first_byte 4) (Z.land first_byte 15) tos len id
               (TCPHeader.flag fo_val 16384) (TCPHeader.flag fo_val 8192) (Z.land fo_val 8191)
               ttl proto cksum src dst in
    if data_size <? 4 * hlen h then (PacketTooShort, h, p)
    else if negb (ver h =? 4) then (WrongIPVersion, h, p)
    else if hlen h <? 5 then (HeaderTooShort, h, p)
    else if negb (data_size =? len) then (TruncatedPacket, h, p)
    else
      let p := NetParser.remove_prefix (hlen h * 4 - LENGTH) p in
      if NetParser.error p then (NetParser.get_error p, h, p)
      else
        let check := InternetChecksum.make 0 in
        let check := InternetChecksum.add
          (ztake (4 * hlen h) (Buffer.str original_serialized_version)) check in
        if negb (InternetChecksum.value check =? 0) then (BadChecksum, h, p) else (NoError, h, p).

Definition first_byte (h : t) : Z := u8 (Z.lor (Z.shiftl (ver h) 4) (Z.land (hlen h) 15)).

Definition fo_val (h : t) : Z :=
  Z.lor (Z.lor (if df h then 16384 else 0) (if mf h then 8192 else 0)) (Z.land (offset h) 8191).

Definition serialize (h : t) : outcome bytes :=
  if negb (ver h =? 4) then Throw (runtime_error "wrong IP version")
  else if 4 * hlen h <? LENGTH then Throw (runtime_error "IP header too short")
  else
    let ret := [] in
    let ret := NetUnparser.u8 (first_byte h) ret in
    let ret := NetUnparser.u8 (tos h) ret in
    let ret := NetUnparser.u16 (len h) ret in
    let ret := NetUnparser.u16 (id h) ret in
    let ret := NetUnparser.u16 (fo_val h) ret in
    let ret := NetUnparser.u8 (ttl h) ret in
    let ret := NetUnparser.u8 (proto h) ret in
    let ret := NetUnparser.u16 (cksum h) ret in
    let ret := NetUnparser.u32 (src h) ret in
    let ret := NetUnparser.u32 (dst h) ret in
    Ok (resize (4 * hlen h) ret).

Definition payload_length (h : t) : Z := u16 (len h - 4 * hlen h).

Definition pseudo_cksum (h : t) : Z :=
  let pcksum := u32 (Z.shiftr (src h) 16 + Z.land (src h) 65535) in
  let pcksum := u32 (pcksum + u32 (Z.shiftr (dst h) 16 + Z.land (dst h) 65535)) in
  let pcksum := u32 (pcksum + proto h) in
  let pcksum := u32 (pcksum + payload_length h) in
  pcksum.

(** ** Well-formedness and the wire format *)

Record wf (h : t) : Prop := {
  wf_ver : 0 <= ver h < 16;
  wf_hlen : 0 <= hlen h < 16;
  wf_tos : 0 <= tos h < MAX8;
  wf_len : 0 <= len h < MAX16;
  wf_id : 0 <= id h < MAX16;
  wf_offset : 0 <= offset h < 8192;
  wf_ttl : 0 <= ttl h < MAX8;
  wf_proto : 0 <= proto h < MAX8;
  wf_cksum : 0 <= cksum h < MAX16;
  wf_src : 0 <= src h < MAX32;
  wf_dst : 0 <= dst h < MAX32 }.

Definition decode (l : bytes) : t :=
  let rd := NetParser.read l in
  mk (rd 0 1 / 16) (rd 0 1 mod 16) (rd 1 1) (rd 2 2) (rd 4 2)
    (Z.testbit (rd 6 2) 14) (Z.testbit (rd 6 2) 13) (rd 6 2 mod 8192)
    (rd 8 1) (rd 9 1) (rd 10 2) (rd 12 4) (rd 16 4).

Definition encode_head (h : t) : bytes :=
  be_bytes 1 (16 * ver h + hlen h) ++ be_bytes 1 (tos h) ++ be_bytes 2 (len h) ++
  be_bytes 2 (id h) ++ be_bytes 2 (fo_val h) ++ be_bytes 1 (ttl h) ++ be_bytes 1 (proto h).

Definition encode_tail (h : t) : bytes :=
  be_bytes 4 (src h) ++ be_bytes 4 (dst h) ++
  replicate (Z.to_nat (4 * hlen h - 20)) Corelib.Init.Byte.x00.

Definition encode (h : t) : bytes := encode_head h ++ be_bytes 2 (cksum h) ++ encode_tail h.

(** ** Lemmas *)

Lemma land_ones_mod x n : 0 <= n -> Z.land x (2 ^ n - 1) = x mod 2 ^ n.
Proof. intros. rewrite <- Z.land_ones by lia. by rewrite Z.ones_equiv. Qed.

Lemma land_15 x : Z.land x 15 = x mod 16.
Proof. by apply (land_ones_mod x 4). Qed.
Lemma land_8191 x : Z.land x 8191 = x mod 8192.
Proof. by apply (land_ones_mod x 13). Qed.
Lemma land_65535 x : Z.land x 65535 = x mod 65536.
Proof. by apply (land_ones_mod x 16). Qed.

Lemma flag_16384 b : TCPHeader.flag b 16384 = Z.testbit b 14.
Proof. by apply (TCPHeader.flag_testbit b 14). Qed.
Lemma flag_8192 b : TCPHeader.flag b 8192 = Z.testbit b 13.
Proof. by apply (TCPHeader.flag_testbit b 13). Qed.

Lemma ip_encode_head_length h : zlen (encode_head h) = 10.
Proof. unfold encode_head. rewrite !zlen_app, !zlen_be_bytes. done. Qed.

Lemma ip_encode_length h : 5 <= hlen h -> zlen (encode h) = 4 * hlen h.
Proof.
  intros. unfold encode, encode_tail. rewrite !zlen_app, ip_encode_head_length, !zlen_be_bytes.
  unfold zlen. rewrite length_replicate. lia.
Qed.

(** A sum of disjoint bit fields. *)
Lemma lor_disjoint_add a b n : 0 <= n -> 0 <= b < 2 ^ n -> Z.lor (a * 2 ^ n) b = a * 2 ^ n + b.
Proof.
  intros Hn Hb. assert (Z.land (a * 2 ^ n) b = 0) as Hl.
  { apply Z.bits_inj_0. intros m. rewrite Z.land_spec. destruct (decide (m < n)).
    - by rewrite Z.mul_pow2_bits_low by lia.
    - replace b with (b mod 2 ^ n) by (apply Z.mod_small; lia).
      rewrite Z.mod_pow2_bits_high by lia. apply andb_false_r. }
  by rewrite Z.add_nocarry_lxor, Z.lxor_lor.
Qed.

Lemma first_byte_eq h : wf h -> first_byte h = 16 * ver h + hlen h.
Proof.
  intros []. unfold first_byte. rewrite land_15, Z.mod_small, Z.shiftl_mul_pow2 by lia.
  rewrite (lor_disjoint_add (ver h) (hlen h) 4) by lia. change (2 ^ 4) with 16. word.
Qed.

Lemma fo_val_eq h : wf h ->
  fo_val h = ((if df h then 2 else 0) + (if mf h then 1 else 0)) * 2 ^ 13 + offset h.
Proof.
  intros []. unfold fo_val. rewrite land_8191, Z.mod_small by lia.
  rewrite <- lor_disjoint_add by lia. by destruct (df h), (mf h).
Qed.

Lemma ip_serialize_encode h : wf h -> ver h = 4 -> 5 <= hlen h -> serialize h = Ok (encode h).
Proof.
  intros Hwf Hv Hd. unfold serialize, LENGTH. rewrite Hv. cbn [Z.eqb Pos.eqb negb].
  replace (4 * hlen h <? 20) with false by lia. f_equal. cbv zeta.
  autorewrite with unparse. rewrite ?app_nil_l, <- !app_assoc, first_byte_eq by done.
  unfold resize. rewrite !zlen_app, !zlen_be_bytes.
  rewrite ztake_all by (rewrite !zlen_app, !zlen_be_bytes; lia).
  unfold encode, encode_head, encode_tail. by rewrite <- !app_assoc.
Qed.

Lemma ip_decode_wf l : wf (decode l).
Proof.
  assert (forall k n, 0 <= n -> 0 <= NetParser.read l k n < 256 ^ n) as Hr by
    (intros; by apply NetParser.read_range).
  pose proof (Hr 0 1 ltac:(lia)) as H0. change (256 ^ 1) with 256 in *.
  split; cbn [decode ver hlen tos len id df mf offset ttl proto cksum src dst];
    try (by apply (Hr _ 2)); try (by apply (Hr _ 4)); try (by apply (Hr _ 1)); try word.
Qed.

Lemma ip_decode_encode h rest : wf h -> 5 <= hlen h -> decode (encode h ++ rest) = h.
Proof.
  intros Hwf Hd. pose proof (fo_val_eq h Hwf) as Hfo. change (2 ^ 13) with 8192 in *.
  destruct Hwf. unfold decode, encode, encode_head, encode_tail. rewrite <- !app_assoc. cbv zeta.
  assert (0 <= fo_val h < 65536) by (destruct (df h), (mf h); lia).
  repeat read_field. rewrite Z.add_comm, (Z.mul_comm 16), Z.div_add, Z_mod_plus_full by lia.
  rewrite Z.div_small, Z.mod_small by lia.
  assert (Z.testbit (fo_val h) 14 = df h /\ Z.testbit (fo_val h) 13 = mf h /\
          fo_val h mod 8192 = offset h) as (-> & -> & ->); [|by destruct h].
  split_and!.
  - apply Z.b2z_inj. rewrite Z.testbit_spec' by lia. change (2 ^ 14) with 16384. destruct (df h), (mf h); simpl; word.
  - apply Z.b2z_inj. rewrite Z.testbit_spec' by lia. change (2 ^ 13) with 8192. destruct (df h), (mf h); simpl; word.
  - destruct (df h), (mf h); word.
Qed.

(** The pseudo-header sum is far from 32-bit overflow. *)
Lemma pseudo_cksum_range h : wf h -> 0 <= pseudo_cksum h < 1048576.
Proof.
  intros []. unfold pseudo_cksum. cbv zeta. rewrite !land_65535, !Z.shiftr_div_pow2 by lia.
  change (2 ^ 16) with 65536. pose proof (u16_range (len h - 4 * hlen h)).
  unfold payload_length. word.
Qed.

(** The rule for accepting a header, in the order of the code's checks. *)
Definition verdict (l : bytes) : ParseResult :=
  let h := decode l in
  if zlen l <? 20 then PacketTooShort
  else if zlen l <? 4 * hlen h then PacketTooShort
  else if negb (ver h =? 4) then WrongIPVersion
  else if hlen h <? 5 then HeaderTooShort
  else if negb (zlen l =? len h) then TruncatedPacket
  else if InternetChecksum.value (InternetChecksum.add (ztake (4 * hlen h) l) (InternetChecksum.make 0)) =? 0
  then NoError else BadChecksum.

(** How many bytes [parse] consumes. *)
Definition consumed (l : bytes) : Z :=
  match verdict l with
  | NoError | BadChecksum => 4 * hlen (decode l)
  | _ => if zlen l <? 20 then 0 else 20
  end.

Lemma ip_parse_decode l p h0 :
  NetParser.tracks l 0 p ->
  exists p',
    parse p h0 = (verdict l, if zlen l <? 20 then h0 else decode l, p') /\
    NetParser.tracks l (consumed l) p'.
Proof.
  intros H. pose proof H as H'. unfold parse, consumed, verdict, NetParser.tracks, Buffer.size, NetParser.buffer, LENGTH in *.
  pose_zlen. replace (0 <=? zlen l) with true in H' by lia. rewrite zdrop_nonpos in H' by lia.
  destruct H' as [_ -> _]. destruct (zlen l <? 20) eqn:E20.
  { exists p. split; [done|]. exact H. }
  fold (NetParser.tracks l 0 p) in H. do 10 parse_step H.
  rewrite flag_16384, flag_8192, land_15, land_8191, Z.shiftr_div_pow2 by lia.
  change (2 ^ 4) with 16. fold (decode l). set (h := decode l) in *.
  change (NetParser.read l 2 2) with (len h).
  destruct (zlen l <? 4 * hlen h) eqn:E1; [by eexists|].
  destruct (negb (ver h =? 4)); [by eexists|].
  destruct (hlen h <? 5) eqn:E2; [by eexists|].
  destruct (negb (zlen l =? len h)); [by eexists|].
  set (n := hlen h * 4 - 20).
  apply (NetParser.remove_prefix_tracks n) in H; [|lia..].
  replace (20 + n) with (4 * hlen h) in H by lia.
  rewrite (NetParser.tracks_error _ _ _ H). replace (4 * hlen h <=? zlen l) with true by lia.
  eexists. cbn [negb]. destruct (InternetChecksum.value _ =? 0); split; try done; exact H.
Qed.

End IPv4Header.

Module IPv4Datagram.

Record t := mk {
  _header : IPv4Header.t;
  _payload : BufferList.t }.

#[global] Instance eta_t : Eta t := fun d => mk (_header d) (_payload d).

Definition default : t := mk IPv4Header.default [].

Definition header (d : t) : IPv4Header.t := _header d.
Definition payload (d : t) : BufferList.t := _payload d.

(** [parse]: the result of [_header.parse] is not used. *)
Definition parse (buffer : Buffer.t) (d : t) : ParseResult * t :=
  let p := NetParser.make buffer in
  let '(_, h, p) := IPv4Header.parse p (_header d) in
  let d := d <| _header := h |> in
  let d := d <| _payload := BufferList.of_buffer (NetParser.buffer p) |> in
  if negb (BufferList.size (_payload d) =? IPv4Header.payload_length (_header d))
  then (PacketTooShort, d)
  else (NetParser.get_error p, d).

Definition serialize (d : t) : outcome BufferList.t :=
  if negb (BufferList.size (_payload d) =? IPv4Header.payload_length (_header d))
  then Throw (runtime_error "IPv4Datagram::serialize: payload is wrong size")
  else
    let header_out := _header d in
    let header_out := header_out <| IPv4Header.cksum := 0 |> in
    let! header_zero_checksum := IPv4Header.serialize header_out in
    let check := InternetChecksum.make 0 in
    let check := InternetChecksum.add header_zero_checksum check in
    let header_out := header_out <| IPv4Header.cksum := InternetChecksum.value check |> in
    let! hdr := IPv4Header.serialize header_out in
    let ret := BufferList.append (BufferList.of_string hdr) [] in
    let ret := BufferList.append (_payload d) ret in
    Ok ret.

(** ** Lemmas *)

(** A datagram whose fields are in range and whose length field is right. *)
Record wf (d : t) : Prop := {
  wf_header : IPv4Header.wf (header d);
  wf_ver : IPv4Header.ver (header d) = 4;
  wf_hlen : 5 <= IPv4Header.hlen (header d);
  wf_len : IPv4Header.len (header d) =
    4 * IPv4Header.hlen (header d) + zlen (BufferList.concatenate (payload d)) }.

Definition filled (h : IPv4Header.t) : IPv4Header.t :=
  h <| IPv4Header.cksum := InternetChecksum.value
         (InternetChecksum.add (IPv4Header.encode (h <| IPv4Header.cksum := 0 |>))
            (InternetChecksum.make 0)) |>.

Definition wire (d : t) : bytes :=
  IPv4Header.encode (filled (header d)) ++ BufferList.concatenate (payload d).

Lemma filled_wf h : IPv4Header.wf h -> IPv4Header.wf (filled h).
Proof.
  intros []. pose proof (InternetChecksum.value_u16 (InternetChecksum.add
    (IPv4Header.encode (h <| IPv4Header.cksum := 0 |>)) (InternetChecksum.make 0))).
  by split.
Qed.

Lemma ip_wire_length d : wf d -> zlen (wire d) = IPv4Header.len (header d).
Proof.
  intros [_ _ ? ->]. unfold wire. rewrite zlen_app, IPv4Header.ip_encode_length; [done|]. done.
Qed.

Lemma payload_length_eq d : wf d ->
  IPv4Header.payload_length (header d) = zlen (BufferList.concatenate (payload d)).
Proof.
  intros [[] _ ? Hlen]. unfold IPv4Header.payload_length. rewrite Hlen in *. pose_zlen.
  rewrite u16_small; lia.
Qed.

Lemma ip_serialize_wire d : wf d ->
  exists bl, serialize d = Ok bl /\ BufferList.concatenate bl = wire d.
Proof.
  intros Hwf. pose proof (payload_length_eq d Hwf) as Hpl. pose proof (filled_wf _ (wf_header d Hwf)) as Hf.
  assert (zlen (BufferList.concatenate (payload d)) < MAX16).
  { pose proof (wf_len d Hwf). destruct (wf_header d Hwf). lia. }
  unfold serialize. change (_header d) with (header d). change (_payload d) with (payload d).
  rewrite Hpl, BufferList.size_concatenate by lia.
  rewrite Z.eqb_refl. cbn [negb]. destruct Hwf as [Hh Hv Hl _].
  rewrite IPv4Header.ip_serialize_encode; [|by destruct Hh; split|done..]. cbn [obind].
  rewrite IPv4Header.ip_serialize_encode; [|exact Hf|done..]. cbn [obind].
  eexists. split; [done|]. unfold BufferList.of_string.
  rewrite !BufferList.concatenate_append, !BufferList.concatenate_cons.
  rewrite Buffer.str_of_string;
    [|rewrite IPv4Header.ip_encode_length by done; change (IPv4Header.hlen _) with (IPv4Header.hlen (header d));
      destruct Hh; lia].
  change (BufferList.concatenate []) with (@nil byte). by rewrite ?app_nil_l, ?app_nil_r.
Qed.

Lemma ip_wire_decode d : wf d -> IPv4Header.decode (wire d) = filled (header d).
Proof.
  intros Hwf. apply IPv4Header.ip_decode_encode; [apply filled_wf, Hwf|apply (wf_hlen d Hwf)].
Qed.

Lemma filled_length h : 5 <= IPv4Header.hlen h -> zlen (IPv4Header.encode (filled h)) = 4 * IPv4Header.hlen h.
Proof. intros. by rewrite IPv4Header.ip_encode_length. Qed.

Lemma filled_checks h :
  IPv4Header.wf h -> 5 <= IPv4Header.hlen h ->
  InternetChecksum.value (InternetChecksum.add (IPv4Header.encode (filled h)) (InternetChecksum.make 0)) = 0.
Proof.
  intros Hwf Hl. unfold IPv4Header.encode at 1.
  change (IPv4Header.encode_head (filled h)) with (IPv4Header.encode_head h).
  change (IPv4Header.encode_tail (filled h)) with (IPv4Header.encode_tail h).
  eapply InternetChecksum.value_self; [lia|by rewrite IPv4Header.ip_encode_head_length| |done].
  destruct (InternetChecksum.word_sum_half (IPv4Header.encode (h <| IPv4Header.cksum := 0 |>)))
    as [Hh _].
  rewrite IPv4Header.ip_encode_length in Hh by done. cbn [modify IPv4Header.hlen] in Hh.
  change (IPv4Header.encode _) with
    (IPv4Header.encode_head h ++ be_bytes 2 0 ++ IPv4Header.encode_tail h) in Hh.
  destruct Hwf. lia.
Qed.

Lemma wire_verdict d : wf d -> IPv4Header.verdict (wire d) = NoError.
Proof.
  intros Hwf. pose proof (ip_wire_length d Hwf) as Hlen. unfold IPv4Header.verdict.
  rewrite ip_wire_decode, Hlen by done. cbv zeta.
  change (IPv4Header.hlen (filled _)) with (IPv4Header.hlen (header d)).
  change (IPv4Header.len (filled _)) with (IPv4Header.len (header d)).
  change (IPv4Header.ver (filled _)) with (IPv4Header.ver (header d)).
  pose proof (wf_len d Hwf). pose proof (wf_hlen d Hwf). pose_zlen.
  rewrite (wf_ver d Hwf), !Z.eqb_refl. cbn [Z.eqb Pos.eqb negb].
  do 3 (replace (_ <? _) with false by lia).
  unfold wire. rewrite <- filled_length by done.
  by rewrite ztake_app_exact, filled_checks, Z.eqb_refl by apply Hwf.
Qed.

(** Parsing the wire form of a datagram gives the datagram back, with a payload
    that is one buffer. *)
Lemma ip_wire_parse d d0 b :
  wf d -> Buffer.wf b -> Buffer.str b = wire d ->
  exists pl, parse b d0 = (NoError, mk (filled (header d)) [pl]) /\
    Buffer.wf pl /\ Buffer.str pl = BufferList.concatenate (payload d).
Proof.
  intros Hwf Hb Hstr. unfold parse.
  pose proof (ip_wire_length d Hwf) as Hlen. pose proof (wf_len d Hwf) as Hl.
  pose proof (wf_hlen d Hwf) as Hh. pose_zlen.
  destruct (IPv4Header.ip_parse_decode (wire d) (NetParser.make b) (_header d0)) as (p' & -> & Ht).
  { rewrite <- Hstr. by apply NetParser.make_tracks_buffer. }
  replace (zlen (wire d) <? 20) with false by lia. unfold IPv4Header.consumed in Ht.
  rewrite wire_verdict, ip_wire_decode in * by done.
  rewrite (NetParser.tracks_get_error _ _ _ Ht). unfold NetParser.tracks in Ht.
  change (IPv4Header.hlen (filled _)) with (IPv4Header.hlen (header d)) in *.
  replace (_ <=? _) with true in * by lia. destruct Ht as [Hw Hs _].
  unfold wire in Hs. rewrite <- filled_length in Hs by done.
  rewrite zdrop_app_exact in Hs. exists (NetParser.buffer p'). split; [|done].
  cbn [modify _payload _header]. unfold BufferList.of_buffer.
  rewrite BufferList.size_concatenate; rewrite BufferList.concatenate_cons;
    change (BufferList.concatenate []) with (@nil byte); rewrite app_nil_r; unfold NetParser.buffer; rewrite Hs.
  - change (IPv4Header.payload_length (filled _)) with (IPv4Header.payload_length (header d)).
    by rewrite payload_length_eq, Z.eqb_refl.
  - destruct (wf_header d Hwf). lia.
Qed.

(** C33: a datagram survives the wire.  For every datagram with fields in range
    and a correct length, [serialize] succeeds; its header passes every check of
    [IPv4Header::parse]; and [parse] gives back the same header (with the checksum
    filled in) and payload. *)
Theorem ipv4_datagram_roundtrip (d : t) :
  wf d ->
  exists bl d' p',
    serialize d = Ok bl /\
    IPv4Header.parse (NetParser.make (Buffer.of_string (BufferList.concatenate bl))) IPv4Header.default
      = (NoError, header d', p') /\
    parse (Buffer.of_string (BufferList.concatenate bl)) default = (NoError, d') /\
    (header d') <| IPv4Header.cksum := 0 |> = (header d) <| IPv4Header.cksum := 0 |> /\
    BufferList.concatenate (payload d') = BufferList.concatenate (payload d).
Proof.
  intros Hwf. destruct (ip_serialize_wire d Hwf) as (bl & E & Hbl).
  pose proof (ip_wire_length d Hwf) as Hlen. destruct (wf_header d Hwf).
  destruct (ip_wire_parse d default (Buffer.of_string (wire d))) as (pl & Ep & _ & Hpl);
    [done|apply Buffer.of_string_wf; lia|apply Buffer.str_of_string; lia|].
  destruct (IPv4Header.ip_parse_decode (wire d) (NetParser.make (Buffer.of_string (wire d))) IPv4Header.default)
    as (p' & Eh & _); [apply NetParser.make_tracks; lia|].
  rewrite wire_verdict, ip_wire_decode in Eh by done.
  exists bl, (mk (filled (header d)) [pl]), p'. rewrite Hbl, E, Ep, Eh.
  pose proof (wf_len d Hwf). pose proof (wf_hlen d Hwf). pose_zlen.
  replace (zlen (wire d) <? 20) with false by lia. by split_and!.
Qed.

Definition sample : t :=
  mk (IPv4Header.mk 4 6 7 31 1234 true false 4097 64 6 99 16909060 3232235777)
     [Buffer.of_string (str "abc"); Buffer.of_string (str "wxyz")].

Lemma ip_sample_wf : wf sample.
Proof. repeat split; vm_compute; congruence. Qed.

Lemma ipv4_datagram_roundtrip_witness :
  exists bl d' p',
    serialize sample = Ok bl /\
    IPv4Header.parse (NetParser.make (Buffer.of_string (BufferList.concatenate bl))) IPv4Header.default
      = (NoError, header d', p') /\
    parse (Buffer.of_string (BufferList.concatenate bl)) default = (NoError, d') /\
    (header d') <| IPv4Header.cksum := 0 |> = (header sample) <| IPv4Header.cksum := 0 |> /\
    BufferList.concatenate (payload d') = BufferList.concatenate (payload sample).
Proof. apply ipv4_datagram_roundtrip, ip_sample_wf. Defined.

(** The checks of [IPv4Header::parse] do not protect [IPv4Datagram::parse],
    which drops their result.  Any string whose header is complete and whose
    length field matches is accepted by [parse], whatever its header checksum. *)
Theorem ipv4_checksum_not_enforced (l : bytes) (d : t) :
  zlen l < MAX64 ->
  let h := IPv4Header.decode l in
  IPv4Header.verdict l = BadChecksum ->
  exists d', parse (Buffer.of_string l) d = (NoError, d') /\ header d' = h /\
    BufferList.concatenate (payload d') = zdrop (4 * IPv4Header.hlen h) l.
Proof.
  intros Hl h Hv. pose proof (IPv4Header.ip_decode_wf l) as Hwf. fold h in Hwf.
  destruct (IPv4Header.ip_parse_decode l (NetParser.make (Buffer.of_string l)) (_header d)) as (p' & E & Ht);
    [by apply NetParser.make_tracks|].
  unfold IPv4Header.consumed in Ht. rewrite Hv in *. unfold IPv4Header.verdict in Hv. fold h in Hv.
  destruct (zlen l <? 20) eqn:?; [done|]. cbv zeta in Hv.
  destruct (zlen l <? 4 * IPv4Header.hlen h) eqn:?; [done|].
  destruct (negb (_ =? 4)) eqn:?; [done|]. destruct (_ <? 5) eqn:?; [done|].
  destruct (negb (zlen l =? IPv4Header.len h)) eqn:Hlen; [done|].
  unfold parse. rewrite E, (NetParser.tracks_get_error _ _ _ Ht). unfold NetParser.tracks in Ht.
  fold h in Ht |- *. replace (_ <=? _) with true in * by lia. destruct Ht as [_ Hs _].
  cbn [modify _payload _header]. rewrite BufferList.size_concatenate; unfold BufferList.of_buffer;
    rewrite BufferList.concatenate_cons; change (BufferList.concatenate []) with (@nil byte);
    rewrite app_nil_r; unfold NetParser.buffer; rewrite Hs; [|zlia].
  replace (_ =? _) with true.
  - eexists. split_and!; [done..|]. cbn [payload _payload]. unfold BufferList.of_buffer.
    rewrite BufferList.concatenate_cons. unfold NetParser.buffer. rewrite Hs. apply app_nil_r.
  - symmetry. apply Z.eqb_eq. unfold IPv4Header.payload_length. rewrite zlen_zdrop. fold h.
    pose_zlen.     destruct Hwf. rewrite u16_small; lia.
Qed.

Lemma ipv4_checksum_not_enforced_witness :
  let l := be_bytes 1 69 ++ be_bytes 1 0 ++ be_bytes 2 21 ++ be_bytes 16 0 ++ str "x" in
  let h := IPv4Header.decode l in
  exists d', parse (Buffer.of_string l) default = (NoError, d') /\ header d' = h /\
    BufferList.concatenate (payload d') = zdrop (4 * IPv4Header.hlen h) l.
Proof. apply ipv4_checksum_not_enforced; reflexivity. Defined.

End IPv4Datagram.
