(* ===== verification/Ethernet.v ===== *)
(** * Ethernet frames and ARP messages: [tcp_helpers/ethernet_header.hh/.cc],
    [ethernet_frame.hh/.cc], [arp_message.hh/.cc]

    An [EthernetAddress] (an array of six [uint8_t]) is a list of six bytes. *)
From S2P Require Import Prelude Buffer Parser.

(** The loop [for (auto &byte : address) byte = p.u8();]. *)
Fixpoint read_address (n : nat) (p : NetParser.t) : bytes * NetParser.t :=
  match n with
  | O => ([], p)
  | S n =>
      let '(v, p) := NetParser.u8 p in
      let '(rest, p) := read_address n p in
      (byte_of v :: rest, p)
  end.

(** The loop [for (auto &byte : address) NetUnparser::u8(ret, byte);]. *)
Definition write_address (a ret : bytes) : bytes :=
  fold_left (fun ret b => NetUnparser.u8 (byte_val b) ret) a ret.

Lemma write_address_app a : forall ret, write_address a ret = ret ++ a.
Proof.
  induction a as [|b a IH]; intros ret; [by rewrite app_nil_r|].
  change (write_address (b :: a) ret) with (write_address a (NetUnparser.u8 (byte_val b) ret)).
  rewrite IH, NetUnparser.u8_app, <- app_assoc. cbn [be_bytes]. by rewrite byte_of_val.
Qed.

Lemma substr_cons (l : bytes) k n b :
  0 <= k -> 0 <= n -> zget l k = Some b -> b :: substr l (k + 1) n = substr l k (n + 1).
Proof.
  intros Hk Hn Hb. unfold substr, ztake, zdrop, zget in *. replace (k <? 0) with false in Hb by lia.
  replace (Z.to_nat (n + 1)) with (S (Z.to_nat n)) by lia. replace (Z.to_nat (k + 1)) with (S (Z.to_nat k)) by lia.
  by rewrite (drop_S _ _ _ Hb).
Qed.

Lemma read_one l k b : 0 <= k -> zget l k = Some b -> NetParser.read l k 1 = byte_val b.
Proof.
  intros Hk Hb. pose proof (zget_Some_range _ _ _ Hb). unfold NetParser.read.
  replace (k + 1 <=? zlen l) with true by lia.
  change 1 with (0 + 1) at 1. rewrite <- (substr_cons l k 0 b) by (done || lia).
  change (be_value [b] = byte_val b). unfold be_value. simpl. lia.
Qed.

(** Reading an address that is there. *)
Lemma read_address_tracks n l : forall k p,
  NetParser.tracks l k p -> 0 <= k -> k + Z.of_nat n <= zlen l ->
  exists p', read_address n p = (substr l k (Z.of_nat n), p') /\ NetParser.tracks l (k + Z.of_nat n) p'.
Proof.
  induction n as [|n IH]; intros k p Ht Hk Hn.
  - exists p. rewrite Z.add_0_r. split; [|done]. unfold substr. by rewrite ztake_nonpos by lia.
  - cbn [read_address]. unfold NetParser.u8.
    destruct (NetParser.parse_int_tracks 1 l k p Ht Hk) as (p1 & -> & Ht1). change (Z.of_nat 1) with 1 in *.
    destruct (IH (k + 1) p1 Ht1) as (p2 & -> & Ht2); [lia..|].
    destruct (proj2 (zget_is_Some l k)) as [b Hb]; [lia|]. rewrite (read_one l k b), byte_of_val by done.
    exists p2. split; [|by replace (k + Z.of_nat (S n)) with (k + 1 + Z.of_nat n) by lia].
    rewrite (substr_cons l k _ b) by (done || lia). by replace (Z.of_nat (S n)) with (Z.of_nat n + 1) by lia.
Qed.

Lemma substr_app_skip (l k : bytes) i n : zlen l <= i -> substr (l ++ k) i n = substr k (i - zlen l) n.
Proof.
  intros. unfold substr. f_equal. unfold zdrop. rewrite drop_app_ge by (unfold zlen in *; lia).
  f_equal. unfold zlen in *. lia.
Qed.

Lemma substr_app_front (l k : bytes) n : zlen l = n -> substr (l ++ k) 0 n = l.
Proof. intros <-. unfold substr. rewrite zdrop_nonpos by lia. apply ztake_app_exact. Qed.

Module EthernetHeader.

Definition LENGTH : Z := 14.
Definition TYPE_IPv4 : Z := 2048.
Definition TYPE_ARP : Z := 2054.

Record t := mk {
  dst : bytes;
  src : bytes;
  type : Z }.

#[global] Instance eta_t : Eta t := fun h => mk (dst h) (src h) (type h).

(** [EthernetHeader{}]. *)
Definition default : t := mk (be_bytes 6 0) (be_bytes 6 0) 0.

Definition ETHERNET_BROADCAST : bytes := be_bytes 6 281474976710655.

(** [parse]: the first check returns before any field of [h] is assigned. *)
Definition parse (p : NetParser.t) (h : t) : ParseResult * t * NetParser.t :=
  if Buffer.size (NetParser.buffer p) <? LENGTH then (PacketTooShort, h, p)
  else
    let '(dst, p) := read_address 6 p in
    let '(src, p) := read_address 6 p in
    let '(type, p) := NetParser.u16 p in
    (NetParser.get_error p, mk dst src type, p).

Definition serialize (h : t) : bytes :=
  let ret := [] in
  let ret := write_address (dst h) ret in
  let ret := write_address (src h) ret in
  NetUnparser.u16 (type h) ret.

Record wf (h : t) : Prop := {
  wf_dst : zlen (dst h) = 6;
  wf_src : zlen (src h) = 6;
  wf_type : 0 <= type h < MAX16 }.

Lemma serialize_eq h : serialize h = dst h ++ src h ++ be_bytes 2 (type h).
Proof. unfold serialize. cbv zeta. by rewrite NetUnparser.u16_app, !write_address_app, app_nil_l, <- app_assoc. Qed.

Lemma parse_spec l p h :
  NetParser.tracks l 0 p ->
  exists p',
    if zlen l <? 14 then parse p h = (PacketTooShort, h, p)
    else parse p h = (NoError, mk (substr l 0 6) (substr l 6 6) (NetParser.read l 12 2), p') /\
         NetParser.holds p' (zdrop 14 l).
Proof.
  intros Ht. pose proof Ht as Ht0. unfold NetParser.tracks in Ht0. pose_zlen.
  replace (0 <=? zlen l) with true in Ht0 by lia. rewrite zdrop_nonpos in Ht0 by lia.
  unfold parse, Buffer.size, NetParser.buffer, LENGTH. rewrite (NetParser.holds_str _ _ Ht0).
  destruct (zlen l <? 14) eqn:E; [by exists p|].
  destruct (read_address_tracks 6 l 0 p Ht) as (p1 & -> & H1); [simpl; lia..|]. change (0 + Z.of_nat 6) with 6 in H1.
  destruct (read_address_tracks 6 l 6 p1 H1) as (p2 & -> & H2); [simpl; lia..|]. change (6 + Z.of_nat 6) with 12 in H2.
  parse_step H2. exists p0. rewrite (NetParser.tracks_get_error _ _ _ H2). unfold NetParser.tracks in H2.
  by replace (14 <=? zlen l) with true in * by lia.
Qed.

End EthernetHeader.

Module EthernetFrame.

Record t := mk {
  _header : EthernetHeader.t;
  _payload : BufferList.t }.

#[global] Instance eta_t : Eta t := fun f => mk (_header f) (_payload f).

Definition default : t := mk EthernetHeader.default [].

(** [parse]: the result of [_header.parse] is not used. *)
Definition parse (buffer : Buffer.t) (f : t) : ParseResult * t :=
  let p := NetParser.make buffer in
  let '(_, h, p) := EthernetHeader.parse p (_header f) in
  let f := f <| _header := h |> in
  let f := f <| _payload := BufferList.of_buffer (NetParser.buffer p) |> in
  (NetParser.get_error p, f).

Definition serialize (f : t) : BufferList.t :=
  let ret := [] in
  let ret := BufferList.append (BufferList.of_string (EthernetHeader.serialize (_header f))) ret in
  BufferList.append (_payload f) ret.

(** An Ethernet frame survives the wire: parsing what [serialize] made of a
    frame gives the same header and payload. *)
Theorem ethernet_roundtrip (f : t) :
  EthernetHeader.wf (_header f) -> zlen (BufferList.concatenate (_payload f)) < MAX32 ->
  exists f', parse (Buffer.of_string (BufferList.concatenate (serialize f))) default = (NoError, f') /\
    _header f' = _header f /\ BufferList.concatenate (_payload f') = BufferList.concatenate (_payload f).
Proof.
  intros [Hd Hs Ht] Hl. unfold serialize. cbv zeta. rewrite !BufferList.concatenate_append, app_nil_l.
  set (h := _header f) in *. rewrite BufferList.concatenate_of_string; rewrite EthernetHeader.serialize_eq;
    [|rewrite !zlen_app, zlen_be_bytes, Hd, Hs; done].
  set (pl := BufferList.concatenate (_payload f)) in *.
  set (l := (EthernetHeader.dst h ++ EthernetHeader.src h ++ be_bytes 2 (EthernetHeader.type h)) ++ pl).
  assert (zlen l = 14 + zlen pl) as Hlen by (unfold l; rewrite !zlen_app, zlen_be_bytes, Hd, Hs; lia).
  pose_zlen. unfold parse.
  destruct (EthernetHeader.parse_spec l (NetParser.make (Buffer.of_string l)) (_header default)) as [p' Hp];
    [apply NetParser.make_tracks; lia|].
  replace (zlen l <? 14) with false in Hp by lia. destruct Hp as [-> [_ Hst Hok]].
  eexists. unfold NetParser.get_error. rewrite Hok. split_and!; [done|..]; cbn [modify _header _payload].
  - unfold l. rewrite <- !app_assoc. rewrite substr_app_front by done.
    rewrite substr_app_skip, Hd, Z.sub_diag, substr_app_front by (done || lia).
    rewrite NetParser.read_app, Hd by lia. rewrite NetParser.read_app, Hs by lia.
    change (12 - 6 - 6) with 0. rewrite (NetParser.read_be_bytes 2) by done. by destruct h.
  - unfold BufferList.of_buffer. rewrite BufferList.concatenate_cons. unfold NetParser.buffer.
    rewrite Hst. change (BufferList.concatenate []) with (@nil byte). rewrite app_nil_r. unfold l.
    replace 14 with (zlen (EthernetHeader.dst h ++ EthernetHeader.src h ++ be_bytes 2 (EthernetHeader.type h)))
      by (rewrite !zlen_app, zlen_be_bytes, Hd, Hs; done).
    apply zdrop_app_exact.
Qed.

Definition sample : t :=
  mk (EthernetHeader.mk (be_bytes 6 1108152157446) EthernetHeader.ETHERNET_BROADCAST EthernetHeader.TYPE_ARP)
     [Buffer.of_string (str "pay"); Buffer.of_string (str "load")].

Lemma ethernet_roundtrip_witness :
  exists f', parse (Buffer.of_string (BufferList.concatenate (serialize sample))) default = (NoError, f') /\
    _header f' = _header sample /\
    BufferList.concatenate (_payload f') = BufferList.concatenate (_payload sample).
Proof. apply ethernet_roundtrip; [repeat split; vm_compute; congruence|reflexivity]. Defined.

(** A string too short to hold an Ethernet header is accepted as a frame:
    [parse] drops the result of the header's check and reports the parser's own
    error, which is none; the header keeps its old contents. *)
Theorem short_frame_accepted (l : bytes) (f : t) :
  zlen l < 14 ->
  (exists p', EthernetHeader.parse (NetParser.make (Buffer.of_string l)) (_header f) =
     (PacketTooShort, _header f, p')) /\
  exists f', parse (Buffer.of_string l) f = (NoError, f') /\ _header f' = _header f /\
    BufferList.concatenate (_payload f') = l.
Proof.
  intros Hl.
  destruct (EthernetHeader.parse_spec l (NetParser.make (Buffer.of_string l)) (_header f)) as [p' H];
    [apply NetParser.make_tracks; lia|].
  replace (zlen l <? 14) with true in H by lia. split; [by eexists|].
  unfold parse. rewrite H. eexists. split_and!; [done..|].
  cbn [modify _payload]. unfold BufferList.of_buffer, NetParser.buffer. rewrite BufferList.concatenate_cons.
  simpl. rewrite app_nil_r. apply Buffer.str_of_string. lia.
Qed.

Lemma short_frame_accepted_witness :
  (exists p', EthernetHeader.parse (NetParser.make (Buffer.of_string (str "abc"))) (_header default) =
     (PacketTooShort, _header default, p')) /\
  exists f', parse (Buffer.of_string (str "abc")) default = (NoError, f') /\ _header f' = _header default /\
    BufferList.concatenate (_payload f') = str "abc".
Proof. apply short_frame_accepted. reflexivity. Defined.

End EthernetFrame.

Module ARPMessage.

Definition LENGTH : Z := 28.
Definition TYPE_ETHERNET : Z := 1.
Definition OPCODE_REQUEST : Z := 1.
Definition OPCODE_REPLY : Z := 2.

Record t := mk {
  hardware_type : Z;
  protocol_type : Z;
  hardware_address_size : Z;
  protocol_address_size : Z;
  opcode : Z;
  sender_ethernet_address : bytes;
  sender_ip_address : Z;
  target_ethernet_address : bytes;
  target_ip_address : Z }.

#[global] Instance eta_t : Eta t := fun m =>
  mk (hardware_type m) (protocol_type m) (hardware_address_size m) (protocol_address_size m) (opcode m)
     (sender_ethernet_address m) (sender_ip_address m) (target_ethernet_address m) (target_ip_address m).

Definition default : t :=
  mk TYPE_ETHERNET EthernetHeader.TYPE_IPv4 6 4 0 (be_bytes 6 0) 0 (be_bytes 6 0) 0.

Definition supported (m : t) : bool :=
  (hardware_type m =? TYPE_ETHERNET) && (protocol_type m =? EthernetHeader.TYPE_IPv4) &&
  (hardware_address_size m =? 6) && (protocol_address_size m =? 4) &&
  ((opcode m =? OPCODE_REQUEST) || (opcode m =? OPCODE_REPLY)).

Definition parse (buffer : Buffer.t) (m : t) : ParseResult * t :=
  let p := NetParser.make buffer in
  if Buffer.size (NetParser.buffer p) <? LENGTH then (PacketTooShort, m)
  else
    let '(hardware_type, p) := NetParser.u16 p in
    let '(protocol_type, p) := NetParser.u16 p in
    let '(hardware_address_size, p) := NetParser.u8 p in
    let '(protocol_address_size, p) := NetParser.u8 p in
    let '(opcode, p) := NetParser.u16 p in
    let m := mk hardware_type protocol_type hardware_address_size protocol_address_size opcode
               (sender_ethernet_address m) (sender_ip_address m) (target_ethernet_address m)
               (target_ip_address m) in
    if negb (supported m) then (Unsupported, m)
    else
      let '(sender_eth, p) := read_address 6 p in
      let '(sender_ip, p) := NetParser.u32 p in
      let '(target_eth, p) := read_address 6 p in
      let '(target_ip, p) := NetParser.u32 p in
      (NetParser.get_error p,
       mk hardware_type protocol_type hardware_address_size protocol_address_size opcode
          sender_eth sender_ip target_eth target_ip).

Definition serialize (m : t) : outcome bytes :=
  if negb (supported m)
  then Throw (runtime_error
    "ARPMessage::serialize(): unsupported field combination (must be Ethernet/IP, and request or reply)")
  else
    let ret := [] in
    let ret := NetUnparser.u16 (hardware_type m) ret in
    let ret := NetUnparser.u16 (protocol_type m) ret in
    let ret := NetUnparser.u8 (hardware_address_size m) ret in
    let ret := NetUnparser.u8 (protocol_address_size m) ret in
    let ret := NetUnparser.u16 (opcode m) ret in
    let ret := write_address (sender_ethernet_address m) ret in
    let ret := NetUnparser.u32 (sender_ip_address m) ret in
    let ret := write_address (target_ethernet_address m) ret in
    let ret := NetUnparser.u32 (target_ip_address m) ret in
    Ok ret.

Record wf (m : t) : Prop := {
  wf_sender : zlen (sender_ethernet_address m) = 6;
  wf_sender_ip : 0 <= sender_ip_address m < MAX32;
  wf_target : zlen (target_ethernet_address m) = 6;
  wf_target_ip : 0 <= target_ip_address m < MAX32 }.

(** The fixed part of every supported message. *)
Definition fixed_part (op : Z) : bytes :=
  be_bytes 2 1 ++ be_bytes 2 2048 ++ be_bytes 1 6 ++ be_bytes 1 4 ++ be_bytes 2 op.

Lemma supported_fields m : supported m = true ->
  hardware_type m = 1 /\ protocol_type m = 2048 /\ hardware_address_size m = 6 /\
  protocol_address_size m = 4 /\ (opcode m = 1 \/ opcode m = 2).
Proof.
  unfold supported, TYPE_ETHERNET, EthernetHeader.TYPE_IPv4, OPCODE_REQUEST, OPCODE_REPLY. lia.
Qed.

Lemma arp_serialize_eq m : supported m = true ->
  serialize m = Ok (fixed_part (opcode m) ++ sender_ethernet_address m ++ be_bytes 4 (sender_ip_address m) ++
                    target_ethernet_address m ++ be_bytes 4 (target_ip_address m)).
Proof.
  intros Hs. unfold serialize. rewrite Hs. cbn [negb]. cbv zeta. autorewrite with unparse.
  rewrite !write_address_app. autorewrite with unparse.
  destruct (supported_fields m Hs) as (-> & -> & -> & -> & _). unfold fixed_part. by rewrite <- !app_assoc.
Qed.

(** ARP messages survive the wire: every supported message is serialised, and
    parsing the bytes gives it back in every field. *)
Theorem arp_roundtrip (m m0 : t) :
  wf m -> supported m = true ->
  exists s, serialize m = Ok s /\ zlen s = 28 /\ parse (Buffer.of_string s) m0 = (NoError, m).
Proof.
  intros [Hs Hsi Ht Hti] Hsup. rewrite arp_serialize_eq by done. eexists. split; [done|].
  set (l := fixed_part _ ++ _).
  assert (zlen l = 28) as Hlen
    by (unfold l, fixed_part; rewrite !zlen_app, !zlen_be_bytes, Hs, Ht; done).
  split; [done|]. destruct (supported_fields m Hsup) as (E1 & E2 & E3 & E4 & E5).
  unfold parse, Buffer.size, NetParser.buffer, LENGTH. cbn [NetParser.make NetParser._buffer].
  rewrite Buffer.str_of_string, Hlen by lia. cbn [Z.ltb Z.compare Pos.compare Pos.compare_cont].
  assert (NetParser.tracks l 0 (NetParser.make (Buffer.of_string l))) as H by (apply NetParser.make_tracks; lia).
  set (p0 := NetParser.make (Buffer.of_string l)) in *. clearbody p0. do 5 parse_step H.
  assert (NetParser.read l 0 2 = 1 /\ NetParser.read l 2 2 = 2048 /\ NetParser.read l 4 1 = 6 /\
          NetParser.read l 5 1 = 4 /\ NetParser.read l 6 2 = opcode m) as (-> & -> & -> & -> & ->)
    by (unfold l, fixed_part; rewrite <- !app_assoc; repeat read_field; done).
  replace (supported _) with true
    by (unfold supported; simpl; destruct E5 as [-> | ->]; done). cbn [negb].
  destruct (read_address_tracks 6 l 8 _ H) as (q1 & -> & H1); [simpl; lia..|].
  change (8 + Z.of_nat 6) with 14 in H1. parse_step H1.
  destruct (read_address_tracks 6 l 18 _ H1) as (q2 & -> & H2); [simpl; lia..|].
  change (18 + Z.of_nat 6) with 24 in H2. parse_step H2.
  rewrite (NetParser.tracks_get_error _ _ _ H2), Hlen. cbn [Z.leb Z.compare Pos.compare Pos.compare_cont].
  assert (zlen (fixed_part (opcode m)) = 8) as Hf by (unfold fixed_part; by rewrite !zlen_app, !zlen_be_bytes).
  f_equal. change (Z.of_nat 6) with 6. unfold l.
  rewrite !(substr_app_skip (fixed_part _)), !(NetParser.read_app (fixed_part _)), Hf by lia.
  change (8 - 8) with 0. rewrite substr_app_front by done.
  rewrite (substr_app_skip (sender_ethernet_address m)), !(NetParser.read_app (sender_ethernet_address m)), Hs by lia.
  rewrite (substr_app_skip (be_bytes 4 _)) by (rewrite zlen_be_bytes; lia).
  rewrite zlen_be_bytes. change (18 - 8 - 6 - Z.of_nat 4) with 0. rewrite substr_app_front by done.
  change (14 - 8 - 6) with 0. rewrite (NetParser.read_be_bytes 4) by done.
  rewrite (NetParser.read_app (be_bytes 4 _)); rewrite zlen_be_bytes; [|lia..].
  rewrite NetParser.read_app, Ht by lia. change (24 - 8 - 6 - Z.of_nat 4 - 6) with 0.
  rewrite <- (app_nil_r (be_bytes 4 (target_ip_address m))), (NetParser.read_be_bytes 4) by done.
  destruct m; simpl in *; by subst.
Qed.

Definition sample : t :=
  default <| opcode := OPCODE_REPLY |> <| sender_ip_address := 3232235777 |>
          <| target_ethernet_address := EthernetHeader.ETHERNET_BROADCAST |>.

Lemma arp_roundtrip_witness :
  exists s, serialize sample = Ok s /\ zlen s = 28 /\ parse (Buffer.of_string s) default = (NoError, sample).
Proof. apply arp_roundtrip; [repeat split; vm_compute; congruence|reflexivity]. Defined.

End ARPMessage.
