(* ===== verification/Adapter.v ===== *)
(** * Adapters between TCP segments and the network: [tcp_helpers/tcp_over_ip.hh/.cc],
    [fd_adapter.hh/.cc], [lossy_fd_adapter.hh], [tuntap_adapter.hh] (TUN part)

    The adapters translate between TCP segments and what the device carries.  The
    device itself is outside: [read] takes the bytes it delivered, [write] returns
    the bytes it is given.  [Endpoint.t] is what the adapters use of the class
    [Address]: the numeric IPv4 address and the port; the constructor from the
    dotted notation printed by [inet_ntoa] gives back the address printed. *)
From S2P Require Import Prelude WrappingIntegers Buffer Parser Checksum TCPSegment IPv4.
Import WrappingIntegers.

Module Endpoint.

Record t := mk {
  ipv4_numeric : Z;
  port : Z }.

#[global] Instance endpoint_eq_dec : EqDecision t.
Proof. solve_decision. Defined.

Definition wf (a : t) : Prop := 0 <= ipv4_numeric a < MAX32 /\ 0 <= port a < MAX16.

End Endpoint.

Module FdAdapterConfig.

Record t := mk {
  source : Endpoint.t;
  destination : Endpoint.t;
  loss_rate_dn : Z;
  loss_rate_up : Z }.

#[global] Instance eta_t : Eta t := fun c =>
  mk (source c) (destination c) (loss_rate_dn c) (loss_rate_up c).

(** The default member initialisers: address "0", port 0. *)
Definition default : t := mk (Endpoint.mk 0 0) (Endpoint.mk 0 0) 0 0.

End FdAdapterConfig.

Module FdAdapterBase.

Record t := mk {
  _cfg : FdAdapterConfig.t;
  _listen : bool }.

#[global] Instance eta_t : Eta t := fun a => mk (_cfg a) (_listen a).

Definition default : t := mk FdAdapterConfig.default false.

Definition set_listening (l : bool) (a : t) : t := a <| _listen := l |>.

Definition listening (a : t) : bool := _listen a.

Definition config (a : t) : FdAdapterConfig.t := _cfg a.

Definition tick (ms_since_last_tick : Z) (a : t) : t := a.

Definition source (a : t) : Endpoint.t := FdAdapterConfig.source (config a).
Definition destination (a : t) : Endpoint.t := FdAdapterConfig.destination (config a).

End FdAdapterBase.

Module TCPOverIPv4Adapter.
Import FdAdapterBase.

Definition unwrap_tcp_in_ip (ip_dgram : IPv4Datagram.t) (a : t) : outcome (option TCPSegment.t * t) :=
  let ip := IPv4Datagram.header ip_dgram in
  if negb (listening a) && negb (IPv4Header.dst ip =? Endpoint.ipv4_numeric (source a)) then Ok (None, a)
  else if negb (listening a) && negb (IPv4Header.src ip =? Endpoint.ipv4_numeric (destination a)) then Ok (None, a)
  else if negb (IPv4Header.proto ip =? IPv4Header.PROTO_TCP) then Ok (None, a)
  else
    let! buffer := BufferList.to_buffer (IPv4Datagram.payload ip_dgram) in
    let '(res, tcp_seg) := TCPSegment.parse buffer (IPv4Header.pseudo_cksum ip) TCPSegment.default in
    let h := TCPSegment.header tcp_seg in
    if bool_decide (NoError <> res) then Ok (None, a)
    else if negb (TCPHeader.dport h =? Endpoint.port (source a)) then Ok (None, a)
    else
      let rest (a : t) :=
        if negb (TCPHeader.sport h =? Endpoint.port (destination a)) then Ok (None, a)
        else Ok (Some tcp_seg, a) in
      if listening a then
        if TCPHeader.syn h && negb (TCPHeader.rst h) then
          let cfg := config a in
          let cfg := cfg <| FdAdapterConfig.source :=
                       Endpoint.mk (IPv4Header.dst ip) (Endpoint.port (FdAdapterConfig.source cfg)) |> in
          let cfg := cfg <| FdAdapterConfig.destination := Endpoint.mk (IPv4Header.src ip) (TCPHeader.sport h) |> in
          rest (set_listening false (a <| _cfg := cfg |>))
        else Ok (None, a)
      else rest a.

(** [wrap_tcp_in_ip] also stores the ports in the segment it is given. *)
Definition wrap_tcp_in_ip (seg : TCPSegment.t) (a : t) : outcome (IPv4Datagram.t * TCPSegment.t) :=
  let seg := seg <| TCPSegment._header :=
               (TCPSegment.header seg) <| TCPHeader.sport := Endpoint.port (source a) |>
                                       <| TCPHeader.dport := Endpoint.port (destination a) |> |> in
  let h := IPv4Datagram.header IPv4Datagram.default in
  let h := h <| IPv4Header.src := Endpoint.ipv4_numeric (source a) |> in
  let h := h <| IPv4Header.dst := Endpoint.ipv4_numeric (destination a) |> in
  let h := h <| IPv4Header.len :=
             u16 (IPv4Header.hlen h * 4 + TCPHeader.doff (TCPSegment.header seg) * 4
                  + Buffer.size (TCPSegment.payload seg)) |> in
  let! payload := TCPSegment.serialize (IPv4Header.pseudo_cksum h) seg in
  Ok (IPv4Datagram.mk h payload, seg).

End TCPOverIPv4Adapter.

Module TCPOverIPv4OverTunFdAdapter.
Import FdAdapterBase.

(** [read]: [raw] is what [_tun.read()] returned. *)
Definition read (raw : bytes) (a : t) : outcome (option TCPSegment.t * t) :=
  let '(res, ip_dgram) := IPv4Datagram.parse (Buffer.of_string raw) IPv4Datagram.default in
  if bool_decide (res <> NoError) then Ok (None, a)
  else TCPOverIPv4Adapter.unwrap_tcp_in_ip ip_dgram a.

(** [write]: the result is what [_tun.write] is given, and the changed segment. *)
Definition write (seg : TCPSegment.t) (a : t) : outcome (BufferList.t * TCPSegment.t) :=
  let! (ip_dgram, seg) := TCPOverIPv4Adapter.wrap_tcp_in_ip seg a in
  let! out := IPv4Datagram.serialize ip_dgram in
  Ok (out, seg).

End TCPOverIPv4OverTunFdAdapter.

Module TCPOverUDPSocketAdapter.
Import FdAdapterBase.

(** [read]: [source_address] and [payload] are what [_sock.recv()] returned. *)
Definition read (source_address : Endpoint.t) (payload : bytes) (a : t) : option TCPSegment.t * t :=
  if negb (listening a) && bool_decide (source_address <> destination a) then (None, a)
  else
    let '(res, seg) := TCPSegment.parse (Buffer.of_string payload) 0 TCPSegment.default in
    if bool_decide (NoError <> res) then (None, a)
    else if listening a then
      let h := TCPSegment.header seg in
      if TCPHeader.syn h && negb (TCPHeader.rst h) then
        (Some seg, set_listening false
           (a <| _cfg := (config a) <| FdAdapterConfig.destination := source_address |> |>))
      else (None, a)
    else (Some seg, a).

(** [write]: the destination and payload given to [_sock.sendto], and the
    changed segment. *)
Definition write (seg : TCPSegment.t) (a : t) : outcome (Endpoint.t * BufferList.t * TCPSegment.t) :=
  let seg := seg <| TCPSegment._header :=
               (TCPSegment.header seg) <| TCPHeader.sport := Endpoint.port (source a) |>
                                       <| TCPHeader.dport := Endpoint.port (destination a) |> |> in
  let! out := TCPSegment.serialize 0 seg in
  Ok (destination a, out, seg).

End TCPOverUDPSocketAdapter.

Module LossyFdAdapter.

(** [_should_drop]; [rand] is the number the generator [_rand] gives. *)
Definition _should_drop (uplink : bool) (rand : Z) (cfg : FdAdapterConfig.t) : bool :=
  let loss := if uplink then FdAdapterConfig.loss_rate_up cfg else FdAdapterConfig.loss_rate_dn cfg in
  negb (loss =? 0) && (u16 rand <? loss).

(** [read] and [write] over the underlying adapter's. *)
Definition read {A} (rand : Z) (adapter_read : option TCPSegment.t * A) (config : A -> FdAdapterConfig.t) :
    option TCPSegment.t * A :=
  let '(ret, a) := adapter_read in
  if _should_drop false rand (config a) then (None, a) else (ret, a).

Definition write {A R} (rand : Z) (adapter_write : A -> R) (config : A -> FdAdapterConfig.t) (a : A) : option R :=
  if _should_drop true rand (config a) then None else Some (adapter_write a).

End LossyFdAdapter.

(** ** Properties *)

Module AdapterSpec.
Import FdAdapterBase.

(** The segment with the ports of adapter [a]. *)
Definition addressed (seg : TCPSegment.t) (a : t) : TCPSegment.t :=
  seg <| TCPSegment._header :=
    (TCPSegment.header seg) <| TCPHeader.sport := Endpoint.port (source a) |>
                            <| TCPHeader.dport := Endpoint.port (destination a) |> |>.

(** The IP header that [wrap_tcp_in_ip] makes. *)
Definition ip_header (seg : TCPSegment.t) (a : t) : IPv4Header.t :=
  IPv4Header.mk 4 5 0
    (u16 (20 + TCPHeader.doff (TCPSegment.header seg) * 4 + Buffer.size (TCPSegment.payload seg)))
    0 true false 0 128 6 0 (Endpoint.ipv4_numeric (source a)) (Endpoint.ipv4_numeric (destination a)).

(** Addresses in range, and a segment whose datagram fits the 16-bit length. *)
Record carries (a : t) (seg : TCPSegment.t) : Prop := {
  carries_source : Endpoint.wf (source a);
  carries_destination : Endpoint.wf (destination a);
  carries_wf : TCPSegment.wf seg;
  carries_len : 20 + 4 * TCPHeader.doff (TCPSegment.header seg) + zlen (Buffer.str (TCPSegment.payload seg)) < MAX16 }.

Lemma addressed_wf a seg : carries a seg -> TCPSegment.wf (addressed seg a).
Proof. intros [[] [] [[] ? ?] ?]. split; [by split|done|done]. Qed.

Lemma ip_header_wf a seg : carries a seg -> IPv4Header.wf (ip_header seg a).
Proof.
  intros [[] [] [[] ? ?] ?]. split; simpl; try lia. pose_zlen. apply u16_range.
Qed.

Lemma wrap_spec a seg : carries a seg ->
  exists bl,
    TCPOverIPv4Adapter.wrap_tcp_in_ip seg a = Ok (IPv4Datagram.mk (ip_header seg a) bl, addressed seg a) /\
    BufferList.concatenate bl = TCPSegment.wire (IPv4Header.pseudo_cksum (ip_header seg a)) (addressed seg a) /\
    IPv4Datagram.wf (IPv4Datagram.mk (ip_header seg a) bl).
Proof.
  intros Hc. pose proof (addressed_wf a seg Hc) as Hw. pose proof (ip_header_wf a seg Hc) as Hh.
  destruct (TCPSegment.serialize_wire (IPv4Header.pseudo_cksum (ip_header seg a)) (addressed seg a))
    as (bl & E & Hbl); [apply Hw|apply (TCPHeader.wf_doff _ (TCPSegment.wf_header _ Hw))|].
  exists bl. split_and!; [|done|].
  - unfold TCPOverIPv4Adapter.wrap_tcp_in_ip. cbv zeta. fold (addressed seg a).
    change (IPv4Header.pseudo_cksum _) with (IPv4Header.pseudo_cksum (ip_header seg a)) at 1. by rewrite E.
  - split; try done. cbn [IPv4Datagram.header IPv4Datagram._header IPv4Datagram.payload IPv4Datagram._payload].
    rewrite Hbl, TCPSegment.wire_length by done. destruct Hc as [_ _ [[] ? ?] ?]. pose_zlen.
    cbn [ip_header IPv4Header.len IPv4Header.hlen]. unfold Buffer.size. rewrite u16_small by lia.
    change (TCPSegment.payload (addressed seg a)) with (TCPSegment.payload seg).
    change (TCPHeader.doff (TCPSegment.header (addressed seg a))) with (TCPHeader.doff (TCPSegment.header seg)). lia.
Qed.

(** C34: a segment travels through a TUN device.  Two adapters whose addresses
    mirror each other, neither listening: whatever segment fits one IP datagram,
    what [write] on one side gives the device is accepted by [read] on the other
    side as the same segment, with the ports of the connection filled in. *)
Theorem tun_roundtrip (a b : t) (seg : TCPSegment.t) :
  carries a seg -> source b = destination a -> destination b = source a -> listening b = false ->
  exists out seg1 seg',
    TCPOverIPv4OverTunFdAdapter.write seg a = Ok (out, seg1) /\
    TCPOverIPv4OverTunFdAdapter.read (BufferList.concatenate out) b = Ok (Some seg', b) /\
    (TCPSegment.header seg') <| TCPHeader.cksum := 0 |> =
      (TCPSegment.header (addressed seg a)) <| TCPHeader.cksum := 0 |> /\
    Buffer.str (TCPSegment.payload seg') = Buffer.str (TCPSegment.payload seg).
Proof.
  intros Hc Hsrc Hdst Hlis. pose proof (addressed_wf a seg Hc) as Hw. pose proof (ip_header_wf a seg Hc) as Hh.
  destruct (wrap_spec a seg Hc) as (bl & Ewrap & Hbl & Hwf).
  set (d := IPv4Datagram.mk (ip_header seg a) bl) in *.
  destruct (IPv4Datagram.ip_serialize_wire d Hwf) as (out & Eout & Hout).
  pose proof (IPv4Datagram.ip_wire_length d Hwf) as Hlen. pose proof (IPv4Header.wf_len _ Hh) as Hl.
  destruct (IPv4Datagram.ip_wire_parse d IPv4Datagram.default (Buffer.of_string (IPv4Datagram.wire d)))
    as (pl & Ep & Hplwf & Hpl); [done|apply Buffer.of_string_wf|apply Buffer.str_of_string|];
    [unfold d in *; simpl in *; lia..|].
  change (IPv4Datagram.payload d) with bl in Hpl. rewrite Hbl in Hpl.
  destruct (TCPSegment.wire_parse (IPv4Header.pseudo_cksum (ip_header seg a)) (addressed seg a)
    TCPSegment.default pl) as (c & pl' & Es & _ & Hpl'); [done|by apply IPv4Header.pseudo_cksum_range|done|done|].
  exists out, (addressed seg a), (TCPSegment.mk ((TCPSegment.header (addressed seg a)) <| TCPHeader.cksum := c |>) pl').
  unfold TCPOverIPv4OverTunFdAdapter.write, TCPOverIPv4OverTunFdAdapter.read. rewrite Ewrap. cbn [obind].
  rewrite Eout. split_and!; [done| |done|done]. rewrite Hout, Ep.
  replace (bool_decide (NoError <> NoError)) with false by done.
  unfold TCPOverIPv4Adapter.unwrap_tcp_in_ip. rewrite Hlis, Hsrc, Hdst.
  cbn [negb andb IPv4Datagram.header IPv4Datagram._header IPv4Datagram.payload IPv4Datagram._payload
    BufferList.to_buffer obind].
  change (IPv4Datagram.header d) with (ip_header seg a).
  change (IPv4Header.dst (IPv4Datagram.filled (ip_header seg a))) with (Endpoint.ipv4_numeric (destination a)).
  change (IPv4Header.src (IPv4Datagram.filled (ip_header seg a))) with (Endpoint.ipv4_numeric (source a)).
  change (IPv4Header.proto (IPv4Datagram.filled (ip_header seg a)) =? IPv4Header.PROTO_TCP) with true.
  change (IPv4Header.pseudo_cksum (IPv4Datagram.filled (ip_header seg a))) with
    (IPv4Header.pseudo_cksum (ip_header seg a)).
  rewrite !Z.eqb_refl, Es. cbn [negb]. replace (bool_decide (NoError <> NoError)) with false by done.
  simpl. by rewrite !Z.eqb_refl.
Qed.

Definition demo_a : t := mk (FdAdapterConfig.mk (Endpoint.mk 167772161 4000) (Endpoint.mk 167772162 80) 0 0) false.
Definition demo_b : t := mk (FdAdapterConfig.mk (Endpoint.mk 167772162 80) (Endpoint.mk 167772161 4000) 0 0) false.
Definition demo_listener : t := mk (FdAdapterConfig.mk (Endpoint.mk 0 80) (Endpoint.mk 0 0) 0 0) true.

Lemma demo_carries : carries demo_a TCPSegment.sample.
Proof. split; [split; vm_compute; intuition congruence..|apply TCPSegment.sample_wf|vm_compute; congruence]. Qed.

Lemma tun_roundtrip_witness :
  exists out seg1 seg',
    TCPOverIPv4OverTunFdAdapter.write TCPSegment.sample demo_a = Ok (out, seg1) /\
    TCPOverIPv4OverTunFdAdapter.read (BufferList.concatenate out) demo_b = Ok (Some seg', demo_b) /\
    (TCPSegment.header seg') <| TCPHeader.cksum := 0 |> =
      (TCPSegment.header (addressed TCPSegment.sample demo_a)) <| TCPHeader.cksum := 0 |> /\
    Buffer.str (TCPSegment.payload seg') = Buffer.str (TCPSegment.payload TCPSegment.sample).
Proof. apply tun_roundtrip; [apply demo_carries|reflexivity..]. Defined.

(** C35: only the peer's segments get in.  Whatever datagram arrives, when
    [unwrap_tcp_in_ip] hands out a segment, the adapter is no longer listening and
    the datagram is a TCP datagram from the configured destination to the
    configured source, address and port, that passed [TCPSegment::parse]; if the
    adapter was listening, the segment is a SYN without RST and it is what set the
    destination; if not, the configuration is unchanged. *)
Theorem unwrap_accepts_only_peer (a a' : t) (d : IPv4Datagram.t) (seg : TCPSegment.t) :
  TCPOverIPv4Adapter.unwrap_tcp_in_ip d a = Ok (Some seg, a') ->
  let ip := IPv4Datagram.header d in
  let h := TCPSegment.header seg in
  listening a' = false /\
  IPv4Header.proto ip = IPv4Header.PROTO_TCP /\
  source a' = Endpoint.mk (IPv4Header.dst ip) (TCPHeader.dport h) /\
  destination a' = Endpoint.mk (IPv4Header.src ip) (TCPHeader.sport h) /\
  (exists b, BufferList.to_buffer (IPv4Datagram.payload d) = Ok b /\
     TCPSegment.parse b (IPv4Header.pseudo_cksum ip) TCPSegment.default = (NoError, seg)) /\
  (if listening a then TCPHeader.syn h = true /\ TCPHeader.rst h = false else a' = a).
Proof.
  unfold TCPOverIPv4Adapter.unwrap_tcp_in_ip. cbv zeta.
  set (ip := IPv4Datagram.header d) in *.
  destruct (negb (listening a) && negb (IPv4Header.dst ip =? _)) eqn:E1; [done|].
  destruct (negb (listening a) && negb (IPv4Header.src ip =? _)) eqn:E2; [done|].
  destruct (negb (IPv4Header.proto ip =? _)) eqn:E3; [done|].
  destruct (BufferList.to_buffer (IPv4Datagram.payload d)) as [b|]; [|done]. cbn [obind].
  destruct (TCPSegment.parse b (IPv4Header.pseudo_cksum ip) TCPSegment.default) as [res seg0] eqn:Ep.
  case_bool_decide as E4; [done|].
  destruct (negb (TCPHeader.dport (TCPSegment.header seg0) =? _)) eqn:E5; [done|].
  assert (res = NoError) as -> by (destruct (decide (NoError = res)); [done|exfalso; auto]).
  destruct a as [[src dst ldn lup] lis]. unfold source, destination, listening, config in *. simpl in *.
  destruct lis; simpl in *.
  - destruct (TCPHeader.syn _ && negb (TCPHeader.rst _)) eqn:E6; [|done].
    apply andb_true_iff in E6 as [E6 E7%negb_true_iff]. rewrite Z.eqb_refl. cbn [negb].
    intros [= <- <-]. simpl. split_and!; try done; try lia; [|by exists b]. f_equal. lia.
  - destruct (negb (TCPHeader.sport (TCPSegment.header seg0) =? _)) eqn:E6; [done|]. intros [= <- <-].
    split_and!; try done; try lia; [..|by exists b]; destruct src, dst; simpl in *; f_equal; lia.
Qed.

(** The datagram of a SYN, as a listening adapter receives it. *)
Definition demo_dgram : IPv4Datagram.t :=
  match TCPOverIPv4OverTunFdAdapter.write TCPSegment.sample demo_a with
  | Ok (out, _) => (IPv4Datagram.parse (Buffer.of_string (BufferList.concatenate out)) IPv4Datagram.default).2
  | Throw _ => IPv4Datagram.default
  end.

Definition demo_accepted : option TCPSegment.t * t :=
  match TCPOverIPv4Adapter.unwrap_tcp_in_ip demo_dgram demo_listener with
  | Ok r => r
  | Throw _ => (None, demo_listener)
  end.

Definition demo_segment : TCPSegment.t :=
  match demo_accepted.1 with Some seg => seg | None => TCPSegment.default end.

Lemma unwrap_accepts_only_peer_witness :
  let ip := IPv4Datagram.header demo_dgram in
  let h := TCPSegment.header demo_segment in
  let a' := demo_accepted.2 in
  listening a' = false /\
  IPv4Header.proto ip = IPv4Header.PROTO_TCP /\
  source a' = Endpoint.mk (IPv4Header.dst ip) (TCPHeader.dport h) /\
  destination a' = Endpoint.mk (IPv4Header.src ip) (TCPHeader.sport h) /\
  (exists b, BufferList.to_buffer (IPv4Datagram.payload demo_dgram) = Ok b /\
     TCPSegment.parse b (IPv4Header.pseudo_cksum ip) TCPSegment.default = (NoError, demo_segment)) /\
  (if listening demo_listener then TCPHeader.syn h = true /\ TCPHeader.rst h = false else a' = demo_listener).
Proof. apply unwrap_accepts_only_peer. vm_compute. reflexivity. Defined.

End AdapterSpec.
