(* ===== verification/TCPReceiver.v ===== *)
(** * The TCP receiver: [libsponge/tcp_receiver.hh] and [.cc]

    [TCPReceiver.t] is the class with its members; [segment_received], [ackno]
    and [window_size] are its methods.  [segment_for] says which segments a peer
    that sends the stream [S] from the initial sequence number [isn] may send;
    [reach] collects the states such a peer (and the owner, who reads) can bring
    the receiver to. *)
From S2P Require Import Prelude WrappingIntegers ByteStream OrderedMap StreamReassembler Buffer.
From S2P Require Import Parser Checksum TCPSegment.
Import WrappingIntegers.

Module TCPReceiver.

Record t := mk {
  _reassembler : StreamReassembler.t;
  _syn_recived : bool;
  _fin_recived : bool;
  _isn : Z;
  _last_stream_no : Z;
  _capacity : Z }.

#[global] Instance eta_t : Eta t := fun r =>
  mk (_reassembler r) (_syn_recived r) (_fin_recived r) (_isn r) (_last_stream_no r) (_capacity r).

(** The constructor [TCPReceiver(capacity)]. *)
Definition make (capacity : Z) : t :=
  mk (StreamReassembler.make capacity) false false 0 0 capacity.

Definition stream_out (r : t) : ByteStream.t := StreamReassembler.stream_out (_reassembler r).

(** The part of [segment_received] after the handling of SYN. *)
Definition accept_payload (seg : TCPSegment.t) (offset_stream_no : Z) (r : t) : t :=
  let fin := TCPHeader.fin (TCPSegment.header seg) in
  let payload := Buffer.copy (TCPSegment.payload seg) in
  let abs_seqno := unwrap (TCPHeader.seqno (TCPSegment.header seg)) (WrappingInt32_of (_isn r))
                     (_last_stream_no r) in
  let stream_no := u64 (abs_seqno + offset_stream_no) in
  let r := r <| _last_stream_no := stream_no |> in
  r <| _reassembler := StreamReassembler.push_substring payload stream_no fin (_reassembler r) |>.

Definition segment_received (seg : TCPSegment.t) (r : t) : t :=
  let syn := TCPHeader.syn (TCPSegment.header seg) in
  let seqno := TCPHeader.seqno (TCPSegment.header seg) in
  let offset_stream_no := -1 in
  if negb (_syn_recived r) then
    if syn then
      let r := r <| _syn_recived := true |> in
      let r := r <| _isn := raw_value seqno |> in
      let offset_stream_no := 0 in
      accept_payload seg offset_stream_no r
    else r
  else accept_payload seg offset_stream_no r.

Definition ackno (r : t) : option WrappingInt32 :=
  if negb (_syn_recived r) then None
  else
    let stream_no := StreamReassembler.get_next_index (_reassembler r) in
    let offset_ackno := (if _syn_recived r then 1 else 0) +
      (if ByteStream.input_ended (StreamReassembler.stream_out (_reassembler r)) then 1 else 0) in
    Some (wrap (u64 (stream_no + offset_ackno)) (WrappingInt32_of (_isn r))).

Definition window_size (r : t) : Z := ByteStream.remaining_capacity (stream_out r).

Definition unassembled_bytes (r : t) : Z := StreamReassembler.unassembled_bytes (_reassembler r).

(** The owner's access to the inbound stream through [stream_out()]. *)
Definition with_stream (f : ByteStream.t -> ByteStream.t) (r : t) : t :=
  r <| _reassembler := StreamReassembler.with_output f (_reassembler r) |>.

(** ** What a peer sends *)

(** The position in the stream of the first payload byte of a segment with
    absolute sequence number [x]. *)
Definition stream_index (x : Z) : Z := if x =? 0 then 0 else x - 1.

(** A segment of the stream [S], sent from [isn], at absolute sequence number
    [x]: SYN is number 0, byte [i] of [S] is number [i + 1] and FIN follows the
    last byte.  No segment has SYN, data and FIN at once: the sender of this
    library sends SYN alone. *)
Record segment_for (S : bytes) (isn : WrappingInt32) (x : Z) (seg : TCPSegment.t) : Prop := {
  sf_abs : 0 <= x <= zlen S + 2;
  sf_seqno : TCPHeader.seqno (TCPSegment.header seg) = wrap x isn;
  sf_syn : TCPHeader.syn (TCPSegment.header seg) = (x =? 0);
  sf_bytes : forall i b, zget (Buffer.copy (TCPSegment.payload seg)) i = Some b ->
    zget S (stream_index x + i) = Some b;
  sf_fin : TCPHeader.fin (TCPSegment.header seg) = true ->
    stream_index x + zlen (Buffer.copy (TCPSegment.payload seg)) = zlen S;
  sf_alone : x = 0 -> TCPHeader.fin (TCPSegment.header seg) = true ->
    zlen (Buffer.copy (TCPSegment.payload seg)) = 0 }.

(** [_last_stream_no] as a signed number: it is [-1] after a repeated SYN. *)
Definition last_no (r : t) : Z :=
  if _last_stream_no r =? MAX64 - 1 then -1 else _last_stream_no r.

(** A stream short enough for 32-bit numbers to tell its segments apart, and a
    window that ends below [2^32]. *)
Definition short (S : bytes) (cap : Z) : Prop := zlen S < 2147483640 /\ zlen S + cap < MAX32 - 1.

(** What the receiver needs to be safe: nothing if the stream is short; else the
    segment is within half the sequence space of the last one received, and a
    repeated SYN comes before any data. *)
Definition placed (S : bytes) (cap : Z) (r : t) (x : Z) : Prop :=
  _syn_recived r = true -> short S cap \/ (Z.abs (x - last_no r) < 2147483647 /\ (x = 0 -> last_no r <= 0)).

(** What it needs to make progress: the segment is within half the sequence space of
    the last one received; a repeated SYN comes before any data and without FIN. *)
Definition near (r : t) (x : Z) (seg : TCPSegment.t) : Prop :=
  _syn_recived r = true ->
  Z.abs (x - last_no r) < 2147483647 /\
  (x = 0 -> last_no r <= 0 /\ TCPHeader.fin (TCPSegment.header seg) = false).

(** The states of a receiver; [del] is what its owner has read. *)
Inductive reach (S : bytes) (isn : WrappingInt32) (cap : Z) : bytes -> t -> Prop :=
| reach_make : reach S isn cap [] (make cap)
| reach_segment del r x seg :
    reach S isn cap del r -> segment_for S isn x seg -> placed S cap r x ->
    reach S isn cap del (segment_received seg r)
| reach_read del r n :
    reach S isn cap del r -> 0 <= n ->
    reach S isn cap (del ++ (ByteStream.read n (stream_out r)).1)
      (with_stream (fun o => (ByteStream.read n o).2) r).

(** ** Invariant *)

(** [_last_stream_no] is at the last segment received; a late repetition of the SYN
    moves it, and all that follow, [2^32] too far. *)
Record inv (S : bytes) (isn : WrappingInt32) (cap : Z) (del : bytes) (r : t) : Prop := {
  inv_stream : StreamReassembler.consistent S cap del (_reassembler r);
  inv_last : (-1 <= last_no r <= zlen S + 1 \/
    (short S cap /\ MAX32 - 1 <= last_no r <= MAX32 + zlen S + 1)) /\ 0 <= _last_stream_no r < MAX64;
  inv_syn : if _syn_recived r then _isn r = raw_value isn else last_no r = 0 }.

(** The limits on stream length and capacity under which 64-bit positions never
    wrap. *)
Definition fits (S : bytes) (cap : Z) : Prop := 0 <= cap < MAX32 /\ zlen S < MAX64 - 4 * MAX32.

Lemma wrapping_of_raw isn : wf isn -> WrappingInt32_of (raw_value isn) = isn.
Proof. destruct isn. unfold wf, WrappingInt32_of. simpl. intros. by rewrite u32_small. Qed.

Lemma near_placed S cap r x seg : near r x seg -> placed S cap r x.
Proof. intros Hn E. right. destruct (Hn E) as [? H0]. split; [done|]. by intros [? _]%H0. Qed.

(** The number given to a segment: its own, or, after a late SYN, the one of the
    next round. *)
Lemma unwrap_placed S isn cap del r x :
  fits S cap -> wf isn -> inv S isn cap del r -> 0 <= x <= zlen S + 2 -> _syn_recived r = true -> placed S cap r x ->
  unwrap (wrap x isn) isn (_last_stream_no r) = x \/
  (short S cap /\ unwrap (wrap x isn) isn (_last_stream_no r) = MAX32 + x).
Proof.
  intros [? ?] Hi [_ [Hl Hr] _] Hx Hs Hp. specialize (Hp Hs). unfold last_no, short in *. pose_zlen.
  destruct (_last_stream_no r =? MAX64 - 1) eqn:E.
  - left. apply Z.eqb_eq in E. rewrite E. apply unwrap_minus_one; [done|lia].
  - destruct Hl as [Hl|[Hsh Hl]].
    + destruct (Z.eq_dec x 0) as [->|]; [|left; apply unwrap_near; [done|lia..]].
      destruct (Z.eq_dec (_last_stream_no r) 0) as [E0|]; [left; rewrite E0; by apply unwrap_near|right].
      destruct Hp as [Hp|[_ Hp]]; [|lia]. split; [done|]. rewrite Z.add_0_r. apply unwrap_old_isn; [done|lia].
    + right. split; [done|]. apply unwrap_epoch; [done|lia..].
Qed.

Lemma unwrap_last S isn cap del r x :
  fits S cap -> wf isn -> inv S isn cap del r -> 0 <= x <= zlen S + 2 ->
  Z.abs (x - last_no r) < 2147483647 -> (x = 0 -> last_no r <= 0) ->
  unwrap (wrap x isn) isn (_last_stream_no r) = x.
Proof.
  intros [? ?] Hi [_ [Hl Hr] _] Hx Hn Hx0. unfold last_no, short in *.
  destruct (_last_stream_no r =? MAX64 - 1) eqn:E.
  - apply Z.eqb_eq in E. rewrite E. apply unwrap_minus_one; [done|lia].
  - apply unwrap_near; [done|lia..].
Qed.

Lemma segment_for_length S isn x seg :
  segment_for S isn x seg ->
  zlen (Buffer.copy (TCPSegment.payload seg)) = 0 \/
  stream_index x + zlen (Buffer.copy (TCPSegment.payload seg)) <= zlen S.
Proof.
  intros [_ _ _ Hb _]. set (d := Buffer.copy _) in *. pose_zlen.
  destruct (Z.eq_dec (zlen d) 0); [by left|right].
  destruct (proj2 (zget_is_Some d (zlen d - 1))) as [b Hd]; [lia|].
  apply Hb, zget_Some_range in Hd. lia.
Qed.

(** A segment of the stream is a substring of it for the reassembler. *)
Lemma segment_for_substring S isn cap x seg (first : bool) :
  fits S cap -> segment_for S isn x seg -> (first = true -> x = 0) ->
  StreamReassembler.segment_of S cap (Buffer.copy (TCPSegment.payload seg))
    (u64 (x + (if first then 0 else -1))) (TCPHeader.fin (TCPSegment.header seg)).
Proof.
  intros [? ?] Hseg Hfirst. pose proof (segment_for_length _ _ _ _ Hseg) as Hlen.
  destruct Hseg as [Hx Hs Hsyn Hb Hf Halone]. pose_zlen.
  assert (0 <= stream_index x <= zlen S + 1) by (unfold stream_index; split_if; lia).
  assert (x = 0 \/ u64 (x + (if first then 0 else -1)) = stream_index x) as Hi.
  { unfold stream_index. destruct first; [left; auto|]. destruct (x =? 0) eqn:?; [left; lia|].
    right. rewrite u64_small; lia. }
  assert (first = true -> u64 (x + (if first then 0 else -1)) = stream_index x) as Hi1.
  { intros E. rewrite E, (Hfirst E). done. }
  split; [apply u64_range|lia|..].
  - intros p b Hp. unfold StreamReassembler.offered. split_if; [|done]. intros E.
    pose proof (zget_Some_range _ _ _ E). apply Hb in E. rewrite <- E. f_equal.
    destruct first; [rewrite Hi1 by done; lia|]. destruct Hi as [-> | ->]; [|lia].
    change (u64 (0 + -1)) with (MAX64 - 1) in *. lia.
  - intros E. specialize (Hf E). destruct first.
    + rewrite Hi1 by done. rewrite u64_small; lia.
    + destruct Hi as [-> | ->]; [|rewrite u64_small; lia]. rewrite Halone by done.
      change (u64 (0 + -1) + 0) with (MAX64 - 1). rewrite u64_small; lia.
Qed.

(** One round too far it is outside every window. *)
Lemma segment_for_far S isn cap x seg :
  short S cap -> fits S cap -> segment_for S isn x seg ->
  StreamReassembler.segment_of S cap (Buffer.copy (TCPSegment.payload seg))
    (u64 (MAX32 + x + -1)) (TCPHeader.fin (TCPSegment.header seg)).
Proof.
  intros [? ?] [? ?] Hseg. pose proof (segment_for_length _ _ _ _ Hseg) as Hlen. pose proof (sf_abs _ _ _ _ Hseg) as Hx.
  assert (0 <= stream_index x) by (unfold stream_index; split_if; lia). pose_zlen.
  rewrite u64_small by lia. split; [lia|lia|..].
  - intros p b Hp. unfold StreamReassembler.offered. split_if; [|done]. intros E%zget_Some_range. lia.
  - intros _. rewrite u64_small; lia.
Qed.

Lemma syn_recived_segment seg r :
  _syn_recived (segment_received seg r) = _syn_recived r || TCPHeader.syn (TCPSegment.header seg).
Proof.
  unfold segment_received, accept_payload. destruct (_syn_recived r) eqn:E; [done|].
  by destruct (TCPHeader.syn _).
Qed.

Lemma accept_inv S isn cap del r x seg (first : bool) :
  fits S cap -> wf isn -> inv S isn cap del r -> segment_for S isn x seg ->
  _syn_recived r = true -> placed S cap r x -> (first = true -> x = 0 /\ _last_stream_no r = 0) ->
  inv S isn cap del (accept_payload seg (if first then 0 else -1) r).
Proof.
  intros Hfit Hi Hinv Hseg Hsyn Hp Hfirst.
  pose proof (sf_abs _ _ _ _ Hseg) as Hx.
  pose proof (unwrap_placed _ _ _ _ _ x Hfit Hi Hinv Hx Hsyn Hp) as Hun.
  pose proof (segment_for_substring S isn cap x seg first Hfit Hseg (fun E => proj1 (Hfirst E))) as Hsub.
  destruct Hinv as [Hcon Hlast Hs]. pose proof Hfit as [? ?]. rewrite Hsyn in Hs. pose_zlen.
  unfold accept_payload. rewrite Hs, wrapping_of_raw, (sf_seqno _ _ _ _ Hseg) by done.
  destruct Hun as [-> | [Hsh Hun]]; [split; simpl|].
  - apply StreamReassembler.push_consistent; [lia|done..].
  - unfold last_no. simpl. split; [left|apply u64_range].
    destruct first; [destruct Hfirst as [-> _]; [done|]; change (u64 (0 + 0)) with 0; split_if; lia|].
    destruct (Z.eq_dec x 0) as [->|];
      [change (u64 (0 + -1)) with (MAX64 - 1); split_if; lia|]. rewrite u64_small by lia. split_if; lia.
  - by rewrite Hsyn.
  - destruct first.
    { destruct Hfirst as [-> E0]; [done|]. rewrite E0 in Hun. rewrite unwrap_near in Hun by (done || lia). lia. }
    rewrite Hun. pose proof Hsh as [? ?]. split; simpl.
    + apply StreamReassembler.push_consistent; [lia|done|]. by eapply segment_for_far.
    + unfold last_no. simpl. rewrite u64_small by lia. split; [right|lia]. split; [done|]. split_if; lia.
    + by rewrite Hsyn.
Qed.

Lemma segment_inv S isn cap del r x seg :
  fits S cap -> wf isn -> inv S isn cap del r -> segment_for S isn x seg -> placed S cap r x ->
  inv S isn cap del (segment_received seg r).
Proof.
  intros Hfit Hi Hinv Hseg Hp. unfold segment_received.
  destruct (_syn_recived r) eqn:E; cbn [negb]; [by apply (accept_inv _ _ _ _ _ x _ false)|].
  rewrite (sf_syn _ _ _ _ Hseg). destruct (x =? 0) eqn:Ex; [|done].
  apply Z.eqb_eq in Ex. subst x. cbv zeta.
  destruct Hinv as [Hc Hl Hs]. rewrite E in Hs.
  assert (_last_stream_no r = 0) as E0 by (unfold last_no in Hs; destruct (_ =? _); lia).
  apply (accept_inv _ _ _ _ _ 0 _ true); try done.
  - split; [done..|]. simpl. rewrite (sf_seqno _ _ _ _ Hseg), raw_wrap. unfold wf in Hi. word.
  - intros _. right. unfold last_no. simpl. rewrite E0. split_if; lia.
Qed.

(** A receiver that no late SYN has moved; [near] segments keep it so. *)
Definition synced (S : bytes) (r : t) : Prop := last_no r <= zlen S + 1.

Lemma synced_last S isn cap del r : inv S isn cap del r -> synced S r -> -1 <= last_no r <= zlen S + 1.
Proof. intros [_ [Hl _] _] Hs. unfold synced, short in *. lia. Qed.

Lemma segment_synced S isn cap del r x seg :
  fits S cap -> wf isn -> inv S isn cap del r -> segment_for S isn x seg -> near r x seg ->
  synced S r -> synced S (segment_received seg r).
Proof.
  intros Hfit Hi Hinv Hseg Hnear Hsy. pose proof (sf_abs _ _ _ _ Hseg) as Hx. pose proof Hfit as [? ?].
  pose proof (unwrap_last _ _ _ _ _ x Hfit Hi Hinv Hx) as Hun. destruct Hinv as [_ _ Hs].
  unfold segment_received, accept_payload, synced in *. destruct (_syn_recived r) eqn:E; cbn [negb].
  - destruct (Hnear E) as [Hn Hn0]. rewrite Hs, wrapping_of_raw, (sf_seqno _ _ _ _ Hseg) by done.
    rewrite Hun by tauto. unfold last_no. simpl. pose_zlen.
    destruct (Z.eq_dec x 0) as [->|]; [change (u64 (0 + -1)) with (MAX64 - 1); split_if; lia|].
    rewrite u64_small by lia. split_if; lia.
  - rewrite (sf_syn _ _ _ _ Hseg). destruct (x =? 0) eqn:Ex; [|done]. apply Z.eqb_eq in Ex. subst x.
    assert (_last_stream_no r = 0) as E0 by (unfold last_no in Hs; destruct (_ =? _); lia).
    unfold last_no. simpl. rewrite (sf_seqno _ _ _ _ Hseg), E0.
    assert (WrappingInt32_of (raw_value (wrap 0 isn)) = isn) as ->.
    { rewrite wrapping_of_raw by apply wrap_wf. destruct isn. unfold wf, wrap in *. simpl in *. f_equal. word. }
    rewrite unwrap_near by (done || lia). change (u64 (0 + 0)) with 0. pose_zlen. split_if; lia.
Qed.

Lemma receiver_reach_inv S isn cap del r :
  fits S cap -> wf isn -> reach S isn cap del r -> inv S isn cap del r.
Proof.
  intros Hfit Hi H. pose proof Hfit as [? ?].
  induction H as [|del r x seg H IH Hseg Hnear|del r n H IH Hn].
  - pose_zlen. split; simpl; unfold last_no; simpl; try lia.
    apply StreamReassembler.reach_consistent; [lia..|constructor].
  - by eapply segment_inv.
  - destruct IH as [Hc Hl Hs]. split; [|done..]. by apply StreamReassembler.read_consistent.
Qed.

(** A substring that does not know the next byte changes nothing the reader can
    see. *)
Lemma push_nothing r data index eof :
  StreamReassembler.inv r -> StreamReassembler.roomy r ->
  StreamReassembler.merged r data index (StreamReassembler._next_index r) = None ->
  0 <= index < MAX64 -> zlen data < MAX64 ->
  let r' := StreamReassembler.push_substring data index eof r in
  StreamReassembler.inv r' /\ StreamReassembler.roomy r' /\
  StreamReassembler._next_index r' = StreamReassembler._next_index r /\
  ByteStream._capacity (StreamReassembler._output r') = ByteStream._capacity (StreamReassembler._output r) /\
  ByteStream._buffer (StreamReassembler._output r') = ByteStream._buffer (StreamReassembler._output r).
Proof.
  intros Hinv Hroom Hm Hi Hl. cbv zeta.
  destruct (StreamReassembler.push_pushed r data index eof) as (d & H); try done; [by right|].
  set (r' := StreamReassembler.push_substring data index eof r) in *. clearbody r'.
  destruct H as [Hinv' Hn (o & -> & Ho) Hb _ _ _ _].
  assert (zlen d = 0) as Hd.
  { destruct d as [|b d]; [done|]. exfalso. rewrite zlen_cons in Hn. pose_zlen.
    specialize (Hb (StreamReassembler._next_index r)). rewrite Hm, Z.sub_diag in Hb.
    by discriminate Hb; lia. }
  apply zlen_0_nil in Hd. subst d. rewrite ByteStream.append_nil in Ho by apply Hinv.
  change (zlen []) with 0 in Hn. rewrite Z.add_0_r in Hn. unfold StreamReassembler.roomy in *.
  rewrite Hn, Ho. by split_if.
Qed.

(** C6: the receiver is safe and acknowledges correctly.  Whatever a peer sends
    of the stream [S], reordered, repeated and lost, and however the owner reads:
    the bytes handed to the owner followed by those waiting are the beginning of
    [S]; the stream ends only after all of [S]; the acknowledgement number, once
    SYN arrived, is the wrapped absolute number of the first missing byte (SYN
    and the end of the stream counting one each); and the advertised window is
    exactly the room left in the stream.  For a short stream (below 2 GiB, and
    [2^32 - 1] with the capacity) any segment may arrive at any time, a SYN after
    data included; for a longer one each is within half the sequence space of the
    last, and no SYN follows data ([placed]). *)
Theorem receiver_in_order (S : bytes) (isn : WrappingInt32) (cap : Z) (del : bytes) (r : t) :
  fits S cap -> wf isn -> reach S isn cap del r ->
  let got := del ++ ByteStream._buffer (stream_out r) in
  got = ztake (zlen got) S /\
  (ByteStream.input_ended (stream_out r) = true -> got = S) /\
  ackno r = (if _syn_recived r
             then Some (wrap (1 + zlen got + (if ByteStream.input_ended (stream_out r) then 1 else 0)) isn)
             else None) /\
  window_size r = cap - zlen (ByteStream._buffer (stream_out r)).
Proof.
  intros Hfit Hi H. destruct (receiver_reach_inv _ _ _ _ _ Hfit Hi H) as [Hc Hl Hs]. destruct Hfit as [? ?].
  unfold stream_out, StreamReassembler.stream_out.
  destruct Hc as [Hinv Hcap Hn Hpre _ _ Hend]. cbv zeta. rewrite Hpre, zlen_ztake.
  rewrite (Z.min_l _ (zlen S)), Z.max_r by lia. split_and!; [done|..].
  - intros E. rewrite (Hend E). by apply ztake_all.
  - unfold ackno, StreamReassembler.get_next_index, StreamReassembler.stream_out.
    destruct (_syn_recived r); [|done]. simpl. rewrite Hs, wrapping_of_raw by done.
    do 2 f_equal. split_if; rewrite u64_small; lia.
  - unfold window_size, stream_out, StreamReassembler.stream_out.
    rewrite ByteStream.remaining_capacity_wf by apply Hinv. lia.
Qed.

Definition seg_of (x : Z) (isn : WrappingInt32) (syn fin : bool) (data : bytes) : TCPSegment.t :=
  TCPSegment.mk
    (TCPHeader.default <| TCPHeader.seqno := wrap x isn |> <| TCPHeader.syn := syn |>
       <| TCPHeader.fin := fin |>)
    (Buffer.of_string data).

Definition demo_isn : WrappingInt32 := mkWrapping 4294967295.

Definition demo_r : t :=
  with_stream (fun o => (ByteStream.read 2 o).2)
    (segment_received (seg_of 0 demo_isn true false [])
      (segment_received (seg_of 1 demo_isn false false (str "abc"))
        (segment_received (seg_of 4 demo_isn false true (str "def"))
          (segment_received (seg_of 0 demo_isn true false []) (make 10))))).

(** Segments of the witness stream, checked by evaluation. *)
Lemma demo_receiver_segment x syn fin data :
  Z.leb 0 x && Z.leb x 7 && Bool.eqb syn (x =? 0) &&
  bool_decide (data = substr (str "abcdef") (stream_index x) (zlen data)) &&
  (negb fin || (stream_index x + zlen data =? 6) && negb (x =? 0)) = true ->
  zlen data < MAX64 ->
  segment_for (str "abcdef") demo_isn x (seg_of x demo_isn syn fin data).
Proof.
  rewrite !andb_true_iff, bool_decide_eq_true, orb_true_iff. intros ((((H0 & H1) & H2) & H3) & H4) Hl.
  change (zlen (str "abcdef")) with 6. assert (Buffer.copy (Buffer.of_string data) = data) as Hd by
    (by apply Buffer.str_of_string).
  split; cbn [TCPSegment.header TCPSegment.payload TCPSegment._header TCPSegment._payload seg_of modify
    TCPHeader.seqno TCPHeader.syn TCPHeader.fin]; rewrite ?Hd.
  - change (zlen (str "abcdef")) with 6. lia.
  - done.
  - by apply Bool.eqb_prop.
  - intros i b E. pose proof (zget_Some_range _ _ _ E). rewrite H3 in E.
    rewrite zget_substr in E by (try lia; unfold stream_index; split_if; lia).
    by replace (i <? zlen data) with true in E by lia.
  - intros ->. change (zlen (str "abcdef")) with 6. destruct H4; [done|lia].
  - intros -> ->. destruct H4; [done|lia].
Qed.

Lemma demo_receiver_reach : reach (str "abcdef") demo_isn 10 (str "ab") demo_r.
Proof.
  unfold demo_r. set (r := segment_received _ _).
  replace (str "ab") with ([] ++ (ByteStream.read 2 (stream_out r)).1) by (vm_compute; reflexivity).
  apply reach_read; [|lia]. unfold r.
  eapply (reach_segment _ _ _ _ _ 0); [|by apply demo_receiver_segment|by intros _; left; vm_compute].
  eapply (reach_segment _ _ _ _ _ 1); [|by apply demo_receiver_segment|by intros _; left; vm_compute].
  eapply (reach_segment _ _ _ _ _ 4); [|by apply demo_receiver_segment|by intros _; left; vm_compute].
  eapply (reach_segment _ _ _ _ _ 0); [constructor|by apply demo_receiver_segment|by intros _; left; vm_compute].
Qed.

Lemma receiver_in_order_witness :
  let got := str "ab" ++ ByteStream._buffer (stream_out demo_r) in
  got = ztake (zlen got) (str "abcdef") /\
  (ByteStream.input_ended (stream_out demo_r) = true -> got = str "abcdef") /\
  ackno demo_r =
    (if _syn_recived demo_r
     then Some (wrap (1 + zlen got + (if ByteStream.input_ended (stream_out demo_r) then 1 else 0)) demo_isn)
     else None) /\
  window_size demo_r = 10 - zlen (ByteStream._buffer (stream_out demo_r)).
Proof.
  apply receiver_in_order; [split; vm_compute; intuition congruence|vm_compute; intuition congruence|].
  apply demo_receiver_reach.
Defined.

Lemma push_advances r data index eof :
  StreamReassembler.inv r -> StreamReassembler.roomy r ->
  ByteStream.input_ended (StreamReassembler._output r) = false ->
  index = StreamReassembler._next_index r -> 0 <= index -> index + zlen data < MAX64 ->
  StreamReassembler._next_index r +
    Z.min (zlen data) (ByteStream.remaining_capacity (StreamReassembler._output r)) <=
  StreamReassembler._next_index (StreamReassembler.push_substring data index eof r).
Proof.
  intros Hinv Hroom Hopen -> H0 Hlen. pose_zlen.
  destruct (StreamReassembler.push_pushed r data (StreamReassembler._next_index r) eof)
    as (d & [Hinv' Hn _ _ Hg _ _ _]); try done; [by left|lia..|].
  set (r' := StreamReassembler.push_substring _ _ _ r) in *. clearbody r'. pose_zlen.
  apply Z.nlt_ge. intros Hlt.
  destruct (StreamReassembler.merged_offered r data (StreamReassembler._next_index r) (StreamReassembler._next_index r'))
    as [b Hb]; [lia|lia|unfold StreamReassembler.window_end; lia|congruence].
Qed.

(** The receiver makes progress.  In every reachable state after the
    handshake whose stream has not ended, a segment that starts at the first
    missing byte moves the next expected index past all of its payload that fits
    the advertised window. *)
Theorem receiver_progress (S : bytes) (isn : WrappingInt32) (cap : Z) (del : bytes) (r : t)
    (x : Z) (seg : TCPSegment.t) :
  fits S cap -> wf isn -> reach S isn cap del r -> segment_for S isn x seg -> near r x seg ->
  _syn_recived r = true -> ByteStream.input_ended (stream_out r) = false ->
  x = 1 + StreamReassembler.get_next_index (_reassembler r) ->
  StreamReassembler.get_next_index (_reassembler r) +
    Z.min (zlen (Buffer.str (TCPSegment.payload seg))) (window_size r) <=
  StreamReassembler.get_next_index (_reassembler (segment_received seg r)).
Proof.
  intros Hfit Hi H Hseg Hnear Hsyn Hopen Hx. pose proof (receiver_reach_inv _ _ _ _ _ Hfit Hi H) as Hinv.
  pose proof (inv_stream _ _ _ _ _ Hinv) as Hcon. pose proof Hfit as [? ?].
  pose proof (StreamReassembler.con_next _ _ _ _ Hcon) as Hnx.
  unfold StreamReassembler.get_next_index in *. destruct (Hnear Hsyn) as [Hn _].
  pose proof (segment_for_length _ _ _ _ Hseg) as Hlen.
  assert (stream_index x = StreamReassembler._next_index (_reassembler r)) as Hix
    by (unfold stream_index; split_if; lia).
  unfold segment_received. rewrite Hsyn. cbn [negb]. unfold accept_payload.
  pose proof (inv_syn _ _ _ _ _ Hinv) as Hs. rewrite Hsyn in Hs.
  rewrite Hs, wrapping_of_raw, (sf_seqno _ _ _ _ Hseg) by done.
  rewrite (unwrap_last S isn cap del r x) by (done || lia). simpl.
  rewrite u64_small by lia. pose_zlen. unfold Buffer.copy in *.
  apply push_advances; try lia.
  - apply Hcon.
  - eapply StreamReassembler.consistent_roomy; [|exact Hcon]. lia.
  - exact Hopen.
Qed.

Lemma receiver_progress_witness :
  let r := segment_received (seg_of 0 demo_isn true false []) (make 10) in
  let seg := seg_of 1 demo_isn false false (str "abc") in
  StreamReassembler.get_next_index (_reassembler r) +
    Z.min (zlen (Buffer.str (TCPSegment.payload seg))) (window_size r) <=
  StreamReassembler.get_next_index (_reassembler (segment_received seg r)).
Proof.
  intros r seg. apply (receiver_progress (str "abcdef") demo_isn 10 [] r 1 seg).
  - split; vm_compute; intuition congruence.
  - vm_compute; intuition congruence.
  - apply (reach_segment _ _ _ _ _ 0); [constructor|by apply demo_receiver_segment|by intros _; left; vm_compute].
  - by apply demo_receiver_segment.
  - by vm_compute.
  - reflexivity.
  - reflexivity.
  - reflexivity.
Defined.

(** What a receiver whose stream is established does with a segment that it
    places outside the window, or that carries no payload. *)
Record unmoved (isn : WrappingInt32) (r r' : t) : Prop := {
  um_syn : _syn_recived r' = true;
  um_isn : _isn r' = raw_value isn;
  um_inv : StreamReassembler.inv (_reassembler r');
  um_roomy : StreamReassembler.roomy (_reassembler r');
  um_next : StreamReassembler._next_index (_reassembler r') = StreamReassembler._next_index (_reassembler r);
  um_cap : ByteStream._capacity (stream_out r') = ByteStream._capacity (stream_out r);
  um_buffer : ByteStream._buffer (stream_out r') = ByteStream._buffer (stream_out r) }.

Lemma accept_far isn r seg y :
  wf isn -> unmoved isn r r ->
  unwrap (TCPHeader.seqno (TCPSegment.header seg)) isn (_last_stream_no r) = y -> 1 <= y < MAX64 ->
  zlen (Buffer.str (TCPSegment.payload seg)) < MAX64 ->
  (StreamReassembler._next_index (_reassembler r) + ByteStream._capacity (stream_out r) < y \/
   zlen (Buffer.str (TCPSegment.payload seg)) = 0) ->
  unmoved isn r (segment_received seg r) /\ _last_stream_no (segment_received seg r) = y - 1.
Proof.
  intros Hi [Hs Hisn Hinv Hroom _ _ _] Hun Hy Hlen Hfar.
  unfold segment_received. rewrite Hs. cbn [negb]. unfold accept_payload.
  rewrite Hisn, wrapping_of_raw, Hun by done. rewrite u64_small by lia.
  destruct (push_nothing (_reassembler r) (Buffer.copy (TCPSegment.payload seg)) (y + -1)
    (TCPHeader.fin (TCPSegment.header seg))) as (? & ? & ? & ? & ?); try done; try lia.
  unfold StreamReassembler.merged. rewrite (StreamReassembler.inv_front _ Hinv).
  split_if; [|done]. unfold StreamReassembler.offered. split_if; [|done].
  unfold Buffer.copy. destruct Hfar as [Hfar|E]; [|by apply zget_nil].
  apply zget_None. destruct Hroom.
  unfold stream_out, StreamReassembler.stream_out, StreamReassembler.window_end in *.
  pose proof (ByteStream.remaining_capacity_range _ (StreamReassembler.inv_output _ Hinv)). lia.
Qed.

(** A late repetition of the SYN desynchronises the receiver.  After data was
    received, an old SYN (a legal duplicate on a network that reorders) is
    unwrapped to [2^32] instead of 0, and every later segment of the stream is
    then placed [2^32] too far: whatever its payload, the reader sees nothing of
    it and the next expected index does not move. *)
Theorem late_duplicate_syn (S : bytes) (isn : WrappingInt32) (cap : Z) (del : bytes) (r : t)
    (syn seg : TCPSegment.t) (x : Z) :
  fits S cap -> wf isn -> reach S isn cap del r -> _syn_recived r = true ->
  1 <= last_no r < 2147483648 -> zlen S < 2147483648 -> cap < 2147483647 ->
  segment_for S isn 0 syn -> zlen (Buffer.str (TCPSegment.payload syn)) = 0 ->
  segment_for S isn x seg -> 1 <= x < 2147483647 ->
  let r1 := segment_received syn r in
  let r2 := segment_received seg r1 in
  _last_stream_no r1 = MAX32 - 1 /\ _last_stream_no r2 = MAX32 + x - 1 /\
  ByteStream._buffer (stream_out r2) = ByteStream._buffer (stream_out r) /\
  StreamReassembler.get_next_index (_reassembler r2) = StreamReassembler.get_next_index (_reassembler r).
Proof.
  intros Hfit Hi H Hsyn Hlast HS Hcap Hseg0 Hempty Hseg Hx. cbv zeta. pose proof Hfit as [? ?].
  pose proof (receiver_reach_inv _ _ _ _ _ Hfit Hi H) as [Hcon Hl Hs]. rewrite Hsyn in Hs.
  pose proof (StreamReassembler.con_next _ _ _ _ Hcon). pose proof (StreamReassembler.con_cap _ _ _ _ Hcon).
  assert (_last_stream_no r = last_no r) as Hno by (unfold last_no in *; split_if; lia).
  assert (unmoved isn r r) as Hr.
  { split; try done; [apply Hcon|]. eapply StreamReassembler.consistent_roomy; [|exact Hcon]. lia. }
  destruct (accept_far isn r syn MAX32) as [Hu1 Hn1]; [done|done| |lia|lia|by right|].
  { rewrite (sf_seqno _ _ _ _ Hseg0). apply unwrap_old_isn; [done|lia]. }
  set (r1 := segment_received syn r) in *. clearbody r1.
  pose proof (segment_for_length _ _ _ _ Hseg) as Hlen.
  assert (unmoved isn r1 r1) as Hr1 by (destruct Hu1; by split).
  destruct (accept_far isn r1 seg (MAX32 + x)) as [Hu2 Hn2]; [done|done| |lia| |left|].
  { rewrite (sf_seqno _ _ _ _ Hseg), Hn1. apply unwrap_next_epoch; [done|lia]. }
  { unfold Buffer.copy, stream_index in *. destruct (x =? 0); lia. }
  { destruct Hu1 as [_ _ _ _ -> -> _]. unfold stream_out, StreamReassembler.stream_out. lia. }
  destruct Hu1, Hu2. split_and!; [done|lia| |]; unfold StreamReassembler.get_next_index; congruence.
Qed.

Definition demo_synced : t :=
  segment_received (seg_of 3 demo_isn false false (str "c"))
    (segment_received (seg_of 1 demo_isn false false (str "ab"))
      (segment_received (seg_of 0 demo_isn true false []) (make 10))).

Lemma late_duplicate_syn_witness :
  let r1 := segment_received (seg_of 0 demo_isn true false []) demo_synced in
  let r2 := segment_received (seg_of 4 demo_isn false true (str "def")) r1 in
  _last_stream_no r1 = MAX32 - 1 /\ _last_stream_no r2 = MAX32 + 4 - 1 /\
  ByteStream._buffer (stream_out r2) = ByteStream._buffer (stream_out demo_synced) /\
  StreamReassembler.get_next_index (_reassembler r2) =
    StreamReassembler.get_next_index (_reassembler demo_synced).
Proof.
  apply (late_duplicate_syn (str "abcdef") demo_isn 10 []).
  - split; vm_compute; intuition congruence.
  - vm_compute; intuition congruence.
  - apply (reach_segment _ _ _ _ _ 3); [|by apply demo_receiver_segment|by intros _; left; vm_compute].
    apply (reach_segment _ _ _ _ _ 1); [|by apply demo_receiver_segment|by intros _; left; vm_compute].
    apply (reach_segment _ _ _ _ _ 0); [constructor|by apply demo_receiver_segment|by intros _; left; vm_compute].
  - reflexivity.
  - vm_compute; intuition congruence.
  - reflexivity.
  - reflexivity.
  - by apply demo_receiver_segment.
  - reflexivity.
  - by apply demo_receiver_segment.
  - lia.
Defined.

End TCPReceiver.
