(* ===== verification/TCPSender.v ===== *)
(** * The TCP sender: [libsponge/tcp_sender.hh] and [.cc]

    [TCPSender.t] is the class with its members; every method is a definition.
    [inv S hist s] is the invariant of a sender whose owner writes the stream
    [S], after the bytes [hist] were taken from the outbound stream: which
    segments are outstanding, what each carries, and how the sequence numbers,
    the timer and the stream fit together. *)
From S2P Require Import Prelude WrappingIntegers ByteStream OrderedMap StreamReassembler Buffer.
From S2P Require Import Parser Checksum TCPSegment TCPReceiver.
Import WrappingIntegers.

(** [TCPConfig]. *)
Module TCPConfig.

Definition DEFAULT_CAPACITY : Z := 64000.
Definition MAX_PAYLOAD_SIZE : Z := 1000.
Definition TIMEOUT_DFLT : Z := 1000.
Definition MAX_RETX_ATTEMPTS : Z := 8.

Record t := mk {
  rt_timeout : Z;
  recv_capacity : Z;
  send_capacity : Z;
  fixed_isn : option WrappingInt32 }.

#[global] Instance eta_cfg : Eta t := fun c =>
  mk (rt_timeout c) (recv_capacity c) (send_capacity c) (fixed_isn c).

Definition default : t := mk TIMEOUT_DFLT DEFAULT_CAPACITY DEFAULT_CAPACITY None.

End TCPConfig.

Module TCPSender.

Record t := mk {
  _isn : WrappingInt32;
  _segments_out : list TCPSegment.t;
  _segments_outstanding : list ((Z * bool) * TCPSegment.t);
  _init_timer_backup : Z;
  _initial_retransmission_timeout : Z;
  _retransmission_timeout : Z;
  _timer_enable : bool;
  _consecutive_retransmissions_count : Z;
  _stream : ByteStream.t;
  _next_seqno : Z;
  _last_ackno : Z;
  _window_size : Z;
  _window_zero_valid : bool;
  _fin_sent : bool }.

#[global] Instance eta_t : Eta t := fun s =>
  mk (_isn s) (_segments_out s) (_segments_outstanding s) (_init_timer_backup s)
     (_initial_retransmission_timeout s) (_retransmission_timeout s) (_timer_enable s)
     (_consecutive_retransmissions_count s) (_stream s) (_next_seqno s) (_last_ackno s)
     (_window_size s) (_window_zero_valid s) (_fin_sent s).

(** The constructor; [random] is the value of [random_device()()]. *)
Definition make (capacity retx_timeout : Z) (fixed_isn : option WrappingInt32) (random : Z) : t :=
  mk (match fixed_isn with Some isn => isn | None => WrappingInt32_of random end)
     [] [] retx_timeout retx_timeout 0 false 0 (ByteStream.make capacity) 0 0 1 false false.

Definition stream_in (s : t) : ByteStream.t := _stream s.

Definition next_seqno_absolute (s : t) : Z := _next_seqno s.

Definition next_seqno (s : t) : WrappingInt32 := wrap (_next_seqno s) (_isn s).

Definition segments_out (s : t) : list TCPSegment.t := _segments_out s.

Definition consecutive_retransmissions (s : t) : Z := _consecutive_retransmissions_count s.

Definition bytes_in_flight (s : t) : Z :=
  fold_left (fun total e => u64 (total + TCPSegment.length_in_sequence_space e.2))
    (_segments_outstanding s) 0.

Definition send_segment (seg : TCPSegment.t) (window_zero_flag : bool) (s : t) : t :=
  let abs_seqno := next_seqno_absolute s in
  let wrap_seqno := next_seqno s in
  let seg := seg <| TCPSegment._header := (TCPSegment.header seg) <| TCPHeader.seqno := wrap_seqno |> |> in
  let s := s <| _next_seqno := u64 (_next_seqno s + TCPSegment.length_in_sequence_space seg) |> in
  let s := s <| _segments_out := _segments_out s ++ [seg] |> in
  if negb (TCPSegment.length_in_sequence_space seg =? 0) then
    let s := s <| _timer_enable := true |> in
    s <| _segments_outstanding := _segments_outstanding s ++ [((abs_seqno, window_zero_flag), seg)] |>
  else s.

Definition send_empty_segment (s : t) : t := send_segment TCPSegment.default false s.

Definition send_empty_segment_with_this_header (header : TCPHeader.t) (s : t) : t :=
  send_segment (TCPSegment.default <| TCPSegment._header := header |>) false s.

(** The [while (num_bytes_to_send > 0)] loop of [fill_window]. *)
Fixpoint fill_loop (fuel : nat) (num_bytes_to_send : Z) (window_zero_flag : bool) (s : t) : option t :=
  match fuel with
  | O => None
  | S fuel =>
      if 0 <? num_bytes_to_send then
        let max_read_length := Z.min num_bytes_to_send TCPConfig.MAX_PAYLOAD_SIZE in
        let '(payload, stream) := ByteStream.read max_read_length (_stream s) in
        let s := s <| _stream := stream |> in
        let num_bytes_to_send := u64 (num_bytes_to_send - zlen payload) in
        let seg := TCPSegment.default <| TCPSegment._payload := Buffer.of_string payload |> in
        let '(seg, s, num_bytes_to_send) :=
          if ByteStream.eof (stream_in s) && (0 <? num_bytes_to_send) && negb (_fin_sent s) then
            (seg <| TCPSegment._header := (TCPSegment.header seg) <| TCPHeader.fin := true |> |>,
             s <| _fin_sent := true |>, u64 (num_bytes_to_send - 1))
          else (seg, s, num_bytes_to_send) in
        if TCPSegment.length_in_sequence_space seg =? 0 then Some s
        else fill_loop fuel num_bytes_to_send window_zero_flag (send_segment seg window_zero_flag s)
      else Some s
  end.

(** Each round but the last takes a byte from the stream or sends FIN, so the
    fuel covers every run ([fill_loop_spec]). *)
Definition fill_fuel (s : t) : nat := S (S (length (ByteStream._buffer (_stream s)))).

Definition fill_window (s : t) : t :=
  if _fin_sent s then s
  else
    let s := if next_seqno_absolute s =? 0 then
               send_segment (TCPSegment.default <| TCPSegment._header :=
                 TCPHeader.default <| TCPHeader.syn := true |> |>) false s
             else s in
    let num_bytes_to_send :=
      if _next_seqno s <=? u64 (_last_ackno s + _window_size s)
      then u64 (u64 (_last_ackno s + _window_size s) - _next_seqno s) else 0 in
    let '(num_bytes_to_send, window_zero_flag, s) :=
      if (_window_size s =? 0) && _window_zero_valid s
      then (u64 (num_bytes_to_send + 1), true, s <| _window_zero_valid := false |>)
      else (num_bytes_to_send, false, s) in
    match fill_loop (fill_fuel s) num_bytes_to_send window_zero_flag s with
    | Some s => s
    | None => s
    end.

(** The [while] loop of [remove_outstanding_segments]: whether something was
    popped, and what is left. *)
Fixpoint pop_acked (last_ackno : Z) (l : list ((Z * bool) * TCPSegment.t)) :
    bool * list ((Z * bool) * TCPSegment.t) :=
  match l with
  | [] => (false, [])
  | ((abs_seqno, flag), seg) :: rest =>
      if u64 (abs_seqno + TCPSegment.length_in_sequence_space seg) <=? last_ackno
      then (true, (pop_acked last_ackno rest).2)
      else (false, l)
  end.

Definition remove_outstanding_segments (s : t) : t :=
  let '(segments_poped_out, kept) := pop_acked (_last_ackno s) (_segments_outstanding s) in
  let s := s <| _segments_outstanding := kept |> in
  if segments_poped_out then
    let s := s <| _retransmission_timeout := 0 |> in
    let s := s <| _initial_retransmission_timeout := _init_timer_backup s |> in
    let s := s <| _timer_enable := negb (zlen (_segments_outstanding s) =? 0) |> in
    s <| _consecutive_retransmissions_count := 0 |>
  else s.

Definition ack_received (ackno : WrappingInt32) (window_size : Z) (s : t) : t :=
  if _next_seqno s =? 0 then s
  else
    let new_ackno := unwrap ackno (_isn s) (_last_ackno s) in
    let new_window_size := window_size in
    if _next_seqno s <? new_ackno then s
    else
      let s := s <| _last_ackno := Z.max (_last_ackno s) new_ackno |> in
      let s :=
        if _last_ackno s <? u64 (new_ackno + new_window_size)
        then s <| _window_size := u64 (u64 (new_ackno + new_window_size) - _last_ackno s) |>
        else s <| _window_size := 0 |> <| _window_zero_valid := true |> in
      fill_window (remove_outstanding_segments s).

Definition timeout_retransmission (s : t) : t :=
  match _segments_outstanding s with
  | [] =>
      s <| _timer_enable := false |> <| _retransmission_timeout := 0 |>
        <| _initial_retransmission_timeout := _init_timer_backup s |>
        <| _consecutive_retransmissions_count := 0 |>
  | ((_, window_zero_flag), seg_timeout) :: _ =>
      let s := s <| _segments_out := _segments_out s ++ [seg_timeout] |> in
      if negb window_zero_flag then
        let s := s <| _initial_retransmission_timeout := u32 (_initial_retransmission_timeout s * 2) |> in
        s <| _consecutive_retransmissions_count := u32 (_consecutive_retransmissions_count s + 1) |>
      else s
  end.

Definition tick (ms_since_last_tick : Z) (s : t) : t :=
  if negb (_timer_enable s) then s
  else
    let s := s <| _retransmission_timeout := u32 (_retransmission_timeout s + ms_since_last_tick) |> in
    if _initial_retransmission_timeout s <=? _retransmission_timeout s then
      let s := timeout_retransmission s in
      s <| _timer_enable := true |> <| _retransmission_timeout := 0 |>
    else s.

(** The owner's access to the outbound stream through [stream_in()]. *)
Definition with_stream (f : ByteStream.t -> ByteStream.t) (s : t) : t := s <| _stream := f (_stream s) |>.

(** ** Invariant *)

Abbreviation segment_for := TCPReceiver.segment_for.

(** The length of a segment in sequence space, without the 64-bit reduction. *)
Definition seg_len (seg : TCPSegment.t) : Z :=
  zlen (Buffer.str (TCPSegment.payload seg)) +
  (if TCPHeader.syn (TCPSegment.header seg) then 1 else 0) +
  (if TCPHeader.fin (TCPSegment.header seg) then 1 else 0).

(** A segment as the sender makes it: it fits the wire format, and the fields
    that the connection fills in are still empty. *)
Record plain (seg : TCPSegment.t) : Prop := {
  plain_wf : TCPSegment.wf seg;
  plain_ack : TCPHeader.ack (TCPSegment.header seg) = false;
  plain_win : TCPHeader.win (TCPSegment.header seg) = 0 }.

(** The outstanding segments follow each other without gaps from [lo] to [hi],
    none is empty, and each is the segment of the stream at its number in the
    form the sender made it. *)
Fixpoint contig (S : bytes) (isn : WrappingInt32) (lo : Z) (l : list ((Z * bool) * TCPSegment.t))
    (hi : Z) : Prop :=
  match l with
  | [] => lo = hi
  | ((x, _), seg) :: l =>
      x = lo /\ (segment_for S isn x seg /\ plain seg) /\ 0 < seg_len seg /\
      contig S isn (lo + seg_len seg) l hi
  end.

(** A segment that can be put on the wire, of the stream [S] or a reset. *)
Definition emits (S : bytes) (isn : WrappingInt32) (seg : TCPSegment.t) : Prop :=
  TCPSegment.wf seg /\
  (TCPHeader.rst (TCPSegment.header seg) = true \/ exists x, segment_for S isn x seg).

Definition queued (S : bytes) (isn : WrappingInt32) (seg : TCPSegment.t) : Prop :=
  plain seg /\ emits S isn seg.

Definition pending (s : t) : bool := negb (zlen (_segments_outstanding s) =? 0).

(** Sequence numbers, outstanding segments and timer. *)
Record core (S : bytes) (s : t) : Prop := {
  core_isn : wf (_isn s);
  core_chain : exists lo, 0 <= lo <= _last_ackno s /\
    contig S (_isn s) lo (_segments_outstanding s) (_next_seqno s);
  core_ack : 0 <= _last_ackno s <= _next_seqno s;
  core_head : match _segments_outstanding s with
    | [] => _last_ackno s = _next_seqno s
    | ((x, _), seg) :: _ => _last_ackno s < x + seg_len seg
    end;
  core_timer : _timer_enable s = pending s;
  core_idle : _timer_enable s = false -> _retransmission_timeout s = 0;
  core_rto : exists k, 0 <= k /\ _consecutive_retransmissions_count s = u32 k /\
    _initial_retransmission_timeout s = u32 (_init_timer_backup s * 2 ^ k);
  core_backup : 0 <= _init_timer_backup s < MAX16;
  core_out : Forall (queued S (_isn s)) (_segments_out s);
  core_window : 0 <= _window_size s < MAX16 }.

(** The outbound stream: [hist] was taken from it, and SYN, the bytes of [hist]
    and FIN account for every sequence number used. *)
Record data (S hist : bytes) (s : t) : Prop := {
  data_stream : ByteStream.wf (_stream s);
  data_read : ByteStream.bytes_read (_stream s) = zlen hist;
  data_written : ByteStream.bytes_written (_stream s) = zlen hist + zlen (ByteStream._buffer (_stream s));
  data_prefix : exists rest, S = hist ++ ByteStream._buffer (_stream s) ++ rest;
  data_ended : ByteStream.input_ended (_stream s) = true -> S = hist ++ ByteStream._buffer (_stream s);
  data_fin : _fin_sent s = true -> ByteStream.eof (_stream s) = true;
  data_next : (_next_seqno s = 0 /\ hist = [] /\ _fin_sent s = false) \/
    _next_seqno s = 1 + zlen hist + (if _fin_sent s then 1 else 0) }.

Record inv (S hist : bytes) (s : t) : Prop := {
  inv_core : core S s;
  inv_data : data S hist s }.

(** Streams short enough for 64-bit sequence numbers. *)
Definition fits (S : bytes) : Prop := zlen S < MAX64 - 4 * MAX32.

(** ** Lemmas: lengths and chains *)

Lemma seg_len_range S isn x seg : segment_for S isn x seg -> 0 <= seg_len seg <= zlen S + 2.
Proof.
  intros H. pose proof (TCPReceiver.segment_for_length _ _ _ _ H) as Hl. destruct H as [? _ _ _ _].
  unfold seg_len, Buffer.copy, TCPReceiver.stream_index in *. pose_zlen.
  destruct (TCPHeader.syn _), (TCPHeader.fin _), (x =? 0) eqn:?; lia.
Qed.

Lemma length_seg_len seg : seg_len seg < MAX64 -> TCPSegment.length_in_sequence_space seg = seg_len seg.
Proof.
  intros. unfold TCPSegment.length_in_sequence_space. apply u64_small. unfold seg_len in *. pose_zlen.
  destruct (TCPHeader.syn _), (TCPHeader.fin _); lia.
Qed.

Lemma segment_length S isn x seg :
  fits S -> segment_for S isn x seg -> TCPSegment.length_in_sequence_space seg = seg_len seg.
Proof. intros Hf H%seg_len_range. apply length_seg_len. unfold fits in Hf. lia. Qed.

Lemma contig_le S isn l : forall lo hi, contig S isn lo l hi -> lo <= hi.
Proof.
  induction l as [|[[x f] seg] l IH]; simpl; intros lo hi H; [lia|].
  destruct H as (_ & _ & Hp & H%IH). lia.
Qed.

Lemma contig_snoc S isn l seg f : forall lo hi,
  contig S isn lo l hi -> segment_for S isn hi seg -> plain seg -> 0 < seg_len seg ->
  contig S isn lo (l ++ [((hi, f), seg)]) (hi + seg_len seg).
Proof.
  induction l as [|[[x f'] seg'] l IH]; simpl; intros lo hi H Hs Hwf Hp; [by subst|].
  destruct H as (-> & ? & ? & H). split_and!; try tauto. by apply IH.
Qed.

Lemma contig_join S isn l1 l2 : forall lo mid hi,
  contig S isn lo l1 mid -> contig S isn mid l2 hi -> contig S isn lo (l1 ++ l2) hi.
Proof.
  induction l1 as [|[[x f] seg] l1 IH]; simpl; intros lo mid hi H1 H2; [by subst|].
  destruct H1 as (-> & ? & ? & H1). split; [done|]. split; [done|]. split; [done|]. by eapply IH.
Qed.

Lemma in_flight_fold S isn l : fits S -> forall lo hi n,
  contig S isn lo l hi -> 0 <= n -> n + (hi - lo) < MAX64 ->
  fold_left (fun total e => u64 (total + TCPSegment.length_in_sequence_space e.2)) l n = n + (hi - lo).
Proof.
  intros Hf. induction l as [|[[x f] seg] l IH]; cbn [contig fold_left snd]; intros lo hi n H Hn Hb; [lia|].
  destruct H as (-> & Hs & Hp & H). pose proof (contig_le _ _ _ _ _ H).
  rewrite (segment_length _ _ _ _ Hf (proj1 Hs)). rewrite u64_small by lia. rewrite (IH _ _ _ H) by lia. lia.
Qed.

(** What an acknowledgement removes. *)
Lemma pop_acked_spec S isn A l : fits S -> forall lo hi,
  contig S isn lo l hi -> 0 <= lo -> lo <= A <= hi -> hi < MAX64 ->
  exists lo', lo <= lo' <= A /\ contig S isn lo' (pop_acked A l).2 hi /\
    (exists front, l = front ++ (pop_acked A l).2 /\ contig S isn lo front lo') /\
    ((pop_acked A l).1 = false -> (pop_acked A l).2 = l) /\
    ((pop_acked A l).1 = true -> l <> []) /\
    match (pop_acked A l).2 with
    | [] => A = hi
    | ((x, _), seg) :: _ => A < x + seg_len seg
    end.
Proof.
  intros Hf. induction l as [|[[x f] seg] l IH]; intros lo hi H H0 HA Hhi; cbn [contig pop_acked] in *.
  - exists lo. simpl. split_and!; try done; try lia. by exists [].
  - destruct H as (-> & Hs & Hp & H). pose proof (contig_le _ _ _ _ _ H).
    rewrite (segment_length _ _ _ _ Hf (proj1 Hs)). rewrite u64_small by lia.
    destruct (lo + seg_len seg <=? A) eqn:E; cbn [fst snd].
    + destruct (IH _ _ H) as (lo' & Hlo & Hc & (front & Hfr & Hcf) & _ & _ & Hh); [lia..|].
      exists lo'. split_and!; try done; try lia. exists (((lo, f), seg) :: front).
      split; [simpl; by f_equal|]. by simpl.
    + exists lo. split_and!; try done; try lia. by exists [].
Qed.

(** ** Sending *)

(** [seg] with the number that [send_segment] gives it. *)
Definition stamped (seg : TCPSegment.t) (s : t) : TCPSegment.t :=
  seg <| TCPSegment._header := (TCPSegment.header seg) <| TCPHeader.seqno := next_seqno s |> |>.

Lemma stamped_len seg s : seg_len (stamped seg s) = seg_len seg.
Proof. done. Qed.

Lemma stamped_plain seg s : plain seg -> plain (stamped seg s).
Proof. intros [[[] ? ?] ? ?]. split; [|done..]. split; [|done..]. split; try done. apply wrap_wf. Qed.

Lemma queued_segment S isn x seg : plain seg -> segment_for S isn x seg -> queued S isn seg.
Proof. intros Hp Hs. split; [done|]. split; [apply Hp|]. right. by exists x. Qed.

Lemma send_core S s seg flag :
  fits S -> core S s -> plain seg -> segment_for S (_isn s) (_next_seqno s) (stamped seg s) ->
  0 < seg_len seg -> _next_seqno s + seg_len seg < MAX64 ->
  core S (send_segment seg flag s).
Proof.
  intros Hf [Hi (lo & Hlo & Hc) Ha Hh Ht Hid Hr Hb Ho Hw] Hwf Hs Hp Hb64.
  pose proof (segment_length _ _ _ _ Hf Hs) as Hlen. rewrite stamped_len in Hlen.
  unfold send_segment. fold (stamped seg s). rewrite Hlen. cbn [modify _segments_out _segments_outstanding].
  replace (seg_len seg =? 0) with false by lia. cbn [negb]. rewrite u64_small by lia.
  split; simpl; try done; try lia.
  - exists lo. split; [done|]. apply (contig_snoc _ _ _ (stamped seg s)); [done|done|by apply stamped_plain|done].
  - destruct (_segments_outstanding s) as [|[[x f] seg'] l]; simpl; [|done].
    unfold next_seqno_absolute. rewrite stamped_len. lia.
  - unfold pending. simpl. rewrite zlen_app. change (zlen [_]) with 1. pose_zlen. by replace (_ =? _) with false by lia.
  - apply Forall_app. split; [done|]. constructor; [|done]. eapply queued_segment; [by apply stamped_plain|done].
Qed.

(** What was sent between two states: consecutive segments of the stream, none with
    more payload than allowed, queued and outstanding in this order. *)
Record sent_new (S : bytes) (s : t) (new : list ((Z * bool) * TCPSegment.t)) (s' : t) : Prop := {
  sn_out : _segments_out s' = _segments_out s ++ map snd new;
  sn_outstanding : _segments_outstanding s' = _segments_outstanding s ++ new;
  sn_chain : contig S (_isn s) (_next_seqno s) new (_next_seqno s');
  sn_payload : Forall (fun e => zlen (Buffer.str (TCPSegment.payload e.2)) <= TCPConfig.MAX_PAYLOAD_SIZE) new }.

Lemma sent_nothing S s s' :
  _segments_out s' = _segments_out s -> _segments_outstanding s' = _segments_outstanding s ->
  _next_seqno s' = _next_seqno s -> sent_new S s [] s'.
Proof. intros E1 E2 E3. split; rewrite ?E1, ?E2, ?E3, ?app_nil_r; done. Qed.

Lemma sent_trans S s1 s2 s3 new1 new2 :
  _isn s2 = _isn s1 -> sent_new S s1 new1 s2 -> sent_new S s2 new2 s3 -> sent_new S s1 (new1 ++ new2) s3.
Proof.
  intros Ei [A1 A2 A3 A4] [B1 B2 B3 B4]. rewrite Ei in B3. split.
  - by rewrite B1, A1, map_app, app_assoc.
  - by rewrite B2, A2, app_assoc.
  - by eapply contig_join.
  - by apply Forall_app.
Qed.

Lemma send_new S s seg flag :
  fits S -> segment_for S (_isn s) (_next_seqno s) (stamped seg s) -> plain seg -> 0 < seg_len seg ->
  _next_seqno s + seg_len seg < MAX64 -> 0 <= _next_seqno s ->
  zlen (Buffer.str (TCPSegment.payload seg)) <= TCPConfig.MAX_PAYLOAD_SIZE ->
  sent_new S s [((_next_seqno s, flag), stamped seg s)] (send_segment seg flag s).
Proof.
  intros Hf Hs Hp H0 Hb Hn Hl. pose proof (segment_length _ _ _ _ Hf Hs) as Hlen. rewrite stamped_len in Hlen.
  unfold send_segment. fold (stamped seg s). rewrite Hlen. cbn [modify _segments_out _segments_outstanding].
  replace (seg_len seg =? 0) with false by lia. cbn [negb]. rewrite u64_small by lia.
  split; simpl; try done.
  - rewrite stamped_len. split_and!; try done. by apply stamped_plain.
  - by apply Forall_singleton.
Qed.

(** An empty segment uses no number and is not retransmitted. *)
Lemma send_empty_eq seg flag s :
  seg_len seg = 0 -> 0 <= _next_seqno s < MAX64 ->
  send_segment seg flag s = s <| _segments_out := _segments_out s ++ [stamped seg s] |>.
Proof.
  intros H0 Hn. unfold send_segment. fold (stamped seg s).
  rewrite (length_seg_len (stamped seg s)) by (rewrite stamped_len; lia). rewrite stamped_len, H0.
  cbn [Z.eqb negb]. rewrite Z.add_0_r, u64_small by lia. by destruct s.
Qed.

(** ** Filling the window *)

(** The segment [fill_window] builds from the bytes [p]. *)
Definition data_segment (p : bytes) (fin : bool) : TCPSegment.t :=
  TCPSegment.mk (TCPHeader.default <| TCPHeader.fin := fin |>) (Buffer.of_string p).

Lemma data_segment_len p fin :
  zlen p < MAX64 -> seg_len (data_segment p fin) = zlen p + (if fin then 1 else 0).
Proof. intros. unfold seg_len, data_segment. simpl. rewrite Buffer.str_of_string by done. lia. Qed.

Lemma data_segment_plain p fin : zlen p < MAX16 -> plain (data_segment p fin).
Proof.
  intros Hp. split; [|done..]. split; [split; vm_compute; intuition congruence|vm_compute; congruence|].
  change (zlen (Buffer.str (Buffer.of_string p)) < MAX16). by rewrite Buffer.str_of_string by lia.
Qed.

Lemma data_segment_for S hist s p rest fin :
  fits S -> data S hist s -> ByteStream._buffer (_stream s) = p ++ rest ->
  _next_seqno s = 1 + zlen hist ->
  (fin = true -> rest = [] /\ ByteStream.input_ended (_stream s) = true) ->
  segment_for S (_isn s) (_next_seqno s) (stamped (data_segment p fin) s).
Proof.
  intros Hf [_ _ _ [r Hpre] Hend _ _] Hb Hn Hfin. unfold fits in Hf.
  assert (zlen S = zlen hist + (zlen p + zlen rest + zlen r)) as HS
    by (rewrite Hpre, Hb; rewrite !zlen_app; lia).
  pose_zlen. assert (Buffer.copy (Buffer.of_string p) = p) as Hp by (apply Buffer.str_of_string; lia).
  assert (TCPReceiver.stream_index (_next_seqno s) = zlen hist) as Hx
    by (unfold TCPReceiver.stream_index; split_if; lia).
  split; cbn [stamped data_segment TCPSegment.header TCPSegment.payload TCPSegment._header
    TCPSegment._payload modify TCPHeader.seqno TCPHeader.syn TCPHeader.fin]; rewrite ?Hp, ?Hx.
  - lia.
  - done.
  - simpl. lia.
  - intros i b E. pose proof (zget_Some_range _ _ _ E). rewrite Hpre, Hb, <- app_assoc, zget_app.
    replace (_ <? zlen hist) with false by lia. replace (_ - zlen hist) with i by lia.
    rewrite zget_app. by replace (i <? zlen p) with true by lia.
  - intros ->. destruct Hfin as [-> E]; [done|]. specialize (Hend E). rewrite Hb in Hend.
    rewrite Hend, !zlen_app. change (zlen []) with 0. lia.
  - lia.
Qed.

(** The members that sending data does not touch. *)
Record same_control (s s' : t) : Prop := {
  sc_isn : _isn s' = _isn s;
  sc_ack : _last_ackno s' = _last_ackno s;
  sc_window : _window_size s' = _window_size s;
  sc_zero : _window_zero_valid s' = _window_zero_valid s;
  sc_backup : _init_timer_backup s' = _init_timer_backup s;
  sc_rto : _initial_retransmission_timeout s' = _initial_retransmission_timeout s;
  sc_time : _retransmission_timeout s' = _retransmission_timeout s;
  sc_count : _consecutive_retransmissions_count s' = _consecutive_retransmissions_count s;
  sc_ended : ByteStream.input_ended (_stream s') = ByteStream.input_ended (_stream s);
  sc_error : ByteStream.error (_stream s') = ByteStream.error (_stream s);
  sc_capacity : ByteStream._capacity (_stream s') = ByteStream._capacity (_stream s);
  sc_written : ByteStream.bytes_written (_stream s') = ByteStream.bytes_written (_stream s) }.

Lemma same_control_refl s : same_control s s.
Proof. by split. Qed.

Lemma same_control_trans s1 s2 s3 : same_control s1 s2 -> same_control s2 s3 -> same_control s1 s3.
Proof. intros [] []. split; congruence. Qed.

Lemma send_control seg flag s : same_control s (send_segment seg flag s).
Proof. unfold send_segment. destruct (negb _); by split. Qed.

(** The state before the segment with the next [k] bytes is sent. *)
Definition taken (k : Z) (fin : bool) (s : t) : t :=
  s <| _stream := (ByteStream.read k (_stream s)).2 |> <| _fin_sent := _fin_sent s || fin |>.

Lemma taken_control k fin s : same_control s (taken k fin s).
Proof. by split. Qed.

Lemma read_empty k stream :
  ByteStream.wf stream -> zlen (ByteStream.read k stream).1 = 0 -> 0 <= k -> (ByteStream.read k stream).2 = stream.
Proof.
  intros [] H Hk. unfold ByteStream.read, ByteStream.peek_output, ByteStream.pop_output in *. simpl in *.
  rewrite zlen_ztake in H. set (n := Z.min k _) in *. assert (n = 0) as -> by (pose_zlen; lia).
  rewrite zdrop_nonpos, Z.add_0_r, u64_small by lia. by destruct stream.
Qed.

Lemma send_next seg flag s :
  seg_len seg < MAX64 -> _next_seqno (send_segment seg flag s) = u64 (_next_seqno s + seg_len seg).
Proof.
  intros. unfold send_segment. fold (stamped seg s).
  rewrite (length_seg_len (stamped seg s)) by done. rewrite stamped_len. by destruct (negb _).
Qed.

Lemma send_stream seg flag s : _stream (send_segment seg flag s) = _stream s.
Proof. unfold send_segment. by destruct (negb _). Qed.

Lemma send_fin seg flag s : _fin_sent (send_segment seg flag s) = _fin_sent s.
Proof. unfold send_segment. by destruct (negb _). Qed.

Lemma eof_drained stream :
  ByteStream.eof stream = true -> ByteStream._buffer stream = [] /\ ByteStream.input_ended stream = true.
Proof.
  unfold ByteStream.eof, ByteStream.buffer_empty. rewrite andb_true_iff. intros [E ->].
  split; [|done]. apply zlen_0_nil. lia.
Qed.

(** The stream side of sending the next [k] bytes. *)
Lemma taken_data S hist s s' k fin (p := (ByteStream.read k (_stream s)).1) :
  fits S -> data S hist s -> _next_seqno s = 1 + zlen hist -> 0 <= k ->
  _stream s' = (ByteStream.read k (_stream s)).2 -> _fin_sent s' = fin ->
  (fin = true -> ByteStream.eof (_stream s') = true) ->
  _next_seqno s' = _next_seqno s + (zlen p + (if fin then 1 else 0)) ->
  data S (hist ++ p) s'.
Proof.
  intros Hf [Hw Hr Hwr [rest Hrest] Hend Hdf _] Hn Hk Hst Hfs Hfin Hn'. rewrite Hst in Hfin.
  pose proof (ByteStream.read_split k (_stream s)) as Hsplit. fold p in Hsplit.
  split; rewrite ?Hst, ?Hfs, ?zlen_app; try done.
  - by apply ByteStream.read_wf.
  - unfold ByteStream.read, ByteStream.pop_output, ByteStream.bytes_read in *. simpl. rewrite Hr.
    unfold p, ByteStream.peek_output. simpl. rewrite zlen_ztake. unfold fits in Hf.
    rewrite Hrest in Hf. rewrite !zlen_app in Hf. pose_zlen. destruct Hw.
    rewrite u64_small; lia.
  - change (ByteStream.bytes_written _) with (ByteStream.bytes_written (_stream s)).
    apply (f_equal zlen) in Hsplit. rewrite zlen_app in Hsplit. lia.
  - exists rest. rewrite Hrest at 1. rewrite <- Hsplit. by rewrite <- !app_assoc.
  - intros E. rewrite <- app_assoc, Hsplit. by apply Hend.
  - right. lia.
Qed.

Lemma next_open S hist s :
  data S hist s -> 1 <= _next_seqno s -> _fin_sent s = false -> _next_seqno s = 1 + zlen hist.
Proof. intros H ? E. destruct (data_next _ _ _ H) as [(? & _)|Hn]; rewrite ?E in *; lia. Qed.

Lemma data_room S hist s : data S hist s -> zlen hist + zlen (ByteStream._buffer (_stream s)) <= zlen S.
Proof. intros [_ _ _ [rest ->] _ _ _]. rewrite !zlen_app. pose_zlen. lia. Qed.

(** One round of the loop that sends something. *)
Lemma send_data_inv S hist s k fin flag (p := (ByteStream.read k (_stream s)).1) :
  fits S -> inv S hist s -> 1 <= _next_seqno s -> _fin_sent s = false -> 0 <= k <= 1000 ->
  (fin = true -> ByteStream.eof (ByteStream.read k (_stream s)).2 = true) ->
  0 < zlen p + (if fin then 1 else 0) ->
  let s' := send_segment (data_segment p fin) flag (taken k fin s) in
  inv S (hist ++ p) s' /\ _next_seqno s' = _next_seqno s + (zlen p + (if fin then 1 else 0)) /\
  _fin_sent s' = fin /\ _stream s' = (ByteStream.read k (_stream s)).2 /\ same_control s s' /\
  exists new, sent_new S s new s'.
Proof.
  intros Hf [Hcore Hdata] HN Hfs Hk Hfin Hlen. cbv zeta.
  pose proof (next_open _ _ _ Hdata HN Hfs) as Hn. pose proof (data_room _ _ _ Hdata) as Hroom.
  pose proof (ByteStream.read_split k (_stream s)) as Hsplit. fold p in Hsplit.
  pose proof Hsplit as Hz%(f_equal zlen). rewrite zlen_app in Hz. pose proof Hf as Hf'. unfold fits in Hf'. pose_zlen.
  assert (seg_len (data_segment p fin) = zlen p + (if fin then 1 else 0)) as Hsl
    by (apply data_segment_len; lia).
  assert (segment_for S (_isn s) (_next_seqno s) (stamped (data_segment p fin) s)) as Hfor.
  { eapply data_segment_for; try done. by intros E%Hfin%eof_drained. }
  set (s' := send_segment _ _ _).
  assert (_next_seqno s' = _next_seqno s + (zlen p + (if fin then 1 else 0))) as Hn'.
  { unfold s'. rewrite send_next by (rewrite Hsl; destruct fin; lia). rewrite Hsl. simpl.
    apply u64_small. destruct fin; lia. }
  assert (_fin_sent s' = fin) as Hfs' by (unfold s'; rewrite send_fin; simpl; by rewrite Hfs).
  assert (_stream s' = (ByteStream.read k (_stream s)).2) as Hst' by (unfold s'; by rewrite send_stream).
  assert (zlen p <= 1000) as Hp1 by (unfold p; rewrite ByteStream.read_length; lia).
  split_and!; [|done..| |].
  - split.
    + apply send_core; try done; rewrite ?Hsl; [by destruct Hcore| |done|simpl; destruct fin; lia].
      apply data_segment_plain. lia.
    + eapply taken_data; try done; [lia|]. by rewrite Hst'.
  - eapply same_control_trans; [apply taken_control|apply send_control].
  - eexists. apply (sent_trans S s (taken k fin s) s' []); [done|by apply sent_nothing|].
    apply send_new; try done; rewrite ?Hsl; try (simpl; destruct fin; lia); [apply data_segment_plain; lia|].
    cbn [data_segment TCPSegment.payload TCPSegment._payload]. by rewrite Buffer.str_of_string by lia.
Qed.

(** What the loop achieves with a budget of [num] sequence numbers. *)
Record filled (S hist : bytes) (num : Z) (s s' : t) : Prop := {
  filled_inv : exists hist', inv S hist' s';
  filled_control : same_control s s';
  filled_next : _next_seqno s <= _next_seqno s' <= _next_seqno s + num;
  filled_done : _next_seqno s' = _next_seqno s + num \/ _fin_sent s' = true \/
    (ByteStream._buffer (_stream s') = [] /\ ByteStream.input_ended (_stream s') = false);
  filled_new : exists new, sent_new S s new s' }.

Lemma filled_step S hist hist1 num n1 s s1 s' :
  0 <= n1 -> same_control s s1 -> (exists new, sent_new S s new s1) -> _next_seqno s1 = _next_seqno s + n1 ->
  filled S hist1 (num - n1) s1 s' -> filled S hist num s s'.
Proof.
  intros Hn1 Hc [new1 Hs1] Hn [Hi Hc' Hb Hd [new2 Hs2]]. split; [done|by eapply same_control_trans|lia| |].
  - destruct Hd; [left; lia|by right].
  - exists (new1 ++ new2). eapply sent_trans; [apply Hc|done..].
Qed.

(** The loop body in terms of [data_segment] and [taken]. *)
Lemma fill_loop_step fuel num flag s k p st fin :
  k = Z.min num 1000 -> ByteStream.read k (_stream s) = (p, st) -> zlen p < MAX32 -> 0 < num ->
  fin = ByteStream.eof st && (0 <? u64 (num - zlen p)) && negb (_fin_sent s) ->
  fill_loop (S fuel) num flag s =
    if zlen p + (if fin then 1 else 0) =? 0 then Some (taken k false s)
    else fill_loop fuel (u64 (u64 (num - zlen p) - (if fin then 1 else 0))) flag
           (send_segment (data_segment p fin) flag (taken k fin s)).
Proof.
  intros Hk E Hp Hnum Hfin. cbn [fill_loop]. replace (0 <? num) with true by lia.
  unfold TCPConfig.MAX_PAYLOAD_SIZE. rewrite <- Hk, E. cbn [stream_in modify _stream _fin_sent].
  assert (forall fin, TCPSegment.length_in_sequence_space (data_segment p fin) =
                      zlen p + (if fin then 1 else 0)) as Hl.
  { intros f. pose_zlen. rewrite length_seg_len; rewrite data_segment_len; destruct f; lia. }
  unfold taken. rewrite E. cbn [snd]. rewrite <- Hfin. destruct fin.
  - change (TCPSegment.length_in_sequence_space _) with
      (TCPSegment.length_in_sequence_space (data_segment p true)). rewrite Hl.
    rewrite orb_true_r. pose_zlen. by replace (zlen p + 1 =? 0) with false by lia.
  - change (TCPSegment.length_in_sequence_space _) with
      (TCPSegment.length_in_sequence_space (data_segment p false)). rewrite Hl.
    rewrite orb_false_r, Z.sub_0_r. rewrite (u64_small (u64 _)) by apply u64_range.
    by destruct (_ =? 0).
Qed.

Lemma fill_loop_spec S flag : fits S -> forall fuel num hist s,
  inv S hist s -> 1 <= _next_seqno s -> 0 <= num < MAX32 ->
  (length (ByteStream._buffer (_stream s)) + (if _fin_sent s then 1 else 2) <= fuel)%nat ->
  exists s', fill_loop fuel num flag s = Some s' /\ filled S hist num s s'.
Proof.
  intros Hf. induction fuel as [|fuel IH]; intros num hist s Hinv HN Hnum Hfuel;
    [destruct (_fin_sent s); lia|].
  destruct (0 <? num) eqn:E0.
  2: { exists s. split; [cbn [fill_loop]; by rewrite E0|].
       split; [by exists hist|apply same_control_refl|lia|left; lia|exists []; by apply sent_nothing]. }
  set (k := Z.min num 1000). set (p := (ByteStream.read k (_stream s)).1).
  pose proof (ByteStream.read_length k (_stream s)) as Hp. fold p in Hp. pose_zlen.
  set (fin := ByteStream.eof (ByteStream.read k (_stream s)).2 && (0 <? num - zlen p) && negb (_fin_sent s)).
  rewrite (fill_loop_step fuel num flag s k p (ByteStream.read k (_stream s)).2 fin);
    [|done|apply surjective_pairing|lia..|by rewrite u64_small by lia].
  rewrite (u64_small (num - zlen p)) by lia.
  destruct (zlen p + (if fin then 1 else 0) =? 0) eqn:Ez.
  - exists (taken k false s). split; [done|].
    assert (taken k false s = s) as ->.
    { unfold taken. rewrite read_empty, orb_false_r by (destruct fin; apply Hinv || fold p; lia). by destruct s. }
    split; [by exists hist|apply same_control_refl|lia| |exists []; by apply sent_nothing].
    assert (fin = false) as Hfin by (destruct fin; [lia|done]).
    rewrite Hfin in Ez. unfold fin in Hfin. rewrite read_empty in Hfin by (apply Hinv || fold p; lia).
    assert (ByteStream._buffer (_stream s) = []) as Hnil by (apply zlen_0_nil; lia).
    right. destruct (_fin_sent s); [by left|right]. split; [done|].
    unfold ByteStream.eof, ByteStream.buffer_empty in Hfin. rewrite Hnil in Hfin.
    change (zlen []) with 0 in Hfin. cbn [Z.eqb andb negb] in Hfin.
    destruct (ByteStream.input_ended (_stream s)); [|done]. lia.
  - assert (_fin_sent s = false) as Hfs.
    { destruct (_fin_sent s) eqn:Efs; [|done]. exfalso.
      apply (data_fin _ _ _ (inv_data _ _ _ Hinv)), eof_drained in Efs as [Hnil _].
      rewrite Hnil in Hp. change (zlen []) with 0 in Hp. unfold fin in Ez. rewrite andb_false_r in Ez. lia. }
    destruct (send_data_inv S hist s k fin flag) as (Hi & Hn & Hfs' & Hst & Hc & Hnew); try done; [lia|..].
    { unfold fin. intros E. by apply andb_true_iff in E as [[E _]%andb_true_iff _]. }
    { fold p. destruct fin; lia. }
    fold p in Hi, Hn, Hfs', Hst, Hc, Hnew. set (s1 := send_segment _ _ _) in *. clearbody s1.
    rewrite u64_small by (unfold fin in *; destruct (_ && _ && _) eqn:Ef; lia).
    destruct (IH (num - zlen p - (if fin then 1 else 0)) (hist ++ p) s1 Hi) as (s' & E & Hfill).
    + destruct fin; lia.
    + unfold fin in *; destruct (_ && _ && _) eqn:Ef; lia.
    + rewrite Hst, Hfs', Hfs in *. pose proof (ByteStream.read_split k (_stream s)) as Hsp%(f_equal length).
      rewrite length_app in Hsp. fold p in Hsp. unfold zlen in Ez. destruct fin; lia.
    + exists s'. split; [done|]. eapply (filled_step _ _ _ _ (zlen p + (if fin then 1 else 0))); try done.
      * destruct fin; lia.
      * by replace (num - (zlen p + _)) with (num - zlen p - (if fin then 1 else 0)) by lia.
Qed.

Definition syn_segment : TCPSegment.t :=
  TCPSegment.default <| TCPSegment._header := TCPHeader.default <| TCPHeader.syn := true |> |>.

Lemma syn_segment_for S s : _next_seqno s = 0 -> segment_for S (_isn s) 0 (stamped syn_segment s).
Proof.
  intros HN. pose proof (zlen_nonneg S). split; cbn -[zlen zget]; try done; [lia| |].
  - unfold next_seqno. by rewrite HN.
  - intros i b E. by rewrite zget_nil in E.
Qed.

Lemma syn_plain : plain syn_segment.
Proof. split; [|done..]. split; [by split|vm_compute; congruence|done]. Qed.

Lemma syn_inv S hist s :
  fits S -> inv S hist s -> _next_seqno s = 0 ->
  let s' := send_segment syn_segment false s in
  inv S hist s' /\ _next_seqno s' = 1 /\ _fin_sent s' = _fin_sent s /\ _stream s' = _stream s /\ same_control s s'.
Proof.
  intros Hf [Hcore Hdata] HN. cbv zeta. pose_zlen. pose proof Hf as Hf'. unfold fits in Hf'.
  assert (_next_seqno (send_segment syn_segment false s) = 1) as Hn
    by (rewrite send_next by done; by rewrite HN).
  split_and!; [|done|apply send_fin|apply send_stream|apply send_control]. split.
  - apply send_core; [done|done|apply syn_plain|rewrite HN; by apply syn_segment_for|done|by rewrite HN].
  - destruct Hdata as [? ? ? ? ? ? Hnx]. split; rewrite ?send_stream, ?send_fin; try done. right. rewrite Hn.
    destruct Hnx as [(_ & -> & ->)|Hnx]; [done|]. rewrite HN in Hnx.
    pose proof (zlen_nonneg hist). destruct (_fin_sent s); lia.
Qed.

(** The first sequence number of new data, and how many may be used. *)
Definition first_free (s : t) : Z := if _next_seqno s =? 0 then 1 else _next_seqno s.

Definition probe (s : t) : bool := (_window_size s =? 0) && _window_zero_valid s.

Definition budget (s : t) : Z :=
  Z.max 0 (_last_ackno s + _window_size s - first_free s) + (if probe s then 1 else 0).

Record window_filled (S : bytes) (s s' : t) : Prop := {
  wfill_inv : exists hist', inv S hist' s';
  wfill_next : first_free s <= _next_seqno s' <= first_free s + budget s;
  wfill_done : _next_seqno s' = first_free s + budget s \/ _fin_sent s' = true \/
    (ByteStream._buffer (_stream s') = [] /\ ByteStream.input_ended (_stream s') = false);
  wfill_control : same_control (s <| _window_zero_valid := _window_zero_valid s && negb (probe s) |>) s';
  wfill_new : exists new, sent_new S s new s' }.

Lemma zero_valid_inv S hist b s : inv S hist s -> inv S hist (s <| _window_zero_valid := b |>).
Proof. intros [[] []]. by split; split. Qed.

Lemma next_bound S hist s : fits S -> inv S hist s -> 0 <= _next_seqno s <= zlen S + 2.
Proof.
  intros Hf [_ Hd]. pose proof (data_room _ _ _ Hd). pose_zlen.
  destruct (data_next _ _ _ Hd) as [(-> & _)| -> ]; destruct (_fin_sent s); lia.
Qed.

Lemma fill_window_spec S hist s :
  fits S -> inv S hist s -> _fin_sent s = false -> window_filled S s (fill_window s).
Proof.
  intros Hf Hinv Hfs. unfold fill_window. rewrite Hfs. unfold next_seqno_absolute. fold syn_segment.
  set (s1 := if _next_seqno s =? 0 then _ else s).
  assert (inv S hist s1 /\ _next_seqno s1 = first_free s /\ _fin_sent s1 = false /\
          _stream s1 = _stream s /\ same_control s s1 /\ exists new, sent_new S s new s1)
    as (Hi1 & Hn1 & Hf1 & Hst1 & Hc1 & (new1 & Hnew1)).
  { unfold s1, first_free. destruct (_next_seqno s =? 0) eqn:E; apply Z.eqb_eq in E || clear E.
    - destruct (syn_inv S hist s Hf Hinv E) as (? & ? & Hfs' & ? & ?). rewrite Hfs in Hfs'. split_and!; try done.
      eexists. apply send_new; rewrite ?E; try done. by apply syn_segment_for.
    - split_and!; try done. exists []. by apply sent_nothing. }
  assert (1 <= first_free s /\ _next_seqno s <= first_free s) by (pose proof (next_bound _ _ _ Hf Hinv);
    unfold first_free in *; split_if; lia).
  pose proof (next_bound _ _ _ Hf Hi1) as Hnb. pose proof Hf as Hf'. unfold fits in Hf'.
  pose proof (core_ack _ _ (inv_core _ _ _ Hinv)) as Ha. pose proof (core_window _ _ (inv_core _ _ _ Hinv)) as Hw. pose proof (next_bound _ _ _ Hf Hinv) as Hnb0.
  clearbody s1. rewrite (sc_ack _ _ Hc1), (sc_window _ _ Hc1), (sc_zero _ _ Hc1), Hn1. fold (probe s).
  rewrite (u64_small (_last_ackno s + _window_size s)) by lia.
  set (num := if first_free s <=? _ then _ else 0).
  assert (num = Z.max 0 (_last_ackno s + _window_size s - first_free s)) as Hnum
    by (unfold num; split_if; rewrite ?u64_small; lia).
  set (s2 := s1 <| _window_zero_valid := _window_zero_valid s && negb (probe s) |>).
  assert ((if probe s then (u64 (num + 1), true, s1 <| _window_zero_valid := false |>) else (num, false, s1)) =
          (budget s, probe s, s2)) as ->.
  { unfold budget, s2. destruct (probe s); rewrite <- Hnum.
    - rewrite u64_small by lia. by rewrite andb_false_r.
    - rewrite Z.add_0_r, andb_true_r, <- (sc_zero _ _ Hc1). by destruct s1. }
  destruct (fill_loop_spec S (probe s) Hf (fill_fuel s2) (budget s) hist s2) as (s' & -> & [Hi Hc Hn Hd [new2 Hnew2]]).
  - by apply zero_valid_inv.
  - simpl. lia.
  - unfold budget. rewrite <- Hnum. destruct (probe s); lia.
  - unfold fill_fuel, s2. simpl. rewrite Hf1. lia.
  - simpl in Hn, Hd. rewrite Hn1 in Hn, Hd. split; [done..| |].
    { destruct Hc1, Hc. by split; simpl in *; congruence. }
    exists (new1 ++ new2). apply (sent_trans S s s1); [apply Hc1|done|]. destruct Hnew2. by split.
Qed.

(** ** Acknowledgements and time *)

(** What an acknowledgement up to [A] with window [w] does to the bookkeeping. *)
Definition acked (A w : Z) (z : bool) (s : t) : t :=
  remove_outstanding_segments
    (s <| _last_ackno := A |> <| _window_size := w |> <| _window_zero_valid := z |>).

(** [remove_outstanding_segments] on its members. *)
Lemma acked_eq A w z isn out os bk rto rt te cnt st nx la win zv fs :
  acked A w z (mk isn out os bk rto rt te cnt st nx la win zv fs) =
  let kept := (pop_acked A os).2 in
  if (pop_acked A os).1
  then mk isn out kept bk bk 0 (negb (zlen kept =? 0)) 0 st nx A w z fs
  else mk isn out kept bk rto rt te cnt st nx A w z fs.
Proof.
  cbv -[pop_acked zlen negb Z.eqb]. by destruct (pop_acked A os) as [[] kept].
Qed.

Lemma acked_core S s A w z :
  fits S -> core S s -> _last_ackno s <= A <= _next_seqno s -> _next_seqno s < MAX64 ->
  0 <= w < MAX16 -> core S (acked A w z s).
Proof.
  intros Hf [Hi (lo & Hlo & Hc) Ha Hh Ht Hid Hr Hb Ho Hw] HA Hn Hww.
  destruct (pop_acked_spec S (_isn s) A _ Hf lo _ Hc) as (lo' & Hlo' & Hc' & _ & Hsame & _ & Hh'); [lia..|].
  destruct s. rewrite acked_eq. unfold pending in *. simpl in *.
  destruct (pop_acked A _) as [[] kept]; split; simpl in *; try done; try lia.
  - exists lo'. split; [lia|done].
  - exists 0. rewrite Z.mul_1_r. split_and!; [lia|done|]. by rewrite u32_small by lia.
  - exists lo'. split; [lia|done].
  - rewrite Ht. by rewrite Hsame.
Qed.

Lemma acked_data S hist s A w z : data S hist s -> data S hist (acked A w z s).
Proof. intros []. destruct s. rewrite acked_eq. cbv zeta. by destruct (pop_acked _ _) as [[] kept]; split. Qed.

(** The window left after an acknowledgement of [new] with advertised window [w]. *)
Definition window_after (s : t) (new w : Z) : Z := Z.max 0 (new + w - Z.max (_last_ackno s) new).

Lemma ack_received_eq S hist s ackno w (new := unwrap ackno (_isn s) (_last_ackno s)) :
  fits S -> inv S hist s -> 0 <= w < MAX16 ->
  ack_received ackno w s =
    if (_next_seqno s =? 0) || (_next_seqno s <? new) then s
    else fill_window (acked (Z.max (_last_ackno s) new) (window_after s new w)
           (_window_zero_valid s || (window_after s new w =? 0)) s).
Proof.
  intros Hf Hinv Hw. unfold ack_received. fold new.
  destruct (_next_seqno s =? 0); [done|]. destruct (_next_seqno s <? new) eqn:E; [done|]. cbn [orb].
  pose proof (next_bound _ _ _ Hf Hinv) as Hn. pose proof (core_ack _ _ (inv_core _ _ _ Hinv)) as Ha.
  unfold fits in Hf. assert (0 <= new) by (apply unwrap_range; lia).
  f_equal. unfold acked. f_equal. unfold window_after. clearbody new. clear Hinv.
  destruct s. simpl in *. rewrite (u64_small (new + w)) by lia. split_if.
  - rewrite u64_small by lia. replace (Z.max 0 _) with (new + w - Z.max _last_ackno0 new) by lia.
    replace (_ =? 0) with false by lia. by rewrite orb_false_r.
  - replace (Z.max 0 _) with 0 by lia. by rewrite orb_true_r.
Qed.

Lemma fill_window_inv S hist s : fits S -> inv S hist s -> exists hist', inv S hist' (fill_window s).
Proof.
  intros Hf Hinv. destruct (_fin_sent s) eqn:E.
  - exists hist. unfold fill_window. by rewrite E.
  - by apply (fill_window_spec S hist s Hf Hinv E).
Qed.

Lemma acked_inv S hist s ackno w (new := unwrap ackno (_isn s) (_last_ackno s)) z :
  fits S -> inv S hist s -> 0 <= w < MAX16 -> new <= _next_seqno s ->
  inv S hist (acked (Z.max (_last_ackno s) new) (window_after s new w) z s).
Proof.
  intros Hf Hinv Hw Hnew. pose proof (next_bound _ _ _ Hf Hinv) as Hn.
  pose proof (core_ack _ _ (inv_core _ _ _ Hinv)) as Ha. pose proof Hf as Hf'. unfold fits in Hf'.
  split; [apply acked_core|apply acked_data]; try done; try apply Hinv; unfold window_after; lia.
Qed.

Lemma ack_received_inv S hist s ackno w :
  fits S -> inv S hist s -> 0 <= w < MAX16 -> exists hist', inv S hist' (ack_received ackno w s).
Proof.
  intros Hf Hinv Hw. rewrite (ack_received_eq S hist) by done.
  destruct (_ || _) eqn:E; [by exists hist|]. apply orb_false_iff in E as [_ E].
  eapply fill_window_inv; [done|]. apply acked_inv; try done. lia.
Qed.

(** [tick] on its members. *)
Lemma tick_eq ms isn out os bk rto rt te cnt st nx la win zv fs :
  tick ms (mk isn out os bk rto rt te cnt st nx la win zv fs) =
  if negb te then mk isn out os bk rto rt te cnt st nx la win zv fs
  else if rto <=? u32 (rt + ms) then
    match os with
    | [] => mk isn out os bk bk 0 true 0 st nx la win zv fs
    | ((_, flag), seg) :: _ =>
        if flag then mk isn (out ++ [seg]) os bk rto 0 true cnt st nx la win zv fs
        else mk isn (out ++ [seg]) os bk (u32 (rto * 2)) 0 true (u32 (cnt + 1)) st nx la win zv fs
    end
  else mk isn out os bk rto (u32 (rt + ms)) te cnt st nx la win zv fs.
Proof.
  cbv -[u32 Z.add Z.mul app Z.leb].
  destruct te, (Z.leb rto (u32 (rt + ms))), os as [|[[x []] seg] os]; reflexivity.
Qed.

Lemma tick_inv S hist s ms : inv S hist s -> inv S hist (tick ms s).
Proof.
  intros [[Hi Hc Ha Hh Ht Hid Hr Hb Ho Hw] []]. destruct s as [isn out os bk rto rt te cnt st nx la win zv fs].
  rewrite tick_eq. unfold pending in *. simpl in *.
  destruct te; cbn [negb]; [|by split; split]. split_if; [|by split; split].
  destruct os as [|[[x f] seg] os]; [done|].
  assert (queued S isn seg) as Hem by (destruct Hc as (lo & _ & (? & [? ?] & _)); by eapply queued_segment).
  assert (Forall (queued S isn) (out ++ [seg])) by (apply Forall_app; split; [done|by constructor]).
  destruct f; (split; split; simpl; try done).
  destruct Hr as (k & Hk & Hcount & Hrto). exists (k + 1). split_and!; [lia|rewrite Hcount; word|].
  rewrite Hrto, Z.pow_add_r by lia. change (2 ^ 1) with 2. rewrite Z.mul_assoc.
  unfold u32. by rewrite Zmult_mod_idemp_l.
Qed.

(** ** The operations of the owner *)

Lemma push_out_inv S hist s seg :
  inv S hist s -> queued S (_isn s) seg -> inv S hist (s <| _segments_out := _segments_out s ++ [seg] |>).
Proof.
  intros [[] []] He. split; split; try done. simpl. apply Forall_app. split; [done|by constructor].
Qed.

Lemma send_empty_inv S hist s :
  fits S -> inv S hist s -> 1 <= _next_seqno s -> inv S hist (send_empty_segment s).
Proof.
  intros Hf Hinv HN. pose proof (next_bound _ _ _ Hf Hinv) as Hn. unfold send_empty_segment.
  rewrite send_empty_eq by (done || unfold fits in Hf; lia). apply push_out_inv; [done|].
  apply (queued_segment _ _ (_next_seqno s)).
  { apply stamped_plain. split; [|done..]. split; [by split|vm_compute; congruence|done]. }
  split; cbn -[zlen zget Z.eqb]; try done; try lia.
  intros i b E. by rewrite zget_nil in E.
Qed.

Lemma send_reset_inv S hist s header :
  fits S -> inv S hist s -> plain (TCPSegment.default <| TCPSegment._header := header |>) ->
  TCPHeader.rst header = true -> TCPHeader.syn header = false ->
  TCPHeader.fin header = false -> inv S hist (send_empty_segment_with_this_header header s).
Proof.
  intros Hf Hinv Hp Hr Hs Hfi. pose proof (next_bound _ _ _ Hf Hinv) as Hn.
  unfold send_empty_segment_with_this_header. rewrite send_empty_eq.
  - apply push_out_inv; [done|]. pose proof (stamped_plain _ s Hp) as Hp'.
    split; [done|]. split; [apply Hp'|by left].
  - unfold seg_len. simpl. by rewrite Hs, Hfi.
  - unfold fits in Hf. lia.
Qed.

Lemma data_stream_step S hist s st :
  data S hist s -> ByteStream.wf st ->
  ByteStream.bytes_read st = ByteStream.bytes_read (_stream s) ->
  ByteStream.bytes_written st = zlen hist + zlen (ByteStream._buffer st) ->
  (exists rest, S = hist ++ ByteStream._buffer st ++ rest) ->
  (ByteStream.input_ended st = true -> S = hist ++ ByteStream._buffer st) ->
  (_fin_sent s = true -> ByteStream.eof st = true) ->
  data S hist (s <| _stream := st |>).
Proof. intros [_ ? _ _ _ _ ?]. intros. split; simpl; congruence || done. Qed.

Lemma stream_step_inv S hist s st :
  inv S hist s -> data S hist (s <| _stream := st |>) -> inv S hist (s <| _stream := st |>).
Proof. intros [[] _] Hd. split; [by split|done]. Qed.

(** The owner writes the next bytes of [S]. *)
Lemma write_inv S hist s d rest (w := ByteStream.write d (_stream s)) :
  fits S -> inv S hist s -> S = ztake (ByteStream.bytes_written (_stream s)) S ++ ztake w.1 d ++ rest ->
  inv S hist (with_stream (fun st => (ByteStream.write d st).2) s).
Proof.
  intros Hf Hinv HS. pose proof (inv_data _ _ _ Hinv) as Hd.
  pose proof (ByteStream.write_wf d _ (data_stream _ _ _ Hd)) as Hwf.
  apply stream_step_inv; [done|]. subst w. unfold with_stream, ByteStream.write in *.
  destruct (ByteStream.input_ended (_stream s)) eqn:E; simpl in *; [by destruct Hd, s|].
  set (n := Z.min (zlen d) _) in *. pose proof Hd as [Hw Hr Hwr [r Hp] He Hfn Hnx].
  pose proof (ByteStream.remaining_capacity_range _ Hw). unfold fits in Hf.
  assert (zlen (ztake n d) = n) as Hz by (rewrite zlen_ztake; pose_zlen; lia).
  rewrite Hwr, Hp in HS. rewrite app_assoc in HS.
  rewrite <- zlen_app, ztake_app_exact, <- app_assoc, <- Hp in HS.
  apply data_stream_step; simpl; try done.
  - rewrite HS in Hf. rewrite !zlen_app, Hz in Hf. unfold ByteStream.bytes_written in *. simpl.
    rewrite Hwr, u64_small, zlen_app, Hz by (pose_zlen; lia). lia.
  - exists rest. rewrite HS at 1. by rewrite <- !app_assoc.
  - intros E'. simpl in E'. unfold ByteStream.input_ended in *. simpl in E'. congruence.
  - intros E'. apply Hfn, eof_drained in E' as [_ E']. congruence.
Qed.

Lemma end_input_inv S hist s :
  inv S hist s -> ByteStream.bytes_written (_stream s) = zlen S ->
  inv S hist (with_stream ByteStream.end_input s).
Proof.
  intros Hinv HS. apply stream_step_inv; [done|].
  pose proof (inv_data _ _ _ Hinv) as Hd. pose proof Hd as [Hw Hr Hwr [r Hp] He Hfn Hnx].
  assert (r = []) as ->.
  { apply zlen_0_nil. apply (f_equal zlen) in Hp. rewrite !zlen_app in Hp. lia. }
  apply data_stream_step; simpl; try done.
  - by apply ByteStream.end_input_wf.
  - by exists [].
  - intros _. by rewrite app_nil_r in Hp.
  - intros E. apply Hfn, eof_drained in E as [E _]. unfold ByteStream.eof, ByteStream.buffer_empty. simpl. by rewrite E.
Qed.

Lemma set_error_inv S hist s : inv S hist s -> inv S hist (with_stream ByteStream.set_error s).
Proof. intros [[] []]. split; split; try done. by apply ByteStream.set_error_wf. Qed.

Lemma pop_out_inv S hist s l :
  inv S hist s -> Forall (queued S (_isn s)) l -> inv S hist (s <| _segments_out := l |>).
Proof. intros [[] []] Hl. by split; split. Qed.

Lemma sender_make_inv S cap rto fixed random :
  0 <= cap < MAX64 -> 0 <= rto < MAX16 -> (forall isn, fixed = Some isn -> wf isn) ->
  inv S [] (make cap rto fixed random).
Proof.
  intros Hc Hr Hi. split; split; simpl; try done; try lia; try by apply ByteStream.make_wf.
  - destruct fixed; [by apply Hi|apply u32_range].
  - exists 0. by simpl.
  - exists 0. rewrite Z.mul_1_r. split_and!; [lia|done|]. by rewrite u32_small by lia.
  - by exists S.
  - by left.
Qed.

(** The states of a sender whose owner writes the stream [S], whatever
    acknowledgements arrive and whatever time passes. *)
Inductive reach (S : bytes) : t -> Prop :=
| reach_make cap rto fixed random :
    0 <= cap < MAX64 -> 0 <= rto < MAX16 -> (forall isn, fixed = Some isn -> wf isn) ->
    reach S (make cap rto fixed random)
| reach_write s d rest :
    reach S s ->
    S = ztake (ByteStream.bytes_written (_stream s)) S ++
        ztake (ByteStream.write d (_stream s)).1 d ++ rest ->
    reach S (with_stream (fun st => (ByteStream.write d st).2) s)
| reach_end s :
    reach S s -> ByteStream.bytes_written (_stream s) = zlen S ->
    reach S (with_stream ByteStream.end_input s)
| reach_error s : reach S s -> reach S (with_stream ByteStream.set_error s)
| reach_fill s : reach S s -> reach S (fill_window s)
| reach_ack s ackno w : reach S s -> 0 <= w < MAX16 -> reach S (ack_received ackno w s)
| reach_tick s ms : reach S s -> reach S (tick ms s)
| reach_empty s : reach S s -> 1 <= _next_seqno s -> reach S (send_empty_segment s)
| reach_pop s : reach S s -> reach S (s <| _segments_out := tail (_segments_out s) |>).

Lemma reach_inv S s : fits S -> reach S s -> exists hist, inv S hist s.
Proof.
  intros Hf H. induction H as
    [cap rto fixed random Hc Hr Hi|s d rest H [hist IH] HS|s H [hist IH] Hw|s H [hist IH]|s H [hist IH]
    |s ackno w H [hist IH] Hw|s ms H [hist IH]|s H [hist IH] Hn|s H [hist IH]].
  - exists []. by apply sender_make_inv.
  - exists hist. by eapply write_inv.
  - exists hist. by apply end_input_inv.
  - exists hist. by apply set_error_inv.
  - by eapply fill_window_inv.
  - by eapply ack_received_inv.
  - exists hist. by apply tick_inv.
  - exists hist. by apply send_empty_inv.
  - exists hist. apply pop_out_inv; [done|]. destruct (inv_core _ _ _ IH) as [_ _ _ _ _ _ _ _ Ho _].
    destruct (_segments_out s); [done|]. by inversion Ho.
Qed.

(** ** Properties *)

(** The number of the oldest outstanding segment, or the next number. *)
Definition oldest (s : t) : Z :=
  match _segments_outstanding s with [] => _next_seqno s | ((x, _), _) :: _ => x end.

Lemma contig_oldest S isn lo l hi : contig S isn lo l hi ->
  lo = match l with [] => hi | ((x, _), _) :: _ => x end.
Proof. destruct l as [|[[x f] seg] l]; simpl; [done|]. by intros (-> & _). Qed.

Lemma inv_oldest S hist s : inv S hist s ->
  0 <= oldest s <= _last_ackno s /\ contig S (_isn s) (oldest s) (_segments_outstanding s) (_next_seqno s).
Proof.
  intros [[_ (lo & Hlo & Hc) _ _ _ _ _ _ _ _] _]. pose proof (contig_oldest _ _ _ _ _ Hc) as E.
  unfold oldest. by rewrite <- E.
Qed.

Lemma inv_in_flight S hist s : fits S -> inv S hist s -> bytes_in_flight s = _next_seqno s - oldest s.
Proof.
  intros Hf Hinv. destruct (inv_oldest _ _ _ Hinv) as [? Hc]. pose proof (next_bound _ _ _ Hf Hinv).
  pose proof (core_ack _ _ (inv_core _ _ _ Hinv)). unfold bytes_in_flight, fits in *.
  rewrite (in_flight_fold S (_isn s) _ Hf _ _ 0 Hc) by lia. lia.
Qed.

Lemma contig_after S isn l : forall lo hi,
  contig S isn lo l hi -> Forall (fun e => lo <= e.1.1 /\ lo < e.1.1 + seg_len e.2) l.
Proof.
  induction l as [|[[x f] seg] l IH]; simpl; intros lo hi H; [done|].
  destruct H as (-> & _ & Hp & H). constructor; simpl; [lia|].
  eapply Forall_impl; [by eapply IH|]. simpl. intros [[y g] sg]. simpl. lia.
Qed.

(** No segment that is acknowledged whole stays outstanding. *)
Lemma inv_unacked S hist s : inv S hist s ->
  Forall (fun e => _last_ackno s < e.1.1 + seg_len e.2) (_segments_outstanding s).
Proof.
  intros [[_ (lo & _ & Hc) _ Hh _ _ _ _ _ _] _].
  destruct (_segments_outstanding s) as [|[[x f] seg] l]; [done|]. destruct Hc as (-> & _ & Hp & Hc).
  constructor; [done|]. eapply Forall_impl; [by eapply contig_after|]. simpl. intros [[y g] sg]. simpl. lia.
Qed.

(** C7: what is outstanding is exactly what is not acknowledged, and nothing is sent
    but the stream.  In every reachable state, whatever acknowledgements arrived and
    however time passed: every queued segment is a reset or a segment of [S] at
    its number; the outstanding segments are non-empty segments of [S] that cover
    without gap or overlap all numbers from [oldest] to [_next_seqno], so
    everything from [_last_ackno] on; each of them reaches beyond [_last_ackno], so
    only the oldest one can be acknowledged in part, and there is none exactly when
    everything sent is acknowledged; [bytes_in_flight] is their total length; and
    the timer runs if and only if something is outstanding. *)
Theorem sender_invariant (S : bytes) (s : t) :
  fits S -> reach S s ->
  Forall (queued S (_isn s)) (_segments_out s) /\
  contig S (_isn s) (oldest s) (_segments_outstanding s) (_next_seqno s) /\
  0 <= oldest s <= _last_ackno s /\ _last_ackno s <= _next_seqno s <= zlen S + 2 /\
  Forall (fun e => _last_ackno s < e.1.1 + seg_len e.2) (_segments_outstanding s) /\
  (_segments_outstanding s = [] <-> _last_ackno s = _next_seqno s) /\
  bytes_in_flight s = _next_seqno s - oldest s /\
  (_timer_enable s = true <-> _segments_outstanding s <> []).
Proof.
  intros Hf [hist Hinv]%reach_inv; [|done]. destruct (inv_oldest _ _ _ Hinv) as [? Hc].
  pose proof (next_bound _ _ _ Hf Hinv). destruct (inv_core _ _ _ Hinv) as [_ _ Ha Hh Ht _ _ _ Ho _].
  split; [done|]. split; [done|]. split; [lia|]. split; [lia|]. split; [by eapply inv_unacked|].
  split; [|split; [by eapply inv_in_flight|rewrite Ht; unfold pending; by destruct (_segments_outstanding s)]].
  unfold oldest in Hc. destruct (_segments_outstanding s) as [|[[x f] seg] l]; [done|].
  destruct Hc as (_ & _ & _ & Hc%contig_le). split; [done|lia].
Qed.

Definition demo_S : bytes := str "hello, world".

Definition demo_made : t := make 64000 1000 (Some (mkWrapping 4294967290)) 0.

Definition demo_written : t := with_stream (fun st => (ByteStream.write (str "hello") st).2) (fill_window demo_made).

Definition demo_sent : t := ack_received (mkWrapping 4294967291) 3 demo_written.

Lemma demo_fits : fits demo_S.
Proof. reflexivity. Qed.

Lemma demo_made_reach : reach demo_S demo_made.
Proof.
  apply reach_make; [lia|lia|]. intros isn [= <-]. vm_compute. intuition congruence.
Qed.

Lemma demo_sent_reach : reach demo_S demo_sent.
Proof.
  apply reach_ack; [|lia]. apply (reach_write demo_S (fill_window demo_made) _ (str ", world")); [|reflexivity].
  apply reach_fill, demo_made_reach.
Qed.

Lemma sender_invariant_witness :
  Forall (queued demo_S (_isn demo_sent)) (_segments_out demo_sent) /\
  contig demo_S (_isn demo_sent) (oldest demo_sent) (_segments_outstanding demo_sent) (_next_seqno demo_sent) /\
  0 <= oldest demo_sent <= _last_ackno demo_sent /\
  _last_ackno demo_sent <= _next_seqno demo_sent <= zlen demo_S + 2 /\
  Forall (fun e => _last_ackno demo_sent < e.1.1 + seg_len e.2) (_segments_outstanding demo_sent) /\
  (_segments_outstanding demo_sent = [] <-> _last_ackno demo_sent = _next_seqno demo_sent) /\
  bytes_in_flight demo_sent = _next_seqno demo_sent - oldest demo_sent /\
  (_timer_enable demo_sent = true <-> _segments_outstanding demo_sent <> []).
Proof. apply sender_invariant; [apply demo_fits|apply demo_sent_reach]. Defined.

(** C11: [fill_window] respects the peer's window and the payload limit and uses all
    of the window.  From every reachable state before FIN was sent, what it sends are
    the next segments of the stream (with SYN first if it was not sent yet), each
    with at most [MAX_PAYLOAD_SIZE] bytes, queued and outstanding in order; their
    numbers end at the end of the window at the latest, with a single one beyond it
    as zero-window probe; and they end before that only when FIN was sent or when
    the outbound stream is empty and open. *)
Theorem fill_window_exact (S : bytes) (s : t) :
  fits S -> reach S s -> _fin_sent s = false ->
  let s' := fill_window s in
  let limit := Z.max (first_free s) (_last_ackno s + _window_size s) + (if probe s then 1 else 0) in
  (exists new, _segments_out s' = _segments_out s ++ map snd new /\
     _segments_outstanding s' = _segments_outstanding s ++ new /\
     contig S (_isn s) (_next_seqno s) new (_next_seqno s') /\
     Forall (fun e => zlen (Buffer.str (TCPSegment.payload e.2)) <= TCPConfig.MAX_PAYLOAD_SIZE) new) /\
  first_free s <= _next_seqno s' <= limit /\
  (_next_seqno s' = limit \/ _fin_sent s' = true \/
   (ByteStream._buffer (_stream s') = [] /\ ByteStream.input_ended (_stream s') = false)).
Proof.
  intros Hf [hist Hinv]%reach_inv Hfs; [|done].
  destruct (fill_window_spec S hist s Hf Hinv Hfs) as [_ Hn Hd _ (new & [])]. unfold budget in *. cbv zeta.
  split; [by exists new|]. destruct (probe s); (split; [lia|destruct Hd; [left; lia|by right]]).
Qed.

Lemma fill_window_exact_witness :
  let s := demo_written in
  let s' := fill_window s in
  let limit := Z.max (first_free s) (_last_ackno s + _window_size s) + (if probe s then 1 else 0) in
  (exists new, _segments_out s' = _segments_out s ++ map snd new /\
     _segments_outstanding s' = _segments_outstanding s ++ new /\
     contig demo_S (_isn s) (_next_seqno s) new (_next_seqno s') /\
     Forall (fun e => zlen (Buffer.str (TCPSegment.payload e.2)) <= TCPConfig.MAX_PAYLOAD_SIZE) new) /\
  first_free s <= _next_seqno s' <= limit /\
  (_next_seqno s' = limit \/ _fin_sent s' = true \/
   (ByteStream._buffer (_stream s') = [] /\ ByteStream.input_ended (_stream s') = false)).
Proof.
  apply (fill_window_exact demo_S); [apply demo_fits| |reflexivity].
  apply (reach_write demo_S (fill_window demo_made) _ (str ", world")); [|reflexivity].
  apply reach_fill, demo_made_reach.
Defined.

(** The loop of [fill_window] terminates: from every reachable state after SYN
    was sent, for any budget, it ends within the fuel the definition gives it. *)
Theorem fill_loop_terminates (S : bytes) (s : t) (num : Z) (flag : bool) :
  fits S -> reach S s -> 1 <= _next_seqno s -> 0 <= num < MAX32 ->
  is_Some (fill_loop (fill_fuel s) num flag s).
Proof.
  intros Hf [hist Hinv]%reach_inv Hn Hnum; [|done].
  destruct (fill_loop_spec S flag Hf (fill_fuel s) num hist s) as (s' & -> & _); try done.
  unfold fill_fuel. destruct (_fin_sent s); lia.
Qed.

Lemma fill_loop_terminates_witness : is_Some (fill_loop (fill_fuel demo_sent) 70000 false demo_sent).
Proof.
  apply (fill_loop_terminates demo_S);
    [apply demo_fits|apply demo_sent_reach|vm_compute; congruence|lia].
Defined.

Lemma acked_fields A w z s :
  _last_ackno (acked A w z s) = A /\ _next_seqno (acked A w z s) = _next_seqno s /\
  _window_size (acked A w z s) = w /\ _isn (acked A w z s) = _isn s.
Proof. destruct s. rewrite acked_eq. cbv zeta. by destruct (pop_acked _ _) as [[] kept]. Qed.

Lemma fill_window_fields S hist s (s' := fill_window s) :
  fits S -> inv S hist s ->
  _last_ackno s' = _last_ackno s /\ _window_size s' = _window_size s /\ _next_seqno s <= _next_seqno s' /\
  _isn s' = _isn s.
Proof.
  intros Hf Hinv. unfold s'. destruct (_fin_sent s) eqn:E.
  - unfold fill_window. rewrite E. split_and!; done || lia.
  - destruct (fill_window_spec S hist s Hf Hinv E) as [_ Hn _ Hc]. pose proof (next_bound _ _ _ Hf Hinv).
    destruct Hc; simpl in *. split_and!; try done. unfold first_free in Hn. destruct (_ =? 0) eqn:?; lia.
Qed.

Lemma ack_received_fields S hist s ackno w (s' := ack_received ackno w s) :
  fits S -> inv S hist s -> 0 <= w < MAX16 -> _next_seqno s <= _next_seqno s' /\ _isn s' = _isn s.
Proof.
  intros Hf Hinv Hw. unfold s'. rewrite (ack_received_eq S hist) by done.
  destruct (_ || _) eqn:E; [done|]. apply orb_false_iff in E as [_ E].
  match goal with |- context [acked ?A ?w' ?z s] =>
    destruct (acked_fields A w' z s) as (_ & Hn & _ & Hi); pose proof (acked_inv S hist s ackno w z) as Ha end.
  destruct (fill_window_fields S hist _ Hf (Ha Hf Hinv Hw ltac:(lia))) as (_ & _ & Hn' & Hi').
  rewrite Hn in Hn'. by rewrite Hi', Hi.
Qed.

Lemma tick_fields ms s : _next_seqno (tick ms s) = _next_seqno s /\ _isn (tick ms s) = _isn s.
Proof.
  destruct s as [isn out os bk rto rt te cnt st nx la win zv fs]. rewrite tick_eq.
  destruct te; [|done]. cbn [negb]. split_if; [|done]. by destruct os as [|[[x []] seg] os].
Qed.

Lemma fill_window_started S hist s : fits S -> inv S hist s -> 1 <= _next_seqno (fill_window s).
Proof.
  intros Hf Hinv. pose proof (next_bound _ _ _ Hf Hinv). destruct (_fin_sent s) eqn:E.
  - unfold fill_window. rewrite E. destruct (data_next _ _ _ (inv_data _ _ _ Hinv)) as [(_ & _ & E')|Hn];
      [congruence|]. pose_zlen. rewrite E in Hn. lia.
  - destruct (fill_window_spec S hist s Hf Hinv E) as [_ Hn _ _]. unfold first_free in Hn.
    destruct (_ =? 0) eqn:?; lia.
Qed.

(** The segments that an acknowledgement up to [A] leaves. *)
Definition unacked (A : Z) (l : list ((Z * bool) * TCPSegment.t)) : list ((Z * bool) * TCPSegment.t) :=
  List.filter (fun e => A <? e.1.1 + seg_len e.2) l.

Lemma unacked_all A l : Forall (fun e => A < e.1.1 + seg_len e.2) l -> unacked A l = l.
Proof.
  induction 1 as [|e l H _ IH]; [done|]. cbn [unacked List.filter]. replace (_ <? _) with true by lia. by f_equal.
Qed.

Lemma pop_acked_unacked S isn A l : fits S -> forall lo hi,
  contig S isn lo l hi -> 0 <= lo -> hi < MAX64 ->
  (pop_acked A l).2 = unacked A l /\ ((pop_acked A l).1 = false <-> unacked A l = l).
Proof.
  intros Hf. induction l as [|[[x f] seg] l IH]; intros lo hi H H0 Hhi; [done|]. cbn [contig pop_acked] in *.
  destruct H as (-> & Hs & Hp & H). pose proof (contig_le _ _ _ _ _ H).
  rewrite (segment_length _ _ _ _ Hf (proj1 Hs)). rewrite u64_small by lia.
  destruct (lo + seg_len seg <=? A) eqn:E; cbn [fst snd].
  - cbn [unacked List.filter fst snd]. replace (A <? lo + seg_len seg) with false by lia. destruct (IH _ _ H) as [-> _]; [lia..|]. split; [done|].
    split; [done|]. intros El. apply (f_equal length) in El. simpl in El. unfold unacked in El.
    pose proof (List.filter_length_le (fun e => A <? e.1.1 + seg_len e.2) l). lia.
  - assert (unacked A (((lo, f), seg) :: l) = ((lo, f), seg) :: l) as Ea.
    { apply unacked_all. constructor; [simpl; lia|]. eapply Forall_impl; [by eapply contig_after|].
      simpl. intros [[y g] sg]. simpl. lia. }
    by rewrite Ea.
Qed.

Lemma acked_members S hist s A w z (s1 := acked A w z s) :
  fits S -> inv S hist s ->
  let kept := unacked A (_segments_outstanding s) in
  _segments_outstanding s1 = kept /\ _segments_out s1 = _segments_out s /\
  _fin_sent s1 = _fin_sent s /\ _window_zero_valid s1 = z /\
  (_retransmission_timeout s1, _initial_retransmission_timeout s1, _consecutive_retransmissions_count s1) =
    (if decide (length kept = length (_segments_outstanding s))
     then (_retransmission_timeout s, _initial_retransmission_timeout s, _consecutive_retransmissions_count s)
     else (0, _init_timer_backup s, 0)).
Proof.
  intros Hf Hinv. cbv zeta. destruct (inv_oldest _ _ _ Hinv) as [Ho Hc]. pose proof (next_bound _ _ _ Hf Hinv) as Hn.
  destruct (pop_acked_unacked S (_isn s) A _ Hf _ _ Hc) as [E1 E2]; [lia|unfold fits in Hf; lia|]. clear Hinv Hc Ho Hn.
  unfold s1. destruct s. rewrite acked_eq. cbn [_segments_outstanding] in *. cbv zeta. rewrite E1.
  set (os := _segments_outstanding0) in *. destruct (pop_acked A os) as [[] kept']; cbn [fst snd] in *.
  - destruct (decide _) as [El|]; [|done]. exfalso. assert (unacked A os = os) as Eos; [|by apply E2 in Eos].
    clear -El. induction os as [|e os IH]; [done|]. cbn [unacked List.filter] in *. unfold unacked in *.
    pose proof (List.filter_length_le (fun e => A <? e.1.1 + seg_len e.2) os).
    destruct (_ <? _); simpl in El; [f_equal; apply IH; lia|lia].
  - rewrite (proj1 E2) by done. by rewrite decide_True by done.
Qed.

(** Every filling of the window, FIN sent or not. *)
Lemma fill_window_new S hist s (s' := fill_window s) :
  fits S -> inv S hist s ->
  (exists new, sent_new S s new s') /\
  (_retransmission_timeout s', _initial_retransmission_timeout s', _consecutive_retransmissions_count s') =
  (_retransmission_timeout s, _initial_retransmission_timeout s, _consecutive_retransmissions_count s) /\
  (_next_seqno s' = first_free s + budget s \/ _fin_sent s' = true \/
   (ByteStream._buffer (_stream s') = [] /\ ByteStream.input_ended (_stream s') = false)).
Proof.
  intros Hf Hinv. unfold s'. destruct (_fin_sent s) eqn:E.
  - unfold fill_window. rewrite E. split_and!; [|done|by right; left]. exists []. by apply sent_nothing.
  - destruct (fill_window_spec S hist s Hf Hinv E) as [_ _ Hd [] Hnew]. simpl in *. split_and!; [done| |done]. congruence.
Qed.

(** C12: acknowledgements.  From every reachable state, whatever acknowledgement
    number and window arrive; [x] is the absolute number that [unwrap] makes of it.
    Before SYN was sent, and for a number beyond what was sent, nothing changes at
    all.  Else [_last_ackno] is raised to [x] if that is more; of the outstanding
    segments exactly those acknowledged whole are removed; if there were any, the
    clock restarts with the initial timeout and no retransmissions counted, else it
    goes on; the window is what the peer's limit [x + w] leaves after the highest
    acknowledgement; and it is filled: the next segments of the stream are sent until
    it is used up (and one number more if it is closed), FIN was sent, or the
    outbound stream is empty and open. *)
Theorem ack_received_correct (S : bytes) (s : t) (ackno : WrappingInt32) (w : Z) :
  fits S -> reach S s -> 0 <= w < MAX16 ->
  let x := unwrap ackno (_isn s) (_last_ackno s) in
  let s' := ack_received ackno w s in
  let A := Z.max (_last_ackno s) x in
  let win := Z.max 0 (x + w - A) in
  let kept := unacked A (_segments_outstanding s) in
  if (_next_seqno s =? 0) || (_next_seqno s <? x) then s' = s
  else
    _last_ackno s' = A /\ _window_size s' = win /\
    (exists new, _segments_outstanding s' = kept ++ new /\ _segments_out s' = _segments_out s ++ map snd new /\
       contig S (_isn s) (_next_seqno s) new (_next_seqno s')) /\
    (_retransmission_timeout s', _initial_retransmission_timeout s', _consecutive_retransmissions_count s') =
      (if decide (length kept = length (_segments_outstanding s))
       then (_retransmission_timeout s, _initial_retransmission_timeout s, _consecutive_retransmissions_count s)
       else (0, _init_timer_backup s, 0)) /\
    (_timer_enable s' = true <-> _segments_outstanding s' <> []) /\
    (_next_seqno s' = Z.max (_next_seqno s) (A + win) + (if win =? 0 then 1 else 0) \/ _fin_sent s' = true \/
     (ByteStream._buffer (_stream s') = [] /\ ByteStream.input_ended (_stream s') = false)).
Proof.
  intros Hf [hist Hinv]%reach_inv Hw; [|done]. intros x s' A win kept.
  destruct (ack_received_inv S hist s ackno w Hf Hinv Hw) as [hist' Hinv']. fold s' in Hinv'.
  pose proof (ack_received_eq S hist s ackno w Hf Hinv Hw) as Es. fold x s' in Es.
  destruct ((_next_seqno s =? 0) || (_next_seqno s <? x)) eqn:E; [done|].
  apply orb_false_iff in E as [E0 Ex]. pose proof (next_bound _ _ _ Hf Hinv) as Hn.
  change (window_after s x w) with win in Es. fold A in Es.
  set (z := _window_zero_valid s || (win =? 0)) in Es. set (s1 := acked A win z s) in Es.
  assert (inv S hist s1) as Hi1 by (apply acked_inv; try done; fold x; lia).
  destruct (acked_fields A win z s) as (E1 & E2 & E3 & E4). fold s1 in E1, E2, E3, E4.
  destruct (acked_members S hist s A win z Hf Hinv) as (M1 & M2 & M3 & M4 & M5). fold s1 kept in M1, M2, M3, M4, M5.
  destruct (fill_window_fields S hist s1 Hf Hi1) as (F1 & F2 & _ & _).
  destruct (fill_window_new S hist s1 Hf Hi1) as ((new & [N1 N2 N3 _]) & F5 & F6).
  rewrite <- Es in *. rewrite E1 in F1. rewrite E3 in F2. rewrite E2, E4 in N3. rewrite M1 in N2. rewrite M2 in N1.
  split; [done|]. split; [done|]. split; [by exists new|]. split; [by rewrite F5|].
  split; [rewrite (core_timer _ _ (inv_core _ _ _ Hinv')); unfold pending; by destruct (_segments_outstanding s')|].
  destruct F6 as [F6|F6]; [left|by right]. rewrite F6. unfold budget, first_free, probe. rewrite E1, E2, E3, M4, E0.
  unfold z. destruct (win =? 0) eqn:Ew; rewrite ?orb_true_r, ?andb_true_r; cbn [andb]; lia.
Qed.

Lemma ack_received_correct_witness :
  let s := demo_sent in
  let ackno := wrap 3 (_isn s) in
  let x := unwrap ackno (_isn s) (_last_ackno s) in
  let s' := ack_received ackno 100 s in
  let A := Z.max (_last_ackno s) x in
  let win := Z.max 0 (x + 100 - A) in
  let kept := unacked A (_segments_outstanding s) in
  if (_next_seqno s =? 0) || (_next_seqno s <? x) then s' = s
  else
    _last_ackno s' = A /\ _window_size s' = win /\
    (exists new, _segments_outstanding s' = kept ++ new /\ _segments_out s' = _segments_out s ++ map snd new /\
       contig demo_S (_isn s) (_next_seqno s) new (_next_seqno s')) /\
    (_retransmission_timeout s', _initial_retransmission_timeout s', _consecutive_retransmissions_count s') =
      (if decide (length kept = length (_segments_outstanding s))
       then (_retransmission_timeout s, _initial_retransmission_timeout s, _consecutive_retransmissions_count s)
       else (0, _init_timer_backup s, 0)) /\
    (_timer_enable s' = true <-> _segments_outstanding s' <> []) /\
    (_next_seqno s' = Z.max (_next_seqno s) (A + win) + (if win =? 0 then 1 else 0) \/ _fin_sent s' = true \/
     (ByteStream._buffer (_stream s') = [] /\ ByteStream.input_ended (_stream s') = false)).
Proof. apply (ack_received_correct demo_S); [apply demo_fits|apply demo_sent_reach|lia]. Defined.

(** C13: retransmission.  While something is outstanding, [tick] adds the elapsed
    time; once it reaches the timeout exactly the oldest outstanding segment is
    queued again, the clock restarts, and the timeout doubles (with the count of
    consecutive retransmissions) unless the segment was a zero-window probe;
    with nothing outstanding [tick] changes nothing. *)
Theorem tick_retransmits (S : bytes) (s : t) (ms : Z) :
  fits S -> reach S s -> 0 <= ms -> _retransmission_timeout s + ms < MAX32 ->
  0 <= _retransmission_timeout s ->
  match _segments_outstanding s with
  | [] => tick ms s = s
  | ((_, zero_probe), seg) :: _ =>
      let now := _retransmission_timeout s + ms in
      if now <? _initial_retransmission_timeout s then tick ms s = s <| _retransmission_timeout := now |>
      else
        _segments_out (tick ms s) = _segments_out s ++ [seg] /\
        _segments_outstanding (tick ms s) = _segments_outstanding s /\
        _retransmission_timeout (tick ms s) = 0 /\ _timer_enable (tick ms s) = true /\
        _initial_retransmission_timeout (tick ms s) =
          (if zero_probe then _initial_retransmission_timeout s
           else u32 (2 * _initial_retransmission_timeout s)) /\
        _consecutive_retransmissions_count (tick ms s) =
          (if zero_probe then _consecutive_retransmissions_count s
           else u32 (_consecutive_retransmissions_count s + 1))
  end.
Proof.
  intros Hf [hist Hinv]%reach_inv Hms Hov H0; [|done].
  destruct (inv_core _ _ _ Hinv) as [_ _ _ _ Ht _ _ _ _ _]. unfold pending in Ht. clear Hinv.
  destruct s as [isn out os bk rto rt te cnt st nx la win zv fs]. rewrite tick_eq. simpl in *.
  rewrite (u32_small (rt + ms)) by lia. destruct os as [|[[x f] seg] os].
  - by subst te.
  - change (zlen (_ :: os) =? 0) with false in Ht || (rewrite zlen_cons in Ht; pose_zlen;
      replace (_ =? 0) with false in Ht by lia). simpl in Ht. subst te. cbn [negb].
    destruct (rt + ms <? rto) eqn:E.
    + by replace (rto <=? rt + ms) with false by lia.
    + replace (rto <=? rt + ms) with true by lia. rewrite (Z.mul_comm 2). by destruct f.
Qed.

Lemma tick_retransmits_witness :
  match _segments_outstanding demo_sent with
  | [] => tick 1500 demo_sent = demo_sent
  | ((_, zero_probe), seg) :: _ =>
      let now := _retransmission_timeout demo_sent + 1500 in
      if now <? _initial_retransmission_timeout demo_sent
      then tick 1500 demo_sent = demo_sent <| _retransmission_timeout := now |>
      else
        _segments_out (tick 1500 demo_sent) = _segments_out demo_sent ++ [seg] /\
        _segments_outstanding (tick 1500 demo_sent) = _segments_outstanding demo_sent /\
        _retransmission_timeout (tick 1500 demo_sent) = 0 /\ _timer_enable (tick 1500 demo_sent) = true /\
        _initial_retransmission_timeout (tick 1500 demo_sent) =
          (if zero_probe then _initial_retransmission_timeout demo_sent
           else u32 (2 * _initial_retransmission_timeout demo_sent)) /\
        _consecutive_retransmissions_count (tick 1500 demo_sent) =
          (if zero_probe then _consecutive_retransmissions_count demo_sent
           else u32 (_consecutive_retransmissions_count demo_sent + 1))
  end.
Proof.
  apply (tick_retransmits demo_S); try apply demo_fits; try apply demo_sent_reach;
    vm_compute; intuition congruence.
Defined.

(** C37: exponential backoff.  In every reachable state there is a number [k] of
    backoffs since the last acknowledgement of new data such that the timeout is
    the configured one times [2^k]; for up to 16 of them the 32-bit product
    cannot overflow. *)
Theorem backoff_exponential (S : bytes) (s : t) :
  fits S -> reach S s ->
  exists k, 0 <= k /\ _consecutive_retransmissions_count s = u32 k /\
    _initial_retransmission_timeout s = u32 (_init_timer_backup s * 2 ^ k) /\
    (k <= 16 -> _initial_retransmission_timeout s = _init_timer_backup s * 2 ^ k).
Proof.
  intros Hf [hist Hinv]%reach_inv; [|done].
  destruct (inv_core _ _ _ Hinv) as [_ _ _ _ _ _ (k & Hk & Hc & Hr) Hb _ _].
  exists k. split_and!; try done. intros H16. rewrite Hr. apply u32_small.
  pose proof (Z.pow_pos_nonneg 2 k). pose proof (Z.pow_le_mono_r 2 k 16). change (2 ^ 16) with 65536 in *.
  nia.
Qed.

Lemma backoff_exponential_witness :
  exists k, 0 <= k /\ _consecutive_retransmissions_count (tick 1500 demo_sent) = u32 k /\
    _initial_retransmission_timeout (tick 1500 demo_sent) = u32 (_init_timer_backup (tick 1500 demo_sent) * 2 ^ k) /\
    (k <= 16 -> _initial_retransmission_timeout (tick 1500 demo_sent) =
                _init_timer_backup (tick 1500 demo_sent) * 2 ^ k).
Proof. apply (backoff_exponential demo_S); [apply demo_fits|apply reach_tick, demo_sent_reach]. Defined.

End TCPSender.
