(* ===== verification/TCPConnection.v ===== *)
(** * A TCP endpoint: [libsponge/tcp_connection.hh/.cc] and [tcp_helpers/tcp_state.hh/.cc]

    [TCPConnection.t] joins a sender and a receiver; every method of the class is
    a definition, the destructor included.  [TCPState] is the summary of an
    endpoint's state and the official state names. *)
From S2P Require Import Prelude WrappingIntegers ByteStream OrderedMap StreamReassembler Buffer.
From S2P Require Import Parser Checksum TCPSegment TCPReceiver TCPSender.
Import WrappingIntegers.

Module TCPState.

Inductive State :=
| LISTEN | SYN_RCVD | SYN_SENT | ESTABLISHED | CLOSE_WAIT | LAST_ACK | FIN_WAIT_1 | FIN_WAIT_2
| CLOSING | TIME_WAIT | CLOSED | RESET.

Definition ReceiverERROR : string := "error (connection was reset)".
Definition ReceiverLISTEN : string := "waiting for SYN: ackno is empty".
Definition ReceiverSYN_RECV : string := "SYN received (ackno exists), and input to stream hasn't ended".
Definition ReceiverFIN_RECV : string := "input to stream has ended".

Definition SenderERROR : string := "error (connection was reset)".
Definition SenderCLOSED : string := "waiting for stream to begin (no SYN sent)".
Definition SenderSYN_SENT : string := "stream started but nothing acknowledged".
Definition SenderSYN_ACKED : string := "stream ongoing".
Definition SenderFIN_SENT : string := "stream finished (FIN sent) but not fully acknowledged".
Definition SenderFIN_ACKED : string := "stream finished and fully acknowledged".

Record t := mk {
  _sender : string;
  _receiver : string;
  _active : bool;
  _linger_after_streams_finish : bool }.

#[global] Instance tcp_state_eq_dec : EqDecision t.
Proof. solve_decision. Defined.

(** [operator==] and [operator!=]. *)
Definition eqb (a other : t) : bool :=
  Bool.eqb (_active a) (_active other) &&
  Bool.eqb (_linger_after_streams_finish a) (_linger_after_streams_finish other) &&
  String.eqb (_sender a) (_sender other) && String.eqb (_receiver a) (_receiver other).

Definition neqb (a other : t) : bool := negb (eqb a other).

Definition bool_string (b : bool) : string := if b then "1" else "0".

Definition name (a : t) : string :=
  "sender=`" +:+ _sender a +:+ "`, receiver=`" +:+ _receiver a +:+ "`, active=" +:+
  bool_string (_active a) +:+ ", linger_after_streams_finish=" +:+
  bool_string (_linger_after_streams_finish a).

(** [TCPState(State)]: the constructor from an official name. *)
Definition of_state (state : State) : t :=
  match state with
  | LISTEN => mk SenderCLOSED ReceiverLISTEN true true
  | SYN_RCVD => mk SenderSYN_SENT ReceiverSYN_RECV true true
  | SYN_SENT => mk SenderSYN_SENT ReceiverLISTEN true true
  | ESTABLISHED => mk SenderSYN_ACKED ReceiverSYN_RECV true true
  | CLOSE_WAIT => mk SenderSYN_ACKED ReceiverFIN_RECV true false
  | LAST_ACK => mk SenderFIN_SENT ReceiverFIN_RECV true false
  | CLOSING => mk SenderFIN_SENT ReceiverFIN_RECV true true
  | FIN_WAIT_1 => mk SenderFIN_SENT ReceiverSYN_RECV true true
  | FIN_WAIT_2 => mk SenderFIN_ACKED ReceiverSYN_RECV true true
  | TIME_WAIT => mk SenderFIN_ACKED ReceiverFIN_RECV true true
  | RESET => mk SenderERROR ReceiverERROR false false
  | CLOSED => mk SenderFIN_ACKED ReceiverFIN_RECV false false
  end.

Definition receiver_summary (receiver : TCPReceiver.t) : string :=
  if ByteStream.error (TCPReceiver.stream_out receiver) then ReceiverERROR
  else if negb (match TCPReceiver.ackno receiver with Some _ => true | None => false end) then ReceiverLISTEN
  else if ByteStream.input_ended (TCPReceiver.stream_out receiver) then ReceiverFIN_RECV
  else ReceiverSYN_RECV.

Definition sender_summary (sender : TCPSender.t) : string :=
  if ByteStream.error (TCPSender.stream_in sender) then SenderERROR
  else if TCPSender.next_seqno_absolute sender =? 0 then SenderCLOSED
  else if TCPSender.next_seqno_absolute sender =? TCPSender.bytes_in_flight sender then SenderSYN_SENT
  else if negb (ByteStream.eof (TCPSender.stream_in sender)) then SenderSYN_ACKED
  else if TCPSender.next_seqno_absolute sender <? u64 (ByteStream.bytes_written (TCPSender.stream_in sender) + 2)
  then SenderSYN_ACKED
  else if negb (TCPSender.bytes_in_flight sender =? 0) then SenderFIN_SENT
  else SenderFIN_ACKED.

(** [TCPState(sender, receiver, active, linger)]. *)
Definition make (sender : TCPSender.t) (receiver : TCPReceiver.t) (active linger : bool) : t :=
  mk (sender_summary sender) (receiver_summary receiver) active (if active then linger else false).

End TCPState.

Module TCPConnection.

Record t := mk {
  _cfg : TCPConfig.t;
  _receiver : TCPReceiver.t;
  _sender : TCPSender.t;
  _segments_out : list TCPSegment.t;
  _linger_after_streams_finish : bool;
  _time_since_last_segment_received : Z }.

#[global] Instance eta_t : Eta t := fun c =>
  mk (_cfg c) (_receiver c) (_sender c) (_segments_out c) (_linger_after_streams_finish c)
     (_time_since_last_segment_received c).

(** [TCPConnection(cfg)]; [random] is the value the sender's constructor draws. *)
Definition make (cfg : TCPConfig.t) (random : Z) : t :=
  mk cfg (TCPReceiver.make (TCPConfig.recv_capacity cfg))
    (TCPSender.make (TCPConfig.send_capacity cfg) (TCPConfig.rt_timeout cfg) (TCPConfig.fixed_isn cfg) random)
    [] true 0.

Definition remaining_outbound_capacity (c : t) : Z :=
  ByteStream.remaining_capacity (TCPSender.stream_in (_sender c)).

Definition bytes_in_flight (c : t) : Z := TCPSender.bytes_in_flight (_sender c).

Definition unassembled_bytes (c : t) : Z := TCPReceiver.unassembled_bytes (_receiver c).

Definition time_since_last_segment_received (c : t) : Z := _time_since_last_segment_received c.

Definition inbound_stream (c : t) : ByteStream.t := TCPReceiver.stream_out (_receiver c).

Definition active (c : t) : bool :=
  let outbound := TCPSender.stream_in (_sender c) in
  let inbound := TCPReceiver.stream_out (_receiver c) in
  if ByteStream.eof outbound && ByteStream.eof inbound then
    if TCPSender.bytes_in_flight (_sender c) =? 0 then
      if negb (_linger_after_streams_finish c) then false
      else time_since_last_segment_received c <? 10 * TCPConfig.rt_timeout (_cfg c)
    else true
  else if ByteStream.error outbound || ByteStream.error inbound then false
  else true.

Definition state (c : t) : TCPState.t :=
  TCPState.make (_sender c) (_receiver c) (active c) (_linger_after_streams_finish c).

(** The loop body of [pop_and_send_segments]. *)
Definition finish_segment (ackno : option WrappingInt32) (win_size : Z) (seg : TCPSegment.t) : TCPSegment.t :=
  let seg :=
    match ackno with
    | Some a =>
        if negb (TCPHeader.ack (TCPSegment.header seg))
        then seg <| TCPSegment._header :=
               (TCPSegment.header seg) <| TCPHeader.ackno := a |> <| TCPHeader.ack := true |> |>
        else seg
    | None => seg
    end in
  if TCPHeader.win (TCPSegment.header seg) =? TCPHeader.win TCPHeader.default
  then seg <| TCPSegment._header := (TCPSegment.header seg) <| TCPHeader.win := u16 win_size |> |>
  else seg.

(** The loop pops the front of the sender's queue and pushes it on
    [_segments_out]; nothing it calls changes the receiver. *)
Definition pop_and_send_segments (c : t) : t :=
  let win_size := Z.min (TCPReceiver.window_size (_receiver c)) 65535 in
  let sent := map (finish_segment (TCPReceiver.ackno (_receiver c)) win_size)
                (TCPSender.segments_out (_sender c)) in
  let c := c <| _sender := (_sender c) <| TCPSender._segments_out := [] |> |> in
  c <| _segments_out := _segments_out c ++ sent |>.

Definition positive_unclean_shutdown (c : t) : t :=
  let header := TCPHeader.default <| TCPHeader.rst := true |> in
  let c := c <| _sender := (_sender c) <| TCPSender._segments_out := [] |> |> in
  let c := c <| _sender := TCPSender.send_empty_segment_with_this_header header (_sender c) |> in
  let c := pop_and_send_segments c in
  let c := c <| _sender := TCPSender.with_stream ByteStream.set_error (_sender c) |> in
  c <| _receiver := TCPReceiver.with_stream ByteStream.set_error (_receiver c) |>.

(** [seg.header().seqno == _receiver.ackno().value() - 1]. *)
Definition keep_alive (seg : TCPSegment.t) (c : t) : bool :=
  match TCPReceiver.ackno (_receiver c) with
  | None => false
  | Some a =>
      (TCPSegment.length_in_sequence_space seg =? 0) &&
      WrappingIntegers.eqb (TCPHeader.seqno (TCPSegment.header seg)) (sub_u32 a 1)
  end.

Definition segment_received (seg : TCPSegment.t) (c : t) : t :=
  if negb (active c) then c
  else
    let h := TCPSegment.header seg in
    let c := c <| _time_since_last_segment_received := 0 |> in
    if TCPHeader.rst h then
      let c := c <| _sender := TCPSender.with_stream ByteStream.set_error (_sender c) |> in
      c <| _receiver := TCPReceiver.with_stream ByteStream.set_error (_receiver c) |>
    else
      let c := if TCPHeader.fin h && negb (ByteStream.input_ended (TCPSender.stream_in (_sender c)))
               then c <| _linger_after_streams_finish := false |> else c in
      let c := c <| _receiver := TCPReceiver.segment_received seg (_receiver c) |> in
      let c := if TCPHeader.ack h
               then c <| _sender := TCPSender.ack_received (TCPHeader.ackno h) (TCPHeader.win h) (_sender c) |>
               else c in
      let c := if keep_alive seg c then c <| _sender := TCPSender.send_empty_segment (_sender c) |> else c in
      let c :=
        if negb (TCPSegment.length_in_sequence_space seg =? 0) then
          let c := c <| _sender := TCPSender.fill_window (_sender c) |> in
          if zlen (TCPSender.segments_out (_sender c)) =? 0
          then c <| _sender := TCPSender.send_empty_segment (_sender c) |>
          else c
        else c in
      pop_and_send_segments c.

Definition write (data : bytes) (c : t) : Z * t :=
  let '(total_write_length, stream) := ByteStream.write data (TCPSender.stream_in (_sender c)) in
  let c := c <| _sender := (_sender c) <| TCPSender._stream := stream |> |> in
  let c := c <| _sender := TCPSender.fill_window (_sender c) |> in
  (total_write_length, pop_and_send_segments c).

Definition tick (ms_since_last_tick : Z) (c : t) : t :=
  let c := c <| _sender := TCPSender.tick ms_since_last_tick (_sender c) |> in
  let c := if TCPConfig.MAX_RETX_ATTEMPTS <? TCPSender.consecutive_retransmissions (_sender c)
           then positive_unclean_shutdown c else c in
  let c := pop_and_send_segments c in
  c <| _time_since_last_segment_received :=
         u64 (_time_since_last_segment_received c + ms_since_last_tick) |>.

Definition end_input_stream (c : t) : t :=
  let c := c <| _sender := TCPSender.with_stream ByteStream.end_input (_sender c) |> in
  let c := c <| _sender := TCPSender.fill_window (_sender c) |> in
  pop_and_send_segments c.

Definition connect (c : t) : t :=
  let c := c <| _sender := TCPSender.fill_window (_sender c) |> in
  pop_and_send_segments c.

(** The destructor [~TCPConnection]; nothing it calls throws. *)
Definition destroy (c : t) : t := if active c then positive_unclean_shutdown c else c.

(** The owner's access to the inbound stream through [inbound_stream()]. *)
Definition with_inbound (f : ByteStream.t -> ByteStream.t) (c : t) : t :=
  c <| _receiver := TCPReceiver.with_stream f (_receiver c) |>.

(** ** Invariant

    The endpoint sends the stream [S] from [isn] and receives the stream [S']
    that its peer sends from [isn']. *)
Section endpoint.
Context (S : bytes) (isn : WrappingInt32) (S' : bytes) (isn' : WrappingInt32) (cap : Z).
Context (HS : TCPSender.fits S) (HS' : TCPReceiver.fits S' cap) (Hisn' : wf isn').

Record base (hist del : bytes) (c : t) : Prop := {
  base_sender : TCPSender.inv S hist (_sender c);
  base_isn : TCPSender._isn (_sender c) = isn;
  base_receiver : TCPReceiver.inv S' isn' cap del (_receiver c);
  base_out : Forall (TCPSender.emits S isn) (_segments_out c) }.

(** Between two calls: the sender's queue is drained and a SYN was answered. *)
Record inv (hist del : bytes) (c : t) : Prop := {
  inv_base : base hist del c;
  inv_queue : TCPSender._segments_out (_sender c) = [];
  inv_syn : TCPReceiver._syn_recived (_receiver c) = true -> 1 <= TCPSender._next_seqno (_sender c) }.

Lemma finish_emits a w seg :
  (forall x, a = Some x -> wf x) -> TCPSender.emits S isn seg -> TCPSender.emits S isn (finish_segment a w seg).
Proof.
  intros Ha H. unfold finish_segment.
  set (seg1 := match a with Some _ => _ | None => _ end).
  assert (TCPSender.emits S isn seg1) as H1.
  { unfold seg1. destruct a as [a|]; [|done]. destruct (negb _); [|done]. specialize (Ha a eq_refl).
    destruct H as [[[] ? ?] H]. split; [split; [by split|done..]|].
    destruct H as [H|(x & [])]; [by left|right; by exists x]. }
  destruct (_ =? _); [|done]. destruct H1 as [[[] ? ?] H1]. split.
  - split; [|done..]. split; try done. apply u16_range.
  - destruct H1 as [H1|(x & [])]; [by left|right; by exists x].
Qed.

Lemma ackno_wf r x : TCPReceiver.ackno r = Some x -> wf x.
Proof. unfold TCPReceiver.ackno. destruct (negb _); [done|]. intros [= <-]. apply wrap_wf. Qed.

Lemma pop_base hist del c : base hist del c -> base hist del (pop_and_send_segments c).
Proof.
  intros [Hs Hi Hr Ho]. split; simpl; try done.
  - by apply TCPSender.pop_out_inv.
  - apply Forall_app. split; [done|]. apply Forall_map.
    eapply Forall_impl; [exact (TCPSender.core_out _ _ (TCPSender.inv_core _ _ _ Hs))|].
    intros seg [_ He]. rewrite Hi in He. apply finish_emits; [apply ackno_wf|exact He].
Qed.

(** A call ends with [pop_and_send_segments]. *)
Lemma pop_inv hist del c :
  base hist del c ->
  (TCPReceiver._syn_recived (_receiver c) = true -> 1 <= TCPSender._next_seqno (_sender c)) ->
  inv hist del (pop_and_send_segments c).
Proof. intros Hb Hs. split; [by apply pop_base|done|done]. Qed.

Lemma sender_step hist hist' del c s :
  base hist del c -> TCPSender.inv S hist' s -> TCPSender._isn s = TCPSender._isn (_sender c) ->
  base hist' del (c <| _sender := s |>).
Proof. intros [Hs Hi Hr Ho] H1 H2. split; simpl; try done. congruence. Qed.

Lemma fill_step hist del c : base hist del c ->
  exists hist', base hist' del (c <| _sender := TCPSender.fill_window (_sender c) |>) /\
    1 <= TCPSender._next_seqno (TCPSender.fill_window (_sender c)).
Proof.
  intros Hc. pose proof (base_sender _ _ _ Hc) as Hs.
  destruct (TCPSender.fill_window_inv S hist _ HS Hs) as [hist' Hf].
  destruct (TCPSender.fill_window_fields S hist _ HS Hs) as (_ & _ & _ & Hi).
  exists hist'. split; [by eapply sender_step|by eapply TCPSender.fill_window_started].
Qed.

(** Sending nothing but an empty segment. *)
Lemma empty_step hist del c : base hist del c -> 1 <= TCPSender._next_seqno (_sender c) ->
  base hist del (c <| _sender := TCPSender.send_empty_segment (_sender c) |>) /\
  TCPSender._next_seqno (TCPSender.send_empty_segment (_sender c)) = TCPSender._next_seqno (_sender c).
Proof.
  intros Hc Hn. pose proof (base_sender _ _ _ Hc) as Hs.
  pose proof (TCPSender.send_empty_inv S hist _ HS Hs Hn) as He.
  pose proof (TCPSender.next_bound _ _ _ HS Hs). unfold TCPSender.fits in HS.
  split; [eapply sender_step; try done|]; unfold TCPSender.send_empty_segment in *;
    by rewrite TCPSender.send_empty_eq by (done || lia).
Qed.

Lemma receiver_step hist del del' c r :
  base hist del c -> TCPReceiver.inv S' isn' cap del' r -> base hist del' (c <| _receiver := r |>).
Proof. intros [] Hr. by split. Qed.

Lemma receiver_error r del :
  TCPReceiver.inv S' isn' cap del r ->
  TCPReceiver.inv S' isn' cap del (TCPReceiver.with_stream ByteStream.set_error r).
Proof.
  intros [[[] ] ]. split; try done. split; try done. by split; try apply ByteStream.set_error_wf.
Qed.

Lemma errors_base hist del c : base hist del c ->
  base hist del (c <| _sender := TCPSender.with_stream ByteStream.set_error (_sender c) |>
                   <| _receiver := TCPReceiver.with_stream ByteStream.set_error (_receiver c) |>).
Proof.
  intros Hc. eapply receiver_step.
  - eapply sender_step; [done| |done]. apply TCPSender.set_error_inv, (base_sender _ _ _ Hc).
  - apply receiver_error, (base_receiver _ _ _ Hc).
Qed.

Lemma shutdown_base hist del c : base hist del c ->
  base hist del (positive_unclean_shutdown c) /\
  TCPSender._next_seqno (_sender (positive_unclean_shutdown c)) = TCPSender._next_seqno (_sender c).
Proof.
  intros Hc. set (c1 := c <| _sender := (_sender c) <| TCPSender._segments_out := [] |> |>).
  assert (base hist del c1) as H1.
  { eapply sender_step; [done| |done]. apply TCPSender.pop_out_inv; [apply Hc|done]. }
  pose proof (base_sender _ _ _ H1) as Hs. pose proof (TCPSender.next_bound _ _ _ HS Hs).
  pose proof HS as HS0. unfold TCPSender.fits in HS0.
  set (h := TCPHeader.default <| TCPHeader.rst := true |>).
  assert (TCPSender.send_empty_segment_with_this_header h (_sender c1) =
    (_sender c1) <| TCPSender._segments_out := _ |>) as Heq
    by (unfold TCPSender.send_empty_segment_with_this_header; by rewrite TCPSender.send_empty_eq by (done || lia)).
  split.
  - unfold positive_unclean_shutdown. cbv zeta. fold c1 h.
    assert (base hist del (pop_and_send_segments
      (c1 <| _sender := TCPSender.send_empty_segment_with_this_header h (_sender c1) |>))) as H2.
    { apply pop_base. eapply sender_step; [exact H1|apply TCPSender.send_reset_inv; try done|]. by rewrite Heq. }
    set (c2 := pop_and_send_segments _) in *. clearbody c2. exact (errors_base _ _ _ H2).
  - unfold positive_unclean_shutdown. fold c1 h. rewrite Heq. done.
Qed.

(** ** The methods preserve the invariant *)

Lemma connect_inv hist del c : inv hist del c -> exists hist', inv hist' del (connect c).
Proof.
  intros [Hb _ Hs]. destruct (fill_step _ _ _ Hb) as (hist' & Hb' & Hn). exists hist'. by apply pop_inv.
Qed.

Lemma conn_write_inv hist del c d rest :
  inv hist del c ->
  S = ztake (ByteStream.bytes_written (TCPSender._stream (_sender c))) S ++
      ztake (ByteStream.write d (TCPSender._stream (_sender c))).1 d ++ rest ->
  exists hist', inv hist' del (write d c).2.
Proof.
  intros [Hb _ Hs] HSd. unfold write.
  pose proof (TCPSender.write_inv S hist _ d rest HS (base_sender _ _ _ Hb) HSd) as Hw.
  unfold TCPSender.with_stream, TCPSender.stream_in in *.
  destruct (ByteStream.write d (TCPSender._stream (_sender c))) as [n st]. cbn [snd] in *.
  pose proof (sender_step _ _ _ _ _ Hb Hw eq_refl) as Hb1.
  destruct (fill_step _ _ _ Hb1) as (hist' & Hb' & Hn). exists hist'. by apply pop_inv.
Qed.

Lemma conn_end_input_inv hist del c :
  inv hist del c -> ByteStream.bytes_written (TCPSender._stream (_sender c)) = zlen S ->
  exists hist', inv hist' del (end_input_stream c).
Proof.
  intros [Hb _ Hs] Hz.
  pose proof (TCPSender.end_input_inv S hist _ (base_sender _ _ _ Hb) Hz) as He.
  pose proof (sender_step _ _ _ _ _ Hb He eq_refl) as Hb1.
  destruct (fill_step _ _ _ Hb1) as (hist' & Hb' & Hn). exists hist'. by apply pop_inv.
Qed.

Lemma conn_tick_inv hist del c ms : inv hist del c -> inv hist del (tick ms c).
Proof.
  intros [Hb _ Hs]. unfold tick. destruct (TCPSender.tick_fields ms (_sender c)) as [En Ei].
  assert (base hist del (c <| _sender := TCPSender.tick ms (_sender c) |>)) as Hb1.
  { eapply sender_step; [done| |done]. apply TCPSender.tick_inv, (base_sender _ _ _ Hb). }
  set (c1 := c <| _sender := _ |>) in *.
  set (c2 := if _ <? _ then positive_unclean_shutdown c1 else c1).
  assert (base hist del c2 /\ TCPSender._next_seqno (_sender c2) = TCPSender._next_seqno (_sender c) /\
          TCPReceiver._syn_recived (_receiver c2) = TCPReceiver._syn_recived (_receiver c)) as (Hb2 & En2 & Es2).
  { unfold c2. split_if; [|done]. destruct (shutdown_base _ _ _ Hb1) as [? ->]. by rewrite <- En. }
  clearbody c2. destruct (pop_inv hist del c2 Hb2) as [[] Hq Hn]; [by rewrite Es2, En2|]. split; [by split|done|done].
Qed.

Lemma destroy_base hist del c : inv hist del c -> base hist del (destroy c).
Proof. intros [Hb _ _]. unfold destroy. split_if; [by apply shutdown_base|done]. Qed.

Lemma read_inv hist del c n :
  inv hist del c -> 0 <= n ->
  inv hist (del ++ (ByteStream.read n (inbound_stream c)).1) (with_inbound (fun o => (ByteStream.read n o).2) c).
Proof.
  intros [Hb Hq Hs] Hn. split; [|done|done]. eapply receiver_step; [done|].
  destruct (base_receiver _ _ _ Hb) as [Hc Hl Hi]. split; [|done..].
  by apply StreamReassembler.read_consistent.
Qed.

(** The middle part of [segment_received]: receiver and acknowledgement. *)
Definition deliver (seg : TCPSegment.t) (c : t) : t :=
  let h := TCPSegment.header seg in
  let c := c <| _receiver := TCPReceiver.segment_received seg (_receiver c) |> in
  if TCPHeader.ack h
  then c <| _sender := TCPSender.ack_received (TCPHeader.ackno h) (TCPHeader.win h) (_sender c) |>
  else c.

(** The last part: replies. *)
Definition reply (seg : TCPSegment.t) (c : t) : t :=
  let c := if keep_alive seg c then c <| _sender := TCPSender.send_empty_segment (_sender c) |> else c in
  if negb (TCPSegment.length_in_sequence_space seg =? 0) then
    let c := c <| _sender := TCPSender.fill_window (_sender c) |> in
    if zlen (TCPSender.segments_out (_sender c)) =? 0
    then c <| _sender := TCPSender.send_empty_segment (_sender c) |>
    else c
  else c.

Lemma segment_received_eq seg c : active c = true -> TCPHeader.rst (TCPSegment.header seg) = false ->
  exists linger, segment_received seg c =
    pop_and_send_segments (reply seg (deliver seg
      (c <| _time_since_last_segment_received := 0 |> <| _linger_after_streams_finish := linger |>))).
Proof.
  intros Ha Hr. unfold segment_received. rewrite Ha, Hr. cbn [negb].
  destruct (TCPHeader.fin _ && _); [by exists false|].
  exists (_linger_after_streams_finish c). by destruct c.
Qed.

Lemma deliver_base hist del c x seg :
  base hist del c -> TCPReceiver.segment_for S' isn' x seg -> TCPReceiver.placed S' cap (_receiver c) x ->
  0 <= TCPHeader.win (TCPSegment.header seg) < MAX16 ->
  exists hist', base hist' del (deliver seg c) /\
    TCPSender._next_seqno (_sender c) <= TCPSender._next_seqno (_sender (deliver seg c)) /\
    _receiver (deliver seg c) = TCPReceiver.segment_received seg (_receiver c).
Proof.
  intros Hb Hseg Hnear Hw. unfold deliver. pose proof (base_sender _ _ _ Hb) as Hs.
  pose proof (TCPReceiver.segment_inv _ _ _ _ _ _ _ HS' Hisn' (base_receiver _ _ _ Hb) Hseg Hnear) as Hr.
  pose proof (receiver_step _ _ _ _ _ Hb Hr) as Hb1.
  destruct (TCPHeader.ack _); [|by exists hist].
  destruct (TCPSender.ack_received_inv S hist _ (TCPHeader.ackno (TCPSegment.header seg))
    _ HS Hs Hw) as [hist' Ha].
  destruct (TCPSender.ack_received_fields S hist _ (TCPHeader.ackno (TCPSegment.header seg))
    _ HS Hs Hw) as [Hn Hi].
  exists hist'. split_and!; [|done|done]. eapply sender_step; [exact Hb1|exact Ha|exact Hi].
Qed.

Lemma reply_base hist del c seg :
  base hist del c ->
  (TCPSegment.length_in_sequence_space seg = 0 -> TCPReceiver._syn_recived (_receiver c) = true ->
   1 <= TCPSender._next_seqno (_sender c)) ->
  exists hist', base hist' del (reply seg c) /\ _receiver (reply seg c) = _receiver c /\
    (TCPReceiver._syn_recived (_receiver c) = true -> 1 <= TCPSender._next_seqno (_sender (reply seg c))).
Proof.
  intros Hb Hsyn. unfold reply, keep_alive.
  destruct (TCPSegment.length_in_sequence_space seg =? 0) eqn:E; cbn [negb].
  - apply Z.eqb_eq in E. specialize (Hsyn E). exists hist. unfold TCPReceiver.ackno.
    destruct (TCPReceiver._syn_recived (_receiver c)); cbn [negb andb]; [|done].
    specialize (Hsyn eq_refl). split_if; [|done]. destruct (empty_step _ _ _ Hb Hsyn) as [H1 H2].
    split_and!; [done|done|]. intros _. cbn [modify _sender]. by rewrite H2.
  - destruct (fill_step _ _ _ Hb) as (hist' & H1 & H2). exists hist'.
    destruct (TCPReceiver.ackno (_receiver c)); cbn [andb];
      (split_if; [destruct (empty_step _ _ _ H1 H2) as [H3 H4]; split_and!; [done|done|]; intros _; cbn [modify _sender] in *; by rewrite H4
                 |by split_and!]).
Qed.

Lemma segment_received_inv hist del c x seg :
  inv hist del c ->
  TCPHeader.rst (TCPSegment.header seg) = true \/
    (TCPReceiver.segment_for S' isn' x seg /\ TCPReceiver.placed S' cap (_receiver c) x) ->
  0 <= TCPHeader.win (TCPSegment.header seg) < MAX16 ->
  exists hist', inv hist' del (segment_received seg c).
Proof.
  intros Hinv Hseg Hw. pose proof Hinv as [Hb Hq Hs].
  destruct (active c) eqn:Ha; [|exists hist; unfold segment_received; by rewrite Ha].
  destruct (TCPHeader.rst (TCPSegment.header seg)) eqn:Hr.
  - exists hist. unfold segment_received. rewrite Ha, Hr. cbn [negb].
    split; [|done|done]. destruct (errors_base _ _ _ Hb). by split.
  - destruct Hseg as [|[Hseg Hnear]]; [done|].
    destruct (segment_received_eq seg c Ha Hr) as [linger ->]. set (c1 := _ <| _linger_after_streams_finish := _ |>).
    assert (base hist del c1) as Hb1 by (destruct Hb; by split).
    destruct (deliver_base _ _ _ _ _ Hb1 Hseg Hnear Hw) as (hist1 & Hb2 & Hn2 & Hr2).
    assert (TCPReceiver._syn_recived (_receiver (deliver seg c1)) =
            TCPReceiver._syn_recived (_receiver c) || TCPHeader.syn (TCPSegment.header seg)) as Esyn
      by (rewrite Hr2; apply TCPReceiver.syn_recived_segment).
    set (c2 := deliver seg c1) in *. clearbody c2.
    destruct (reply_base _ _ _ seg Hb2) as (hist2 & Hb3 & Hr3 & Hn3).
    { intros H0 Hsy. rewrite Esyn in Hsy. simpl in Hn2.
      pose proof (TCPSender.seg_len_range _ _ _ _ Hseg) as Hlen. destruct HS' as [_ HS1].
      rewrite TCPSender.length_seg_len in H0 by lia. unfold TCPSender.seg_len in H0. pose_zlen.
      destruct (TCPHeader.syn (TCPSegment.header seg)); [destruct (TCPHeader.fin _); lia|].
      rewrite orb_false_r in Hsy. specialize (Hs Hsy). lia. }
    exists hist2. apply pop_inv; [done|]. by rewrite Hr3.
Qed.

End endpoint.

(** ** Properties *)

(** The official states are told apart: no two of the twelve names have the
    same summary, and [operator==] decides equality of summaries. *)
Theorem official_states_distinct (a b : TCPState.State) (x y : TCPState.t) :
  (TCPState.of_state a = TCPState.of_state b -> a = b) /\ (TCPState.eqb x y = true <-> x = y).
Proof.
  split; [by destruct a, b|]. destruct x, y. unfold TCPState.eqb. simpl.
  rewrite !andb_true_iff, !Bool.eqb_true_iff, !String.eqb_eq. split; [by intros [[[-> ->] ->] ->]|by intros [=]].
Qed.

(** What a segment that leaves the connection says to the peer: once SYN was
    received, where the receiver is and how much room it has; before that, nothing. *)
Definition acknowledges (r : TCPReceiver.t) (seg : TCPSegment.t) : Prop :=
  match TCPReceiver.ackno r with
  | Some a => TCPHeader.ack (TCPSegment.header seg) = true /\ TCPHeader.ackno (TCPSegment.header seg) = a
  | None => TCPHeader.ack (TCPSegment.header seg) = false
  end /\
  TCPHeader.win (TCPSegment.header seg) = u16 (Z.min (TCPReceiver.window_size r) 65535).

Lemma finish_acknowledges r seg :
  TCPSender.plain seg ->
  acknowledges r (finish_segment (TCPReceiver.ackno r) (Z.min (TCPReceiver.window_size r) 65535) seg).
Proof.
  intros [_ Ha Hw]. unfold acknowledges, finish_segment. destruct (TCPReceiver.ackno r); rewrite ?Ha; cbn [negb];
    simpl; rewrite Hw; done.
Qed.

Lemma deliver_out seg c : _segments_out (deliver seg c) = _segments_out c.
Proof. unfold deliver. by destruct (TCPHeader.ack _). Qed.

Lemma reply_out seg c : _segments_out (reply seg c) = _segments_out c.
Proof. unfold reply. destruct (keep_alive _ _), (negb _); cbv zeta; try split_if; done. Qed.

Lemma sends_something seg flag s : TCPSender._segments_out (TCPSender.send_segment seg flag s) <> [].
Proof. unfold TCPSender.send_segment. destruct (negb _); simpl; intros E; by apply app_nil in E as [_ ?]. Qed.

Lemma reply_queue seg c : TCPSegment.length_in_sequence_space seg <> 0 ->
  TCPSender._segments_out (_sender (reply seg c)) <> [].
Proof.
  intros Hl. unfold reply. replace (_ =? 0) with false by lia. cbn [negb]. cbv zeta.
  split_if; [apply sends_something|]. unfold TCPSender.segments_out in *. by destruct (TCPSender._segments_out _).
Qed.

(** The sender after the middle and the last part of [segment_received]. *)
Lemma deliver_sender S hist seg c :
  TCPSender.fits S -> TCPSender.inv S hist (_sender c) -> 0 <= TCPHeader.win (TCPSegment.header seg) < MAX16 ->
  exists hist', TCPSender.inv S hist' (_sender (deliver seg c)).
Proof.
  intros HS Hs Hw. unfold deliver. destruct (TCPHeader.ack _); [|by exists hist].
  by apply (TCPSender.ack_received_inv S hist (_sender c)).
Qed.

Lemma reply_sender S hist seg c :
  TCPSender.fits S -> TCPSender.inv S hist (_sender c) -> TCPSegment.length_in_sequence_space seg <> 0 ->
  exists hist', TCPSender.inv S hist' (_sender (reply seg c)) /\ _receiver (reply seg c) = _receiver c.
Proof.
  intros HS Hs Hl. unfold reply, keep_alive. replace (TCPSegment.length_in_sequence_space seg =? 0) with false by lia.
  replace (match TCPReceiver.ackno (_receiver c) with Some _ => _ | None => _ end) with false
    by (by destruct (TCPReceiver.ackno _)). cbn [negb]. cbv zeta.
  destruct (TCPSender.fill_window_inv S hist _ HS Hs) as [hist' Hf]. exists hist'. split_if; [|done].
  split; [|done]. by apply TCPSender.send_empty_inv; [..|eapply TCPSender.fill_window_started].
Qed.

(** C14: every segment that occupies sequence numbers is answered.  Whatever segment
    without RST that occupies sequence numbers reaches an active endpoint whose
    sender is in a state that satisfies its invariant, the endpoint queues at least
    one segment in reaction; each carries the receiver's window (at most [65535]) and,
    if the receiver knows the peer's SYN by then, the ACK flag and the receiver's
    current acknowledgement number, else no ACK flag.  (An endpoint that is
    listening thus answers a stray segment with a SYN of its own.) *)
Theorem segment_answered (S hist : bytes) (c : t) (seg : TCPSegment.t) :
  TCPSender.fits S -> TCPSender.inv S hist (_sender c) ->
  active c = true -> TCPHeader.rst (TCPSegment.header seg) = false ->
  0 <= TCPHeader.win (TCPSegment.header seg) < MAX16 ->
  TCPSegment.length_in_sequence_space seg <> 0 ->
  let c' := segment_received seg c in
  exists new, new <> [] /\ _segments_out c' = _segments_out c ++ new /\ Forall (acknowledges (_receiver c')) new.
Proof.
  intros HS Hs Ha Hr Hw Hl. cbv zeta.
  destruct (segment_received_eq seg c Ha Hr) as [linger ->]. set (c1 := _ <| _linger_after_streams_finish := _ |>).
  destruct (deliver_sender S hist seg c1 HS Hs Hw) as [hist1 Hs1].
  destruct (reply_sender S hist1 seg _ HS Hs1 Hl) as (hist2 & Hs2 & _).
  pose proof (reply_queue seg (deliver seg c1) Hl) as Hq3.
  pose proof (reply_out seg (deliver seg c1)) as Ho3. rewrite deliver_out in Ho3.
  set (c3 := reply seg (deliver seg c1)) in *. clearbody c3.
  eexists. split_and!; [|by unfold pop_and_send_segments; simpl; rewrite Ho3|].
  - unfold TCPSender.segments_out. by destruct (TCPSender._segments_out (_sender c3)).
  - apply Forall_map. eapply Forall_impl; [exact (TCPSender.core_out _ _ (TCPSender.inv_core _ _ _ Hs2))|].
    intros seg' [Hp _]. simpl. by apply finish_acknowledges.
Qed.

(** A new connection. *)
Lemma conn_make_inv S isn S' isn' cfg random :
  TCPReceiver.fits S' (TCPConfig.recv_capacity cfg) -> wf isn' -> wf isn ->
  0 <= TCPConfig.rt_timeout cfg < MAX16 -> 0 <= TCPConfig.send_capacity cfg < MAX64 ->
  TCPSender._isn (_sender (make cfg random)) = isn ->
  inv S isn S' isn' (TCPConfig.recv_capacity cfg) [] [] (make cfg random).
Proof.
  intros HS' Hi' Hi Hr Hs Hf. split; [|done|done]. split; try done.
  - apply TCPSender.sender_make_inv; [done|done|]. intros isn0 E. simpl in Hf. rewrite E in Hf. by subst.
  - apply TCPReceiver.receiver_reach_inv; [done|done|constructor].
Qed.

Definition demo_cfg (isn : Z) : TCPConfig.t := TCPConfig.default <| TCPConfig.fixed_isn := Some (mkWrapping isn) |>.

Lemma demo_make_inv S isn : wf (mkWrapping isn) ->
  inv S (mkWrapping isn) (str "abcdef") TCPReceiver.demo_isn 64000 [] [] (make (demo_cfg isn) 0).
Proof.
  intros Hi. apply (conn_make_inv S (mkWrapping isn) _ _ (demo_cfg isn)); try done; split; vm_compute; congruence.
Qed.

Lemma segment_answered_witness :
  let c' := segment_received (TCPReceiver.seg_of 0 TCPReceiver.demo_isn true false []) (make (demo_cfg 5) 0) in
  exists new, new <> [] /\ _segments_out c' = _segments_out (make (demo_cfg 5) 0) ++ new /\
    Forall (acknowledges (_receiver c')) new.
Proof.
  apply (segment_answered (str "x") []).
  - reflexivity.
  - apply (base_sender _ _ _ _ _ _ _ _ (inv_base _ _ _ _ _ _ _ _ (demo_make_inv (str "x") 5 ltac:(vm_compute; intuition congruence)))).
  - reflexivity.
  - reflexivity.
  - vm_compute; intuition congruence.
  - vm_compute; congruence.
Defined.

(** C38: a reset.  An active endpoint that receives RST puts both streams in the error
    state and sends nothing.  It stays active exactly when both streams had already
    ended: in this case alone the reset does not end the connection. *)
Theorem reset_received (seg : TCPSegment.t) (c : t) :
  active c = true -> 0 <= time_since_last_segment_received c -> TCPHeader.rst (TCPSegment.header seg) = true ->
  let c' := segment_received seg c in
  ByteStream.error (TCPSender.stream_in (_sender c')) = true /\
  ByteStream.error (inbound_stream c') = true /\
  _segments_out c' = _segments_out c /\
  TCPSender._segments_out (_sender c') = TCPSender._segments_out (_sender c) /\
  active c' = ByteStream.eof (TCPSender.stream_in (_sender c)) && ByteStream.eof (inbound_stream c).
Proof.
  intros Ha Ht Hr. cbv zeta. unfold segment_received. rewrite Ha, Hr. cbn [negb]. split_and!; try done.
  unfold active, inbound_stream, time_since_last_segment_received in *. simpl in *.
  replace (ByteStream.eof _ && ByteStream.eof _) with
    (ByteStream.eof (TCPSender.stream_in (_sender c)) && ByteStream.eof (TCPReceiver.stream_out (_receiver c))) by done.
  destruct (ByteStream.eof _ && ByteStream.eof _); [|done].
  change (TCPSender.bytes_in_flight _) with (TCPSender.bytes_in_flight (_sender c)).
  destruct (_ =? 0); [|done]. destruct (_linger_after_streams_finish c); [cbn [negb] in *; lia|done].
Qed.

Definition demo_rst : TCPSegment.t :=
  TCPSegment.default <| TCPSegment._header := TCPHeader.default <| TCPHeader.rst := true |> |>.

Lemma reset_received_witness :
  let c := make (demo_cfg 5) 0 in
  let c' := segment_received demo_rst c in
  ByteStream.error (TCPSender.stream_in (_sender c')) = true /\
  ByteStream.error (inbound_stream c') = true /\
  _segments_out c' = _segments_out c /\
  TCPSender._segments_out (_sender c') = TCPSender._segments_out (_sender c) /\
  active c' = ByteStream.eof (TCPSender.stream_in (_sender c)) && ByteStream.eof (inbound_stream c).
Proof. apply reset_received; vm_compute; congruence. Defined.

(** A reset is ignored once both streams have ended.  [active] looks at the
    error flags only when not both streams are at their end, so an endpoint whose
    last segment is unacknowledged stays active after RST. *)
Theorem reset_ignored_at_end (seg : TCPSegment.t) (c : t) :
  ByteStream.eof (TCPSender.stream_in (_sender c)) = true -> ByteStream.eof (inbound_stream c) = true ->
  bytes_in_flight c <> 0 -> TCPHeader.rst (TCPSegment.header seg) = true ->
  active (segment_received seg c) = true.
Proof.
  intros Ho Hi Hf Hr. unfold inbound_stream, bytes_in_flight in *.
  assert (active c = true) as Ha by (unfold active; rewrite Ho, Hi; by replace (_ =? 0) with false by lia).
  unfold segment_received. rewrite Ha, Hr. cbn [negb]. unfold active. simpl.
  replace (ByteStream.eof _ && ByteStream.eof _) with
    (ByteStream.eof (TCPSender.stream_in (_sender c)) &&
     ByteStream.eof (TCPReceiver.stream_out (_receiver c))) by done.
  rewrite Ho, Hi. cbn [andb].
  change (TCPSender.bytes_in_flight _) with (TCPSender.bytes_in_flight (_sender c)).
  by replace (_ =? 0) with false by lia.
Qed.

(** An endpoint in LAST_ACK: the peer closed first, then this side. *)
Definition demo_ack (x : Z) (ackno win : Z) (fin : bool) (data : bytes) : TCPSegment.t :=
  TCPSegment.mk
    (TCPHeader.mk 0 0 (wrap x TCPReceiver.demo_isn) (mkWrapping ackno) 5 false true false false false fin win 0 0)
    (Buffer.of_string data).

Definition demo_syn_rcvd : t :=
  segment_received (TCPReceiver.seg_of 0 TCPReceiver.demo_isn true false []) (make (demo_cfg 5) 0).

Definition demo_last_ack : t :=
  end_input_stream (segment_received (demo_ack 1 6 1000 true []) demo_syn_rcvd).

Lemma reset_ignored_at_end_witness :
  state demo_last_ack = TCPState.of_state TCPState.LAST_ACK /\
  active (segment_received demo_rst demo_last_ack) = true.
Proof.
  split; [vm_compute; reflexivity|].
  apply reset_ignored_at_end; vm_compute; congruence.
Defined.

(** What can still happen to an endpoint whose peer has gone: time passes, and
    somebody answers its segments with a reset. *)
Inductive event := Tick (ms : Z) | Reset (seg : TCPSegment.t).

Definition happens (e : event) (c : t) : t :=
  match e with Tick ms => tick ms c | Reset seg => segment_received seg c end.

(** Both streams have ended and the last segment is not acknowledged. *)
Definition waiting_for_last_ack (c : t) : Prop :=
  ByteStream.eof (TCPSender.stream_in (_sender c)) = true /\ ByteStream.eof (inbound_stream c) = true /\
  bytes_in_flight c <> 0.

Lemma last_ack_active c : waiting_for_last_ack c -> active c = true.
Proof.
  intros (Ho & Hi & Hf). unfold active. unfold inbound_stream in Hi. unfold bytes_in_flight in Hf. rewrite Ho, Hi.
  by replace (_ =? 0) with false by lia.
Qed.

Lemma sender_tick_waits ms s :
  TCPSender._stream (TCPSender.tick ms s) = TCPSender._stream s /\
  TCPSender._segments_outstanding (TCPSender.tick ms s) = TCPSender._segments_outstanding s.
Proof.
  unfold TCPSender.tick. destruct (negb _); [done|]. cbv zeta. destruct (_ <=? _); [|done].
  unfold TCPSender.timeout_retransmission. simpl. by destruct (TCPSender._segments_outstanding s) as [|[[? []] ?] ?].
Qed.

Lemma last_ack_kept e c :
  (match e with Reset seg => TCPHeader.rst (TCPSegment.header seg) = true | _ => True end) ->
  waiting_for_last_ack c -> waiting_for_last_ack (happens e c).
Proof.
  intros He Hw. pose proof (last_ack_active c Hw) as Ha. destruct Hw as (Ho & Hi & Hf). destruct e as [ms|seg]; simpl.
  - pose proof (sender_tick_waits ms (_sender c)) as [Es Eo]. unfold tick.
    set (c1 := c <| _sender := TCPSender.tick ms (_sender c) |>).
    set (c2 := if _ <? _ then positive_unclean_shutdown c1 else c1).
    assert (ByteStream.eof (TCPSender._stream (_sender c2)) = ByteStream.eof (TCPSender._stream (_sender c1)) /\
      ByteStream.eof (inbound_stream c2) = ByteStream.eof (inbound_stream c1) /\
      TCPSender._segments_outstanding (_sender c2) = TCPSender._segments_outstanding (_sender c1)) as (E1 & E2 & E3)
      by (unfold c2; by destruct (_ <? _)).
    split_and!.
    + change (ByteStream.eof (TCPSender._stream (_sender c2)) = true). rewrite E1.
      change (ByteStream.eof (TCPSender._stream (TCPSender.tick ms (_sender c))) = true). by rewrite Es.
    + change (ByteStream.eof (inbound_stream c2) = true). by rewrite E2.
    + unfold bytes_in_flight, TCPSender.bytes_in_flight in *. change (TCPSender._segments_outstanding _) with
        (TCPSender._segments_outstanding (_sender c2)). rewrite E3. unfold c1. cbn [_sender modify]. by rewrite Eo.
  - unfold segment_received. by rewrite Ha, He.
Qed.

(** An endpoint whose peer disappears before its last acknowledgement never
    ends: no number of retransmissions and no reset makes it inactive. *)
Theorem abandoned_never_ends (events : list event) (c : t) :
  waiting_for_last_ack c ->
  Forall (fun e => match e with Reset seg => TCPHeader.rst (TCPSegment.header seg) = true | _ => True end) events ->
  active (fold_left (fun c e => happens e c) events c) = true.
Proof.
  intros Hw He. apply last_ack_active. revert c Hw. induction He as [|e events H1 _ IH]; intros c Hw; [done|].
  by apply IH, last_ack_kept.
Qed.

(** After giving up, the endpoint is still active, and sends one more segment with
    every tick. *)
Example abandoned_demo :
  let c := fold_left (fun c e => happens e c) (repeat (Tick 64000) 20) demo_last_ack in
  active c = true /\ TCPConfig.MAX_RETX_ATTEMPTS < TCPSender.consecutive_retransmissions (_sender c) /\
  length (_segments_out (tick 10 c)) = S (length (_segments_out c)).
Proof. vm_compute. done. Qed.

(** A reset is even taken back: one that comes while the last bytes are unread ends
    the connection, and reading them makes it active again. *)
Example reset_undone_by_reading :
  let c := end_input_stream (segment_received (demo_ack 1 6 1000 true (str "hi")) demo_syn_rcvd) in
  let c := segment_received demo_rst c in
  active c = false /\ active (with_inbound (ByteStream.pop_output 2) c) = true.
Proof. vm_compute. done. Qed.

(** C39: giving up.  When a tick raises the number of consecutive retransmissions
    above [MAX_RETX_ATTEMPTS], the only segment sent is a reset at the next sequence
    number (the retransmission it replaces is dropped), and both streams are in
    the error state. *)
Theorem too_many_retransmissions (S : bytes) (isn : WrappingInt32) (S' : bytes) (isn' : WrappingInt32)
    (cap : Z) (hist del : bytes) (c : t) (ms : Z) :
  TCPSender.fits S -> inv S isn S' isn' cap hist del c ->
  TCPConfig.MAX_RETX_ATTEMPTS < TCPSender.consecutive_retransmissions (TCPSender.tick ms (_sender c)) ->
  let c' := tick ms c in
  exists rst, _segments_out c' = _segments_out c ++ [rst] /\
    TCPHeader.rst (TCPSegment.header rst) = true /\
    TCPHeader.seqno (TCPSegment.header rst) = TCPSender.next_seqno (_sender c) /\
    TCPSegment.length_in_sequence_space rst = 0 /\
    ByteStream.error (TCPSender.stream_in (_sender c')) = true /\
    ByteStream.error (inbound_stream c') = true.
Proof.
  intros HS [Hb _ _] Hc. cbv zeta. unfold tick. destruct (TCPSender.tick_fields ms (_sender c)) as [En Ei].
  set (s1 := TCPSender.tick ms (_sender c)) in *.
  pose proof (TCPSender.next_bound _ _ _ HS (base_sender _ _ _ _ _ _ _ _ Hb)) as Hn. unfold TCPSender.fits in HS.
  cbn [modify _sender]. rewrite (proj2 (Z.ltb_lt _ _) Hc). unfold positive_unclean_shutdown. cbn [modify _sender].
  unfold TCPSender.send_empty_segment_with_this_header.
  rewrite TCPSender.send_empty_eq by (done || simpl; lia). clearbody s1. destruct s1. simpl in *. subst.
  eexists. split_and!; try done; [by rewrite app_nil_r|..];
    unfold finish_segment; by destruct (TCPReceiver.ackno _).
Qed.

(** Eight timeouts of the same segment. *)
Definition demo_retx : t :=
  tick 128000 (tick 64000 (tick 32000 (tick 16000 (tick 8000 (tick 4000 (tick 2000 (tick 1000
    (connect (make (demo_cfg 5) 0))))))))).

Lemma too_many_retransmissions_witness :
  let c' := tick 256000 demo_retx in
  exists rst, _segments_out c' = _segments_out demo_retx ++ [rst] /\
    TCPHeader.rst (TCPSegment.header rst) = true /\
    TCPHeader.seqno (TCPSegment.header rst) = TCPSender.next_seqno (_sender demo_retx) /\
    TCPSegment.length_in_sequence_space rst = 0 /\
    ByteStream.error (TCPSender.stream_in (_sender c')) = true /\
    ByteStream.error (inbound_stream c') = true.
Proof.
  assert (wf (mkWrapping 5)) as Hi by (split; vm_compute; congruence).
  assert (TCPSender.fits (str "x")) as HS by reflexivity.
  destruct (connect_inv (str "x") _ _ _ _ HS _ _ _ (demo_make_inv (str "x") 5 Hi)) as [hist Hc].
  apply (too_many_retransmissions (str "x") (mkWrapping 5) (str "abcdef") TCPReceiver.demo_isn 64000 hist []).
  - exact HS.
  - do 8 (apply conn_tick_inv; [exact HS|]). exact Hc.
  - vm_compute. reflexivity.
Defined.

(** C40: lingering ends.  When both streams have ended and everything is
    acknowledged, an endpoint that has to linger stays active exactly until ten
    times the retransmission timeout has passed since the last segment; one that
    does not have to is finished. *)
Theorem linger_ends (c : t) (ms : Z) :
  ByteStream.eof (TCPSender.stream_in (_sender c)) = true -> ByteStream.eof (inbound_stream c) = true ->
  TCPSender._segments_outstanding (_sender c) = [] -> TCPSender._timer_enable (_sender c) = false ->
  TCPSender.consecutive_retransmissions (_sender c) <= TCPConfig.MAX_RETX_ATTEMPTS ->
  0 <= ms -> 0 <= _time_since_last_segment_received c ->
  _time_since_last_segment_received c + ms < MAX64 ->
  active (tick ms c) =
    _linger_after_streams_finish c &&
    (_time_since_last_segment_received c + ms <? 10 * TCPConfig.rt_timeout (_cfg c)).
Proof.
  intros Ho Hi Hout Ht Hr Hms H0 Hov. unfold tick.
  assert (TCPSender.tick ms (_sender c) = _sender c) as -> by (unfold TCPSender.tick; by rewrite Ht).
  cbn [modify _sender]. replace (_ <? _) with false by lia.
  unfold active, inbound_stream, TCPSender.bytes_in_flight, TCPSender.stream_in in *.
  destruct c as [cfg r s out linger time]. simpl in *. rewrite Ho, Hi, Hout. cbn [andb fold_left Z.eqb].
  unfold time_since_last_segment_received. simpl. rewrite u64_small by lia. by destruct linger.
Qed.

(** An endpoint in TIME_WAIT: it closed first, the peer afterwards. *)
Definition demo_time_wait : t :=
  segment_received (demo_ack 1 7 1000 true [])
    (end_input_stream (segment_received (demo_ack 1 6 1000 false []) demo_syn_rcvd)).

Lemma linger_ends_witness :
  state demo_time_wait = TCPState.of_state TCPState.TIME_WAIT /\
  active (tick 10000 demo_time_wait) =
    _linger_after_streams_finish demo_time_wait &&
    (_time_since_last_segment_received demo_time_wait + 10000 <? 10 * TCPConfig.rt_timeout (_cfg demo_time_wait)).
Proof.
  split; [vm_compute; reflexivity|].
  apply linger_ends; try (vm_compute; congruence).
Defined.

(** An endpoint can finish without ever sending its FIN.  The peer closed
    first; then it acknowledged everything with window 0, which makes
    [fill_window] spend its one permission to probe on an empty stream; closing the
    outbound stream now sends nothing, yet both streams are at their end and
    nothing is in flight, so the endpoint is no longer active. *)
Theorem finishes_without_fin :
  let c := end_input_stream
             (segment_received (demo_ack 2 7 0 false [])
               (write (str "x") (segment_received (demo_ack 1 6 1000 true []) demo_syn_rcvd)).2) in
  active c = false /\ TCPSender._fin_sent (_sender c) = false /\
  Forall (fun seg => TCPHeader.fin (TCPSegment.header seg) = false) (_segments_out c) /\
  ByteStream.error (TCPSender.stream_in (_sender c)) = false.
Proof. vm_compute. repeat constructor. Qed.

End TCPConnection.
