(* ===== verification/Outbound.v ===== *)
(** * The outbound stream under the operations of a connection

    Everything a connection does by itself only takes bytes out of the outbound
    stream; the clients of a connection ([TCPSpongeSocket], the benchmark) use this
    to know how much room a write finds. *)
From S2P Require Import Prelude WrappingIntegers ByteStream OrderedMap StreamReassembler Buffer.
From S2P Require Import Parser Checksum TCPSegment TCPReceiver TCPSender TCPConnection.

Module Outbound.

Record drained (st st' : ByteStream.t) : Prop := {
  drained_written : ByteStream.bytes_written st' = ByteStream.bytes_written st;
  drained_ended : ByteStream.input_ended st' = ByteStream.input_ended st;
  drained_capacity : ByteStream._capacity st' = ByteStream._capacity st;
  drained_wf : ByteStream.wf st ->
    ByteStream.wf st' /\ ByteStream.remaining_capacity st <= ByteStream.remaining_capacity st' }.

Lemma drained_refl st : drained st st.
Proof. split; done || lia. Qed.

Lemma drained_trans st1 st2 st3 : drained st1 st2 -> drained st2 st3 -> drained st1 st3.
Proof.
  intros [W1 E1 C1 F1] [W2 E2 C2 F2]. split; [congruence..|]. intros Hwf. destruct (F1 Hwf) as [Hwf' ?].
  destruct (F2 Hwf'). split; [done|lia].
Qed.

Lemma read_drained k st : drained st (ByteStream.read k st).2.
Proof.
  split; [done..|]. intros Hwf. pose proof (ByteStream.read_wf k st Hwf) as Hwf'. split; [done|].
  rewrite !ByteStream.remaining_capacity_wf by done.
  unfold ByteStream.read, ByteStream.pop_output. simpl. zlia.
Qed.

Lemma error_drained st : drained st (ByteStream.set_error st).
Proof. split; [done..|]. intros Hwf. split; [by apply ByteStream.set_error_wf|]. by destruct st. Qed.

Abbreviation out s := (TCPSender._stream s).

Lemma send_segment_stream seg z s : out (TCPSender.send_segment seg z s) = out s.
Proof. unfold TCPSender.send_segment. cbv zeta. by destruct (negb _). Qed.

Lemma fill_loop_drained fuel n z s s' : TCPSender.fill_loop fuel n z s = Some s' -> drained (out s) (out s').
Proof.
  revert n s. induction fuel as [|fuel IH]; intros n s; [done|]. cbn [TCPSender.fill_loop].
  destruct (0 <? n); [|intros [= <-]; apply drained_refl].
  destruct (ByteStream.read _ _) as [payload stream] eqn:Er. intros Hs.
  apply (drained_trans _ stream).
  { replace stream with (ByteStream.read (Z.min n TCPConfig.MAX_PAYLOAD_SIZE) (out s)).2 by (by rewrite Er).
    apply read_drained. }
  destruct (_ && _ && _); cbv zeta in Hs.
  - destruct (_ =? 0); [injection Hs as <-; apply drained_refl|]. apply IH in Hs.
    by rewrite send_segment_stream in Hs.
  - destruct (_ =? 0); [injection Hs as <-; apply drained_refl|]. apply IH in Hs.
    by rewrite send_segment_stream in Hs.
Qed.

Lemma fill_window_drained s : drained (out s) (out (TCPSender.fill_window s)).
Proof.
  unfold TCPSender.fill_window. destruct (TCPSender._fin_sent s); [apply drained_refl|]. cbv zeta.
  set (s1 := if TCPSender.next_seqno_absolute s =? 0 then _ else s).
  assert (out s1 = out s) as <- by (unfold s1; destruct (_ =? 0); [apply send_segment_stream|done]).
  clearbody s1. destruct (_ && _).
  - destruct (TCPSender.fill_loop _ _ _ _) eqn:E; [|apply drained_refl]. by apply fill_loop_drained in E.
  - destruct (TCPSender.fill_loop _ _ _ _) eqn:E; [|apply drained_refl]. by apply fill_loop_drained in E.
Qed.

Lemma remove_outstanding_stream s : out (TCPSender.remove_outstanding_segments s) = out s.
Proof. unfold TCPSender.remove_outstanding_segments. destruct (TCPSender.pop_acked _ _) as [[] kept]; by destruct s. Qed.

Lemma ack_received_drained a w s : drained (out s) (out (TCPSender.ack_received a w s)).
Proof.
  unfold TCPSender.ack_received. cbv zeta. destruct (_ =? 0); [apply drained_refl|].
  destruct (_ <? _); [apply drained_refl|].
  eapply drained_trans; [|apply fill_window_drained]. rewrite remove_outstanding_stream.
  destruct (_ <? _); destruct s; apply drained_refl.
Qed.

Lemma tick_stream ms s : out (TCPSender.tick ms s) = out s.
Proof.
  unfold TCPSender.tick. destruct (negb _); [done|]. cbv zeta. destruct (_ <=? _); [|by destruct s].
  unfold TCPSender.timeout_retransmission. destruct s; simpl. repeat (case_match; simpl); done.
Qed.

Abbreviation conn_out c := (TCPSender._stream (TCPConnection._sender c)).

Lemma pop_stream c : conn_out (TCPConnection.pop_and_send_segments c) = conn_out c.
Proof. by destruct c as [? ? []]. Qed.

Lemma connect_drained c : drained (conn_out c) (conn_out (TCPConnection.connect c)).
Proof. unfold TCPConnection.connect. rewrite pop_stream. destruct c. apply fill_window_drained. Qed.

Lemma shutdown_drained c : drained (conn_out c) (conn_out (TCPConnection.positive_unclean_shutdown c)).
Proof.
  unfold TCPConnection.positive_unclean_shutdown. cbv zeta.
  set (c1 := TCPConnection.pop_and_send_segments _).
  assert (conn_out c1 = conn_out c) as <-; [|destruct c1 as [? ? []]; apply error_drained].
  unfold c1. rewrite pop_stream.
  transitivity (out (TCPSender.send_empty_segment_with_this_header (TCPHeader.default <| TCPHeader.rst := true |>)
    ((TCPConnection._sender c) <| TCPSender._segments_out := [] |>))); [by destruct c|].
  unfold TCPSender.send_empty_segment_with_this_header. rewrite send_segment_stream. by destruct (TCPConnection._sender c).
Qed.

Lemma tick_drained ms c : drained (conn_out c) (conn_out (TCPConnection.tick ms c)).
Proof.
  unfold TCPConnection.tick. cbv zeta.
  set (c1 := c <| TCPConnection._sender := TCPSender.tick ms (TCPConnection._sender c) |>).
  assert (conn_out c1 = conn_out c) as <- by (unfold c1; destruct c; apply tick_stream).
  clearbody c1. set (c2 := if _ <? _ then _ else c1).
  apply (drained_trans _ (conn_out c2)).
  - unfold c2. destruct (_ <? _); [apply shutdown_drained|apply drained_refl].
  - rewrite <- (pop_stream c2). generalize (TCPConnection.pop_and_send_segments c2). intros []. apply drained_refl.
Qed.

Lemma write_drained data c :
  drained (ByteStream.write data (conn_out c)).2 (conn_out (TCPConnection.write data c).2).
Proof.
  unfold TCPConnection.write, TCPSender.stream_in. destruct (ByteStream.write data (conn_out c)) as [n st] eqn:E.
  cbv zeta. cbn [snd]. rewrite pop_stream.
  exact (fill_window_drained ((TCPConnection._sender c) <| TCPSender._stream := st |>)).
Qed.

Lemma end_drained c : drained (ByteStream.end_input (conn_out c)) (conn_out (TCPConnection.end_input_stream c)).
Proof.
  unfold TCPConnection.end_input_stream. cbv zeta. rewrite pop_stream.
  exact (fill_window_drained (TCPSender.with_stream ByteStream.end_input (TCPConnection._sender c))).
Qed.

Lemma received_drained seg c : drained (conn_out c) (conn_out (TCPConnection.segment_received seg c)).
Proof.
  unfold TCPConnection.segment_received. destruct (negb (TCPConnection.active c)); [apply drained_refl|]. cbv zeta.
  destruct (TCPHeader.rst _); [destruct c as [? ? []]; apply error_drained|]. rewrite pop_stream.
  set (c1 := if _ && _ then _ else _).
  assert (conn_out c1 = conn_out c) as <- by (unfold c1; destruct (_ && _); by destruct c). clearbody c1.
  set (c2 := c1 <| TCPConnection._receiver := _ |>).
  assert (conn_out c2 = conn_out c1) as <- by (unfold c2; by destruct c1). clearbody c2.
  set (c3 := if TCPHeader.ack _ then _ else c2). apply (drained_trans _ (conn_out c3)).
  { unfold c3. destruct (TCPHeader.ack _); [|apply drained_refl]. destruct c2. apply ack_received_drained. }
  clearbody c3. set (c4 := if TCPConnection.keep_alive seg c3 then _ else c3).
  assert (conn_out c4 = conn_out c3) as <-.
  { unfold c4. destruct (TCPConnection.keep_alive seg c3); [|done]. destruct c3. apply send_segment_stream. }
  clearbody c4. destruct (negb _); [|apply drained_refl].
  set (c5 := c4 <| TCPConnection._sender := _ |>).
  assert (drained (conn_out c4) (conn_out c5)) by (unfold c5; destruct c4; apply fill_window_drained).
  clearbody c5. destruct (_ =? 0); [|done]. destruct c5 as [? ? s5].
  cbn [modify TCPConnection._sender TCPConnection.eta_t]. unfold TCPSender.send_empty_segment. by rewrite send_segment_stream.
Qed.

Lemma read_stream f c : conn_out (TCPConnection.with_inbound f c) = conn_out c.
Proof. by destruct c. Qed.

End Outbound.
