(* ===== verification/Handshake.v ===== *)
(** * SYN segments between two endpoints

    The receiver takes a repeated SYN that arrives after data for a segment of the
    next round of sequence numbers ([TCPReceiver.late_duplicate_syn]): nothing wrong
    is delivered, but nothing more is delivered either.  This file shows when the
    endpoints themselves prevent it: a sender repeats its SYN only while nothing but
    the SYN was sent, so with a network that delivers what is queued in order (or in
    any order as long as no SYN is in the queue with data) every segment is [near]
    the last one received, for every stream below 2 GiB. *)
From S2P Require Import Prelude WrappingIntegers ByteStream OrderedMap StreamReassembler Buffer.
From S2P Require Import Parser Checksum TCPSegment TCPReceiver TCPSender TCPConnection.
Import WrappingIntegers.

Module Handshake.

Definition is_syn (seg : TCPSegment.t) : bool := TCPHeader.syn (TCPSegment.header seg).

Definition no_syn (seg : TCPSegment.t) : Prop := is_syn seg = false.

(** The segment starts at the SYN or right behind it. *)
Definition low (isn : WrappingInt32) (seg : TCPSegment.t) : Prop :=
  exists x, 0 <= x <= 1 /\ TCPHeader.seqno (TCPSegment.header seg) = wrap x isn.

(** An acknowledgement of the stream [S] covers at least its SYN. *)
Definition ack_ok (S : bytes) (isn : WrappingInt32) (seg : TCPSegment.t) : Prop :=
  TCPHeader.ack (TCPSegment.header seg) = true ->
  exists k, 1 <= k <= zlen S + 2 /\ TCPHeader.ackno (TCPSegment.header seg) = wrap k isn.

Lemma wrap_zero isn : wf isn -> WrappingInt32_of (raw_value (wrap 0 isn)) = isn.
Proof. intros Hi. rewrite raw_wrap. destruct isn as [z]. unfold WrappingInt32_of, wf in *. simpl in *. f_equal. word. Qed.

(** ** The sender *)

Abbreviation acked_to s := (TCPSender._last_ackno s).

(** A segment as the sender makes it: not too long and no reset. *)
Record made (seg : TCPSegment.t) : Prop := {
  ma_size : zlen (Buffer.str (TCPSegment.payload seg)) <= TCPConfig.MAX_PAYLOAD_SIZE;
  ma_rst : TCPHeader.rst (TCPSegment.header seg) = false }.

(** Until the SYN is acknowledged nothing else is sent. *)
Record opening (s : TCPSender.t) : Prop := {
  op_started : 1 <= TCPSender._next_seqno s;
  op_fresh : acked_to s = 0 -> TCPSender._next_seqno s = 1 /\ TCPSender._window_size s = 1;
  op_syn : Forall (fun e => is_syn e.2 = true -> TCPSender.seg_len e.2 = 1) (TCPSender._segments_outstanding s);
  op_made : Forall (fun e => made e.2) (TCPSender._segments_outstanding s) }.

(** What a step that ends in [s] may put in the queue; only a timeout
    ([retx]) sends a SYN again or resets the connection. *)
Record pushed (retx : bool) (s : TCPSender.t) (seg : TCPSegment.t) : Prop := {
  pu_retx : is_syn seg = true -> retx = true;
  pu_rst : TCPHeader.rst (TCPSegment.header seg) = true -> retx = true;
  pu_syn : is_syn seg = true -> acked_to s = 0 /\ TCPHeader.fin (TCPSegment.header seg) = false;
  pu_low : acked_to s = 0 -> low (TCPSender._isn s) seg }.

Record sends (retx : bool) (s s' : TCPSender.t) : Prop := {
  se_opening : opening s';
  se_ack : acked_to s <= acked_to s';
  se_isn : TCPSender._isn s' = TCPSender._isn s;
  se_out : exists new, TCPSender._segments_out s' = TCPSender._segments_out s ++ new /\ Forall (pushed retx s') new }.

Lemma sends_refl retx s : opening s -> sends retx s s.
Proof. intros. split; [done|lia|done|]. exists []. by rewrite app_nil_r. Qed.

Lemma sends_trans s1 s2 s3 : 0 <= acked_to s1 -> sends false s1 s2 -> sends false s2 s3 -> sends false s1 s3.
Proof.
  intros H0 [O1 A1 I1 (n1 & E1 & F1)] [O2 A2 I2 (n2 & E2 & F2)]. split; [done|lia|congruence|].
  exists (n1 ++ n2). split; [by rewrite E2, E1, app_assoc|]. apply Forall_app. split; [|done].
  eapply Forall_impl; [exact F1|]. intros seg [R X P L]. split; [done|done|by intros ?%R|].
  intros H. rewrite I2. apply L. lia.
Qed.

(** [fill_window] makes no SYN once the stream is started; what it sends is new. *)
Definition adds (s s' : TCPSender.t) : Prop :=
  exists new seen, TCPSender._segments_out s' = TCPSender._segments_out s ++ new /\
    Forall (fun seg => no_syn seg /\ made seg) new /\
    TCPSender._segments_outstanding s' = TCPSender._segments_outstanding s ++ seen /\
    new = map snd seen /\
    match seen with
    | [] => TCPSender._next_seqno s' = TCPSender._next_seqno s
    | e :: _ => e.1.1 = TCPSender._next_seqno s
    end.

Lemma adds_refl s : adds s s.
Proof. exists [], []. by rewrite !app_nil_r. Qed.

Lemma adds_trans s1 s2 s3 : adds s1 s2 -> adds s2 s3 -> adds s1 s3.
Proof.
  intros (n1 & o1 & E1 & F1 & G1 & H1 & X1) (n2 & o2 & E2 & F2 & G2 & H2 & X2). exists (n1 ++ n2), (o1 ++ o2).
  rewrite E2, E1, G2, G1, !app_assoc, !Forall_app. split_and!; try done.
  - by rewrite map_app, H1, H2.
  - destruct o1 as [|e o1]; [|done]. simpl. destruct o2; congruence.
Qed.

Lemma send_adds seg flag s :
  is_syn seg = false -> made seg -> TCPSegment.length_in_sequence_space seg <> 0 ->
  adds s (TCPSender.send_segment seg flag s).
Proof.
  intros Hs [H1 H2] Hl. unfold TCPSender.send_segment. fold (TCPSender.stamped seg s).
  change (TCPSegment.length_in_sequence_space (TCPSender.stamped seg s)) with (TCPSegment.length_in_sequence_space seg).
  replace (_ =? 0) with false by lia. cbn [negb].
  exists [TCPSender.stamped seg s], [((TCPSender.next_seqno_absolute s, flag), TCPSender.stamped seg s)].
  split_and!; try done. apply Forall_singleton. by split; [|split].
Qed.

Lemma fill_loop_adds fuel num flag : forall s s', TCPSender.fill_loop fuel num flag s = Some s' -> adds s s'.
Proof.
  revert num. induction fuel as [|fuel IH]; intros num s s'; [done|]. cbn [TCPSender.fill_loop].
  destruct (0 <? num); [|intros [= <-]; apply adds_refl].
  destruct (ByteStream.read _ _) as [payload stream] eqn:Er. intros Hs.
  assert (forall fin, made (TCPSender.data_segment payload fin)) as Hm.
  { intros fin. split; [|done]. simpl.
    pose proof (ByteStream.read_length (Z.min num TCPConfig.MAX_PAYLOAD_SIZE) (TCPSender._stream s)) as Hl.
    rewrite Er in Hl. cbn [fst] in Hl.
    unfold TCPConfig.MAX_PAYLOAD_SIZE in *. rewrite Buffer.str_of_string; lia. }
  set (s1 := s <| TCPSender._stream := stream |>) in *.
  destruct (_ && _ && _); cbv zeta in Hs.
  - destruct (_ =? 0) eqn:E0; [injection Hs as <-; exact (adds_refl s)|]. apply IH in Hs.
    apply (adds_trans _ (s1 <| TCPSender._fin_sent := true |>)); [exact (adds_refl s)|].
    eapply adds_trans; [|exact Hs]; apply send_adds; [done|apply (Hm true)|lia].
  - destruct (_ =? 0) eqn:E0; [injection Hs as <-; exact (adds_refl s)|]. apply IH in Hs.
    apply (adds_trans _ s1); [exact (adds_refl s)|]. eapply adds_trans; [|exact Hs]; apply send_adds; [done|apply (Hm false)|lia].
Qed.

Section sender.
Context (S : bytes) (HS : TCPSender.fits S).

Lemma fill_window_adds s : opening s ->
  adds s (TCPSender.fill_window s) /\
  (acked_to s = 0 -> TCPSender._segments_out (TCPSender.fill_window s) = TCPSender._segments_out s).
Proof.
  intros Hop. unfold TCPSender.fill_window. destruct (TCPSender._fin_sent s); [split; [apply adds_refl|done]|].
  destruct Hop as [H1 Hf _ _]. unfold TCPSender.next_seqno_absolute.
  replace (TCPSender._next_seqno s =? 0) with false by lia.
  set (num := if _ <=? _ then _ else 0). split.
  - destruct (_ && _).
    + set (s1 := s <| TCPSender._window_zero_valid := false |>).
      apply (adds_trans _ s1); [exact (adds_refl s)|].
      destruct (TCPSender.fill_loop _ _ _ _) eqn:E; [|apply adds_refl]. by apply fill_loop_adds in E.
    + destruct (TCPSender.fill_loop _ _ _ _) eqn:E; [|apply adds_refl]. by apply fill_loop_adds in E.
  - intros H0. destruct (Hf H0) as [Hn Hw]. unfold num. by rewrite Hn, Hw, H0.
Qed.

Lemma fill_window_sends hist s : TCPSender.inv S hist s -> opening s -> sends false s (TCPSender.fill_window s).
Proof.
  intros Hinv Hop. destruct (fill_window_adds s Hop) as [(new & seen & E1 & F1 & E2 & F2 & _) Hsame].
  destruct (TCPSender.fill_window_fields S hist s HS Hinv) as (Ha & Hw & Hn & Hi). destruct Hop as [H1 Hf Hs Hm].
  assert (Forall (fun e => no_syn e.2 /\ made e.2) seen) as F3.
  { rewrite F2, Forall_map in F1. exact F1. }
  split; [split|lia|done|].
  - lia.
  - rewrite Ha, Hw. intros H0. destruct (Hf H0) as [Hn1 Hw1]. split; [|done].
    destruct (TCPSender._fin_sent s) eqn:Ef.
    { unfold TCPSender.fill_window. by rewrite Ef. }
    destruct (TCPSender.fill_window_spec S hist s HS Hinv Ef) as [_ Hn' _ _].
    unfold TCPSender.budget, TCPSender.probe, TCPSender.first_free in Hn'. rewrite Hn1, Hw1, H0 in Hn'.
    cbn [Z.eqb andb] in Hn'. lia.
  - rewrite E2. apply Forall_app. split; [done|]. eapply Forall_impl; [exact F3|]. intros e [He _]. by rewrite He.
  - rewrite E2. apply Forall_app. split; [done|]. eapply Forall_impl; [exact F3|]. by intros e [_ He].
  - exists new. split; [done|]. apply Forall_forall. intros seg Hin.
    assert (is_syn seg = false /\ made seg) as [Hns [_ Hnr]] by (rewrite Forall_forall in F1; by apply F1).
    split; [by rewrite Hns|by rewrite Hnr|by rewrite Hns|]. rewrite Ha. intros H0. rewrite (Hsame H0) in E1.
    apply (f_equal length) in E1. rewrite length_app in E1. destruct new; [by apply elem_of_nil in Hin|simpl in E1; lia].
Qed.

Lemma empty_sends hist s : TCPSender.inv S hist s -> opening s -> sends false s (TCPSender.send_empty_segment s).
Proof.
  intros Hinv Hop.
  pose proof (TCPSender.next_bound _ _ _ HS Hinv) as Hb. unfold TCPSender.fits in HS.
  unfold TCPSender.send_empty_segment. rewrite TCPSender.send_empty_eq by (done || lia).
  destruct Hop as [H1 Hf Hs Hm]. split; [by split|simpl; lia|done|].
  eexists. split; [done|]. apply Forall_singleton. split; [done..|]. intros H0. exists 1. split; [lia|].
  simpl. unfold TCPSender.next_seqno. destruct (Hf H0) as [-> _]. done.
Qed.

Lemma acked_outstanding A w z s :
  TCPSender._segments_outstanding (TCPSender.acked A w z s) = (TCPSender.pop_acked A (TCPSender._segments_outstanding s)).2.
Proof. destruct s. rewrite TCPSender.acked_eq. cbv zeta. simpl. by destruct (TCPSender.pop_acked A _) as [[] kept]. Qed.

Lemma pop_acked_Forall A (P : (Z * bool) * TCPSegment.t -> Prop) l :
  Forall P l -> Forall P (TCPSender.pop_acked A l).2.
Proof. intros Hl. induction Hl as [|[[x f] seg] l He Hl IH]; [done|]. simpl. split_if; [done|by constructor]. Qed.

(** An acknowledgement beyond the SYN takes it off the outstanding segments. *)
Lemma acked_opening A w z s :
  opening s -> 1 <= A -> opening (TCPSender.acked A w z s).
Proof.
  intros [H1 _ Hs Hm] HA. destruct (TCPSender.acked_fields A w z s) as (Ea & En & _ & _). split.
  - by rewrite En.
  - rewrite Ea. lia.
  - rewrite acked_outstanding. by apply pop_acked_Forall.
  - rewrite acked_outstanding. by apply pop_acked_Forall.
Qed.

Lemma acked_out A w z s : TCPSender._segments_out (TCPSender.acked A w z s) = TCPSender._segments_out s.
Proof. destruct s. rewrite TCPSender.acked_eq. cbv zeta. by destruct (TCPSender.pop_acked A _) as [[] kept]. Qed.

Lemma ack_sends hist s ackno w k :
  TCPSender.inv S hist s -> opening s -> zlen S < 2147483640 -> 0 <= w < MAX16 ->
  ackno = wrap k (TCPSender._isn s) -> 1 <= k <= zlen S + 2 ->
  sends false s (TCPSender.ack_received ackno w s).
Proof.
  intros Hinv Hop HS31 Hw -> Hk. rewrite (TCPSender.ack_received_eq S hist) by done.
  pose proof (TCPSender.inv_core _ _ _ Hinv) as Hcore.
  pose proof (TCPSender.core_ack _ _ Hcore) as Ha. pose proof (TCPSender.core_isn _ _ Hcore) as Hi.
  pose proof (TCPSender.next_bound _ _ _ HS Hinv) as Hn.
  pose proof (TCPSender.acked_inv S hist s (wrap k (TCPSender._isn s)) w) as Hinv'. cbv zeta in Hinv'.
  rewrite (unwrap_near k) in * by (done || lia).
  destruct (_ || _) eqn:E; [by apply sends_refl|]. apply orb_false_iff in E as [_ E].
  match goal with |- context [TCPSender.acked ?A ?w' ?z s] =>
    pose proof (acked_opening A w' z s Hop ltac:(lia)) as Hop'; pose proof (acked_out A w' z s) as Eo;
    destruct (TCPSender.acked_fields A w' z s) as (Ea & _ & _ & Ei); specialize (Hinv' z HS Hinv Hw ltac:(lia)) end.
  destruct (fill_window_sends _ _ Hinv' Hop') as [? ? ? (new & En & Hnew)]. split; [done|lia|congruence|].
  exists new. by rewrite En, Eo.
Qed.

Lemma tick_acked ms s : acked_to (TCPSender.tick ms s) = acked_to s.
Proof.
  destruct s as [isn out os bk rto rt te cnt st nx la win zv fs]. rewrite TCPSender.tick_eq.
  destruct te; [|done]. cbn [negb]. split_if; [|done]. by destruct os as [|[[x []] seg] os].
Qed.

(** A timeout repeats the oldest segment, the SYN only while it is all there is. *)
Lemma tick_sends hist s ms : TCPSender.inv S hist s -> opening s -> sends true s (TCPSender.tick ms s).
Proof.
  intros Hinv [H1 Hf Hs Hm]. pose proof (TCPSender.inv_unacked _ _ _ Hinv) as Hun.
  destruct (TCPSender.inv_core _ _ _ Hinv) as [_ (lo & Hlo & Hc) Ha _ _ _ _ _ _ _].
  destruct s as [isn out os bk rto rt te cnt st nx la win zv fs]. rewrite TCPSender.tick_eq. simpl in *.
  assert (forall rto' rt' te' cnt', sends true (TCPSender.mk isn out os bk rto rt te cnt st nx la win zv fs)
    (TCPSender.mk isn out os bk rto' rt' te' cnt' st nx la win zv fs)) as Hsame.
  { intros. split; [by split|simpl; lia|done|]. exists []. by rewrite app_nil_r. }
  destruct te; cbn [negb]; [|done]. split_if; [|done].
  destruct os as [|[[x f] seg] os]; [done|].
  destruct Hc as (-> & [Hseg _] & _ & _). simpl in *. pose proof (Forall_cons_1 _ _ _ Hs) as [Hs' _].
  apply Forall_cons_1 in Hun as [Hun _]. simpl in Hs', Hun.
  assert (pushed true (TCPSender.mk isn (out ++ [seg]) (((lo, f), seg) :: os) bk rto rt true cnt st nx la win zv fs) seg) as Hp.
  { split; simpl; [done|done|..].
    - intros Hsyn. pose proof (TCPReceiver.sf_syn _ _ _ _ Hseg) as Ex. fold (is_syn seg) in Ex. rewrite Hsyn in Ex.
      specialize (Hs' Hsyn). split; [lia|]. unfold TCPSender.seg_len in Hs'. fold (is_syn seg) in Hs'. rewrite Hsyn in Hs'.
      pose_zlen. by destruct (TCPHeader.fin _); [lia|].
    - intros H0. exists lo. split; [lia|]. apply Hseg. }
  destruct f; (split; [by split|simpl; lia|done|]; exists [seg]; (split; [done|]); apply Forall_singleton; destruct Hp; by split).
Qed.

End sender.

(** ** The connection

    The endpoint sends [S] from [isn] and receives [S'] from [isn']. *)
Section connection.
Context (S : bytes) (isn : WrappingInt32) (S' : bytes) (isn' : WrappingInt32) (cap : Z).
Context (HS31 : zlen S < 2147483640) (HS31' : zlen S' < 2147483640) (Hcap : 0 <= cap < MAX32) (Hisn' : wf isn').

Abbreviation base := (TCPConnection.base S isn S' isn' cap).
Abbreviation inv := (TCPConnection.inv S isn S' isn' cap).
Abbreviation sender c := (TCPConnection._sender c).

Record advance (retx : bool) (c c' : TCPConnection.t) : Prop := {
  adv_opening : opening (sender c');
  adv_ack : acked_to (sender c) <= acked_to (sender c');
  adv_isn : TCPSender._isn (sender c') = TCPSender._isn (sender c);
  adv_out : exists new, TCPConnection._segments_out c' = TCPConnection._segments_out c ++ new /\
    Forall (fun seg => pushed retx (sender c') seg /\ ack_ok S' isn' seg) new }.

Lemma advance_refl retx c : opening (sender c) -> advance retx c c.
Proof. intros. split; [done|lia|done|]. exists []. by rewrite app_nil_r. Qed.

Lemma HS : TCPSender.fits S.
Proof. unfold TCPSender.fits. lia. Qed.

Lemma HS' : TCPReceiver.fits S' cap.
Proof. split; [done|lia]. Qed.

Lemma ackno_ok del r a :
  TCPReceiver.inv S' isn' cap del r -> TCPReceiver.ackno r = Some a ->
  exists k, 1 <= k <= zlen S' + 2 /\ a = wrap k isn'.
Proof.
  intros [Hc Hl Hs]. destruct Hc as [_ _ Hn _ _ _ _].
  unfold TCPReceiver.ackno, StreamReassembler.get_next_index. destruct (TCPReceiver._syn_recived r); [|done].
  intros [= <-]. rewrite Hs, TCPReceiver.wrapping_of_raw by done. simpl. eexists. split; [|done].
  split_if; rewrite u64_small; lia.
Qed.

(** What the connection adds to a segment of its sender. *)
Lemma finish_header a w seg (seg' := TCPConnection.finish_segment a w seg) :
  TCPHeader.seqno (TCPSegment.header seg') = TCPHeader.seqno (TCPSegment.header seg) /\
  is_syn seg' = is_syn seg /\ TCPHeader.fin (TCPSegment.header seg') = TCPHeader.fin (TCPSegment.header seg) /\
  (TCPHeader.ack (TCPSegment.header seg) = false -> TCPHeader.ack (TCPSegment.header seg') = true ->
   a = Some (TCPHeader.ackno (TCPSegment.header seg'))) /\
  TCPHeader.rst (TCPSegment.header seg') = TCPHeader.rst (TCPSegment.header seg).
Proof.
  unfold seg', TCPConnection.finish_segment.
  destruct a as [a|]; [destruct (TCPHeader.ack (TCPSegment.header seg)) eqn:E|]; cbn [negb];
    destruct (_ =? _); split_and!; try done; simpl; congruence.
Qed.

Lemma finish_pushed retx s a w seg : pushed retx s seg -> pushed retx s (TCPConnection.finish_segment a w seg).
Proof.
  destruct (finish_header a w seg) as (E1 & E2 & E3 & _ & E5). intros [R X P L]. split; rewrite ?E2, ?E3, ?E5; [done..|].
  unfold low. by rewrite E1.
Qed.

Lemma finish_ack_ok del r w seg :
  TCPReceiver.inv S' isn' cap del r -> TCPHeader.ack (TCPSegment.header seg) = false ->
  ack_ok S' isn' (TCPConnection.finish_segment (TCPReceiver.ackno r) w seg).
Proof.
  intros Hr Ha Ha'. destruct (finish_header (TCPReceiver.ackno r) w seg) as (_ & _ & _ & Hack & _).
  by apply (ackno_ok del r), Hack.
Qed.

Lemma pop_advance hist del retx c0 c :
  base hist del c -> sends retx (sender c0) (sender c) -> TCPSender._segments_out (sender c0) = [] ->
  TCPConnection._segments_out c = TCPConnection._segments_out c0 ->
  advance retx c0 (TCPConnection.pop_and_send_segments c).
Proof.
  intros [Hs _ Hr _] [[] Ha Hi (new & En & Hp)] E0 Eo. split; [by split|done|done|].
  unfold TCPConnection.pop_and_send_segments, TCPSender.segments_out. rewrite En, E0. cbn [app].
  eexists. split; [simpl; by rewrite Eo|].
  pose proof (TCPSender.core_out _ _ (TCPSender.inv_core _ _ _ Hs)) as Hq. rewrite En, E0 in Hq. cbn [app] in Hq.
  apply Forall_map. apply Forall_forall. intros seg Hin. rewrite Forall_forall in Hp, Hq. simpl. split.
  - destruct (finish_pushed retx (sender c) (TCPReceiver.ackno (TCPConnection._receiver c))
      (Z.min (TCPReceiver.window_size (TCPConnection._receiver c)) 65535) seg (Hp _ Hin)). by split.
  - destruct (Hq _ Hin) as [[_ Hna _] _]. by eapply finish_ack_ok.
Qed.

Lemma fill_advance hist del c0 c :
  base hist del c -> opening (sender c) -> TCPSender._segments_out (sender c) = [] ->
  acked_to (sender c0) = acked_to (sender c) -> TCPSender._isn (sender c0) = TCPSender._isn (sender c) ->
  TCPConnection._segments_out c = TCPConnection._segments_out c0 ->
  let c' := TCPConnection.pop_and_send_segments (c <| TCPConnection._sender := TCPSender.fill_window (sender c) |>) in
  advance false c0 c' /\ acked_to (sender c') = acked_to (sender c0).
Proof.
  intros Hb Hop E0 Ea Ei Eo. cbv zeta. split.
  2: { rewrite Ea. apply (TCPSender.fill_window_fields S hist (sender c) HS), Hb. }
  destruct (TCPConnection.fill_step _ _ _ _ _ HS _ _ _ Hb) as (hist' & Hb' & _).
  pose proof (fill_window_sends S HS hist (sender c) (TCPConnection.base_sender _ _ _ _ _ _ _ _ Hb) Hop) as Hs.
  destruct (pop_advance hist' del false c _ Hb' Hs E0 eq_refl) as [O A I (new & En & Hn)].
  split; [done|lia|congruence|]. exists new. by rewrite En, Eo.
Qed.

Lemma write_advance hist del c d rest :
  inv hist del c -> opening (sender c) ->
  S = ztake (ByteStream.bytes_written (TCPSender._stream (sender c))) S ++
      ztake (ByteStream.write d (TCPSender._stream (sender c))).1 d ++ rest ->
  advance false c (TCPConnection.write d c).2 /\ acked_to (sender (TCPConnection.write d c).2) = acked_to (sender c).
Proof.
  intros [Hb Hq _] [] HSd. unfold TCPConnection.write.
  pose proof (TCPSender.write_inv S hist _ d rest HS (TCPConnection.base_sender _ _ _ _ _ _ _ _ Hb) HSd) as Hw.
  unfold TCPSender.with_stream, TCPSender.stream_in in *.
  destruct (ByteStream.write d (TCPSender._stream (sender c))) as [n st]. cbn [snd] in *.
  pose proof (TCPConnection.sender_step _ _ _ _ _ _ _ _ _ _ Hb Hw eq_refl) as Hb1.
  by apply (fill_advance hist del c _ Hb1).
Qed.

Lemma end_input_advance hist del c :
  inv hist del c -> opening (sender c) ->
  ByteStream.bytes_written (TCPSender._stream (sender c)) = zlen S ->
  advance false c (TCPConnection.end_input_stream c) /\
  acked_to (sender (TCPConnection.end_input_stream c)) = acked_to (sender c).
Proof.
  intros [Hb Hq _] [] Hz.
  pose proof (TCPSender.end_input_inv S hist _ (TCPConnection.base_sender _ _ _ _ _ _ _ _ Hb) Hz) as He.
  pose proof (TCPConnection.sender_step _ _ _ _ _ _ _ _ _ _ Hb He eq_refl) as Hb1.
  by apply (fill_advance hist del c _ Hb1).
Qed.

(** [positive_unclean_shutdown] sends a reset and nothing else. *)
Lemma shutdown_advance hist del c0 c :
  base hist del c -> opening (sender c) ->
  acked_to (sender c0) = acked_to (sender c) -> TCPSender._isn (sender c0) = TCPSender._isn (sender c) ->
  TCPConnection._segments_out c = TCPConnection._segments_out c0 ->
  advance true c0 (TCPConnection.positive_unclean_shutdown c) /\
  TCPSender._segments_out (sender (TCPConnection.positive_unclean_shutdown c)) = [].
Proof.
  intros Hb Hop Ea Ei Eo. split; [|done].
  pose proof (TCPConnection.base_sender _ _ _ _ _ _ _ _ Hb) as Hs.
  pose proof (TCPSender.next_bound _ _ _ HS Hs) as Hn.
  unfold TCPConnection.positive_unclean_shutdown, TCPSender.send_empty_segment_with_this_header. cbv zeta.
  rewrite TCPSender.send_empty_eq by (done || simpl; lia). destruct Hop as [H1 Hf Hsy Hm].
  split; [by split|simpl; lia|done|]. eexists. split; [simpl; by rewrite Eo|]. cbn [map app].
  apply Forall_singleton. split; [|eapply finish_ack_ok; [apply Hb|done]].
  apply finish_pushed. split; [done..|]. intros H0. exists 1. split; [lia|].
  simpl. unfold TCPSender.next_seqno. simpl. by destruct (Hf H0) as [-> _].
Qed.

Lemma pop_nothing c : TCPSender._segments_out (sender c) = [] -> TCPConnection.pop_and_send_segments c = c.
Proof.
  destruct c as [cfg r [] q l t]. cbn [TCPConnection._sender TCPSender._segments_out]. intros ->.
  unfold TCPConnection.pop_and_send_segments. simpl. by rewrite app_nil_r.
Qed.

Lemma tick_advance hist del c ms : inv hist del c -> opening (sender c) -> advance true c (TCPConnection.tick ms c).
Proof.
  intros [Hb Hq _] Hop. unfold TCPConnection.tick. cbv zeta.
  pose proof (TCPConnection.base_sender _ _ _ _ _ _ _ _ Hb) as Hs.
  pose proof (tick_sends S hist (sender c) ms Hs Hop) as Ht.
  pose proof (TCPConnection.sender_step _ _ _ _ _ _ _ _ _ _ Hb (TCPSender.tick_inv _ _ _ ms Hs)
    (proj2 (TCPSender.tick_fields ms (sender c)))) as Hb1.
  set (c1 := c <| TCPConnection._sender := _ |>) in *. set (c2 := if _ <? _ then _ else c1).
  assert (advance true c (TCPConnection.pop_and_send_segments c2)) as Hadv.
  - unfold c2. split_if; [|by eapply pop_advance].
    destruct (shutdown_advance hist del c c1 Hb1) as [Hadv E0];
      [apply Ht|symmetry; apply tick_acked|symmetry; apply Ht|done|]. by rewrite pop_nothing.
  - clearbody c2. generalize dependent (TCPConnection.pop_and_send_segments c2). intros c3 [O A I N].
    split; [exact O|exact A|exact I|exact N].
Qed.

Lemma acked_nonneg hist del c : base hist del c -> 0 <= acked_to (sender c).
Proof. intros Hb. apply (TCPSender.core_ack _ _ (TCPSender.inv_core _ _ _ (TCPConnection.base_sender _ _ _ _ _ _ _ _ Hb))). Qed.

Lemma deliver_sends hist del c seg :
  base hist del c -> opening (sender c) -> ack_ok S isn seg -> 0 <= TCPHeader.win (TCPSegment.header seg) < MAX16 ->
  sends false (sender c) (sender (TCPConnection.deliver seg c)).
Proof.
  intros Hb Hop Hack Hw. unfold TCPConnection.deliver. cbv zeta. destruct (TCPHeader.ack (TCPSegment.header seg)) eqn:E.
  - destruct (Hack E) as (k & Hk & Ek). destruct Hb as [Hs Hi _ _].
    apply (ack_sends S HS hist _ _ _ k); try done. by rewrite Hi.
  - by apply sends_refl.
Qed.

Lemma reply_sends hist del c seg :
  base hist del c -> opening (sender c) -> sends false (sender c) (sender (TCPConnection.reply seg c)).
Proof.
  intros Hb Hop. pose proof (TCPConnection.base_sender _ _ _ _ _ _ _ _ Hb) as Hs.
  unfold TCPConnection.reply. cbv zeta. set (c1 := if TCPConnection.keep_alive seg c then _ else c).
  assert (base hist del c1 /\ sends false (sender c) (sender c1)) as [Hb1 Hs1].
  { unfold c1. destruct (TCPConnection.keep_alive seg c); [|split; [done|by apply sends_refl]].
    split; [apply (TCPConnection.empty_step _ _ _ _ _ HS); [done|apply Hop]|by eapply empty_sends; [apply HS|..]]. }
  clearbody c1. destruct (negb _); [|done]. pose proof (acked_nonneg _ _ _ Hb) as H0.
  pose proof (TCPConnection.base_sender _ _ _ _ _ _ _ _ Hb1) as Hi1.
  pose proof (fill_window_sends S HS _ _ Hi1 (se_opening _ _ _ Hs1)) as Hs2.
  pose proof (sends_trans _ _ _ H0 Hs1 Hs2) as Hs12.
  destruct (TCPConnection.fill_step _ _ _ _ _ HS _ _ _ Hb1) as (hist' & Hb2 & _).
  set (c2 := c1 <| TCPConnection._sender := _ |>) in *. split_if; [|done].
  eapply sends_trans; [done|exact Hs12|]. eapply empty_sends; [apply HS|apply Hb2|apply Hs2].
Qed.

Lemma received_advance hist del c x seg :
  inv hist del c -> opening (sender c) -> ack_ok S isn seg ->
  TCPHeader.rst (TCPSegment.header seg) = true \/
    (TCPReceiver.segment_for S' isn' x seg /\ TCPReceiver.near (TCPConnection._receiver c) x seg) ->
  0 <= TCPHeader.win (TCPSegment.header seg) < MAX16 ->
  advance false c (TCPConnection.segment_received seg c).
Proof.
  intros [Hb Hq Hsy] Hop Hack Hseg Hw.
  destruct (TCPConnection.active c) eqn:Ha;
    [|unfold TCPConnection.segment_received; rewrite Ha; by apply advance_refl].
  destruct (TCPHeader.rst (TCPSegment.header seg)) eqn:Hr.
  { unfold TCPConnection.segment_received. rewrite Ha, Hr. destruct Hop. split; [by split|simpl; lia|done|].
    exists []. by rewrite app_nil_r. }
  destruct Hseg as [|[Hseg Hnear]]; [done|].
  destruct (TCPConnection.segment_received_eq seg c Ha Hr) as [linger ->].
  set (c1 := _ <| TCPConnection._linger_after_streams_finish := _ |>).
  assert (base hist del c1) as Hb1 by (destruct Hb; by split).
  destruct (TCPConnection.deliver_base _ _ _ _ _ HS HS' Hisn' _ _ _ _ _ Hb1 Hseg (TCPReceiver.near_placed _ _ _ _ _ Hnear) Hw) as (hist1 & Hb2 & Hn2 & Hr2).
  pose proof (deliver_sends _ _ c1 seg Hb1 Hop Hack Hw) as Hs1.
  pose proof (reply_sends _ _ _ seg Hb2 (se_opening _ _ _ Hs1)) as Hs2.
  destruct (TCPConnection.reply_base _ _ _ _ _ HS _ _ _ seg Hb2) as (hist2 & Hb3 & _).
  { intros _ _. apply Hs1. }
  eapply (pop_advance hist2 del false c); [exact Hb3| |done|].
  - eapply sends_trans; [by eapply acked_nonneg|exact Hs1|exact Hs2].
  - by rewrite TCPConnection.reply_out, TCPConnection.deliver_out.
Qed.

(** ** The receiver *)

(** After a [near] segment at the SYN or right behind it the checkpoint of the
    receiver is still at the beginning of the stream. *)
Lemma last_low del r x seg :
  TCPReceiver.inv S' isn' cap del r -> TCPReceiver.segment_for S' isn' x seg -> TCPReceiver.near r x seg ->
  low isn' seg -> TCPReceiver.last_no r <= 0 -> TCPReceiver.last_no (TCPReceiver.segment_received seg r) <= 0.
Proof.
  intros Hinv Hseg Hnear (y & Hy & Ey) H0. pose proof (TCPReceiver.sf_abs _ _ _ _ Hseg) as Hx.
  assert (x = y) as <-.
  { rewrite (TCPReceiver.sf_seqno _ _ _ _ Hseg) in Ey. apply (f_equal raw_value) in Ey. rewrite !raw_wrap in Ey. word. }
  pose proof (TCPReceiver.unwrap_last _ _ _ _ _ x HS' Hisn' Hinv) as Hun. destruct Hinv as [_ [Hl Hr] Hs].
  unfold TCPReceiver.segment_received, TCPReceiver.accept_payload.
  destruct (TCPReceiver._syn_recived r) eqn:E; cbn [negb].
  - destruct (Hnear E) as [Hn Hn0]. rewrite Hs, TCPReceiver.wrapping_of_raw, (TCPReceiver.sf_seqno _ _ _ _ Hseg) by done.
    rewrite Hun by (tauto || lia). unfold TCPReceiver.last_no. simpl.
    destruct (Z.eq_dec x 0) as [->|]; [done|]. by replace x with 1 by lia.
  - rewrite (TCPReceiver.sf_syn _ _ _ _ Hseg). destruct (x =? 0) eqn:Ex; [|done]. apply Z.eqb_eq in Ex. subst x.
    unfold TCPReceiver.last_no in *. simpl in *. rewrite (TCPReceiver.sf_seqno _ _ _ _ Hseg).
    assert (TCPReceiver._last_stream_no r = 0) as -> by (destruct (_ =? _); lia).
    rewrite wrap_zero by done. by rewrite unwrap_near by (done || lia).
Qed.

Lemma received_receiver seg c (c' := TCPConnection.segment_received seg c) :
  TCPConnection._receiver c' = TCPReceiver.segment_received seg (TCPConnection._receiver c) /\
    TCPHeader.rst (TCPSegment.header seg) = false \/
  TCPReceiver.last_no (TCPConnection._receiver c') = TCPReceiver.last_no (TCPConnection._receiver c).
Proof.
  unfold c'. destruct (TCPConnection.active c) eqn:Ha;
    [|right; unfold TCPConnection.segment_received; by rewrite Ha].
  destruct (TCPHeader.rst (TCPSegment.header seg)) eqn:Hr;
    [right; unfold TCPConnection.segment_received; by rewrite Ha, Hr|left].
  destruct (TCPConnection.segment_received_eq seg c Ha Hr) as [linger ->]. split; [|done].
  unfold TCPConnection.pop_and_send_segments. cbn -[TCPConnection.reply TCPConnection.deliver].
  unfold TCPConnection.reply, TCPConnection.deliver. cbv zeta. repeat (case_match; cbn); done.
Qed.

(** ** Deliveries *)

(** No SYN comes after a segment beyond the beginning of the stream. *)
Fixpoint settled (isn : WrappingInt32) (l : list TCPSegment.t) : Prop :=
  match l with
  | [] => True
  | seg :: l => (low isn seg \/ Forall no_syn l) /\ settled isn l
  end.

Lemma settled_app isn0 l new :
  settled isn0 l -> settled isn0 new -> Forall (low isn0) l \/ Forall no_syn new -> settled isn0 (l ++ new).
Proof.
  intros Hl Hn H. induction l as [|seg l IH]; [done|]. destruct Hl as [Hs Hl]. simpl. split.
  - destruct H as [H|H]; [left; apply (Forall_cons_1 _ _ _ H)|]. destruct Hs as [Hs|Hs]; [by left|right].
    by apply Forall_app.
  - apply IH; [done|]. destruct H as [H|H]; [left; apply (Forall_cons_1 _ _ _ H)|by right].
Qed.

Lemma low_settled isn0 l : Forall (low isn0) l -> settled isn0 l.
Proof. induction 1; [done|]. split; [by left|done]. Qed.

Lemma no_syn_settled isn0 l : Forall no_syn l -> settled isn0 l.
Proof. induction 1; [done|]. split; [by right|done]. Qed.

(** What an endpoint that is to receive [S'] finds in the queue of its peer. *)
Record queue_ok (l : list TCPSegment.t) : Prop := {
  qo_emits : Forall (TCPSender.emits S' isn') l;
  qo_acks : Forall (ack_ok S isn) l;
  qo_fin : Forall (fun seg => is_syn seg = true -> TCPHeader.fin (TCPSegment.header seg) = false) l }.

Definition delivered (l : list TCPSegment.t) (c : TCPConnection.t) : TCPConnection.t :=
  fold_left (fun c seg => TCPConnection.segment_received seg c) l c.

Abbreviation last c := (TCPReceiver.last_no (TCPConnection._receiver c)).

Lemma segment_near hist del c x seg :
  inv hist del c -> TCPReceiver.synced S' (TCPConnection._receiver c) ->
  (is_syn seg = true -> last c <= 0 /\ TCPHeader.fin (TCPSegment.header seg) = false) ->
  TCPReceiver.segment_for S' isn' x seg -> TCPReceiver.near (TCPConnection._receiver c) x seg.
Proof.
  intros [[_ _ Hr _] _ _] Hsy Hs Hseg _. pose proof (TCPReceiver.synced_last _ _ _ _ _ Hr Hsy) as Hl. pose proof (TCPReceiver.sf_abs _ _ _ _ Hseg) as Hx.
  split; [lia|]. intros ->. apply Hs. by rewrite (TCPReceiver.sf_syn _ _ _ _ Hseg : is_syn seg = _).
Qed.

Lemma deliver_one hist del c seg (c' := TCPConnection.segment_received seg c) :
  inv hist del c -> opening (sender c) -> TCPReceiver.synced S' (TCPConnection._receiver c) ->
  TCPSender.emits S' isn' seg -> ack_ok S isn seg ->
  (is_syn seg = true -> last c <= 0 /\ TCPHeader.fin (TCPSegment.header seg) = false) ->
  (exists hist', inv hist' del c') /\ advance false c c' /\ (last c <= 0 -> low isn' seg -> last c' <= 0) /\
  TCPReceiver.synced S' (TCPConnection._receiver c').
Proof.
  intros Hinv Hop Hsy [Hwf He] Hack Hsyn.
  pose proof (TCPHeader.wf_win _ (TCPSegment.wf_header _ Hwf)) as Hwin.
  assert (exists x, TCPHeader.rst (TCPSegment.header seg) = true \/
    (TCPReceiver.segment_for S' isn' x seg /\ TCPReceiver.near (TCPConnection._receiver c) x seg)) as [x Hseg].
  { destruct He as [|[x Hx]]; [exists 0; by left|]. exists x. right. split; [done|]. by eapply segment_near. }
  split_and!.
  - eapply (TCPConnection.segment_received_inv _ _ _ _ _ HS HS' Hisn' _ _ _ x); [done| |done].
    destruct Hseg as [|[? ?]]; [by left|right]. split; [done|]. by eapply TCPReceiver.near_placed.
  - by eapply received_advance.
  - intros H0 Hlow. unfold c'. destruct (received_receiver seg c) as [[-> Hr]| ->]; [|done].
    destruct Hseg as [|[? ?]]; [congruence|]. eapply last_low; try done. apply Hinv.
  - unfold c', TCPReceiver.synced. destruct (received_receiver seg c) as [[-> Hr]| ->]; [|done].
    destruct Hseg as [|[? ?]]; [congruence|]. apply (TCPReceiver.segment_synced S' isn' cap del _ x _ HS' Hisn'); try done. apply Hinv.
Qed.

Lemma advance_trans c1 c2 c3 : 0 <= acked_to (sender c1) -> advance false c1 c2 -> advance false c2 c3 -> advance false c1 c3.
Proof.
  intros H0 [O1 A1 I1 (n1 & E1 & F1)] [O2 A2 I2 (n2 & E2 & F2)]. split; [done|lia|congruence|].
  exists (n1 ++ n2). split; [by rewrite E2, E1, app_assoc|]. apply Forall_app. split; [|done].
  eapply Forall_impl; [exact F1|]. intros seg [[R X P L] Ha]. split; [|done]. split; [done|done|by intros ?%R|].
  intros H. rewrite I2. apply L. lia.
Qed.

Lemma deliver_all del l : forall hist c,
  inv hist del c -> opening (sender c) -> TCPReceiver.synced S' (TCPConnection._receiver c) -> queue_ok l ->
  settled isn' l -> last c <= 0 \/ Forall no_syn l ->
  let c' := delivered l c in
  (exists hist', inv hist' del c') /\ advance false c c' /\ (last c <= 0 -> Forall (low isn') l -> last c' <= 0) /\
  TCPReceiver.synced S' (TCPConnection._receiver c').
Proof.
  induction l as [|seg l IH]; intros hist c Hinv Hop Hsy [He Ha Hf] Hse Hl; cbv zeta.
  { split_and!; [by exists hist|by apply advance_refl|done|done]. }
  apply Forall_cons_1 in He as [He Hes], Ha as [Ha Has], Hf as [Hf Hfs]. destruct Hse as [Hlow Hse].
  destruct (deliver_one hist del c seg Hinv Hop Hsy He Ha) as ([hist1 Hinv1] & Hadv & Hlast & Hsy1).
  { intros Hs. destruct Hl as [Hl|Hl%Forall_cons_1]; [by split; [|apply Hf]|]. destruct Hl as [Hl _].
    unfold no_syn in Hl. congruence. }
  set (c1 := TCPConnection.segment_received seg c) in *.
  destruct (IH hist1 c1 Hinv1 (adv_opening _ _ _ Hadv) Hsy1) as (Hinv' & Hadv' & Hlast' & Hsy'); [by split|done| |].
  { destruct Hl as [Hl|Hl]; [|right; apply (Forall_cons_1 _ _ _ Hl)].
    destruct Hlow as [Hlow|Hns]; [left; by apply Hlast|by right]. }
  split_and!; [done| | |].
  - eapply advance_trans; [|exact Hadv|exact Hadv']. eapply acked_nonneg. apply Hinv.
  - intros H0 Hall%Forall_cons_1. destruct Hall. apply Hlast'; [|done]. by apply Hlast.
  - done.
Qed.

End connection.

(** ** Two endpoints

    [link S isn S' isn' c peer]: the endpoint [c] sends [S] from [isn] to [peer],
    and what it has queued can be delivered. *)
Abbreviation queue c := (TCPConnection._segments_out c).
Abbreviation acked_by_peer c := (TCPSender._last_ackno (TCPConnection._sender c)).
Abbreviation last c := (TCPReceiver.last_no (TCPConnection._receiver c)).

Record link (S : bytes) (isn : WrappingInt32) (S' : bytes) (isn' : WrappingInt32) (c peer : TCPConnection.t) : Prop := {
  li_opening : opening (TCPConnection._sender c);
  li_isn : TCPSender._isn (TCPConnection._sender c) = isn;
  li_acks : Forall (ack_ok S' isn') (queue c);
  li_fin : Forall (fun seg => is_syn seg = true -> TCPHeader.fin (TCPSegment.header seg) = false) (queue c);
  li_low : acked_by_peer c = 0 -> Forall (low isn) (queue c);
  li_settled : settled isn (queue c);
  li_peer : last peer <= 0 \/ (1 <= acked_by_peer c /\ Forall no_syn (queue c));
  li_synced : TCPReceiver.synced S (TCPConnection._receiver peer) }.

Lemma pushed_settled retx s l : 0 <= acked_to s -> Forall (pushed retx s) l -> settled (TCPSender._isn s) l.
Proof.
  intros H0 Hl. destruct (Z.eq_dec (acked_to s) 0) as [E|E].
  - apply low_settled. eapply Forall_impl; [exact Hl|]. intros seg [_ _ _ L]. by apply L.
  - apply no_syn_settled. eapply Forall_impl; [exact Hl|]. intros seg [_ _ P _]. unfold no_syn.
    destruct (is_syn seg); [|done]. by destruct P.
Qed.

Lemma link_advance S isn S' isn' retx c c' peer :
  0 <= acked_by_peer c -> link S isn S' isn' c peer -> advance S' isn' retx c c' -> link S isn S' isn' c' peer.
Proof.
  intros H0 [O I A F L Hset P Hsy] [O' A' I' (new & En & Hn)]. rewrite I in I'.
  assert (Forall (pushed retx (TCPConnection._sender c')) new) as Hp by (eapply Forall_impl; [exact Hn|by intros ? []]).
  assert (acked_by_peer c' = 0 \/ Forall no_syn new) as Hns.
  { destruct (Z.eq_dec (acked_by_peer c') 0); [by left|right]. eapply Forall_impl; [exact Hp|]. intros seg [_ _ P' _].
    unfold no_syn. destruct (is_syn seg); [|done]. by destruct P'. }
  split; rewrite ?En; try done.
  - apply Forall_app. split; [done|]. eapply Forall_impl; [exact Hn|by intros ? []].
  - apply Forall_app. split; [done|]. eapply Forall_impl; [exact Hp|]. intros seg [_ _ P' _] Hs. by apply P'.
  - intros E. apply Forall_app. split; [apply L; lia|]. eapply Forall_impl; [exact Hp|].
    intros seg [_ _ _ L']. rewrite <- I'. by apply L'.
  - apply settled_app; [done|rewrite <- I'; eapply pushed_settled; [lia|done]|].
    destruct Hns as [E|]; [left; apply L; lia|by right].
  - destruct P as [P|[P1 P2]]; [by left|right]. split; [lia|]. apply Forall_app. split; [done|].
    destruct Hns as [E|]; [lia|done].
Qed.

(** The queue of [c] is delivered to [peer] in the order [l]. *)
Lemma move_link S isn S' isn' cap cap' hist hist' del del' c peer l
    (c1 := c <| TCPConnection._segments_out := [] |>) (peer1 := delivered l peer) :
  zlen S < 2147483640 -> zlen S' < 2147483640 -> 0 <= cap < MAX32 -> 0 <= cap' < MAX32 -> wf isn -> wf isn' ->
  TCPConnection.inv S isn S' isn' cap hist del c -> TCPConnection.inv S' isn' S isn cap' hist' del' peer ->
  link S isn S' isn' c peer -> link S' isn' S isn peer c ->
  l ≡ₚ queue c -> settled isn l ->
  TCPConnection.inv S isn S' isn' cap hist del c1 /\ (exists hist1, TCPConnection.inv S' isn' S isn cap' hist1 del' peer1) /\
  link S isn S' isn' c1 peer1 /\ link S' isn' S isn peer1 c1 /\ advance S isn false peer peer1.
Proof.
  intros HS HS' Hcap Hcap' Hi Hi' Hinv Hinv' Hl Hl' Hperm Hset.
  pose proof (acked_nonneg _ _ _ _ _ _ _ _ (TCPConnection.inv_base _ _ _ _ _ _ _ _ Hinv)) as H0.
  pose proof (acked_nonneg _ _ _ _ _ _ _ _ (TCPConnection.inv_base _ _ _ _ _ _ _ _ Hinv')) as H0'.
  destruct (deliver_all S' isn' S isn cap' HS' HS Hcap' Hi del' l hist' peer Hinv' (li_opening _ _ _ _ _ _ Hl')
    (li_synced _ _ _ _ _ _ Hl)) as (Hinv1 & Hadv & Hlast & Hsy).
  { destruct Hl. destruct Hinv as [[_ _ _ He] _ _]. split; by rewrite Hperm. }
  { done. }
  { destruct (li_peer _ _ _ _ _ _ Hl) as [|[_ Hns]]; [by left|right]. by rewrite Hperm. }
  split_and!; [|done| |by destruct (link_advance _ _ _ _ false peer peer1 c H0' Hl' Hadv); split|done].
  - destruct Hinv as [[] Hq Hs]. by split; [split|..].
  - destruct Hl as [O I A F L _ P _]. split; try done. simpl.
    destruct P as [P|P]; [|right; split; [apply P|done]].
    destruct (Z.eq_dec (acked_by_peer c) 0) as [E|]; [left|right; split; [lia|done]].
    apply Hlast; [done|]. rewrite Hperm. by apply L.
Qed.

End Handshake.
