(* ===== verification/Progress.v ===== *)
(** * Progress of a connection over a reliable link

    What an endpoint does with a segment that arrives, as far as progress is
    concerned: how far the receiver gets ([ack_abs], [within]), that the answer says
    so, what an acknowledgement does to the sender and its timer ([clocked],
    [supplied]), and that the connection stays alive.  [BenchmarkLive] puts the two
    directions together. *)
From S2P Require Import Prelude WrappingIntegers ByteStream OrderedMap StreamReassembler Buffer.
From S2P Require Import Parser Checksum TCPSegment TCPReceiver TCPSender TCPConnection Outbound Handshake.
Import WrappingIntegers.

Module Progress.

(** ** The sender *)

Abbreviation la s := (TCPSender._last_ackno s).
Abbreviation nx s := (TCPSender._next_seqno s).

(** The timer as after an acknowledgement: no timeout yet, nothing elapsed. *)
Record timer_fresh (s : TCPSender.t) : Prop := {
  tf_rto : TCPSender._initial_retransmission_timeout s = TCPSender._init_timer_backup s;
  tf_time : TCPSender._retransmission_timeout s = 0;
  tf_count : TCPSender._consecutive_retransmissions_count s = 0 }.

(** [N] lies between two outstanding segments, and once it is acknowledged the
    timer is fresh. *)
Record clocked (N : Z) (s : TCPSender.t) : Prop := {
  ck_bound : Forall (fun e => e.1.1 + TCPSender.seg_len e.2 <= N \/ N <= e.1.1) (TCPSender._segments_outstanding s);
  ck_next : N <= nx s;
  ck_timer : N <= la s -> timer_fresh s }.

(** There is something to send: bytes or the end of the stream. *)
Definition eager (s : TCPSender.t) : Prop :=
  ByteStream._buffer (TCPSender._stream s) <> [] \/ ByteStream.input_ended (TCPSender._stream s) = true.

(** A sender that was given something to send when its next number was [N] has
    either sent it or still has it, and waits for an acknowledgement unless all
    is sent. *)
Record supplied (N : Z) (s : TCPSender.t) : Prop := {
  su_acked : la s <= N <= nx s;
  su_eager : N < nx s \/ eager s;
  su_waits : la s < nx s \/ TCPSender._fin_sent s = true }.

Section sender.
Context (S : bytes) (HS : TCPSender.fits S).

Lemma fill_timer hist s : TCPSender.inv S hist s -> timer_fresh s -> timer_fresh (TCPSender.fill_window s).
Proof.
  intros Hinv [H1 H2 H3]. destruct (TCPSender._fin_sent s) eqn:E.
  - unfold TCPSender.fill_window. by rewrite E.
  - destruct (TCPSender.wfill_control _ _ _ (TCPSender.fill_window_spec S hist s HS Hinv E)). simpl in *.
    split; congruence.
Qed.

Lemma fill_backup hist s : TCPSender.inv S hist s ->
  TCPSender._init_timer_backup (TCPSender.fill_window s) = TCPSender._init_timer_backup s /\
  ByteStream.error (TCPSender._stream (TCPSender.fill_window s)) = ByteStream.error (TCPSender._stream s).
Proof.
  intros Hinv. destruct (TCPSender._fin_sent s) eqn:E; [unfold TCPSender.fill_window; by rewrite E|].
  by destruct (TCPSender.wfill_control _ _ _ (TCPSender.fill_window_spec S hist s HS Hinv E)).
Qed.

Lemma contig_app isn l1 l2 : forall lo hi, TCPSender.contig S isn lo (l1 ++ l2) hi ->
  exists mid, TCPSender.contig S isn lo l1 mid /\ TCPSender.contig S isn mid l2 hi.
Proof.
  induction l1 as [|[[x f] seg] l1 IH]; intros lo hi H; [by exists lo|]. destruct H as (-> & H1 & H2 & H3).
  destruct (IH _ _ H3) as (mid & ? & ?). by exists mid.
Qed.

(** What [fill_window] adds starts at the next number. *)
Lemma fill_clocked hist s N :
  TCPSender.inv S hist s -> Handshake.opening s -> clocked N s -> clocked N (TCPSender.fill_window s).
Proof.
  intros Hinv Hop [Hb Hn Ht]. destruct (TCPSender.fill_window_fields S hist s HS Hinv) as (Ea & _ & En & _).
  split; [|lia|rewrite Ea; intros ?; by eapply fill_timer; [|apply Ht]].
  destruct (Handshake.fill_window_adds s Hop) as [(new & seen & _ & _ & E & _ & Hh) _]. rewrite E.
  apply Forall_app. split; [done|]. destruct seen as [|[[x f] seg] seen]; [done|]. simpl in Hh. subst x.
  destruct (TCPSender.fill_window_inv S hist s HS Hinv) as [hist' [[_ (lo & _ & Hc) _ _ _ _ _ _ _ _] _]].
  rewrite E in Hc. apply contig_app in Hc as (mid & _ & Hc).
  pose proof (TCPSender.contig_after _ _ _ _ _ Hc) as Haf. destruct Hc as (<- & _).
  eapply Forall_impl; [exact Haf|]. simpl. intros e [He _]. right. lia.
Qed.

(** If [fill_window] uses no number, it takes nothing from the stream. *)
Lemma fill_idle hist s :
  TCPSender.inv S hist s -> 1 <= nx s -> nx (TCPSender.fill_window s) = nx s ->
  zlen (ByteStream._buffer (TCPSender._stream (TCPSender.fill_window s))) = zlen (ByteStream._buffer (TCPSender._stream s)) /\
  ByteStream.input_ended (TCPSender._stream (TCPSender.fill_window s)) = ByteStream.input_ended (TCPSender._stream s) /\
  TCPSender._fin_sent (TCPSender.fill_window s) = TCPSender._fin_sent s.
Proof.
  intros Hinv H1 En. destruct (TCPSender._fin_sent s) eqn:Ef.
  { unfold TCPSender.fill_window. by rewrite Ef. }
  destruct (TCPSender.fill_window_inv S hist s HS Hinv) as [hist' Hinv'].
  destruct (Outbound.fill_window_drained s) as [D1 D2 _ D3]. pose proof (TCPSender.inv_data _ _ _ Hinv) as Hd.
  pose proof (TCPSender.inv_data _ _ _ Hinv') as Hd'. destruct (D3 (TCPSender.data_stream _ _ _ Hd)) as [Hw Hr].
  destruct (TCPSender.fill_window_spec S hist s HS Hinv Ef) as [_ _ _ Hc].
  rewrite !ByteStream.remaining_capacity_wf in Hr by (done || apply Hd).
  pose proof (TCPSender.sc_capacity _ _ Hc) as Ec. simpl in Ec.
  rewrite (TCPSender.data_written _ _ _ Hd), (TCPSender.data_written _ _ _ Hd') in D1.
  pose proof (TCPSender.data_next _ _ _ Hd) as N1. pose proof (TCPSender.data_next _ _ _ Hd') as N2. rewrite Ef in N1.
  destruct (TCPSender._fin_sent (TCPSender.fill_window s)); split_and!; try done; lia.
Qed.

Lemma fill_eager hist s :
  TCPSender.inv S hist s -> 1 <= nx s -> eager s -> nx s < nx (TCPSender.fill_window s) \/ eager (TCPSender.fill_window s).
Proof.
  intros Hinv H1 He. destruct (TCPSender.fill_window_fields S hist s HS Hinv) as (_ & _ & Hn & _).
  destruct (Z.eq_dec (nx (TCPSender.fill_window s)) (nx s)) as [E|]; [right|left; lia].
  destruct (fill_idle hist s Hinv H1 E) as (E1 & E2 & _). unfold eager in *. rewrite E2.
  destruct He as [He|He]; [left|by right]. intros Hn'. rewrite Hn' in E1. apply He, zlen_0_nil. by rewrite <- E1.
Qed.

(** A window, or the probe of a closed one, is used if there is something to send. *)
Lemma fill_sends hist s :
  TCPSender.inv S hist s -> 1 <= nx s -> eager s -> 0 < TCPSender.budget s ->
  nx s < nx (TCPSender.fill_window s) \/ TCPSender._fin_sent s = true.
Proof.
  intros Hinv H1 He Hb. destruct (TCPSender._fin_sent s) eqn:Ef; [by right|left].
  destruct (TCPSender.fill_window_spec S hist s HS Hinv Ef) as [_ Hn Hd _].
  assert (TCPSender.first_free s = nx s) as Hff by (unfold TCPSender.first_free; split_if; lia). rewrite Hff in *.
  destruct (Z.eq_dec (nx (TCPSender.fill_window s)) (nx s)) as [E|]; [exfalso|lia].
  destruct (fill_idle hist s Hinv H1 E) as (E1 & E2 & E3). destruct Hd as [Hd|[Hd|[Hd1 Hd2]]]; [lia|congruence|].
  rewrite E2 in Hd2. rewrite Hd1 in E1. destruct He as [He|He]; [|congruence]. apply He, zlen_0_nil. by rewrite <- E1.
Qed.

Lemma fill_supplied hist s N :
  TCPSender.inv S hist s -> 1 <= nx s -> supplied N s -> supplied N (TCPSender.fill_window s).
Proof.
  intros Hinv H1 [Ha He Hw]. destruct (TCPSender.fill_window_fields S hist s HS Hinv) as (Ea & _ & Hn & _). split.
  - lia.
  - destruct He as [He|He]; [left; lia|]. destruct (fill_eager hist s Hinv H1 He); [left; lia|by right].
  - rewrite Ea. destruct Hw as [Hw|Hw]; [left; lia|right]. unfold TCPSender.fill_window. by rewrite Hw.
Qed.

(** What an acknowledgement does before the window is filled. *)
Lemma acked_rest A w z s (s' := TCPSender.acked A w z s) :
  TCPSender._stream s' = TCPSender._stream s /\ TCPSender._fin_sent s' = TCPSender._fin_sent s /\
  TCPSender._init_timer_backup s' = TCPSender._init_timer_backup s /\ TCPSender._window_zero_valid s' = z /\
  (timer_fresh s \/ (TCPSender.pop_acked A (TCPSender._segments_outstanding s)).1 = true -> timer_fresh s').
Proof.
  unfold s'. destruct s. rewrite TCPSender.acked_eq. cbv zeta. simpl.
  destruct (TCPSender.pop_acked A _) as [[] kept]; split_and!; try done; simpl.
  intros [[]|]; [by split|done].
Qed.

(** The oldest segment is taken off when its end is acknowledged. *)
Lemma pop_oldest hist s A N :
  TCPSender.inv S hist s -> clocked N s -> la s < N -> N <= A ->
  (TCPSender.pop_acked A (TCPSender._segments_outstanding s)).1 = true.
Proof.
  intros Hinv [Hb Hn _] Hl HA. pose proof (TCPSender.next_bound _ _ _ HS Hinv) as Hnb.
  destruct (TCPSender.inv_core _ _ _ Hinv) as [_ (lo & Hlo & Hc) _ Hh _ _ _ _ _ _].
  destruct (TCPSender._segments_outstanding s) as [|[[x f] seg] l]; [lia|].
  destruct Hc as (-> & [Hseg _] & Hp & Hc%TCPSender.contig_le). apply Forall_cons_1 in Hb as [Hb _]. simpl in Hb.
  simpl. rewrite (TCPSender.segment_length _ _ _ _ HS Hseg). unfold TCPSender.fits in HS. rewrite u64_small by lia.
  by replace (_ <=? A) with true by lia.
Qed.

Lemma acked_clocked hist s A w z N :
  TCPSender.inv S hist s -> la s <= A -> clocked N s -> clocked N (TCPSender.acked A w z s).
Proof.
  intros Hinv HA Hc. pose proof Hc as [Hb Hn Ht]. destruct (TCPSender.acked_fields A w z s) as (Ea & En & _).
  destruct (acked_rest A w z s) as (_ & _ & _ & _ & Htf). split.
  - rewrite Handshake.acked_outstanding. by apply Handshake.pop_acked_Forall.
  - by rewrite En.
  - rewrite Ea. intros HN. apply Htf. destruct (Z_le_gt_dec N (la s)) as [Hl|Hl]; [left; by apply Ht|right].
    eapply pop_oldest; [done|done|lia|done].
Qed.

Lemma ack_progress hist s k w (s' := TCPSender.ack_received (wrap k (TCPSender._isn s)) w s) :
  zlen S < 2147483640 -> TCPSender.inv S hist s -> Handshake.opening s -> 0 <= w < MAX16 -> 1 <= k <= nx s ->
  la s' = Z.max (la s) k /\ TCPSender._init_timer_backup s' = TCPSender._init_timer_backup s /\
  ByteStream.error (TCPSender._stream s') = ByteStream.error (TCPSender._stream s) /\
  (forall N, clocked N s -> clocked N s') /\ (forall N, k <= N -> supplied N s -> supplied N s').
Proof.
  intros HS31 Hinv Hop Hw Hk. unfold s'. rewrite (TCPSender.ack_received_eq S hist) by done.
  pose proof (TCPSender.inv_core _ _ _ Hinv) as Hcore. pose proof (TCPSender.core_ack _ _ Hcore) as Ha.
  pose proof (TCPSender.core_isn _ _ Hcore) as Hi. pose proof (TCPSender.next_bound _ _ _ HS Hinv) as Hn.
  pose proof (TCPSender.acked_inv S hist s (wrap k (TCPSender._isn s)) w) as Hinv'. cbv zeta in Hinv'.
  rewrite (unwrap_near k) in * by (done || lia).
  replace ((nx s =? 0) || (nx s <? k)) with false by lia.
  set (A := Z.max (la s) k) in *. set (w' := TCPSender.window_after s k w) in *. set (z := _ || (w' =? 0)).
  specialize (Hinv' z HS Hinv Hw ltac:(lia)). set (s1 := TCPSender.acked A w' z s) in *.
  assert (Handshake.opening s1) as Hop1 by (apply Handshake.acked_opening; [done|lia]).
  destruct (TCPSender.acked_fields A w' z s) as (Ea & En & Ew & _). fold s1 in Ea, En, Ew.
  destruct (acked_rest A w' z s) as (Est & Ef & Eb & Ez & _). fold s1 in Est, Ef, Eb, Ez.
  destruct (TCPSender.fill_window_fields S hist s1 HS Hinv') as (Ea' & _ & Hn' & _).
  split_and!; [congruence|rewrite <- Eb; by eapply fill_backup|rewrite <- Est; by eapply fill_backup|..].
  - intros N Hc. eapply fill_clocked; [done|done|]. eapply acked_clocked; [done|lia|done].
  - intros N HkN [Ha1 He Hwt]. assert (N < nx s1 \/ eager s1) as He1 by (unfold eager; by rewrite Est, En).
    assert (la s1 < nx (TCPSender.fill_window s1) \/ TCPSender._fin_sent (TCPSender.fill_window s1) = true) as Hw1.
    { destruct (Z_lt_ge_dec (la s1) (nx s1)) as [Hl|Hl]; [left; lia|]. destruct He1 as [|He1]; [lia|].
      destruct (fill_sends hist s1 Hinv' ltac:(lia) He1) as [Hf|Hf].
      - unfold TCPSender.budget, TCPSender.probe, TCPSender.first_free. rewrite Ew, Ez. unfold z.
        replace (nx s1 =? 0) with false by lia. assert (0 <= w') by (unfold w', TCPSender.window_after; lia).
        destruct (w' =? 0) eqn:E0; rewrite ?orb_true_r; cbn [andb]; lia.
      - left. lia.
      - right. unfold TCPSender.fill_window. by rewrite Hf. }
    split; [lia| |rewrite Ea'; exact Hw1].
    destruct He1 as [|He1]; [left; lia|]. destruct (fill_eager hist s1 Hinv' ltac:(lia) He1); [left; lia|by right].
Qed.

Lemma contig_ends isn l : forall lo hi, TCPSender.contig S isn lo l hi ->
  Forall (fun e => TCPSender.segment_for S isn e.1.1 e.2 /\ e.1.1 + TCPSender.seg_len e.2 <= hi) l.
Proof.
  induction l as [|[[x f] seg] l IH]; intros lo hi H; [done|]. destruct H as (-> & [Hs _] & Hp & Hc).
  constructor; [|by eapply IH]. simpl. split; [done|]. by apply TCPSender.contig_le in Hc.
Qed.

End sender.

(** An empty segment changes nothing but the queue. *)
Lemma empty_same S hist s : TCPSender.fits S -> TCPSender.inv S hist s ->
  TCPSender.send_empty_segment s = s <| TCPSender._segments_out :=
    TCPSender._segments_out s ++ [TCPSender.stamped TCPSegment.default s] |>.
Proof.
  intros HS Hinv. pose proof (TCPSender.next_bound _ _ _ HS Hinv). unfold TCPSender.fits in HS.
  unfold TCPSender.send_empty_segment. by rewrite TCPSender.send_empty_eq by (done || lia).
Qed.

(** A segment of [S] that uses no number from [N] on. *)
Definition below (S : bytes) (isn : WrappingInt32) (N : Z) (seg : TCPSegment.t) : Prop :=
  (exists x, TCPReceiver.segment_for S isn x seg /\ x + TCPSender.seg_len seg <= N) /\
  TCPHeader.rst (TCPSegment.header seg) = false.

(** A step of the sender that acknowledges up to [A] (0 for none). *)
Record moved (S : bytes) (A : Z) (s s' : TCPSender.t) : Prop := {
  mv_isn : TCPSender._isn s' = TCPSender._isn s;
  mv_la : la s' = Z.max (la s) A;
  mv_nx : nx s <= nx s' <= zlen S + 2;
  mv_backup : TCPSender._init_timer_backup s' = TCPSender._init_timer_backup s;
  mv_error : ByteStream.error (TCPSender._stream s') = ByteStream.error (TCPSender._stream s);
  mv_clocked : forall N, clocked N s -> clocked N s';
  mv_supplied : forall N, A <= N -> supplied N s -> supplied N s';
  mv_out : exists new, TCPSender._segments_out s' = TCPSender._segments_out s ++ new /\
    Forall (below S (TCPSender._isn s) (nx s')) new /\
    Forall (fun e => e ∈ TCPSender._segments_outstanding s \/ e.2 ∈ new) (TCPSender._segments_outstanding s') }.

Lemma below_le S isn N N' seg : below S isn N seg -> N <= N' -> below S isn N' seg.
Proof. intros [(x & ? & ?) ?] HN. split; [|done]. exists x. split; [done|lia]. Qed.

Lemma moved_refl S s : 0 <= la s -> nx s <= zlen S + 2 -> moved S 0 s s.
Proof.
  intros H0 H1. split; try done; try lia. exists []. rewrite app_nil_r. split_and!; [done|done|].
  apply Forall_forall. intros e He. by left.
Qed.

Lemma moved_trans S A s1 s2 s3 : 0 <= la s1 -> 0 <= A -> moved S A s1 s2 -> moved S 0 s2 s3 -> moved S A s1 s3.
Proof.
  intros H0 HA [I1 L1 N1 B1 X1 C1 U1 (n1 & E1 & F1 & O1)] [I2 L2 N2 B2 X2 C2 U2 (n2 & E2 & F2 & O2)].
  split; try congruence; try lia.
  - auto.
  - intros N HN Hs. apply U2; [lia|]. by apply U1.
  - exists (n1 ++ n2). rewrite E2, E1, app_assoc. split_and!; [done|apply Forall_app; split|].
    + eapply Forall_impl; [exact F1|]. intros seg Hb. eapply below_le; [done|lia].
    + by rewrite <- I1.
    + rewrite Forall_forall in O1 |- *. rewrite Forall_forall in O2. intros e He. destruct (O2 e He) as [He'|He'].
      * destruct (O1 e He'); [by left|right; apply elem_of_app; by left].
      * right. apply elem_of_app. by right.
Qed.

Section moves.
Context (S : bytes) (HS : TCPSender.fits S).

Lemma fill_moved hist s : TCPSender.inv S hist s -> Handshake.opening s -> moved S 0 s (TCPSender.fill_window s).
Proof.
  intros Hinv Hop. pose proof (Handshake.op_started _ Hop) as H1.
  destruct (TCPSender.fill_window_fields S hist s HS Hinv) as (Ea & _ & Hn & Ei).
  destruct (TCPSender.fill_window_inv S hist s HS Hinv) as [hist' Hinv'].
  pose proof (TCPSender.next_bound _ _ _ HS Hinv') as Hn'. pose proof (TCPSender.core_ack _ _ (TCPSender.inv_core _ _ _ Hinv)).
  split; [done|lia|lia|by eapply fill_backup|by eapply fill_backup|..].
  - intros N. by eapply fill_clocked.
  - intros N _. by eapply fill_supplied.
  - destruct (Handshake.fill_window_adds s Hop) as [(new & seen & E1 & F1 & E2 & F2 & _) _]. exists new.
    destruct (TCPSender.inv_core _ _ _ Hinv') as [_ (lo & _ & Hc) _ _ _ _ _ _ _ _]. apply contig_ends in Hc.
    rewrite E2 in Hc |- *. rewrite Ei in Hc. apply Forall_app in Hc as [_ Hc]. split_and!; [done|..].
    + rewrite F2, Forall_map in F1 |- *. rewrite Forall_forall in F1, Hc |- *. intros e He.
      destruct (F1 e He) as [_ [_ Hr]]. destruct (Hc e He). split; [|done]. by exists e.1.1.
    + apply Forall_forall. intros e [He|He]%elem_of_app; [by left|right]. rewrite F2. by apply list_elem_of_fmap_2.
Qed.

Lemma empty_moved hist s : TCPSender.inv S hist s -> Handshake.opening s -> moved S 0 s (TCPSender.send_empty_segment s).
Proof.
  intros Hinv Hop. rewrite (empty_same S hist) by done. pose proof (TCPSender.next_bound _ _ _ HS Hinv) as Hn.
  pose proof (TCPSender.core_ack _ _ (TCPSender.inv_core _ _ _ Hinv)). pose proof (Handshake.op_started _ Hop).
  split; simpl; try done; try lia.
  - intros N [Hb Hx Ht]. split; [done|done|]. intros HN. by destruct (Ht HN).
  - intros N _ []. by split.
  - eexists. split_and!; [done|..].
    + apply Forall_singleton. split; [|done]. exists (nx s). split; [|change (nx s + 0 <= nx s); lia].
      split; cbn -[zlen zget Z.eqb]; try done; try lia. intros i b E. by rewrite zget_nil in E.
    + apply Forall_forall. intros e He. by left.
Qed.

Lemma ack_moved hist s k w :
  zlen S < 2147483640 -> TCPSender.inv S hist s -> Handshake.opening s -> 0 <= w < MAX16 -> 1 <= k <= nx s ->
  moved S k s (TCPSender.ack_received (wrap k (TCPSender._isn s)) w s).
Proof.
  intros HS31 Hinv Hop Hw Hk. destruct (ack_progress S HS hist s k w HS31 Hinv Hop Hw Hk) as (Ela & Eb & Ee & Hc & Hsu).
  pose proof (TCPSender.ack_received_eq S hist s (wrap k (TCPSender._isn s)) w HS Hinv Hw) as E. cbv zeta in E.
  pose proof (TCPSender.inv_core _ _ _ Hinv) as Hcore. pose proof (TCPSender.core_ack _ _ Hcore) as Ha.
  pose proof (TCPSender.core_isn _ _ Hcore) as Hi. pose proof (TCPSender.next_bound _ _ _ HS Hinv) as Hn.
  pose proof (TCPSender.acked_inv S hist s (wrap k (TCPSender._isn s)) w) as Hinv'. cbv zeta in Hinv'.
  rewrite (unwrap_near k) in E, Hinv' by (done || lia). replace ((nx s =? 0) || (nx s <? k)) with false in E by lia.
  match type of E with _ = TCPSender.fill_window (TCPSender.acked ?A ?w' ?z s) =>
    specialize (Hinv' z HS Hinv Hw ltac:(lia)); pose proof (Handshake.acked_opening A w' z s Hop ltac:(lia)) as Hop1;
    pose proof (Handshake.acked_out A w' z s) as Eo; pose proof (Handshake.acked_outstanding A w' z s) as Eu;
    destruct (TCPSender.acked_fields A w' z s) as (_ & En & _ & Ei); set (s1 := TCPSender.acked A w' z s) in * end.
  destruct (fill_moved hist s1 Hinv' Hop1) as [I1 _ N1 _ _ _ _ (new & E1 & F1 & O1)]. rewrite <- E in I1, N1, E1, F1, O1.
  split; try done; [congruence|lia|]. exists new. rewrite Ei in F1. rewrite E1, Eo. split_and!; [done|done|].
  eapply Forall_impl; [exact O1|]. intros e [He|He]; [left|by right]. rewrite Eu in He.
  destruct (TCPSender.inv_core _ _ _ Hinv) as [_ (lo & Hlo & Hch) _ _ _ _ _ _ _ _].
  destruct (TCPSender.pop_acked_spec S (TCPSender._isn s) (Z.max (la s) k) _ HS lo _ Hch) as (_ & _ & _ & (front & -> & _) & _);
    [lia|lia|unfold TCPSender.fits in HS; lia|]. apply elem_of_app. right. done.
Qed.

End moves.

(** ** The receiver *)

Abbreviation index r := (StreamReassembler._next_index (TCPReceiver._reassembler r)).
Abbreviation ended r := (ByteStream.input_ended (TCPReceiver.stream_out r)).
Abbreviation text seg := (Buffer.copy (TCPSegment.payload seg)).
Abbreviation is_fin seg := (TCPHeader.fin (TCPSegment.header seg)).

(** The absolute number that is acknowledged; 0 before SYN. *)
Definition ack_abs (r : TCPReceiver.t) : Z :=
  if TCPReceiver._syn_recived r then 1 + index r + (if ended r then 1 else 0) else 0.

(** Nothing at or beyond [N] has arrived. *)
Record within (S : bytes) (N : Z) (r : TCPReceiver.t) : Prop := {
  wi_syn : TCPReceiver._syn_recived r = true -> 1 <= N;
  wi_next : index r = 0 \/ index r + 1 <= N;
  wi_stored : forall p b, OrderedMap.get (StreamReassembler._reassembler (TCPReceiver._reassembler r)) p = Some b -> p + 2 <= N;
  wi_eof : StreamReassembler._eof (TCPReceiver._reassembler r) = true -> N = zlen S + 2;
  wi_ended : ended r = true -> N = zlen S + 2 }.

Section receiver.
Context (S : bytes) (isn : WrappingInt32) (cap : Z) (HS : TCPReceiver.fits S cap) (Hisn : wf isn).

Lemma ackno_abs del r : TCPReceiver.inv S isn cap del r ->
  TCPReceiver.ackno r = if TCPReceiver._syn_recived r then Some (wrap (ack_abs r) isn) else None.
Proof.
  intros [Hc _ Hs]. destruct Hc as [_ _ Hn _ _ _ _]. destruct HS.
  unfold TCPReceiver.ackno, ack_abs, StreamReassembler.get_next_index, TCPReceiver.stream_out, StreamReassembler.stream_out.
  destruct (TCPReceiver._syn_recived r); [|done]. rewrite Hs, TCPReceiver.wrapping_of_raw by done. simpl. do 2 f_equal.
  split_if; rewrite u64_small; lia.
Qed.

Lemma within_ack N del r : TCPReceiver.inv S isn cap del r -> within S N r -> 0 <= N -> ack_abs r <= N.
Proof.
  intros [Hc _ _] [W1 W2 _ _ W5] H0. unfold ack_abs. destruct (TCPReceiver._syn_recived r); [|lia]. specialize (W1 eq_refl).
  destruct (ended r) eqn:E; [|lia]. rewrite (StreamReassembler.con_ended _ _ _ _ Hc E), W5 by done. lia.
Qed.

Lemma ack_abs_bound del r : TCPReceiver.inv S isn cap del r -> 0 <= ack_abs r <= zlen S + 2.
Proof.
  intros [Hc _ _]. pose proof (StreamReassembler.con_next _ _ _ _ Hc). pose_zlen. unfold ack_abs.
  destruct (TCPReceiver._syn_recived r); [|lia]. destruct (ended r); lia.
Qed.

Lemma ack_abs_syn del r : TCPReceiver.inv S isn cap del r -> TCPReceiver._syn_recived r = true -> 1 <= ack_abs r.
Proof.
  intros [Hc _ _] E. pose proof (StreamReassembler.con_next _ _ _ _ Hc). unfold ack_abs. rewrite E. destruct (ended r); lia.
Qed.

Lemma within_le N N' r : within S N r -> N <= N' -> N' <= zlen S + 2 -> within S N' r.
Proof.
  intros [W1 W2 W3 W4 W5] H1 H2. split.
  - intros E. specialize (W1 E). lia.
  - destruct W2; [by left|right; lia].
  - intros p b E. specialize (W3 p b E). lia.
  - intros E. specialize (W4 E). lia.
  - intros E. specialize (W5 E). lia.
Qed.

(** What a [near] segment does: nothing before SYN, else its payload goes to the
    reassembler. *)
Lemma segment_pushed del r x seg (r' := TCPReceiver.segment_received seg r) :
  TCPReceiver.inv S isn cap del r -> TCPReceiver.segment_for S isn x seg -> TCPReceiver.near r x seg ->
  (TCPReceiver._syn_recived r = false /\ 0 < x /\ r' = r) \/
  (TCPReceiver._syn_recived r' = true /\ (TCPReceiver._syn_recived r = true \/ x = 0) /\
   exists i d, StreamReassembler.segment_of S cap (text seg) i (is_fin seg) /\
     TCPReceiver._reassembler r' = StreamReassembler.push_substring (text seg) i (is_fin seg) (TCPReceiver._reassembler r) /\
     StreamReassembler.pushed (TCPReceiver._reassembler r) (text seg) i (is_fin seg) d (TCPReceiver._reassembler r') /\
     (i = TCPReceiver.stream_index x \/ (x = 0 /\ is_fin seg = false /\ i = MAX64 - 1))).
Proof.
  intros Hinv Hseg Hnear. unfold r', TCPReceiver.segment_received.
  pose proof (TCPReceiver.sf_abs _ _ _ _ Hseg) as Hx. pose proof HS as [? ?].
  destruct (TCPReceiver._syn_recived r) eqn:E; cbn [negb].
  - right. destruct (Hnear E) as [Hn Hz]. unfold TCPReceiver.accept_payload.
    pose proof (TCPReceiver.inv_syn _ _ _ _ _ Hinv) as Hs. rewrite E in Hs.
    rewrite Hs, TCPReceiver.wrapping_of_raw, (TCPReceiver.sf_seqno _ _ _ _ Hseg) by done.
    rewrite (TCPReceiver.unwrap_last S isn cap del r x) by (done || lia || tauto). split_and!; [done|by left|].
    pose proof (TCPReceiver.segment_for_substring S isn cap x seg false HS Hseg ltac:(done)) as Hsub.
    destruct (StreamReassembler.consistent_pushed S cap del _ _ _ _ ltac:(lia) (TCPReceiver.inv_stream _ _ _ _ _ Hinv) Hsub) as (d & Hd).
    eexists _, d. split_and!; [exact Hsub|done|exact Hd|].
    unfold TCPReceiver.stream_index. destruct (x =? 0) eqn:Ex; [right|left; rewrite u64_small; lia].
    apply Z.eqb_eq in Ex. subst x. split_and!; [done|by apply Hz|done].
  - rewrite (TCPReceiver.sf_syn _ _ _ _ Hseg). destruct (x =? 0) eqn:Ex; [right|left; split_and!; [done|lia|done]].
    apply Z.eqb_eq in Ex. subst x. unfold TCPReceiver.accept_payload. cbv zeta.
    assert (TCPReceiver._last_stream_no r = 0) as E0.
    { destruct Hinv as [_ [Hl ?] Hs]. rewrite E in Hs. unfold TCPReceiver.last_no in Hs. destruct (_ =? _); lia. }
    cbn [modify TCPReceiver._isn TCPReceiver._last_stream_no TCPReceiver._reassembler TCPReceiver._syn_recived].
    rewrite (TCPReceiver.sf_seqno _ _ _ _ Hseg), E0. rewrite Handshake.wrap_zero by done.
    rewrite unwrap_near by (done || lia).
    split_and!; [done|by right|].
    pose proof (TCPReceiver.segment_for_substring S isn cap 0 seg true HS Hseg (fun _ => eq_refl)) as Hsub.
    destruct (StreamReassembler.consistent_pushed S cap del _ _ _ _ ltac:(lia) (TCPReceiver.inv_stream _ _ _ _ _ Hinv) Hsub) as (d & Hd).
    eexists _, d. split_and!; [exact Hsub|done|exact Hd|by left].
Qed.

(** Where the bytes known after a segment come from. *)
Lemma merged_within N r x seg i p b :
  TCPReceiver.segment_for S isn x seg -> x + TCPSender.seg_len seg <= N -> within S N r ->
  i = TCPReceiver.stream_index x \/ (x = 0 /\ is_fin seg = false /\ i = MAX64 - 1) ->
  StreamReassembler.merged (TCPReceiver._reassembler r) (text seg) i p = Some b -> p + 2 <= N.
Proof.
  intros Hseg HN Hw Hi. unfold StreamReassembler.merged. destruct (OrderedMap.get _ _) eqn:E.
  { intros _. by eapply wi_stored. }
  split_if; [|done]. unfold StreamReassembler.offered. split_if; [|done]. intros Hg%zget_Some_range.
  pose proof (TCPReceiver.sf_syn _ _ _ _ Hseg) as Hs. pose proof (TCPReceiver.sf_abs _ _ _ _ Hseg).
  unfold TCPSender.seg_len in HN. rewrite Hs in HN. unfold Buffer.copy in *. unfold TCPReceiver.stream_index in Hi.
  destruct (x =? 0) eqn:Ex, (is_fin seg); lia.
Qed.

Lemma fin_end x seg :
  TCPReceiver.segment_for S isn x seg -> is_fin seg = true -> x + TCPSender.seg_len seg = zlen S + 2.
Proof.
  intros Hseg Hf. pose proof (TCPReceiver.sf_fin _ _ _ _ Hseg Hf) as He. pose proof (TCPReceiver.sf_syn _ _ _ _ Hseg) as Hs.
  unfold TCPSender.seg_len. rewrite Hs, Hf. unfold TCPReceiver.stream_index, Buffer.copy in He. destruct (x =? 0) eqn:?; lia.
Qed.

Lemma output_ended r d i f r0 r1 :
  StreamReassembler.pushed r0 d i f r r1 ->
  ByteStream.input_ended (StreamReassembler._output r1) = true ->
  ByteStream.input_ended (StreamReassembler._output r0) = true \/ StreamReassembler._eof r1 = true.
Proof.
  intros [_ _ (o & -> & Ho) _ _ _ _ _]. rewrite Ho.
  destruct (StreamReassembler._eof r1); [by right|]. rewrite andb_false_r. by left.
Qed.

Lemma output_stays_ended r d i f r0 r1 :
  StreamReassembler.pushed r0 d i f r r1 ->
  ByteStream.input_ended (StreamReassembler._output r0) = true ->
  ByteStream.input_ended (StreamReassembler._output r1) = true.
Proof. intros [_ _ (o & -> & Ho) _ _ _ _ _] E. rewrite Ho. by split_if. Qed.

Lemma segment_within N del r x seg (r' := TCPReceiver.segment_received seg r) :
  TCPReceiver.inv S isn cap del r -> TCPReceiver.segment_for S isn x seg -> TCPReceiver.near r x seg ->
  x + TCPSender.seg_len seg <= N -> N <= zlen S + 2 -> within S N r -> within S N r' /\ ack_abs r <= ack_abs r'.
Proof.
  intros Hinv Hseg Hnear HN HN' Hw.
  destruct (segment_pushed del r x seg Hinv Hseg Hnear) as [(_ & _ & E)|(Hs & Hs0 & i & d & _ & _ & Hp & Hi)];
    [unfold r'; rewrite E; by split; [|lia]|].
  fold r' in Hs, Hp. pose proof Hp as [Hinv' Hn _ Hb Hg Hst He _].
  pose proof (StreamReassembler.con_next _ _ _ _ (TCPReceiver.inv_stream _ _ _ _ _ Hinv)) as Hn0. pose_zlen. split.
  - split.
    + intros _. destruct Hs0 as [Hs0| ->]; [by apply (wi_syn _ _ _ Hw)|]. unfold TCPSender.seg_len in HN.
      rewrite (TCPReceiver.sf_syn _ _ _ _ Hseg) in HN. pose_zlen. simpl in HN. destruct (is_fin seg); lia.
    + destruct (Z.eq_dec (zlen d) 0) as [E|E]; [rewrite Hn, E, Z.add_0_r; apply Hw|right].
      specialize (Hb (index r' - 1) ltac:(lia)). destruct (proj2 (zget_is_Some d (index r' - 1 - index r))) as [b Hd]; [lia|].
      rewrite Hd in Hb. symmetry in Hb. eapply merged_within in Hb; [|done..]. lia.
    + intros p b E. rewrite Hst in E; [by eapply merged_within|].
      eapply OrderedMap.get_range in E; [|by destruct Hinv']. lia.
    + rewrite He. destruct (is_fin seg) eqn:Ef; [intros _; pose proof (fin_end _ _ Hseg Ef); lia|exact (wi_eof _ _ _ Hw)].
    + intros E. destruct (output_ended _ _ _ _ _ _ Hp E) as [E'|E']; [exact (wi_ended _ _ _ Hw E')|].
      rewrite He in E'. destruct (is_fin seg) eqn:Ef; [pose proof (fin_end _ _ Hseg Ef); lia|exact (wi_eof _ _ _ Hw E')].
  - unfold ack_abs. rewrite Hs. destruct (TCPReceiver._syn_recived r); [|split_if; lia].
    destruct (ended r) eqn:E; [|split_if; lia]. pose proof (output_stays_ended _ _ _ _ _ _ Hp E) as E'.
    change (ended r') with (ByteStream.input_ended (StreamReassembler._output (TCPReceiver._reassembler r'))). rewrite E'. lia.
Qed.

(** A segment that starts in what was acknowledged and fits the window is
    acknowledged whole. *)
Lemma segment_accepted del r x seg (r' := TCPReceiver.segment_received seg r) :
  TCPReceiver.inv S isn cap del r -> TCPReceiver.segment_for S isn x seg -> TCPReceiver.near r x seg ->
  x <= ack_abs r -> (x = 0 -> TCPSender.seg_len seg = 1) ->
  TCPReceiver.stream_index x + zlen (text seg) <= zlen del + cap -> (is_fin seg = true -> zlen S < zlen del + cap) ->
  x + TCPSender.seg_len seg <= ack_abs r'.
Proof.
  intros Hinv Hseg Hnear Hx Hx0 Hfit Hfin.
  pose proof (TCPReceiver.inv_stream _ _ _ _ _ Hinv) as Hcon. pose proof (TCPReceiver.sf_abs _ _ _ _ Hseg) as Habs.
  destruct (segment_pushed del r x seg Hinv Hseg Hnear) as [(Hs & H0 & _)|(Hs & Hs0 & i & d & Hso & Er & Hp & Hi)].
  { unfold ack_abs in Hx. rewrite Hs in Hx. lia. }
  fold r' in Hs, Er, Hp. pose proof (proj2 HS) as HS64.
  assert (StreamReassembler.window_end (TCPReceiver._reassembler r) = zlen del + cap /\ zlen del <= zlen S) as [Hwe Hdel].
  { destruct Hcon as [[Hwf _ _] Hcap Hn Hpre _ _ _]. unfold StreamReassembler.window_end.
    rewrite ByteStream.remaining_capacity_wf, Hcap by done. apply (f_equal zlen) in Hpre. rewrite zlen_app, zlen_ztake in Hpre. pose_zlen. lia. }
  pose proof (StreamReassembler.con_next _ _ _ _ Hcon) as Hn0. pose proof Hp as [_ Hn _ _ Hg _ He Hei]. pose_zlen.
  destruct (Z.eq_dec x 0) as [E0|E0].
  { rewrite Hx0 by done. subst x. unfold ack_abs. rewrite Hs. destruct (ended r'); lia. }
  destruct Hi as [Hi|(? & _)]; [|lia]. assert (i = x - 1) as -> by (rewrite Hi; unfold TCPReceiver.stream_index; split_if; lia). clear Hi.
  replace (TCPReceiver.stream_index x) with (x - 1) in * by (unfold TCPReceiver.stream_index; split_if; lia).
  assert (TCPSender.seg_len seg = zlen (text seg) + (if is_fin seg then 1 else 0)) as Hlen.
  { unfold TCPSender.seg_len. rewrite (TCPReceiver.sf_syn _ _ _ _ Hseg). replace (x =? 0) with false by lia. unfold Buffer.copy. lia. }
  unfold ack_abs in Hx. destruct Hs0 as [Hs0|]; [|lia]. rewrite Hs0 in Hx.
  destruct (ended r) eqn:Een.
  { pose proof (output_stays_ended _ _ _ _ _ _ Hp Een) as Een'. unfold ack_abs. rewrite Hs.
    change (ended r') with (ByteStream.input_ended (StreamReassembler._output (TCPReceiver._reassembler r'))). rewrite Een'.
    rewrite (StreamReassembler.con_ended _ _ _ _ Hcon Een) in *.
    destruct (is_fin seg) eqn:Ef; [pose proof (fin_end _ _ Hseg Ef); lia|].
    destruct (TCPReceiver.segment_for_length _ _ _ _ Hseg) as [Hz|Hz]; [lia|].
    unfold TCPReceiver.stream_index in Hz. replace (x =? 0) with false in Hz by lia. lia. }
  assert (forall p, index r <= p < x - 1 + zlen (text seg) ->
    is_Some (StreamReassembler.merged (TCPReceiver._reassembler r) (text seg) (x - 1) p)) as Hk.
  { intros p Hpp. unfold StreamReassembler.merged, StreamReassembler.offered. rewrite Hwe. destruct (OrderedMap.get _ _); [done|].
    replace (_ && _) with true by lia. replace (_ <? MAX64) with true by (unfold TCPReceiver.fits in HS; lia).
    apply zget_is_Some. lia. }
  destruct (is_fin seg) eqn:Ef.
  - pose proof (fin_end _ _ Hseg Ef) as Hend. specialize (Hfin eq_refl).
    assert (0 < ByteStream.remaining_capacity (StreamReassembler._output (TCPReceiver._reassembler r))) as Hroom.
    { unfold StreamReassembler.window_end in Hwe. lia. }
    destruct (StreamReassembler.push_completes S cap del (TCPReceiver._reassembler r) (text seg) (x - 1) true) as (Hn' & Hend' & _); try done.
    + unfold TCPReceiver.fits in HS. lia.
    + intros p Hpp. apply Hk. lia.
    + rewrite <- Er. by rewrite He.
    + rewrite <- Er, Hei, u64_small; lia.
    + rewrite <- Er in Hn', Hend'. unfold ack_abs. rewrite Hs. change (ended r') with (ByteStream.input_ended (StreamReassembler._output (TCPReceiver._reassembler r'))).
      rewrite Hend', Hn'. lia.
  - assert (x - 1 + zlen (text seg) <= index r') as Hix.
    { apply Z.nlt_ge. intros Hlt. destruct (Hk (index r')) as [b Hb]; [lia|congruence]. }
    unfold ack_abs. rewrite Hs. destruct (ended r'); lia.
Qed.

End receiver.

(** ** The connection *)

Abbreviation sender c := (TCPConnection._sender c).
Abbreviation receiver c := (TCPConnection._receiver c).
Abbreviation queue c := (TCPConnection._segments_out c).
Abbreviation win_of c := (Z.min (TCPReceiver.window_size (receiver c)) 65535).

(** No stream of the connection was reset. *)
Definition calm (c : TCPConnection.t) : Prop :=
  ByteStream.error (TCPSender._stream (sender c)) = false /\ ByteStream.error (TCPConnection.inbound_stream c) = false.

(** The fields that say which numbers a segment carries. *)
Record copy_of (seg seg' : TCPSegment.t) : Prop := {
  cp_seqno : TCPHeader.seqno (TCPSegment.header seg') = TCPHeader.seqno (TCPSegment.header seg);
  cp_syn : TCPHeader.syn (TCPSegment.header seg') = TCPHeader.syn (TCPSegment.header seg);
  cp_fin : TCPHeader.fin (TCPSegment.header seg') = TCPHeader.fin (TCPSegment.header seg);
  cp_rst : TCPHeader.rst (TCPSegment.header seg') = TCPHeader.rst (TCPSegment.header seg);
  cp_payload : TCPSegment.payload seg' = TCPSegment.payload seg }.

Lemma finish_copy a w seg : copy_of seg (TCPConnection.finish_segment a w seg).
Proof.
  unfold TCPConnection.finish_segment. destruct a as [a|]; [destruct (negb _)|]; destruct (_ =? _); by split.
Qed.

Lemma copy_segment S isn x seg seg' :
  copy_of seg seg' -> TCPReceiver.segment_for S isn x seg -> TCPReceiver.segment_for S isn x seg'.
Proof. intros [C1 C2 C3 _ C5] [S1 S2 S3 S4 S5 S6]. split; rewrite ?C1, ?C2, ?C3, ?C5; done. Qed.

Lemma copy_len seg seg' : copy_of seg seg' -> TCPSender.seg_len seg' = TCPSender.seg_len seg.
Proof. intros [C1 C2 C3 _ C5]. unfold TCPSender.seg_len. by rewrite C2, C3, C5. Qed.

Lemma copy_below S isn N seg seg' : copy_of seg seg' -> below S isn N seg -> below S isn N seg'.
Proof.
  intros C [(x & Hx & HN) Hr]. split; [|by rewrite (cp_rst _ _ C)]. exists x. rewrite (copy_len _ _ C).
  split; [by eapply copy_segment|done].
Qed.

(** The segment acknowledges at most [N] of the stream numbered from [isn]. *)
Definition acks_upto (isn : WrappingInt32) (N : Z) (seg : TCPSegment.t) : Prop :=
  TCPHeader.ack (TCPSegment.header seg) = true ->
  exists k, 1 <= k <= N /\ TCPHeader.ackno (TCPSegment.header seg) = wrap k isn.

Definition acked_by (isn : WrappingInt32) (A : Z) (seg : TCPSegment.t) : Prop :=
  if TCPHeader.ack (TCPSegment.header seg)
  then 1 <= A /\ TCPHeader.ackno (TCPSegment.header seg) = wrap A isn else A = 0.

Section connection.
Context (S : bytes) (isn : WrappingInt32) (S' : bytes) (isn' : WrappingInt32) (cap : Z).
Context (HS31 : zlen S < 2147483640) (HS31' : zlen S' < 2147483640) (Hcap : 0 <= cap < MAX32) (Hisn' : wf isn').

Abbreviation base := (TCPConnection.base S isn S' isn' cap).
Abbreviation inv := (TCPConnection.inv S isn S' isn' cap).

Abbreviation HS := (Handshake.HS S HS31).
Abbreviation HS' := (Handshake.HS' S' cap HS31' Hcap).

Lemma base_bounds hist del c : base hist del c -> 0 <= la (sender c) <= nx (sender c) /\ nx (sender c) <= zlen S + 2.
Proof.
  intros [Hs _ _ _]. pose proof (TCPSender.core_ack _ _ (TCPSender.inv_core _ _ _ Hs)).
  pose proof (TCPSender.next_bound _ _ _ HS Hs). lia.
Qed.

(** While something is not acknowledged, or the inbound stream is open, the
    connection is active. *)
Lemma waiting_active hist del c : inv hist del c -> calm c -> la (sender c) < nx (sender c) -> TCPConnection.active c = true.
Proof.
  intros [Hb _ _] [H1 H2] Hl. unfold TCPConnection.active, TCPSender.stream_in. unfold TCPConnection.inbound_stream in H2.
  rewrite H1, H2. cbn [orb]. split_if; [|done]. pose proof (TCPConnection.base_sender _ _ _ _ _ _ _ _ Hb) as Hs.
  rewrite (TCPSender.inv_in_flight S hist _ HS Hs). destruct (TCPSender.inv_oldest _ _ _ Hs) as [Ho _].
  by replace (_ =? 0) with false by lia.
Qed.

Lemma open_active c : calm c -> ByteStream.eof (TCPConnection.inbound_stream c) = false -> TCPConnection.active c = true.
Proof.
  intros [H1 H2] He. unfold TCPConnection.active, TCPSender.stream_in. unfold TCPConnection.inbound_stream in *.
  by rewrite He, andb_false_r, H1, H2.
Qed.

(** A connection that was not reset is over only when both streams are finished. *)
Lemma inactive_done hist del c : inv hist del c -> calm c -> TCPConnection.active c = false ->
  la (sender c) = nx (sender c) /\ ended (receiver c) = true.
Proof.
  intros [Hb _ _] [H1 H2] Ha. pose proof (TCPConnection.base_sender _ _ _ _ _ _ _ _ Hb) as Hs.
  unfold TCPConnection.active, TCPSender.stream_in in Ha. unfold TCPConnection.inbound_stream in H2. rewrite H1, H2 in Ha. cbn [orb] in Ha.
  destruct (_ && _) eqn:E; [|done]. apply andb_true_iff in E as [_ [_ E]%TCPSender.eof_drained]. split; [|done].
  rewrite (TCPSender.inv_in_flight S hist _ HS Hs) in Ha. destruct (TCPSender.inv_oldest _ _ _ Hs) as [Ho _].
  destruct (base_bounds _ _ _ Hb). destruct (_ =? 0) eqn:Ez; [lia|done].
Qed.

(** When the FIN is acknowledged, the inbound stream of the peer has ended. *)
Lemma fin_sent_next hist s : TCPSender.inv S hist s -> TCPSender._fin_sent s = true -> nx s = zlen S + 2.
Proof.
  intros [_ Hd] Hf. pose proof (TCPSender.data_fin _ _ _ Hd Hf) as [E1 E2]%TCPSender.eof_drained.
  pose proof (TCPSender.data_ended _ _ _ Hd E2) as Hend. rewrite E1, app_nil_r in Hend.
  destruct (TCPSender.data_next _ _ _ Hd) as [(_ & _ & ?)|Hn]; [congruence|]. rewrite Hf in Hn. subst S. lia.
Qed.

Lemma ack_abs_ended del r : TCPReceiver.inv S' isn' cap del r -> ack_abs r = zlen S' + 2 -> ended r = true.
Proof.
  intros [Hc _ _]. pose proof (StreamReassembler.con_next _ _ _ _ Hc). pose_zlen. unfold ack_abs.
  destruct (TCPReceiver._syn_recived r); [|lia]. destruct (ended r); [done|lia].
Qed.

Lemma clocked_oldest hist s e os :
  TCPSender.inv S hist s -> TCPSender._segments_outstanding s = e :: os -> clocked (e.1.1 + TCPSender.seg_len e.2) s.
Proof.
  intros Hinv E. destruct (TCPSender.inv_core _ _ _ Hinv) as [_ (lo & _ & Hc) _ Hh _ _ _ _ _ _]. rewrite E in *.
  destruct e as [[x f] seg]. destruct Hc as (-> & _ & _ & Hc). simpl in *. split; [rewrite E|by apply TCPSender.contig_le in Hc|simpl; lia].
  constructor; [left; simpl; lia|]. eapply Forall_impl; [by eapply TCPSender.contig_after|]. intros e' [He' _]. by right.
Qed.

Lemma clocked_next hist s :
  TCPSender.inv S hist s -> (TCPSender._segments_outstanding s = [] -> timer_fresh s) -> clocked (nx s) s.
Proof.
  intros Hinv Ht. destruct (TCPSender.inv_core _ _ _ Hinv) as [_ (lo & _ & Hc) Ha Hh _ _ _ _ _ _]. split; [|lia|].
  - eapply Forall_impl; [by eapply contig_ends|]. intros e [_ He]. by left.
  - intros Hl. destruct (TCPSender._segments_outstanding s) as [|[[x f] seg] os] eqn:E; [by apply Ht|].
    destruct Hc as (-> & _ & _ & Hc%TCPSender.contig_le). lia.
Qed.

(** An endpoint that sends nothing has at most one segment under way. *)
Lemma one_outstanding hist s : S = [] -> TCPSender.inv S hist s -> Handshake.opening s ->
  TCPSender._segments_outstanding s = [] \/
  exists e, TCPSender._segments_outstanding s = [e] /\ e.1.1 + TCPSender.seg_len e.2 = nx s.
Proof.
  intros ES Hinv [_ Hf _ _]. pose proof (TCPSender.next_bound _ _ _ HS Hinv) as Hn.
  assert (zlen S = 0) as Hz by (by rewrite ES).
  destruct (TCPSender.inv_core _ _ _ Hinv) as [_ (lo & Hlo & Hc) _ Hh _ _ _ _ _ _].
  destruct (TCPSender._segments_outstanding s) as [|[[x f] seg] [|[[x2 f2] seg2] os]]; [by left|right|exfalso].
  - eexists. split; [done|]. simpl. by destruct Hc as (-> & _ & _ & Hc).
  - destruct Hc as (-> & _ & H1 & -> & _ & H2 & Hc%TCPSender.contig_le). assert (la s = 0) as Hl by lia. specialize (Hf Hl). lia.
Qed.

Lemma deliver_moved hist del c seg A :
  base hist del c -> Handshake.opening (sender c) -> acked_by isn A seg -> A <= nx (sender c) ->
  0 <= TCPHeader.win (TCPSegment.header seg) < MAX16 ->
  moved S A (sender c) (sender (TCPConnection.deliver seg c)).
Proof.
  intros Hb Hop Hack HA Hw. destruct (base_bounds _ _ _ Hb). unfold TCPConnection.deliver, acked_by in *. cbv zeta.
  destruct (TCPHeader.ack (TCPSegment.header seg)).
  - destruct Hack as [H1 E]. destruct Hb as [Hs Hi _ _]. cbn [TCPConnection._sender modify]. rewrite E, <- Hi.
    by eapply ack_moved; [apply HS|..].
  - subst A. cbn [TCPConnection._sender modify]. apply moved_refl; lia.
Qed.

Lemma reply_moved hist del c seg :
  base hist del c -> Handshake.opening (sender c) -> moved S 0 (sender c) (sender (TCPConnection.reply seg c)).
Proof.
  intros Hb Hop. destruct (base_bounds _ _ _ Hb) as [Hla Hnx].
  pose proof (TCPConnection.base_sender _ _ _ _ _ _ _ _ Hb) as Hs.
  unfold TCPConnection.reply. cbv zeta. set (c1 := if TCPConnection.keep_alive seg c then _ else c).
  assert (base hist del c1 /\ Handshake.opening (sender c1) /\ moved S 0 (sender c) (sender c1)) as (Hb1 & Hop1 & Hm1).
  { unfold c1. destruct (TCPConnection.keep_alive seg c); [|split_and!; [done|done|apply moved_refl; lia]].
    split_and!; [apply (TCPConnection.empty_step _ _ _ _ _ HS); [done|apply Hop]
      |eapply Handshake.empty_sends; [apply HS|done..]|by eapply empty_moved; [apply HS|..]]. }
  clearbody c1. destruct (negb _); [|done]. pose proof (TCPConnection.base_sender _ _ _ _ _ _ _ _ Hb1) as Hi1.
  pose proof (Handshake.fill_window_sends S HS _ _ Hi1 Hop1) as Hs2. pose proof (fill_moved S HS _ _ Hi1 Hop1) as Hm2.
  assert (moved S 0 (sender c) (TCPSender.fill_window (sender c1))) as Hm12 by (apply (moved_trans S 0 (sender c) (sender c1)); done || lia).
  destruct (TCPConnection.fill_step _ _ _ _ _ HS _ _ _ Hb1) as (hist' & Hb2 & _).
  set (c2 := c1 <| TCPConnection._sender := _ |>) in *. split_if; [|done].
  eapply (moved_trans S 0 (sender c)); [lia|lia|exact Hm12|]. eapply empty_moved; [apply HS|apply Hb2|apply Hs2].
Qed.

Lemma received_sender hist del c x seg A (c' := TCPConnection.segment_received seg c) :
  inv hist del c -> Handshake.opening (sender c) -> TCPConnection.active c = true ->
  TCPHeader.rst (TCPSegment.header seg) = false -> TCPReceiver.segment_for S' isn' x seg ->
  TCPReceiver.near (receiver c) x seg -> acked_by isn A seg -> A <= nx (sender c) ->
  0 <= TCPHeader.win (TCPSegment.header seg) < MAX16 ->
  receiver c' = TCPReceiver.segment_received seg (receiver c) /\
  exists s', moved S A (sender c) s' /\ sender c' = s' <| TCPSender._segments_out := [] |> /\
    queue c' = queue c ++ map (TCPConnection.finish_segment (TCPReceiver.ackno (receiver c')) (win_of c')) (TCPSender._segments_out s') /\
    Forall TCPSender.plain (TCPSender._segments_out s') /\
    (TCPSegment.length_in_sequence_space seg <> 0 -> TCPSender._segments_out s' <> []).
Proof.
  intros [Hb Hq Hsy] Hop Ha Hr Hseg Hnear Hack HA Hw. unfold c'.
  destruct (TCPConnection.segment_received_eq seg c Ha Hr) as [linger ->].
  set (c1 := _ <| TCPConnection._linger_after_streams_finish := _ |>).
  assert (base hist del c1) as Hb1 by (destruct Hb; by split).
  destruct (TCPConnection.deliver_base _ _ _ _ _ HS HS' Hisn' _ _ _ _ _ Hb1 Hseg (TCPReceiver.near_placed _ _ _ _ _ Hnear) Hw) as (hist1 & Hb2 & Hn2 & Hr2).
  pose proof (deliver_moved _ _ c1 seg A Hb1 Hop Hack HA Hw) as Hm1.
  assert (Handshake.opening (sender (TCPConnection.deliver seg c1))) as Hop2.
  { eapply (Handshake.deliver_sends S isn S' isn' cap HS31 hist del c1); try done. intros E. unfold acked_by in Hack. rewrite E in Hack.
    destruct (base_bounds _ _ _ Hb). exists A. split; [lia|apply Hack]. }
  pose proof (reply_moved _ _ _ seg Hb2 Hop2) as Hm2. destruct (base_bounds _ _ _ Hb) as [Hla _].
  destruct (TCPConnection.reply_base _ _ _ _ _ HS _ _ _ seg Hb2) as (hist2 & Hb3 & Hr3 & _); [intros _ _; apply Hop2|].
  set (c3 := TCPConnection.reply seg (TCPConnection.deliver seg c1)) in *.
  assert (receiver c3 = TCPReceiver.segment_received seg (receiver c)) as Erc by (rewrite Hr3, Hr2; done).
  split; [exact Erc|]. exists (sender c3). split_and!.
  - unfold acked_by in Hack. eapply (moved_trans S A (sender c)); [lia| |exact Hm1|exact Hm2]. destruct (TCPHeader.ack _); lia.
  - done.
  - unfold TCPConnection.pop_and_send_segments. cbv zeta. simpl. f_equal. unfold c3. by rewrite TCPConnection.reply_out, TCPConnection.deliver_out.
  - eapply Forall_impl; [exact (TCPSender.core_out _ _ (TCPSender.inv_core _ _ _ (TCPConnection.base_sender _ _ _ _ _ _ _ _ Hb3)))|].
    by intros ? [].
  - intros Hl. exact (TCPConnection.reply_queue seg _ Hl).
Qed.

(** What the segments say that the connection finishes. *)
Lemma finished_acks del r w new : TCPReceiver.inv S' isn' cap del r -> Forall TCPSender.plain new ->
  Forall (acks_upto isn' (ack_abs r)) (map (TCPConnection.finish_segment (TCPReceiver.ackno r) w) new).
Proof.
  intros Hr Hpl. apply Forall_map. eapply Forall_impl; [exact Hpl|]. intros sg [_ Hna _] Hk.
  destruct (Handshake.finish_header (TCPReceiver.ackno r) w sg) as (_ & _ & _ & Hfa & _).
  pose proof (eq_trans (eq_sym (Hfa Hna Hk)) (ackno_abs S' isn' cap HS' Hisn' del r Hr)) as Efa.
  destruct (TCPReceiver._syn_recived r) eqn:Esyn; [|done]. injection Efa as Efa. exists (ack_abs r).
  split; [|exact Efa]. split; [by eapply ack_abs_syn|reflexivity].
Qed.

Lemma finished_below N a w new : Forall (below S isn N) new -> Forall (below S isn N) (map (TCPConnection.finish_segment a w) new).
Proof. intros Hn. apply Forall_map. eapply Forall_impl; [exact Hn|]. intros sg Hsg. eapply copy_below; [apply finish_copy|exact Hsg]. Qed.

Lemma acks_grow N N' l : N <= N' -> Forall (acks_upto isn' N) l -> Forall (acks_upto isn' N') l.
Proof.
  intros HN Hl. eapply Forall_impl; [exact Hl|]. intros sg Ha Hk. destruct (Ha Hk) as (k & Hk' & ?). exists k. split; [lia|done].
Qed.

Lemma below_grow N N' l : N <= N' -> Forall (below S isn N) l -> Forall (below S isn N') l.
Proof. intros HN Hl. eapply Forall_impl; [exact Hl|]. intros. by eapply below_le. Qed.

Lemma acks_some A0 seg : 0 <= A0 -> acks_upto isn A0 seg -> exists A, acked_by isn A seg /\ 0 <= A <= A0.
Proof.
  intros H0 Hak. unfold acked_by. destruct (TCPHeader.ack (TCPSegment.header seg)) eqn:E; [|by exists 0; split; [|lia]].
  destruct (Hak E) as (k & Hk & Ek). exists k. split; [split; [lia|done]|lia].
Qed.

(** A segment acknowledges one number below [2^32]. *)
Lemma acked_unique A A' seg : A < MAX32 -> A' < MAX32 -> acked_by isn A seg -> acked_by isn A' seg -> A = A'.
Proof.
  intros H1 H2. unfold acked_by. destruct (TCPHeader.ack _); [|intros; lia]. intros [? E] [? E']. rewrite E in E'.
  apply (f_equal raw_value) in E'. rewrite !raw_wrap in E'. word.
Qed.

(** ** A batch of segments

    [del] is what the owner has read; the peer has used the numbers below [Np] and
    has received ours below [Ap]. *)
Section batch.
Context (del : bytes) (Np Ap : Z) (HNp : Np <= zlen S' + 2) (HAp : 0 <= Ap).

(** An endpoint between two segments of the batch. *)
Record sound (c : TCPConnection.t) : Prop := {
  so_inv : exists hist, inv hist del c;
  so_opening : Handshake.opening (sender c);
  so_calm : calm c;
  so_within : within S' Np (receiver c);
  so_acks : Forall (acks_upto isn' (ack_abs (receiver c))) (queue c);
  so_below : Forall (below S isn (nx (sender c))) (queue c);
  so_peer : la (sender c) <= Ap <= nx (sender c);
  so_synced : TCPReceiver.synced S' (receiver c) }.

Lemma sound_fields c : 0 <= Np -> sound c ->
  0 <= la (sender c) <= Ap /\ Ap <= nx (sender c) <= zlen S + 2 /\ 1 <= nx (sender c) /\ 0 <= ack_abs (receiver c) <= Np.
Proof.
  intros H0 Hs. destruct (so_inv _ Hs) as [hist Hinv]. pose proof (TCPConnection.inv_base _ _ _ _ _ _ _ _ Hinv) as Hb.
  destruct (base_bounds _ _ _ Hb). pose proof (so_peer _ Hs). pose proof (Handshake.op_started _ (so_opening _ Hs)).
  pose proof (TCPConnection.base_receiver _ _ _ _ _ _ _ _ Hb) as Hr.
  pose proof (within_ack _ _ _ _ _ _ Hr (so_within _ Hs) H0). destruct (ack_abs_bound _ _ _ _ _ Hr). lia.
Qed.

(** What a batch changes. *)
Record took (c c' : TCPConnection.t) : Prop := {
  tk_la : la (sender c) <= la (sender c');
  tk_nx : nx (sender c) <= nx (sender c');
  tk_backup : TCPSender._init_timer_backup (sender c') = TCPSender._init_timer_backup (sender c);
  tk_clocked : forall N, clocked N (sender c) -> clocked N (sender c');
  tk_supplied : forall N, Ap <= N -> supplied N (sender c) -> supplied N (sender c');
  tk_ack : ack_abs (receiver c) <= ack_abs (receiver c');
  tk_ended : ended (receiver c) = true -> ended (receiver c') = true;
  tk_queue : exists new, queue c' = queue c ++ new /\
    Forall (fun e => e ∈ TCPSender._segments_outstanding (sender c) \/ exists seg, seg ∈ new /\ copy_of e.2 seg)
      (TCPSender._segments_outstanding (sender c')) }.

Lemma took_refl c : took c c.
Proof.
  split; try done; try lia. exists []. rewrite app_nil_r. split; [done|]. apply Forall_forall. intros e He. by left.
Qed.

Lemma took_trans c1 c2 c3 : took c1 c2 -> took c2 c3 -> took c1 c3.
Proof.
  intros [L1 N1 B1 C1 U1 A1 E1 (n1 & Q1 & O1)] [L2 N2 B2 C2 U2 A2 E2 (n2 & Q2 & O2)].
  split; try lia; try congruence; auto. exists (n1 ++ n2). split; [by rewrite Q2, Q1, app_assoc|].
  rewrite Forall_forall in O1, O2 |- *. intros e He. destruct (O2 e He) as [He'|(seg & Hin & Hc)].
  - destruct (O1 e He') as [|(seg & Hin & Hc)]; [by left|right]. exists seg. split; [apply elem_of_app; by left|done].
  - right. exists seg. split; [apply elem_of_app; by right|done].
Qed.

(** A segment of the peer. *)
Record incoming (seg : TCPSegment.t) : Prop := {
  ic_emits : TCPSender.emits S' isn' seg;
  ic_below : below S' isn' Np seg;
  ic_acks : acks_upto isn Ap seg }.

Lemma receiver_error_kept r x seg :
  TCPReceiver.inv S' isn' cap del r -> TCPReceiver.segment_for S' isn' x seg -> TCPReceiver.near r x seg ->
  ByteStream.error (TCPReceiver.stream_out (TCPReceiver.segment_received seg r)) = ByteStream.error (TCPReceiver.stream_out r) /\
  (ended r = true -> ended (TCPReceiver.segment_received seg r) = true).
Proof.
  intros Hr Hseg Hnear.
  destruct (segment_pushed S' isn' cap HS' Hisn' del r x seg Hr Hseg Hnear) as [(_ & _ & ->)|(_ & _ & i & d & _ & _ & Hp & _)]; [done|].
  split; [|exact (output_stays_ended _ _ _ _ _ _ Hp)].
  destruct Hp as [_ _ (o & -> & Ho) _ _ _ _ _]. unfold TCPReceiver.stream_out, StreamReassembler.stream_out. rewrite Ho. by split_if.
Qed.

(** A step of the sender inside a connection. *)
Lemma moved_took A c c' s' a w :
  moved S A (sender c) s' -> sender c' = s' <| TCPSender._segments_out := [] |> -> 0 <= la (sender c) -> A <= Ap ->
  ack_abs (receiver c) <= ack_abs (receiver c') -> (ended (receiver c) = true -> ended (receiver c') = true) ->
  (exists new, queue c' = queue c ++ map (TCPConnection.finish_segment a w) new /\
    Forall (fun e => e ∈ TCPSender._segments_outstanding (sender c) \/ e.2 ∈ new) (TCPSender._segments_outstanding s')) -> took c c'.
Proof.
  intros [_ Hla Hnx Hbk _ Hck Hsu _] Es H0 HA Hack Hend (new0 & Eq & Hcov). split; rewrite ?Es; cbn; try done; try lia.
  - intros N HN. destruct (Hck N HN) as [K1 K2 K3]. split; [done|done|]. intros H. by destruct (K3 H).
  - intros N HN Hs0. destruct (Hsu N ltac:(lia) Hs0). by split.
  - eexists. split; [exact Eq|]. eapply Forall_impl; [exact Hcov|]. intros e [He0|He0]; [by left|right].
    eexists. split; [by apply list_elem_of_fmap_2|apply finish_copy].
Qed.

(** The first of the segments that are finished acknowledges what was received. *)
Lemma finished_answer r l w sg new : TCPReceiver.inv S' isn' cap del r -> TCPSender.plain sg -> 1 <= ack_abs r ->
  exists ans, ans ∈ l ++ map (TCPConnection.finish_segment (TCPReceiver.ackno r) w) (sg :: new) /\ acked_by isn' (ack_abs r) ans.
Proof.
  intros Hr Hpl H1. exists (TCPConnection.finish_segment (TCPReceiver.ackno r) w sg).
  split; [apply elem_of_app; right; left|]. rewrite (ackno_abs S' isn' cap HS' Hisn' del r Hr).
  assert (TCPReceiver._syn_recived r = true) as -> by (unfold ack_abs in H1; by destruct (TCPReceiver._syn_recived _)).
  destruct Hpl as [_ Hna _]. unfold acked_by, TCPConnection.finish_segment. rewrite Hna. cbn [negb]. by destruct (_ =? _).
Qed.

(** One segment arrives at an active endpoint. *)
Lemma active_step c x seg (c' := TCPConnection.segment_received seg c) :
  sound c -> incoming seg -> TCPReceiver.segment_for S' isn' x seg -> x + TCPSender.seg_len seg <= Np ->
  TCPReceiver.near (receiver c) x seg -> TCPConnection.active c = true ->
  sound c' /\ took c c' /\ receiver c' = TCPReceiver.segment_received seg (receiver c) /\
  (forall A, acked_by isn A seg -> A <= Ap -> A <= la (sender c')) /\
  (TCPSegment.length_in_sequence_space seg <> 0 -> 1 <= ack_abs (receiver c') ->
   exists ans, ans ∈ queue c' /\ acked_by isn' (ack_abs (receiver c')) ans).
Proof.
  intros Hs Hi Hseg HxN Hnear Hact. pose proof Hs as [[hist Hinv] Hop Hcalm Hwi Hacks Hbel Hpeer Hsy].
  pose proof Hi as [[Hwf He] [_ Hrst] Hak]. pose proof (TCPHeader.wf_win _ (TCPSegment.wf_header _ Hwf)) as Hwin.
  destruct (acks_some Ap seg HAp Hak) as (A & HA & HAb).
  destruct (received_sender hist del c x seg A Hinv Hop Hact Hrst Hseg Hnear HA ltac:(lia) Hwin)
    as (Erc & s' & Hm & Es & Eq & Hpl & Hne). fold c' in Erc, Es, Eq.
  pose proof (TCPConnection.base_receiver _ _ _ _ _ _ _ _ (TCPConnection.inv_base _ _ _ _ _ _ _ _ Hinv)) as Hr.
  destruct (TCPConnection.segment_received_inv _ _ _ _ _ HS HS' Hisn' hist del c x seg Hinv
      (or_intror (conj Hseg (TCPReceiver.near_placed _ _ _ _ _ Hnear))) Hwin)
    as [hist' Hinv']. fold c' in Hinv'.
  pose proof (TCPConnection.base_receiver _ _ _ _ _ _ _ _ (TCPConnection.inv_base _ _ _ _ _ _ _ _ Hinv')) as Hr'.
  destruct (segment_within S' isn' cap HS' Hisn' Np del (receiver c) x seg Hr Hseg Hnear HxN HNp Hwi) as [Hwi' Hmono].
  destruct (receiver_error_kept (receiver c) x seg Hr Hseg Hnear) as [Herr Hend]. rewrite <- Erc in Hwi', Hmono, Herr, Hend.
  destruct (base_bounds _ _ _ (TCPConnection.inv_base _ _ _ _ _ _ _ _ Hinv)) as [Hb1 Hb2].
  assert (Handshake.opening (sender c')) as Hop'.
  { eapply (Handshake.received_advance S isn S' isn' cap HS31 HS31' Hcap Hisn' hist del c x); try done; [|by right].
    intros E. destruct (Hak E) as (k & Hk & Ek). exists k. split; [lia|done]. }
  pose proof (TCPConnection.inv_queue _ _ _ _ _ _ _ _ Hinv) as E0.
  pose proof (TCPConnection.base_isn _ _ _ _ _ _ _ _ (TCPConnection.inv_base _ _ _ _ _ _ _ _ Hinv)) as Ei.
  pose proof Hm as [_ Hla Hnx _ Herrs _ _ (new & Enew & Hbn & Hcov)]. rewrite E0 in Enew. cbn [app] in Enew. rewrite Ei in Hbn.
  rewrite Enew in Eq, Hpl, Hne. split_and!.
  - split; [by exists hist'|done| |done|rewrite Eq|rewrite Eq, Es|rewrite Es; cbn; lia|].
    + split; [rewrite Es; exact (eq_trans Herrs (proj1 Hcalm))|exact (eq_trans Herr (proj2 Hcalm))].
    + apply Forall_app. split; [by eapply acks_grow|by eapply finished_acks].
    + apply Forall_app. split; [eapply below_grow; [|exact Hbel]; cbn; lia|by apply finished_below].
    + rewrite Erc. apply (TCPReceiver.segment_synced S' isn' cap del _ x); [exact HS'|done..].
  - eapply moved_took; [exact Hm|done|lia|lia|done|done|]. by exists new.
  - exact Erc.
  - intros A' HA' HAp'. rewrite (acked_unique A A' seg) in * by (done || lia). rewrite Es. cbn. lia.
  - intros Hl H1. specialize (Hne Hl). destruct new as [|sg new]; [done|]. rewrite Eq. eapply finished_answer; [done|apply (Forall_cons_1 _ _ _ Hpl)|done].
Qed.

Lemma segment_for_unique x x' seg :
  TCPReceiver.segment_for S' isn' x seg -> TCPReceiver.segment_for S' isn' x' seg -> x = x'.
Proof.
  intros [H1 E1 _ _ _ _] [H2 E2 _ _ _ _]. rewrite E1 in E2. apply (f_equal raw_value) in E2. rewrite !raw_wrap in E2. word.
Qed.

(** The segment fits the window of a receiver whose owner has read [del]. *)
Record fits_window (x : Z) (seg : TCPSegment.t) : Prop := {
  fw_number : 0 < TCPSender.seg_len seg;
  fw_syn : x = 0 -> TCPSender.seg_len seg = 1;
  fw_text : TCPReceiver.stream_index x + zlen (text seg) <= zlen del + cap;
  fw_fin : is_fin seg = true -> zlen S' < zlen del + cap }.

(** The endpoint has dealt with a segment: with its acknowledgement, and with what
    it carries if that starts below [a], unless the connection is over. *)
Definition served (a : Z) (seg : TCPSegment.t) (c : TCPConnection.t) : Prop :=
  TCPConnection.active c = false \/
  ((forall A, acked_by isn A seg -> A <= Ap -> A <= la (sender c)) /\
   (forall x, TCPReceiver.segment_for S' isn' x seg -> x <= a -> fits_window x seg ->
      exists ans k, ans ∈ queue c /\ acked_by isn' k ans /\ x + TCPSender.seg_len seg <= k <= ack_abs (receiver c))).

Lemma served_took a seg c c' : took c c' -> (TCPConnection.active c = false -> c' = c) -> served a seg c -> served a seg c'.
Proof.
  intros [L _ _ _ _ K _ (new & Q & _)] Hi [Hs|[Ha Hx]]; [left; by rewrite Hi|right]. split.
  - intros A HA HA'. specialize (Ha A HA HA'). lia.
  - intros x Hseg Hxa Hf. destruct (Hx x Hseg Hxa Hf) as (ans & k & Hin & Hk & Hb). exists ans, k.
    split_and!; [rewrite Q; apply elem_of_app; by left|done|lia|lia].
Qed.

Lemma active_served c seg a (c' := TCPConnection.segment_received seg c) :
  sound c -> incoming seg -> TCPConnection.active c = true -> a <= ack_abs (receiver c) ->
  (Handshake.is_syn seg = true -> TCPReceiver.last_no (receiver c) <= 0 /\ is_fin seg = false) ->
  sound c' /\ took c c' /\ served a seg c'.
Proof.
  intros Hs Hi Hact Ha Hsyn. destruct (ic_below _ Hi) as [(x & Hseg & HxN) _]. destruct (so_inv _ Hs) as [hist Hinv].
  assert (TCPReceiver.near (receiver c) x seg) as Hnear by (eapply (Handshake.segment_near S isn S' isn' cap HS31'); [done|apply Hs|done..]).
  destruct (active_step c x seg Hs Hi Hseg HxN Hnear Hact) as (Hs' & Ht & Erc & Hla & Hans). fold c' in Hs', Ht, Erc, Hla, Hans.
  split_and!; [done|done|]. right. split; [done|]. intros x' Hseg' Hxa [F1 F2 F3 F4].
  rewrite <- (segment_for_unique _ _ _ Hseg Hseg') in *.
  pose proof (TCPConnection.base_receiver _ _ _ _ _ _ _ _ (TCPConnection.inv_base _ _ _ _ _ _ _ _ Hinv)) as Hr.
  pose proof (segment_accepted S' isn' cap HS' Hisn' del (receiver c) x seg Hr Hseg Hnear ltac:(lia) F2 F3 F4) as Hacc. rewrite <- Erc in Hacc.
  pose proof (TCPReceiver.sf_abs _ _ _ _ Hseg). destruct Hans as (ans & Hin & Hk).
  - rewrite (TCPSender.segment_length S' isn' x) by (done || unfold TCPSender.fits; lia). lia.
  - lia.
  - exists ans, (ack_abs (receiver c')). split_and!; [done|done|lia|lia].
Qed.

Lemma incoming_ack_ok c seg : sound c -> incoming seg -> Handshake.ack_ok S isn seg.
Proof.
  intros Hs Hi E. destruct (ic_acks _ Hi E) as (k & Hk & Ek). exists k. split; [|done]. destruct (so_inv _ Hs) as [hist Hinv].
  destruct (base_bounds _ _ _ (TCPConnection.inv_base _ _ _ _ _ _ _ _ Hinv)). pose proof (so_peer _ Hs). lia.
Qed.

Lemma inactive_delivered l c : TCPConnection.active c = false -> Handshake.delivered l c = c.
Proof.
  intros H. induction l as [|seg l IH]; [done|]. unfold Handshake.delivered in *. simpl.
  assert (TCPConnection.segment_received seg c = c) as -> by (unfold TCPConnection.segment_received; by rewrite H). done.
Qed.

Lemma batch_served l : forall a c,
  sound c -> Forall incoming l -> Handshake.settled isn' l ->
  Forall (fun seg => Handshake.is_syn seg = true -> is_fin seg = false) l ->
  TCPReceiver.last_no (receiver c) <= 0 \/ Forall Handshake.no_syn l -> a <= ack_abs (receiver c) ->
  let c' := Handshake.delivered l c in sound c' /\ took c c' /\ Forall (fun seg => served a seg c') l.
Proof.
  induction l as [|seg l IH]; intros a c Hs Hin Hset Hfin Hlast Ha; cbv zeta.
  { split_and!; [done|apply took_refl|done]. }
  destruct (TCPConnection.active c) eqn:Hact.
  2: { rewrite inactive_delivered by done. split_and!; [done|apply took_refl|]. apply Forall_forall. intros; by left. }
  apply Forall_cons_1 in Hin as [Hin Hins], Hfin as [Hfin Hfins]. destruct Hset as [Hlow Hset].
  assert (Handshake.is_syn seg = true -> TCPReceiver.last_no (receiver c) <= 0 /\ is_fin seg = false) as Hsyn.
  { intros Hsy. destruct Hlast as [Hl|Hl%Forall_cons_1]; [by split; [|apply Hfin]|]. destruct Hl as [Hl _].
    unfold Handshake.no_syn in Hl. congruence. }
  destruct (active_served c seg a Hs Hin Hact Ha Hsyn) as (Hs1 & Ht1 & Hsv). destruct (so_inv _ Hs) as [hist Hinv].
  destruct (Handshake.deliver_one S isn S' isn' cap HS31 HS31' Hcap Hisn' hist del c seg Hinv (so_opening _ Hs) (so_synced _ Hs)
    (ic_emits _ Hin) (incoming_ack_ok c seg Hs Hin) Hsyn) as (_ & _ & Hll & _).
  set (c1 := TCPConnection.segment_received seg c) in *.
  destruct (IH a c1 Hs1 Hins Hset Hfins) as (Hs2 & Ht2 & Hsv2).
  { destruct Hlast as [Hl|Hl]; [|right; apply (Forall_cons_1 _ _ _ Hl)]. destruct Hlow as [Hlow|Hns]; [left; by apply Hll|by right]. }
  { pose proof (tk_ack _ _ Ht1). lia. }
  change (Handshake.delivered (seg :: l) c) with (Handshake.delivered l c1). split_and!; [done|by eapply took_trans|].
  constructor; [|done]. eapply served_took; [exact Ht2| |exact Hsv]. apply inactive_delivered.
Qed.

(** Segments finished by the connection. *)
Lemma finished_sound hist c c' s' new :
  sender c' = s' <| TCPSender._segments_out := [] |> -> receiver c' = receiver c ->
  queue c' = queue c ++ map (TCPConnection.finish_segment (TCPReceiver.ackno (receiver c)) (win_of c)) new ->
  sound c -> inv hist del c' -> Handshake.opening s' ->
  Forall TCPSender.plain new -> Forall (below S isn (nx s')) new ->
  la s' = la (sender c) -> nx (sender c) <= nx s' -> ByteStream.error (TCPSender._stream s') = false -> sound c'.
Proof.
  intros Es Er Eq [_ _ Hcalm Hwi Hacks Hbel Hpeer Hsy] Hinv' Hop Hpl Hbn Ela Hnx Herr.
  pose proof (TCPConnection.base_receiver _ _ _ _ _ _ _ _ (TCPConnection.inv_base _ _ _ _ _ _ _ _ Hinv')) as Hr'.
  unfold calm, TCPConnection.inbound_stream in *. rewrite Er in Hr'.
  split; unfold calm, TCPConnection.inbound_stream; rewrite ?Es, ?Er; [by exists hist|by destruct Hop|split; [done|apply Hcalm]|done| | |simpl; lia|done].
  - rewrite Eq. apply Forall_app. split; [done|by eapply finished_acks].
  - rewrite Eq. apply Forall_app. split; [by eapply below_grow|by apply finished_below].
Qed.

(** The application writes or ends its stream: the window is filled. *)
Lemma filled_sound hist hist' c st (s1 := (sender c) <| TCPSender._stream := st |>)
    (c' := TCPConnection.pop_and_send_segments (c <| TCPConnection._sender := TCPSender.fill_window s1 |>)) :
  sound c -> TCPSender.inv S hist s1 -> inv hist' del c' -> ByteStream.error st = false ->
  sound c' /\ la (sender c') = la (sender c) /\ nx (sender c) <= nx (sender c') /\
  TCPSender._init_timer_backup (sender c') = TCPSender._init_timer_backup (sender c) /\
  (TCPSender._fin_sent (sender c) = true -> TCPSender._fin_sent (sender c') = true) /\
  (exists new, queue c' = queue c ++ new) /\
  (exists seen, TCPSender._segments_outstanding (sender c') = TCPSender._segments_outstanding (sender c) ++ seen).
Proof.
  intros Hs Hi Hinv' Herr. assert (Handshake.opening s1) as Hop by (destruct (so_opening _ Hs); by split).
  destruct (TCPConnection.inv_base _ _ _ _ _ _ _ _ Hinv') as [Hs' _ _ _].
  destruct (TCPSender.fill_window_fields S hist s1 HS Hi) as (Ea & _ & En & _).
  destruct (fill_backup S HS hist s1 Hi) as [Eb Ee]. destruct (so_inv _ Hs) as [hist0 Hinv0].
  pose proof (TCPConnection.inv_queue _ _ _ _ _ _ _ _ Hinv0) as E0.
  destruct (fill_moved S HS hist s1 Hi Hop) as [_ _ _ _ _ _ _ (new & Enew & Hbn & _)]. simpl in Enew, Hbn. rewrite E0 in Enew. cbn [app] in Enew.
  rewrite (TCPConnection.base_isn _ _ _ _ _ _ _ _ (TCPConnection.inv_base _ _ _ _ _ _ _ _ Hinv0)) in Hbn.
  destruct (Handshake.fill_window_adds s1 Hop) as [(new' & seen & _ & _ & Eout & _ & _) _].
  split_and!.
  - eapply (finished_sound hist' c c' _ new); [done|done|rewrite <- Enew; done|done|done|eapply Handshake.fill_window_sends; [apply HS|done..]| |exact Hbn|exact Ea|exact En|exact (eq_trans Ee Herr)].
    destruct (TCPSender.fill_window_inv S hist s1 HS Hi) as [hist2 Hi2].
    pose proof (TCPSender.core_out _ _ (TCPSender.inv_core _ _ _ Hi2)) as Ho. rewrite Enew in Ho.
    eapply Forall_impl; [exact Ho|by intros ? []].
  - exact Ea.
  - exact En.
  - exact Eb.
  - intros Hf. change (TCPSender._fin_sent (TCPSender.fill_window s1) = true). unfold TCPSender.fill_window.
    change (TCPSender._fin_sent s1) with (TCPSender._fin_sent (sender c)). by rewrite Hf.
  - by eexists.
  - exists seen. exact Eout.
Qed.

(** A second passes while the timer is fresh: the oldest segment is sent again. *)
Lemma tick_fresh hist s (s' := TCPSender.tick 1000 s) :
  TCPSender.inv S hist s -> timer_fresh s -> TCPSender._init_timer_backup s = 1000 ->
  la s' = la s /\ nx s' = nx s /\ TCPSender._stream s' = TCPSender._stream s /\ TCPSender._fin_sent s' = TCPSender._fin_sent s /\
  TCPSender._segments_outstanding s' = TCPSender._segments_outstanding s /\
  TCPSender._init_timer_backup s' = TCPSender._init_timer_backup s /\
  TCPSender._consecutive_retransmissions_count s' <= 1 /\
  match TCPSender._segments_outstanding s with
  | [] => timer_fresh s' /\ TCPSender._segments_out s' = TCPSender._segments_out s
  | e :: _ => TCPSender._segments_out s' = TCPSender._segments_out s ++ [e.2]
  end.
Proof.
  intros Hinv [T1 T2 T3] Hb. destruct (TCPSender.inv_core _ _ _ Hinv) as [_ _ _ _ Ht _ _ _ _ _]. unfold s', TCPSender.pending in *.
  destruct s as [isn0 out os bk rto rt te cnt st nx0 la0 win zv fs]. simpl in *. rewrite TCPSender.tick_eq, Ht, T1, T2, T3, Hb.
  destruct os as [|[[p f] seg] os]; [by split_and!|]. rewrite zlen_cons. pose_zlen.
  replace (1 + zlen os =? 0) with false by lia. cbn [negb]. change (1000 <=? u32 (0 + 1000)) with true. cbn iota.
  destruct f; by split_and!.
Qed.

Lemma ticked_sound hist c (c' := TCPConnection.tick 1000 c) :
  sound c -> inv hist del c -> timer_fresh (sender c) -> TCPSender._init_timer_backup (sender c) = 1000 ->
  sound c' /\ la (sender c') = la (sender c) /\ nx (sender c') = nx (sender c) /\
  TCPSender._init_timer_backup (sender c') = 1000 /\ TCPSender._fin_sent (sender c') = TCPSender._fin_sent (sender c) /\
  receiver c' = receiver c /\ (exists new, queue c' = queue c ++ new) /\
  TCPSender._segments_outstanding (sender c') = TCPSender._segments_outstanding (sender c) /\
  match TCPSender._segments_outstanding (sender c) with
  | [] => timer_fresh (sender c') /\ queue c' = queue c
  | e :: _ => exists seg, seg ∈ queue c' /\ copy_of e.2 seg
  end.
Proof.
  intros Hs Hinv Ht Hb. destruct (TCPConnection.inv_base _ _ _ _ _ _ _ _ Hinv) as [Hi Hisn _ _].
  destruct (tick_fresh hist (sender c) Hi Ht Hb) as (Ea & En & Est & Ef & Eo & Eb & Hcnt & Hm).
  pose proof (TCPConnection.inv_queue _ _ _ _ _ _ _ _ Hinv) as E0. set (s' := TCPSender.tick 1000 (sender c)) in *.
  assert (c' = TCPConnection.pop_and_send_segments (c <| TCPConnection._sender := s' |>) <| TCPConnection._time_since_last_segment_received :=
    u64 (TCPConnection._time_since_last_segment_received c + 1000) |>) as Ec.
  { unfold c', TCPConnection.tick. cbv zeta. fold s'. cbn [TCPConnection._sender modify]. unfold TCPSender.consecutive_retransmissions, TCPConfig.MAX_RETX_ATTEMPTS.
    by replace (8 <? _) with false by lia. }
  assert (exists hist', inv hist' del c') as [hist' Hinv'] by (exists hist; by apply (TCPConnection.conn_tick_inv _ _ _ _ _ HS)).
  pose proof (TCPSender.tick_inv _ _ _ 1000 Hi) as Hi'. fold s' in Hi'.
  pose proof (TCPSender.core_out _ _ (TCPSender.inv_core _ _ _ Hi')) as Hq. rewrite E0 in Hm. cbn [app] in Hm.
  split_and!; try (rewrite Ec; done); try (rewrite Ec; simpl; congruence).
  - eapply (finished_sound hist' c c' s' (TCPSender._segments_out s')); try (rewrite Ec; done); try done; [..|lia|].
    + eapply Handshake.tick_sends; [done|apply Hs].
    + eapply Forall_impl; [exact Hq|by intros ? []].
    + destruct (TCPSender._segments_outstanding (sender c)) as [|e os] eqn:Eos; [by destruct Hm as [_ ->]|].
      rewrite Hm. apply Forall_singleton. destruct (TCPSender.inv_core _ _ _ Hi) as [_ (lo & _ & Hc) _ _ _ _ _ _ _ _].
      apply contig_ends in Hc. rewrite Eos in Hc. apply Forall_cons_1 in Hc as [[Hc1 Hc2] _]. rewrite Hisn in Hc1.
      pose proof (Handshake.op_made _ (so_opening _ Hs)) as Hmd. rewrite Eos in Hmd. apply Forall_cons_1 in Hmd as [[_ Hmd] _].
      split; [|done]. exists e.1.1. split; [done|lia].
    + rewrite Est. apply Hs.
  - rewrite Ec. by eexists.
  - destruct (TCPSender._segments_outstanding (sender c)) as [|e os].
    { rewrite Ec. destruct Hm as [[] Hm]. split; [by split|]. unfold TCPConnection.pop_and_send_segments, TCPSender.segments_out. cbv zeta. simpl.
      by rewrite Hm, app_nil_r. }
    exists (TCPConnection.finish_segment (TCPReceiver.ackno (receiver c)) (win_of c) e.2). split; [|apply finish_copy].
    rewrite Ec. unfold TCPConnection.pop_and_send_segments, TCPSender.segments_out. cbv zeta. simpl. rewrite Hm.
    apply elem_of_app. right. left.
Qed.

End batch.

End connection.

(** ** Two endpoints

    What [c], which sends [S] from [isn], means to its peer, which sends [S'] from
    [isn']. *)
Section peers.
Context (S : bytes) (isn : WrappingInt32) (S' : bytes) (isn' : WrappingInt32) (cap : Z).
Context (HS31 : zlen S < 2147483640) (Hcap : TCPConfig.MAX_PAYLOAD_SIZE < cap).

Lemma queue_incoming del Np Ap c : sound S isn S' isn' cap del Np Ap c ->
  Forall (incoming isn' S isn (nx (sender c)) (ack_abs (receiver c))) (queue c).
Proof.
  intros Hs. destruct (so_inv _ _ _ _ _ _ _ _ _ Hs) as [hist Hinv].
  pose proof (TCPConnection.base_out _ _ _ _ _ _ _ _ (TCPConnection.inv_base _ _ _ _ _ _ _ _ Hinv)) as H1.
  pose proof (so_below _ _ _ _ _ _ _ _ _ Hs) as H2. pose proof (so_acks _ _ _ _ _ _ _ _ _ Hs) as H3.
  rewrite Forall_forall in H1, H2, H3 |- *. intros seg Hin. split; auto.
Qed.

(** An endpoint whose queue was taken, when the peer has sent and received more. *)
Lemma emptied_sound del Np Ap Np' Ap' c (c1 := c <| TCPConnection._segments_out := [] |>) :
  sound S isn S' isn' cap del Np Ap c -> Np <= Np' <= zlen S' + 2 -> Ap <= Ap' <= nx (sender c) ->
  sound S isn S' isn' cap del Np' Ap' c1.
Proof.
  intros [[hist [[] Hq Hs]] Hop Hca Hwi _ _ Hp Hsy] HN HA. split; try done.
  - exists hist. by split; [split|..].
  - by eapply within_le; [done|lia..].
  - simpl. lia.
Qed.

(** The oldest outstanding segment fits the window of the peer. *)
Lemma oldest_fits hist del s e os seg :
  TCPSender.inv S hist s -> TCPSender._isn s = isn -> Handshake.opening s ->
  TCPSender._segments_outstanding s = e :: os -> copy_of e.2 seg -> la s <= 1 + zlen del ->
  TCPReceiver.segment_for S isn e.1.1 seg /\ e.1.1 <= la s < e.1.1 + TCPSender.seg_len e.2 /\ fits_window S cap del e.1.1 seg.
Proof.
  intros Hinv Hi Hop Eo Hc Hl. pose proof (TCPSender.inv_unacked _ _ _ Hinv) as Hun.
  destruct (TCPSender.inv_core _ _ _ Hinv) as [_ (lo & Hlo & Hch) _ _ _ _ _ _ _ _]. destruct Hop as [_ _ Hsy Hma].
  rewrite Eo in *. apply Forall_cons_1 in Hun as [Hun _], Hsy as [Hsy _], Hma as [[Hma _] _]. destruct e as [[x f] sg]. simpl in *.
  destruct Hch as (-> & [Hseg _] & Hp & _). rewrite Hi in Hseg. pose proof (copy_segment _ _ _ _ _ Hc Hseg) as Hseg'.
  pose proof (copy_len _ _ Hc) as El. pose proof (TCPReceiver.sf_syn _ _ _ _ Hseg) as Hs.
  assert (zlen (text seg) <= TCPConfig.MAX_PAYLOAD_SIZE) as Ht by (unfold Buffer.copy; by rewrite (cp_payload _ _ Hc)).
  assert (TCPReceiver.stream_index lo <= zlen del) as Hx by (pose_zlen; unfold TCPReceiver.stream_index; split_if; lia).
  split_and!; [done|lia|lia|]. split.
  - lia.
  - intros ->. rewrite El. by apply Hsy.
  - lia.
  - intros Hf. pose proof (TCPReceiver.sf_fin _ _ _ _ Hseg' Hf). lia.
Qed.

Lemma oldest_answered hist del Ap a s e os seg c' :
  TCPSender.inv S hist s -> TCPSender._isn s = isn -> Handshake.opening s ->
  TCPSender._segments_outstanding s = e :: os -> copy_of e.2 seg -> la s <= 1 + zlen del -> la s <= a ->
  served isn' S isn cap del Ap a seg c' -> TCPConnection.active c' = true ->
  exists ans k, ans ∈ queue c' /\ acked_by isn k ans /\ e.1.1 + TCPSender.seg_len e.2 <= k <= ack_abs (receiver c').
Proof.
  intros Hinv Hi Hop Eo Hc Hl Ha Hsv Hact. destruct (oldest_fits hist del s e os seg) as (Hseg & Hle & Hfit); try done.
  destruct Hsv as [Hsv|[_ Hsv]]; [congruence|]. rewrite <- (copy_len _ _ Hc). apply Hsv; [done|lia|done].
Qed.

End peers.

End Progress.
