(* ===== verification/Closing.v ===== *)
(** * How a connection ends

    What happens at an endpoint once its sender has nothing left: segments are only
    answered by empty ones ([batch_final]), and those are not answered ([batch_quiet]);
    the end of an empty stream is acknowledged at once ([batch_answers]); and an
    endpoint that lingers stays active while segments arrive ([attentive]).
    [BenchmarkLive] uses this for the last rounds of the benchmark. *)
From S2P Require Import Prelude WrappingIntegers ByteStream OrderedMap StreamReassembler Buffer.
From S2P Require Import Parser Checksum TCPSegment TCPReceiver TCPSender TCPConnection Outbound Handshake Progress.
Import WrappingIntegers.

Module Closing.

Abbreviation la s := (TCPSender._last_ackno s).
Abbreviation nx s := (TCPSender._next_seqno s).
Abbreviation sender c := (TCPConnection._sender c).
Abbreviation receiver c := (TCPConnection._receiver c).
Abbreviation queue c := (TCPConnection._segments_out c).
Abbreviation time c := (TCPConnection._time_since_last_segment_received c).
Abbreviation ended r := (ByteStream.input_ended (TCPReceiver.stream_out r)).
Abbreviation ack_abs := Progress.ack_abs.

(** ** Lingering *)

(** The endpoint closed its outbound stream first, and heard from its peer lately. *)
Record attentive (c : TCPConnection.t) : Prop := {
  at_linger : TCPConnection._linger_after_streams_finish c = true;
  at_time : time c < 10000;
  at_timeout : TCPConfig.rt_timeout (TCPConnection._cfg c) = 1000;
  at_closed : ByteStream.input_ended (TCPSender._stream (sender c)) = true }.

Lemma attentive_active c : Progress.calm c -> attentive c -> TCPConnection.active c = true.
Proof.
  intros [H1 H2] [A1 A2 A3 _]. unfold TCPConnection.active, TCPSender.stream_in, TCPConnection.inbound_stream in *.
  rewrite H1, H2, A1, A3. cbn [orb negb]. unfold TCPConnection.time_since_last_segment_received.
  destruct (_ && _); [|done]. destruct (_ =? 0); [|done]. lia.
Qed.

Lemma pop_rest c (c' := TCPConnection.pop_and_send_segments c) :
  TCPConnection._cfg c' = TCPConnection._cfg c /\
  TCPConnection._linger_after_streams_finish c' = TCPConnection._linger_after_streams_finish c /\ time c' = time c.
Proof. done. Qed.

Lemma reply_rest seg c (c' := TCPConnection.reply seg (TCPConnection.deliver seg c)) :
  TCPConnection._cfg c' = TCPConnection._cfg c /\
  TCPConnection._linger_after_streams_finish c' = TCPConnection._linger_after_streams_finish c /\ time c' = time c.
Proof.
  enough (forall c0, let c1 := TCPConnection.reply seg c0 in TCPConnection._cfg c1 = TCPConnection._cfg c0 /\
    TCPConnection._linger_after_streams_finish c1 = TCPConnection._linger_after_streams_finish c0 /\ time c1 = time c0) as Hr.
  - unfold c'. destruct (Hr (TCPConnection.deliver seg c)) as (-> & -> & ->). unfold TCPConnection.deliver. by destruct (TCPHeader.ack _).
  - intros c0. unfold TCPConnection.reply. destruct (TCPConnection.keep_alive seg c0), (negb _); cbv zeta; try split_if; done.
Qed.

Lemma received_rest seg c (c' := TCPConnection.segment_received seg c) :
  TCPConnection._cfg c' = TCPConnection._cfg c /\
  (ByteStream.input_ended (TCPSender._stream (sender c)) = true ->
   TCPConnection._linger_after_streams_finish c' = TCPConnection._linger_after_streams_finish c) /\
  (TCPConnection.active c = true -> time c' = 0) /\ (TCPConnection.active c = false -> c' = c).
Proof.
  unfold c'. destruct (TCPConnection.active c) eqn:Ha; [|unfold TCPConnection.segment_received; by rewrite Ha].
  destruct (TCPHeader.rst (TCPSegment.header seg)) eqn:Hr; [unfold TCPConnection.segment_received; by rewrite Ha, Hr|].
  set (c1 := c <| TCPConnection._time_since_last_segment_received := 0 |>).
  set (c2 := if TCPHeader.fin (TCPSegment.header seg) && negb (ByteStream.input_ended (TCPSender.stream_in (sender c1)))
    then c1 <| TCPConnection._linger_after_streams_finish := false |> else c1).
  assert (TCPConnection.segment_received seg c = TCPConnection.pop_and_send_segments (TCPConnection.reply seg (TCPConnection.deliver seg c2))) as ->
    by (unfold TCPConnection.segment_received; by rewrite Ha, Hr).
  rewrite (proj1 (pop_rest _)), (proj1 (proj2 (pop_rest _))), (proj2 (proj2 (pop_rest _))).
  destruct (reply_rest seg c2) as (-> & -> & ->). unfold c2, TCPSender.stream_in.
  destruct (TCPHeader.fin _), (ByteStream.input_ended (TCPSender._stream (sender c))) eqn:E; simpl; rewrite ?E; done.
Qed.

Lemma delivered_time l : forall c, time (Handshake.delivered l c) = time c \/ time (Handshake.delivered l c) = 0.
Proof.
  induction l as [|seg l IH]; intros c; [by left|]. destruct (received_rest seg c) as (_ & _ & H1 & H2).
  destruct (IH (TCPConnection.segment_received seg c)) as [E|E]; [|by right].
  change (Handshake.delivered (seg :: l) c) with (Handshake.delivered l (TCPConnection.segment_received seg c)). rewrite E.
  destruct (TCPConnection.active c); [right; by apply H1|left; by rewrite H2].
Qed.

Lemma delivered_cfg l : forall c, TCPConnection._cfg (Handshake.delivered l c) = TCPConnection._cfg c.
Proof.
  induction l as [|seg l IH]; intros c; [done|]. etransitivity; [apply IH|]. apply (received_rest seg c).
Qed.

Lemma attentive_received seg c : attentive c -> attentive (TCPConnection.segment_received seg c).
Proof.
  intros [A1 A2 A3 A4]. destruct (received_rest seg c) as (E1 & E2 & E3 & E4). split.
  - by rewrite E2.
  - destruct (TCPConnection.active c); [by rewrite E3|by rewrite E4].
  - by rewrite E1.
  - rewrite <- A4. apply (Outbound.drained_ended _ _ (Outbound.received_drained seg c)).
Qed.

Lemma attentive_delivered l : forall c, attentive c -> attentive (Handshake.delivered l c).
Proof. induction l as [|seg l IH]; intros c Hc; [done|]. apply IH. by apply attentive_received. Qed.

(** Something arrives at an active endpoint. *)
Lemma delivered_fresh l c : TCPConnection.active c = true -> l <> [] -> time (Handshake.delivered l c) = 0.
Proof.
  intros Ha Hl. destruct l as [|seg l]; [done|]. destruct (received_rest seg c) as (_ & _ & E & _). specialize (E Ha).
  change (Handshake.delivered (seg :: l) c) with (Handshake.delivered l (TCPConnection.segment_received seg c)).
  destruct (delivered_time l (TCPConnection.segment_received seg c)); congruence.
Qed.

Lemma tick_rest ms c (c' := TCPConnection.tick ms c) :
  TCPConnection._cfg c' = TCPConnection._cfg c /\
  TCPConnection._linger_after_streams_finish c' = TCPConnection._linger_after_streams_finish c /\ time c' = u64 (time c + ms).
Proof. unfold c', TCPConnection.tick. cbv zeta. by destruct (_ <? _). Qed.

Lemma attentive_tick c : attentive c -> time c = 0 -> attentive (TCPConnection.tick 1000 c).
Proof.
  intros [A1 A2 A3 A4] Ht. destruct (tick_rest 1000 c) as (E1 & E2 & E3). split; [congruence| |congruence|].
  - by rewrite E3, Ht.
  - rewrite <- A4. apply (Outbound.drained_ended _ _ (Outbound.tick_drained 1000 c)).
Qed.

(** ** A sender that has sent its FIN *)

(** An empty segment at the number [N]. *)
Definition pure (isn : WrappingInt32) (N : Z) (seg : TCPSegment.t) : Prop :=
  TCPSender.seg_len seg = 0 /\ TCPHeader.seqno (TCPSegment.header seg) = wrap N isn.

(** A step of such a sender: it sends empty segments only. *)
Record rests (s s' : TCPSender.t) : Prop := {
  rs_fin : TCPSender._fin_sent s' = true;
  rs_nx : nx s' = nx s;
  rs_isn : TCPSender._isn s' = TCPSender._isn s;
  rs_out : exists new, TCPSender._segments_out s' = TCPSender._segments_out s ++ new /\ Forall (pure (TCPSender._isn s) (nx s)) new }.

Lemma rests_refl s : TCPSender._fin_sent s = true -> rests s s.
Proof. intros. split; try done. exists []. by rewrite app_nil_r. Qed.

Lemma rests_trans s1 s2 s3 : rests s1 s2 -> rests s2 s3 -> rests s1 s3.
Proof.
  intros [F1 N1 I1 (n1 & E1 & P1)] [F2 N2 I2 (n2 & E2 & P2)]. split; try congruence. exists (n1 ++ n2).
  rewrite E2, E1, app_assoc, Forall_app. rewrite N1, I1 in P2. done.
Qed.

Section sender.
Context (S : bytes) (HS : TCPSender.fits S).

Lemma fin_fill s : TCPSender._fin_sent s = true -> TCPSender.fill_window s = s.
Proof. intros E. unfold TCPSender.fill_window. by rewrite E. Qed.

Lemma empty_rests hist s : TCPSender.inv S hist s -> TCPSender._fin_sent s = true -> rests s (TCPSender.send_empty_segment s).
Proof.
  intros Hinv Hf. rewrite (Progress.empty_same S hist) by done. split; try done. eexists. split; [done|].
  by apply Forall_singleton.
Qed.

Lemma ack_rests hist s a w : TCPSender.inv S hist s -> 0 <= w < MAX16 -> TCPSender._fin_sent s = true ->
  rests s (TCPSender.ack_received a w s) /\ TCPSender._segments_out (TCPSender.ack_received a w s) = TCPSender._segments_out s.
Proof.
  intros Hinv Hw Hf. rewrite (TCPSender.ack_received_eq S hist) by done.
  destruct (_ || _); [split; [by apply rests_refl|done]|].
  match goal with |- context [TCPSender.acked ?A ?w' ?z s] =>
    destruct (Progress.acked_rest A w' z s) as (_ & Ef & _); pose proof (Handshake.acked_out A w' z s) as Eo;
    destruct (TCPSender.acked_fields A w' z s) as (_ & En & _ & Ei) end.
  rewrite Hf in Ef. rewrite fin_fill by done. split; [|done]. split; try done. exists []. by rewrite app_nil_r.
Qed.

End sender.

Section connection.
Context (S : bytes) (isn : WrappingInt32) (S' : bytes) (isn' : WrappingInt32) (cap : Z).
Context (HS31 : zlen S < 2147483640) (HS31' : zlen S' < 2147483640) (Hcap : 0 <= cap < MAX32) (Hisn' : wf isn').

Lemma reply_rests hist del c seg : TCPConnection.base S isn S' isn' cap hist del c -> Handshake.opening (sender c) ->
  TCPSender._fin_sent (sender c) = true ->
  rests (sender c) (sender (TCPConnection.reply seg c)) /\
  (TCPSegment.length_in_sequence_space seg = 0 -> TCPConnection.keep_alive seg c = false -> TCPConnection.reply seg c = c).
Proof.
  intros Hb Hop Hf. pose proof (TCPConnection.base_sender _ _ _ _ _ _ _ _ Hb) as Hs. unfold TCPConnection.reply. cbv zeta.
  pose proof (Handshake.HS S HS31) as HS. pose proof (empty_rests S HS hist (sender c) Hs Hf) as He. split.
  - set (c1 := if TCPConnection.keep_alive seg c then _ else c).
    assert (TCPConnection.base S isn S' isn' cap hist del c1 /\ rests (sender c) (sender c1)) as [Hb1 Hr1].
    { unfold c1. destruct (TCPConnection.keep_alive seg c); [|split; [done|by apply rests_refl]]. split; [|done].
      apply (TCPConnection.empty_step _ _ _ _ _ HS); [done|apply Hop]. }
    clearbody c1. destruct (negb _); [|done]. cbn [TCPConnection._sender modify]. rewrite fin_fill by apply Hr1.
    split_if; [|exact Hr1]. cbn [TCPConnection._sender modify].
    eapply rests_trans; [exact Hr1|]. eapply empty_rests; [exact HS|apply Hb1|apply Hr1].
  - intros -> ->. done.
Qed.

(** A segment arrives at an endpoint that has sent its FIN. *)
Lemma received_rests hist del c x seg (c' := TCPConnection.segment_received seg c) :
  TCPConnection.inv S isn S' isn' cap hist del c -> Handshake.opening (sender c) -> TCPConnection.active c = true ->
  TCPHeader.rst (TCPSegment.header seg) = false -> TCPReceiver.segment_for S' isn' x seg ->
  TCPReceiver.near (receiver c) x seg -> Progress.acks_upto isn (nx (sender c)) seg ->
  0 <= TCPHeader.win (TCPSegment.header seg) < MAX16 -> TCPSender._fin_sent (sender c) = true ->
  TCPSender._fin_sent (sender c') = true /\ nx (sender c') = nx (sender c) /\
  (exists new, queue c' = queue c ++ new /\ Forall (pure isn (nx (sender c))) new) /\
  (pure isn' (ack_abs (receiver c')) seg -> queue c' = queue c).
Proof.
  intros [Hb Hq Hsy] Hop Ha Hr Hseg Hnear Hak Hw Hf. unfold c'.
  pose proof (Handshake.HS S HS31) as HS. pose proof (Handshake.HS' S' cap HS31' Hcap) as HS'.
  destruct (TCPConnection.segment_received_eq seg c Ha Hr) as [linger ->].
  set (c1 := _ <| TCPConnection._linger_after_streams_finish := _ |>).
  assert (TCPConnection.base S isn S' isn' cap hist del c1) as Hb1 by (destruct Hb; by split).
  destruct (TCPConnection.deliver_base _ _ _ _ _ HS HS' Hisn' _ _ _ _ _ Hb1 Hseg (TCPReceiver.near_placed _ _ _ _ _ Hnear) Hw)
    as (hist1 & Hb2 & Hn2 & Hr2).
  destruct (Progress.base_bounds _ _ _ _ _ HS31 _ _ _ Hb) as [_ Hnx].
  destruct (Handshake.deliver_sends S isn S' isn' cap HS31 hist del c1 seg Hb1 Hop) as [Hop2 _ _ _]; [|done|].
  { intros E. destruct (Hak E) as (k & Hk & Ek). exists k. split; [lia|done]. }
  set (c2 := TCPConnection.deliver seg c1) in *.
  assert (rests (sender c) (sender c2) /\ TCPSender._segments_out (sender c2) = []) as [Hr12 Eo2].
  { unfold c2, TCPConnection.deliver. cbv zeta. destruct (TCPHeader.ack _); [|split; [by apply rests_refl|exact Hq]].
    destruct (ack_rests S HS hist (sender c) (TCPHeader.ackno (TCPSegment.header seg)) _ (TCPConnection.base_sender _ _ _ _ _ _ _ _ Hb) Hw Hf)
      as [Hrs Eo]. split; [exact Hrs|exact (eq_trans Eo Hq)]. }
  destruct (reply_rests hist1 del c2 seg Hb2 Hop2 (rs_fin _ _ Hr12)) as [Hr23 Hsame].
  destruct (rests_trans _ _ _ Hr12 Hr23) as [F3 N3 _ (new & En & Hn)]. rewrite Hq in En. cbn [app] in En.
  rewrite (TCPConnection.base_isn _ _ _ _ _ _ _ _ Hb) in Hn.
  assert (queue (TCPConnection.reply seg c2) = queue c) as Eq by (unfold c2; by rewrite TCPConnection.reply_out, TCPConnection.deliver_out).
  split_and!; [done|done| |].
  - eexists. split; [unfold TCPConnection.pop_and_send_segments; cbv zeta; simpl; rewrite Eq; f_equal|].
    unfold TCPSender.segments_out. rewrite En. apply Forall_map. eapply Forall_impl; [exact Hn|]. intros sg [P1 P2].
    match goal with |- pure _ _ (TCPConnection.finish_segment ?a ?w sg) => pose proof (Progress.finish_copy a w sg) as Hc end.
    split; [by rewrite (Progress.copy_len _ _ Hc)|by rewrite (Progress.cp_seqno _ _ Hc)].
  - intros [P1 P2]. pose proof (TCPSender.segment_length S' isn' x seg ltac:(unfold TCPSender.fits; lia) Hseg) as El. rewrite P1 in El.
    assert (TCPConnection.keep_alive seg c2 = false) as Hka.
    { assert (receiver (TCPConnection.reply seg c2) = receiver c2) as Er.
      { unfold TCPConnection.reply. cbv zeta. repeat (case_match; cbn); done. }
      change (ack_abs (receiver (TCPConnection.pop_and_send_segments (TCPConnection.reply seg c2)))) with (ack_abs (receiver (TCPConnection.reply seg c2))) in P2.
      rewrite Er in P2. unfold TCPConnection.keep_alive.
      rewrite (Progress.ackno_abs S' isn' cap HS' Hisn' del (receiver c2) (TCPConnection.base_receiver _ _ _ _ _ _ _ _ Hb2)).
      destruct (TCPReceiver._syn_recived (receiver c2)); [|done]. rewrite P2, El. cbn [Z.eqb andb].
      apply not_true_iff_false. intros E%Z.eqb_eq. unfold sub_u32, add in E. cbn [raw_value] in E. rewrite !raw_wrap in E. word. }
    rewrite (Hsame El Hka) in En |- *. unfold TCPConnection.pop_and_send_segments, TCPSender.segments_out. cbv zeta. simpl.
    rewrite Eo2. simpl. rewrite app_nil_r. unfold c2. by rewrite TCPConnection.deliver_out.
Qed.

(** ** Batches

    [del] is what the owner has read; the peer has used the numbers below [Np] and
    has received ours below [Ap]. *)
Section batch.
Context (del : bytes) (Np Ap : Z) (HNp : Np <= zlen S' + 2) (HAp : 0 <= Ap).

Abbreviation sound := (Progress.sound S isn S' isn' cap del Np Ap).
Abbreviation incoming := (Progress.incoming isn S' isn' Np Ap).

(** A relation that holds for every segment that arrives holds for the batch. *)
Lemma batch_induct (P : TCPConnection.t -> TCPConnection.t -> Prop) (Q : TCPSegment.t -> Prop) :
  (forall c, P c c) -> (forall c1 c2 c3, P c1 c2 -> P c2 c3 -> P c1 c3) ->
  (forall c x seg, sound c -> incoming seg -> Q seg -> TCPReceiver.segment_for S' isn' x seg -> TCPReceiver.near (receiver c) x seg ->
    TCPConnection.active c = true -> P c (TCPConnection.segment_received seg c)) ->
  forall l c, sound c -> Forall incoming l -> Forall Q l -> Handshake.settled isn' l ->
    Forall (fun seg => Handshake.is_syn seg = true -> TCPHeader.fin (TCPSegment.header seg) = false) l ->
    TCPReceiver.last_no (receiver c) <= 0 \/ Forall Handshake.no_syn l -> P c (Handshake.delivered l c).
Proof.
  intros Hrefl Htrans Hstep l. induction l as [|seg l IH]; intros c Hs Hin HQ Hset Hfin Hlast; [apply Hrefl|].
  destruct (TCPConnection.active c) eqn:Hact; [|rewrite Progress.inactive_delivered by done; apply Hrefl].
  apply Forall_cons_1 in Hin as [Hin Hins], HQ as [HQ HQs], Hfin as [Hfin Hfins]. destruct Hset as [Hlow Hset].
  assert (Handshake.is_syn seg = true -> TCPReceiver.last_no (receiver c) <= 0 /\ TCPHeader.fin (TCPSegment.header seg) = false) as Hsyn.
  { intros Hsy. destruct Hlast as [Hl|Hl%Forall_cons_1]; [by split; [|apply Hfin]|]. destruct Hl as [Hl _].
    unfold Handshake.no_syn in Hl. congruence. }
  destruct (Progress.ic_below _ _ _ _ _ _ Hin) as [(x & Hseg & HxN) _]. destruct (Progress.so_inv _ _ _ _ _ _ _ _ _ Hs) as [hist Hinv].
  pose proof (Handshake.segment_near S isn S' isn' cap HS31' _ _ _ _ _ Hinv (Progress.so_synced _ _ _ _ _ _ _ _ _ Hs) Hsyn Hseg) as Hnear.
  destruct (Progress.active_step S isn S' isn' cap HS31 HS31' Hcap Hisn' del Np Ap HNp HAp c x seg Hs Hin Hseg HxN Hnear Hact) as (Hs1 & _).
  destruct (Handshake.deliver_one S isn S' isn' cap HS31 HS31' Hcap Hisn' hist del c seg Hinv (Progress.so_opening _ _ _ _ _ _ _ _ _ Hs)
    (Progress.so_synced _ _ _ _ _ _ _ _ _ Hs) (Progress.ic_emits _ _ _ _ _ _ Hin) (Progress.incoming_ack_ok S isn S' isn' cap HS31 del Np Ap c seg Hs Hin) Hsyn)
    as (_ & _ & Hll & _).
  eapply Htrans; [by eapply Hstep|]. apply IH; try done.
  destruct Hlast as [Hl|Hl]; [|right; apply (Forall_cons_1 _ _ _ Hl)]. destruct Hlow as [Hlow|Hns]; [left; by apply Hll|by right].
Qed.

(** The facts about a batch that come with the link. *)
Record batch (l : list TCPSegment.t) (c : TCPConnection.t) : Prop := {
  bt_incoming : Forall incoming l;
  bt_settled : Handshake.settled isn' l;
  bt_fin : Forall (fun seg => Handshake.is_syn seg = true -> TCPHeader.fin (TCPSegment.header seg) = false) l;
  bt_last : TCPReceiver.last_no (receiver c) <= 0 \/ Forall Handshake.no_syn l }.

Lemma step_rests c x seg (c' := TCPConnection.segment_received seg c) :
  sound c -> incoming seg -> TCPReceiver.segment_for S' isn' x seg -> TCPReceiver.near (receiver c) x seg ->
  TCPConnection.active c = true -> TCPSender._fin_sent (sender c) = true ->
  TCPSender._fin_sent (sender c') = true /\ nx (sender c') = nx (sender c) /\
  (exists new, queue c' = queue c ++ new /\ Forall (pure isn (nx (sender c))) new) /\
  (pure isn' (ack_abs (receiver c')) seg -> queue c' = queue c) /\ ack_abs (receiver c) <= ack_abs (receiver c') <= zlen S' + 2.
Proof.
  intros Hs Hi Hseg Hnear Hact Hf. pose proof Hi as [[Hwf He] [(x' & Hseg' & HxN) Hrst] Hak].
  rewrite (Progress.segment_for_unique S' isn' cap HS31' Hcap _ _ _ Hseg' Hseg) in HxN.
  destruct (Progress.active_step S isn S' isn' cap HS31 HS31' Hcap Hisn' del Np Ap HNp HAp c x seg Hs Hi Hseg HxN Hnear Hact)
    as (Hs' & Ht & _). destruct (Progress.so_inv _ _ _ _ _ _ _ _ _ Hs) as [hist Hinv]. destruct (Progress.so_inv _ _ _ _ _ _ _ _ _ Hs') as [hist' Hinv'].
  destruct (received_rests hist del c x seg Hinv (Progress.so_opening _ _ _ _ _ _ _ _ _ Hs) Hact Hrst Hseg Hnear) as (H1 & H2 & H3 & H4); try done.
  { intros E. destruct (Hak E) as (k & Hk & Ek). exists k. split; [|done]. pose proof (Progress.so_peer _ _ _ _ _ _ _ _ _ Hs). lia. }
  { exact (TCPHeader.wf_win _ (TCPSegment.wf_header _ Hwf)). }
  split_and!; try done; [exact (Progress.tk_ack _ _ _ Ht)|].
  eapply Progress.ack_abs_bound. apply Hinv'.
Qed.

(** An endpoint that has sent its FIN answers with empty segments. *)
Lemma batch_final l c (c' := Handshake.delivered l c) :
  sound c -> batch l c -> TCPSender._fin_sent (sender c) = true ->
  nx (sender c') = nx (sender c) /\ exists new, queue c' = queue c ++ new /\ Forall (pure isn (nx (sender c))) new.
Proof.
  intros Hs [B1 B2 B3 B4] Hf. unfold c'.
  enough (TCPSender._fin_sent (sender (Handshake.delivered l c)) = true /\ nx (sender (Handshake.delivered l c)) = nx (sender c) /\
    exists new, queue (Handshake.delivered l c) = queue c ++ new /\ Forall (pure isn (nx (sender c))) new) as (_ & H2 & H3) by done.
  revert Hf. pattern c, (Handshake.delivered l c). eapply (batch_induct _ (fun _ => True)); try done.
  - intros c0 Hf. split_and!; [done|done|]. exists []. by rewrite app_nil_r.
  - intros c1 c2 c3 H12 H23 Hf. destruct (H12 Hf) as (F2 & N2 & n1 & E1 & P1). destruct (H23 F2) as (F3 & N3 & n2 & E2 & P2).
    split_and!; [done|congruence|]. exists (n1 ++ n2). rewrite E2, E1, app_assoc, Forall_app. rewrite N2 in P2. done.
  - intros c0 x seg Hs0 Hi _ Hseg Hnear Hact Hf. destruct (step_rests c0 x seg Hs0 Hi Hseg Hnear Hact Hf) as (H1 & H2 & H3 & _). done.
  - by apply Forall_true.
Qed.

(** Once it has received everything it does not answer empty segments either. *)
Lemma batch_quiet l c (c' := Handshake.delivered l c) :
  sound c -> batch l c -> TCPSender._fin_sent (sender c) = true -> ack_abs (receiver c) = zlen S' + 2 ->
  Forall (pure isn' (zlen S' + 2)) l -> queue c' = queue c.
Proof.
  intros Hs [B1 B2 B3 B4] Hf Ha Hp. unfold c'.
  enough (TCPSender._fin_sent (sender (Handshake.delivered l c)) = true /\ ack_abs (receiver (Handshake.delivered l c)) = zlen S' + 2 /\
    queue (Handshake.delivered l c) = queue c) as (_ & _ & H3) by done.
  revert Hf Ha. pattern c, (Handshake.delivered l c). eapply (batch_induct _ (pure isn' (zlen S' + 2))); try done.
  - intros c1 c2 c3 H12 H23 Hf Ha. destruct (H12 Hf Ha) as (F2 & A2 & E2). destruct (H23 F2 A2) as (F3 & A3 & E3).
    split_and!; [done|done|congruence].
  - intros c0 x seg Hs0 Hi Hq Hseg Hnear Hact Hf Ha. destruct (step_rests c0 x seg Hs0 Hi Hseg Hnear Hact Hf) as (H1 & _ & _ & H4 & H5).
    rewrite Ha in H5. assert (ack_abs (receiver (TCPConnection.segment_received seg c0)) = zlen S' + 2) as E by lia.
    split_and!; [done|done|]. apply H4. by rewrite E.
Qed.

End batch.

End connection.

(** ** The receiver of an empty stream *)

Section empty.
Context (S : bytes) (isn : WrappingInt32) (isn' : WrappingInt32) (cap : Z).
Context (HS31 : zlen S < 2147483640) (Hcap : 0 < cap < MAX32) (Hisn' : wf isn').

(** The end of the stream is seen as soon as it arrives, behind the SYN. *)
Record prompt (r : TCPReceiver.t) : Prop := {
  pr_eof : StreamReassembler._eof (TCPReceiver._reassembler r) = true -> ended r = true;
  pr_syn : ended r = true -> TCPReceiver._syn_recived r = true }.

Lemma prompt_ended del r : TCPReceiver.inv [] isn' cap del r -> prompt r -> ended r = true -> ack_abs r = 2.
Proof.
  intros [Hc _ _] [_ Hp] He. unfold Progress.ack_abs. by rewrite Hp, He, (StreamReassembler.con_ended _ _ _ _ Hc He).
Qed.

Lemma nil_fits : TCPReceiver.fits [] cap.
Proof. apply Handshake.HS'; [done|lia]. Qed.

Lemma empty_index del r : TCPReceiver.inv [] isn' cap del r ->
  StreamReassembler._next_index (TCPReceiver._reassembler r) = 0 /\
  0 < ByteStream.remaining_capacity (StreamReassembler._output (TCPReceiver._reassembler r)).
Proof.
  intros [Hc _ _]. pose proof (StreamReassembler.con_next _ _ _ _ Hc) as Hn. change (zlen (@nil byte)) with 0 in Hn.
  assert (StreamReassembler._next_index (TCPReceiver._reassembler r) = 0) as E by lia. split; [done|].
  destruct Hc as [[Hwf _ _] Hca _ Hp _ _ _]. rewrite E in Hp. rewrite ByteStream.remaining_capacity_wf, Hca by done.
  apply app_nil in Hp as [_ ->]. change (zlen (@nil byte)) with 0. lia.
Qed.

Lemma segment_prompt del r x seg (r' := TCPReceiver.segment_received seg r) :
  TCPReceiver.inv [] isn' cap del r -> TCPReceiver.segment_for [] isn' x seg -> TCPReceiver.near r x seg -> prompt r ->
  prompt r' /\ (TCPSender.seg_len seg = 0 -> ack_abs r' = ack_abs r).
Proof.
  intros Hr Hseg Hnear Hp. pose proof (TCPReceiver.segment_inv _ _ _ _ _ _ _ nil_fits Hisn' Hr Hseg (TCPReceiver.near_placed _ _ _ _ _ Hnear)) as Hr'. fold r' in Hr'.
  destruct (empty_index del r Hr) as [E0 Hrc]. destruct (empty_index del r' Hr') as [E0' _].
  destruct (Progress.segment_pushed [] isn' cap nil_fits Hisn' del r x seg Hr Hseg Hnear) as [(_ & _ & E)|(Hs & Hs0 & i & d & Hso & Er & Hpu & Hi)];
    [unfold r'; by rewrite E|]. fold r' in Hs, Er, Hpu.
  assert (ended r = true -> ended r' = true) as Hk by exact (Progress.output_stays_ended _ _ _ _ _ _ Hpu).
  pose proof (StreamReassembler.pushed_eof _ _ _ _ _ _ Hpu) as Ee. split.
  - split; [|done]. rewrite Ee. destruct (TCPHeader.fin (TCPSegment.header seg)) eqn:Ef; [intros _|intros Hb; by apply Hk, (pr_eof _ Hp)].
    pose proof (StreamReassembler.pushed_eof_index _ _ _ _ _ _ Hpu) as Ei. cbn iota in Ei.
    destruct Hi as [Hi|(_ & ? & _)]; [|done]. rewrite Hi, (TCPReceiver.sf_fin _ _ _ _ Hseg Ef) in Ei.
    destruct (StreamReassembler.push_completes [] cap del (TCPReceiver._reassembler r) (Buffer.copy (TCPSegment.payload seg)) i true) as (_ & Hend & _).
    + change (zlen (@nil byte)) with 0. lia.
    + apply Hr.
    + done.
    + done.
    + intros p. change (zlen (@nil byte)) with 0. lia.
    + rewrite <- Er. by rewrite Ee.
    + rewrite <- Er, Ei. done.
    + rewrite <- Er in Hend. exact Hend.
  - intros Hl. unfold TCPSender.seg_len in Hl. pose_zlen.
    destruct (TCPHeader.syn (TCPSegment.header seg)) eqn:Esy; [destruct (TCPHeader.fin (TCPSegment.header seg)); lia|].
    destruct (TCPHeader.fin (TCPSegment.header seg)); [lia|]. cbn [orb] in Ee.
    pose proof (TCPReceiver.sf_syn _ _ _ _ Hseg) as Ex. rewrite Esy in Ex. destruct Hs0 as [Hs0| ->]; [|done].
    unfold Progress.ack_abs. rewrite Hs, Hs0, E0, E0'. destruct (ended r) eqn:Een; [by rewrite Hk|].
    destruct (ended r') eqn:Een'; [|done]. destruct (Progress.output_ended _ _ _ _ _ _ Hpu Een') as [E|E]; [destruct (eq_true_false_abs _ E Een)|].
    rewrite Ee in E. rewrite (pr_eof _ Hp E) in Een. done.
Qed.

Lemma batch_answers del Np Ap l c (c' := Handshake.delivered l c) : Np <= zlen (@nil byte) + 2 -> 0 <= Ap ->
  Progress.sound S isn [] isn' cap del Np Ap c -> batch isn [] isn' Np Ap l c -> prompt (receiver c) ->
  prompt (receiver c') /\
  (ack_abs (receiver c') = ack_abs (receiver c) \/ exists ans, ans ∈ queue c' /\ Progress.acked_by isn' (ack_abs (receiver c')) ans).
Proof.
  intros HNp HAp Hs [B1 B2 B3 B4] Hp. unfold c'.
  enough ((exists new, queue (Handshake.delivered l c) = queue c ++ new) /\ prompt (receiver (Handshake.delivered l c)) /\
    (ack_abs (receiver (Handshake.delivered l c)) = ack_abs (receiver c) \/
     exists ans, ans ∈ queue (Handshake.delivered l c) /\ Progress.acked_by isn' (ack_abs (receiver (Handshake.delivered l c))) ans)) as (_ & H2 & H3) by done.
  revert Hp. pattern c, (Handshake.delivered l c).
  eapply (batch_induct S isn [] isn' cap HS31 ltac:(done) ltac:(lia) Hisn' del Np Ap HNp HAp _ (fun _ => True)); try done.
  - intros c0 Hp. split_and!; [exists []; by rewrite app_nil_r|done|by left].
  - intros c1 c2 c3 H12 H23 Hp. destruct (H12 Hp) as ([n1 E1] & P2 & A2). destruct (H23 P2) as ([n2 E2] & P3 & A3).
    split_and!; [exists (n1 ++ n2); by rewrite E2, E1, app_assoc|done|].
    destruct A3 as [A3|]; [rewrite A3|by right]. destruct A2 as [|(ans & Hin & Ha)]; [by left|right].
    exists ans. split; [rewrite E2; apply elem_of_app; by left|done].
  - intros c0 x seg Hs0 Hi _ Hseg Hnear Hact Hp. destruct (Progress.ic_below _ _ _ _ _ _ Hi) as [(x' & Hseg' & HxN) _].
    rewrite (Progress.segment_for_unique [] isn' cap ltac:(done) ltac:(lia) _ _ _ Hseg' Hseg) in HxN.
    destruct (Progress.active_step S isn [] isn' cap HS31 ltac:(done) ltac:(lia) Hisn' del Np Ap HNp HAp c0 x seg Hs0 Hi Hseg HxN Hnear Hact)
      as (Hs' & Ht & Er & _ & Hans). destruct (Progress.so_inv _ _ _ _ _ _ _ _ _ Hs0) as [hist Hinv].
    pose proof (TCPConnection.base_receiver _ _ _ _ _ _ _ _ (TCPConnection.inv_base _ _ _ _ _ _ _ _ Hinv)) as Hr.
    destruct (segment_prompt del (receiver c0) x seg Hr Hseg Hnear Hp) as [Hp' Hidle]. rewrite <- Er in Hp', Hidle.
    split_and!; [by destruct (Progress.tk_queue _ _ _ Ht) as (new & En & _); exists new|done|].
    destruct (Z.eq_dec (ack_abs (receiver (TCPConnection.segment_received seg c0))) (ack_abs (receiver c0))) as [|Hne]; [by left|right].
    pose proof (Progress.tk_ack _ _ _ Ht) as Hm. destruct (Progress.ack_abs_bound _ _ _ _ _ Hr) as [Hge _].
    assert (TCPSegment.length_in_sequence_space seg <> 0) as Hl
      by (rewrite (TCPSender.segment_length [] isn' x seg ltac:(done) Hseg); intros E; by apply Hne, Hidle).
    apply Hans; [done|lia].
  - by apply Forall_true.
Qed.

End empty.

End Closing.
