(* ===== verification/Network.v ===== *)
(** * Two endpoints and the network between them

    Two [TCPConnection]s exchange segments over a network that may lose, repeat,
    delay and reorder them: every segment an endpoint ever put on the wire may be
    delivered at any time, any number of times.  Applications connect, write,
    close and read, and time passes, in any interleaving.  The contract of the whole
    library is that each side reads a prefix of what the other side wrote, and end
    of stream only after all of it.

    For streams below 2 GiB the network needs no restriction at all: a SYN that is
    repeated after data makes the receiver place all that follows [2^32] too far
    (it stalls, see [TCPReceiver.late_duplicate_syn]), which is outside its window,
    so that nothing wrong is ever delivered.  For longer streams segments must be
    within half the sequence space of the last one and no SYN follows data. *)
From stdpp Require Import relations.
From S2P Require Import Prelude WrappingIntegers ByteStream OrderedMap StreamReassembler Buffer.
From S2P Require Import Parser Checksum TCPSegment TCPReceiver TCPSender TCPConnection.
Import WrappingIntegers.

Module Network.

(** An endpoint with the segments it has put on the wire and the bytes its
    application has read. *)
Record node := mk {
  conn : TCPConnection.t;
  sent : list TCPSegment.t;
  got : bytes }.

#[global] Instance eta_node : Eta node := fun n => mk (conn n) (sent n) (got n).

Definition outbound (n : node) : ByteStream.t := TCPSender._stream (TCPConnection._sender (conn n)).

Definition inbound (n : node) : ByteStream.t := TCPConnection.inbound_stream (conn n).

(** The application reads [k] bytes; the segments queued go on the wire. *)
Definition app_read (k : Z) (n : node) : node :=
  n <| conn := TCPConnection.with_inbound (fun o => (ByteStream.read k o).2) (conn n) |>
    <| got := got n ++ (ByteStream.read k (inbound n)).1 |>.

Definition transmit (n : node) : node :=
  n <| sent := sent n ++ TCPConnection._segments_out (conn n) |>
    <| conn := (conn n) <| TCPConnection._segments_out := [] |> |>.

(** What one endpoint does by itself; its application writes the stream [S]. *)
Inductive local (S : bytes) : node -> node -> Prop :=
| local_connect n : local S n (n <| conn := TCPConnection.connect (conn n) |>)
| local_write n d rest :
    S = ztake (ByteStream.bytes_written (outbound n)) S ++
        ztake (ByteStream.write d (outbound n)).1 d ++ rest ->
    local S n (n <| conn := (TCPConnection.write d (conn n)).2 |>)
| local_end n :
    ByteStream.bytes_written (outbound n) = zlen S ->
    local S n (n <| conn := TCPConnection.end_input_stream (conn n) |>)
| local_tick n ms : local S n (n <| conn := TCPConnection.tick ms (conn n) |>)
| local_read n k :
    0 <= k ->
    local S n (app_read k n)
| local_transmit n : local S n (transmit n).

Definition receive (seg : TCPSegment.t) (n : node) : node :=
  n <| conn := TCPConnection.segment_received seg (conn n) |>.

(** The left endpoint writes [S1], the right one [S2]; the network may deliver what
    [may1] and [may2] allow to the left and to the right endpoint. *)
Inductive step (S1 S2 : bytes) (may1 may2 : node -> TCPSegment.t -> Prop) : node * node -> node * node -> Prop :=
| step_left a a' b : local S1 a a' -> step S1 S2 may1 may2 (a, b) (a', b)
| step_right a b b' : local S2 b b' -> step S1 S2 may1 may2 (a, b) (a, b')
| deliver_right a b seg :
    seg ∈ sent a -> may2 b seg -> step S1 S2 may1 may2 (a, b) (a, receive seg b)
| deliver_left a b seg :
    seg ∈ sent b -> may1 a seg -> step S1 S2 may1 may2 (a, b) (receive seg a, b).

(** Any segment at any time. *)
Definition whatever (_ : node) (_ : TCPSegment.t) : Prop := True.

(** A segment of the stream [S] numbered from [isn] that is within half the sequence
    space of the last one received; a SYN not after data. *)
Definition timely (S : bytes) (isn : WrappingInt32) (n : node) (seg : TCPSegment.t) : Prop :=
  forall x, TCPReceiver.segment_for S isn x seg ->
    let last := TCPReceiver.last_no (TCPConnection._receiver (conn n)) in
    Z.abs (x - last) < 2147483647 /\ (x = 0 -> last <= 0).

(** A network whose deliveries the receiver can place. *)
Definition placeable (S : bytes) (isn : WrappingInt32) (cap : Z) (may : node -> TCPSegment.t -> Prop) : Prop :=
  forall n seg x, may n seg -> TCPReceiver.segment_for S isn x seg ->
    TCPReceiver.placed S cap (TCPConnection._receiver (conn n)) x.

Lemma short_placeable S isn cap may : TCPReceiver.short S cap -> placeable S isn cap may.
Proof. intros Hs n seg x _ _ _. by left. Qed.


Definition start (cfg : TCPConfig.t) (random : Z) : node := mk (TCPConnection.make cfg random) [] [].

(** A configuration as the C++ types allow it, whose endpoint numbers its stream
    from [isn]: the fixed number of the configuration, or the random one. *)
Definition cfg_ok (cfg : TCPConfig.t) (random : Z) (isn : WrappingInt32) : Prop :=
  0 <= TCPConfig.rt_timeout cfg < MAX16 /\ 0 <= TCPConfig.recv_capacity cfg < MAX32 /\
  0 <= TCPConfig.send_capacity cfg < MAX32 /\
  TCPSender._isn (TCPConnection._sender (TCPConnection.make cfg random)) = isn /\ wf isn.

(** ** Invariant of one endpoint *)

Record good (S : bytes) (isn : WrappingInt32) (S' : bytes) (isn' : WrappingInt32) (cap : Z) (n : node) : Prop := {
  good_conn : exists hist, TCPConnection.inv S isn S' isn' cap hist (got n) (conn n);
  good_sent : Forall (TCPSender.emits S isn) (sent n) }.

Lemma start_good S isn S' isn' cfg random :
  TCPReceiver.fits S' (TCPConfig.recv_capacity cfg) -> wf isn' -> cfg_ok cfg random isn ->
  good S isn S' isn' (TCPConfig.recv_capacity cfg) (start cfg random).
Proof.
  intros HS' Hi' (Hr & Hc & Hs & Hf & Hi). split; [|done]. exists [].
  apply TCPConnection.conn_make_inv; done || lia.
Qed.

Section one_side.
Context (S : bytes) (isn : WrappingInt32) (S' : bytes) (isn' : WrappingInt32) (cap : Z).
Context (HS : TCPSender.fits S) (HS' : TCPReceiver.fits S' cap) (Hisn' : wf isn').

Lemma local_good n n' : local S n n' -> good S isn S' isn' cap n -> good S isn S' isn' cap n'.
Proof.
  intros Hl [[hist Hc] Hs]. destruct Hl as [n|n d rest HSd|n Hz|n ms|n k Hk|n].
  - split; [|done]. by eapply TCPConnection.connect_inv.
  - split; [|done]. by eapply TCPConnection.conn_write_inv.
  - split; [|done]. by eapply TCPConnection.conn_end_input_inv.
  - split; [|done]. exists hist. by apply TCPConnection.conn_tick_inv.
  - split; [|done]. exists hist. by apply TCPConnection.read_inv.
  - destruct Hc as [[] Hq Hn]. split; simpl.
    + exists hist. split; [by split|done|done].
    + by apply Forall_app.
Qed.

Lemma receive_good n seg :
  good S isn S' isn' cap n -> TCPSender.emits S' isn' seg ->
  (forall x, TCPReceiver.segment_for S' isn' x seg -> TCPReceiver.placed S' cap (TCPConnection._receiver (conn n)) x) ->
  good S isn S' isn' cap (receive seg n).
Proof.
  intros [[hist Hc] Hs] [Hwf Hseg] Ht. split; [|done].
  pose proof (TCPHeader.wf_win _ (TCPSegment.wf_header _ Hwf)) as Hwin.
  destruct Hseg as [Hr|[x Hseg]].
  - apply (TCPConnection.segment_received_inv _ _ _ _ _ HS HS' Hisn' hist _ _ 0); [done|by left|done].
  - apply (TCPConnection.segment_received_inv _ _ _ _ _ HS HS' Hisn' hist _ _ x); [done| |done].
    right. split; [done|]. by apply Ht.
Qed.

(** What the reader of this endpoint sees. *)
Lemma good_reader n :
  good S isn S' isn' cap n ->
  let seen := got n ++ ByteStream._buffer (inbound n) in
  seen = ztake (zlen seen) S' /\ (ByteStream.input_ended (inbound n) = true -> seen = S').
Proof.
  intros [[hist Hc] _]. cbv zeta.
  destruct (TCPConnection.inv_base _ _ _ _ _ _ _ _ Hc) as [_ _ [Hcon _ _] _].
  destruct Hcon as [_ _ Hn Hpre _ _ Hend].
  unfold inbound, TCPConnection.inbound_stream, TCPReceiver.stream_out, StreamReassembler.stream_out.
  rewrite Hpre, zlen_ztake, (Z.min_l _ (zlen S')), Z.max_r by lia. split; [done|].
  intros E. rewrite (Hend E). by apply ztake_all.
Qed.

End one_side.

(** ** The contract *)

Record both_good (S1 : bytes) (isn1 : WrappingInt32) (S2 : bytes) (isn2 : WrappingInt32) (cap1 cap2 : Z)
    (s : node * node) : Prop := {
  left_good : good S1 isn1 S2 isn2 cap1 s.1;
  right_good : good S2 isn2 S1 isn1 cap2 s.2 }.

Section contract.
Context (S1 : bytes) (isn1 : WrappingInt32) (S2 : bytes) (isn2 : WrappingInt32) (cap1 cap2 : Z).
Context (may1 may2 : node -> TCPSegment.t -> Prop).
Context (HF1 : TCPReceiver.fits S1 cap2) (HF2 : TCPReceiver.fits S2 cap1) (Hi1 : wf isn1) (Hi2 : wf isn2).
Context (Hm1 : placeable S2 isn2 cap1 may1) (Hm2 : placeable S1 isn1 cap2 may2).

Lemma step_good s s' :
  step S1 S2 may1 may2 s s' -> both_good S1 isn1 S2 isn2 cap1 cap2 s -> both_good S1 isn1 S2 isn2 cap1 cap2 s'.
Proof.
  intros Hst [Hl Hr]. pose proof (proj2 HF1 : TCPSender.fits S1). pose proof (proj2 HF2 : TCPSender.fits S2).
  destruct Hst as [a a' b Hlo|a b b' Hlo|a b seg Hin Ht|a b seg Hin Ht]; simpl in *; split; simpl; try done.
  - by eapply local_good.
  - by eapply local_good.
  - apply receive_good; try done; [|intros x; by apply Hm2]. destruct Hl as [_ Hs]. rewrite Forall_forall in Hs. by apply Hs.
  - apply receive_good; try done; [|intros x; by apply Hm1]. destruct Hr as [_ Hs]. rewrite Forall_forall in Hs. by apply Hs.
Qed.

(** What either side has seen of the other's stream. *)
Definition seen (n : node) : bytes := got n ++ ByteStream._buffer (inbound n).

Definition delivered_to (S : bytes) (n : node) : Prop :=
  seen n = ztake (zlen (seen n)) S /\ (ByteStream.input_ended (inbound n) = true -> seen n = S).

Lemma run_delivers s a b :
  both_good S1 isn1 S2 isn2 cap1 cap2 s -> rtc (step S1 S2 may1 may2) s (a, b) ->
  delivered_to S1 b /\ delivered_to S2 a.
Proof.
  intros H0 Hrtc. assert (both_good S1 isn1 S2 isn2 cap1 cap2 (a, b)) as [Hl Hr].
  { revert H0. induction Hrtc as [|s1 s2 s3 Hst _ IH]; [done|]. intros H0. apply IH. by eapply step_good. }
  split; by eapply good_reader.
Qed.

End contract.

Lemma starts_good S1 isn1 S2 isn2 cfg1 cfg2 random1 random2 :
  zlen S1 < MAX64 - 4 * MAX32 -> zlen S2 < MAX64 - 4 * MAX32 ->
  cfg_ok cfg1 random1 isn1 -> cfg_ok cfg2 random2 isn2 ->
  both_good S1 isn1 S2 isn2 (TCPConfig.recv_capacity cfg1) (TCPConfig.recv_capacity cfg2)
    (start cfg1 random1, start cfg2 random2).
Proof.
  intros H1 H2 Hc1 Hc2. split; apply start_good; try done; try (split; [|done]); by (apply Hc1 || apply Hc2).
Qed.

(** C1: the end-to-end contract.  Start two endpoints with any configurations and
    let applications, clocks and a network that loses, repeats, delays and
    reorders segments do what they want, with no condition on what is delivered
    when: what the right application has read, with what waits for it, is always
    the beginning of the stream the left application writes; its stream ends only
    when that is all of it; and the same from right to left.  The streams are below
    2 GiB, and stream and receive buffer together below [2^32 - 1]. *)
Theorem end_to_end (S1 : bytes) (isn1 : WrappingInt32) (S2 : bytes) (isn2 : WrappingInt32)
    (cfg1 cfg2 : TCPConfig.t) (random1 random2 : Z) (a b : node) :
  TCPReceiver.short S1 (TCPConfig.recv_capacity cfg2) -> TCPReceiver.short S2 (TCPConfig.recv_capacity cfg1) ->
  cfg_ok cfg1 random1 isn1 -> cfg_ok cfg2 random2 isn2 ->
  rtc (step S1 S2 whatever whatever) (start cfg1 random1, start cfg2 random2) (a, b) ->
  (seen b = ztake (zlen (seen b)) S1 /\ (ByteStream.input_ended (inbound b) = true -> seen b = S1)) /\
  (seen a = ztake (zlen (seen a)) S2 /\ (ByteStream.input_ended (inbound a) = true -> seen a = S2)).
Proof.
  intros H1 H2 Hc1 Hc2. pose proof H1 as [? _]. pose proof H2 as [? _].
  assert (wf isn1 /\ wf isn2) as [Hi1 Hi2] by (split; [apply Hc1|apply Hc2]).
  apply (run_delivers S1 isn1 S2 isn2 (TCPConfig.recv_capacity cfg1) (TCPConfig.recv_capacity cfg2));
    [split; [apply Hc2|lia]|split; [apply Hc1|lia]|done|done|by apply short_placeable|by apply short_placeable|].
  apply starts_good; done || lia.
Qed.


(** In streams below 2 GiB the only segment that is not timely is a SYN after data. *)
Lemma timely_short S isn n seg (r := TCPConnection._receiver (conn n)) :
  zlen S < 2147483640 -> -1 <= TCPReceiver.last_no r <= zlen S + 1 ->
  (TCPHeader.syn (TCPSegment.header seg) = false \/ TCPReceiver.last_no r <= 0) ->
  timely S isn n seg.
Proof.
  intros HS Hl Hs x Hseg. fold r. pose proof (TCPReceiver.sf_abs _ _ _ _ Hseg).
  split; [lia|]. intros ->. destruct Hs as [Hs|]; [|done].
  by rewrite (TCPReceiver.sf_syn _ _ _ _ Hseg) in Hs.
Qed.

(** A restricted network does nothing that the other does not do. *)
Lemma step_whatever S1 S2 may1 may2 s s' :
  rtc (step S1 S2 may1 may2) s s' -> rtc (step S1 S2 whatever whatever) s s'.
Proof.
  induction 1 as [|s1 s2 s3 Hst _ IH]; [apply rtc_refl|]. eapply rtc_l; [|exact IH].
  destruct Hst; by constructor.
Qed.

(** A run: handshake, two bytes from left to right, and the reading of them. *)
Definition demo_cfg (isn : Z) : TCPConfig.t := TCPConnection.demo_cfg isn.

Definition demo_first (n : node) : TCPSegment.t := List.last (sent n) TCPSegment.default.

Definition demo_a1 : node :=
  transmit ((start (demo_cfg 4294967295) 0) <| conn := TCPConnection.connect (conn (start (demo_cfg 4294967295) 0)) |>).
Definition demo_b1 : node := transmit (receive (demo_first demo_a1) (start (demo_cfg 77) 0)).
Definition demo_a2 : node := receive (demo_first demo_b1) demo_a1.
Definition demo_a3 : node := transmit (demo_a2 <| conn := (TCPConnection.write (str "hi") (conn demo_a2)).2 |>).
Definition demo_b2 : node := app_read 2 (receive (demo_first demo_a3) demo_b1).

(** The SYN of the handshake arrives once more. *)
Definition demo_b3 : node := receive (demo_first demo_a1) demo_b2.

Lemma demo_run : rtc (step (str "hi") (str "answer")
    (timely (str "answer") (mkWrapping 77)) (timely (str "hi") (mkWrapping 4294967295)))
  (start (demo_cfg 4294967295) 0, start (demo_cfg 77) 0) (demo_a3, demo_b2).
Proof.
  eapply rtc_l; [apply step_left, local_connect|].
  eapply rtc_l; [apply step_left, local_transmit|]. fold demo_a1.
  eapply rtc_l; [eapply (deliver_right _ _ _ _ _ _ (demo_first demo_a1))|].
  { vm_compute. left. }
  { apply timely_short; vm_compute; intuition congruence. }
  eapply rtc_l; [apply step_right, local_transmit|]. fold demo_b1.
  eapply rtc_l; [eapply (deliver_left _ _ _ _ _ _ (demo_first demo_b1))|].
  { vm_compute. left. }
  { apply timely_short; vm_compute; intuition congruence. }
  fold demo_a2.
  eapply rtc_l; [apply step_left, (local_write _ _ (str "hi") []); reflexivity|].
  eapply rtc_l; [apply step_left, local_transmit|]. fold demo_a3.
  eapply rtc_l; [eapply (deliver_right _ _ _ _ _ _ (demo_first demo_a3))|].
  { vm_compute. right. right. left. }
  { apply timely_short; vm_compute; intuition congruence. }
  eapply rtc_l; [apply step_right, (local_read _ _ 2); lia|]. apply rtc_refl.
Qed.

Lemma demo_run_late : rtc (step (str "hi") (str "answer") whatever whatever)
  (start (demo_cfg 4294967295) 0, start (demo_cfg 77) 0) (demo_a3, demo_b3).
Proof.
  eapply rtc_r; [eapply step_whatever, demo_run|]. apply deliver_right; [|done]. vm_compute. left.
Qed.

Lemma end_to_end_witness :
  (seen demo_b3 = ztake (zlen (seen demo_b3)) (str "hi") /\
   (ByteStream.input_ended (inbound demo_b3) = true -> seen demo_b3 = str "hi")) /\
  (seen demo_a3 = ztake (zlen (seen demo_a3)) (str "answer") /\
   (ByteStream.input_ended (inbound demo_a3) = true -> seen demo_a3 = str "answer")).
Proof.
  apply (end_to_end (str "hi") (mkWrapping 4294967295) (str "answer") (mkWrapping 77)
    (demo_cfg 4294967295) (demo_cfg 77) 0 0);
    [by split|by split|repeat split; vm_compute; congruence|repeat split; vm_compute; congruence|].
  apply demo_run_late.
Defined.


Example demo_run_delivers : got demo_b2 = str "hi" /\ got demo_b3 = str "hi".
Proof. vm_compute. split; reflexivity. Qed.

End Network.
