(* ===== verification/Text.v ===== *)
(** * Numbers and text: what the program uses of iostreams, [std::to_string],
    [std::stoi], [strtol(3)] and [strncmp(3)]

    Text is a [string] (a C string is one without null characters).  Numbers are
    printed and read in base 10 or 16; reading back what was printed is the one
    lemma ([read_show]) all round trips of printed numbers use. *)
From Stdlib Require Import Ascii.
From S2P Require Import Prelude.

Module Text.

(** ** Digits *)

Definition code (c : ascii) : Z := Z.of_N (N_of_ascii c).

Definition digit_char (d : Z) : ascii :=
  default "0"%char (String.get (Z.to_nat d) "0123456789abcdef").

Definition digit_val (c : ascii) : option Z :=
  let n := code c in
  if (48 <=? n) && (n <=? 57) then Some (n - 48)
  else if (97 <=? n) && (n <=? 122) then Some (n - 87)
  else if (65 <=? n) && (n <=? 90) then Some (n - 55)
  else None.

Lemma digit_val_char d : 0 <= d < 16 -> digit_val (digit_char d) = Some d.
Proof.
  intros. assert (d = 0 \/ d = 1 \/ d = 2 \/ d = 3 \/ d = 4 \/ d = 5 \/ d = 6 \/ d = 7 \/ d = 8 \/ d = 9 \/ d = 10
    \/ d = 11 \/ d = 12 \/ d = 13 \/ d = 14 \/ d = 15) as Hd by lia.
  repeat destruct Hd as [->|Hd]; subst; reflexivity.
Qed.

(** ** Printing *)

Fixpoint show_fuel (fuel : nat) (base n : Z) (acc : string) : string :=
  match fuel with
  | O => acc
  | S fuel =>
      let acc := String (digit_char (n mod base)) acc in
      if n / base =? 0 then acc else show_fuel fuel base (n / base) acc
  end.

(** A non-negative number; it has at most [log2 n + 1] digits. *)
Definition show (base n : Z) : string := show_fuel (S (Z.to_nat (Z.log2 n))) base n "".

(** [std::to_string] and the output operator with [dec] and with [hex]. *)
Definition to_string (n : Z) : string := if n <? 0 then "-" +:+ show 10 (- n) else show 10 n.
Definition hex (n : Z) : string := show 16 n.

(** [setw(w)] with [setfill(c)]. *)
Definition setw (w : Z) (c : ascii) (s : string) : string :=
  String.string_of_list_ascii (replicate (Z.to_nat (w - Z.of_nat (String.length s))) c) +:+ s.

(** [boolalpha]. *)
Definition boolalpha (b : bool) : string := if b then "true" else "false".

(** ** Reading *)

(** The longest run of digits below [base], and what follows it. *)
Fixpoint read_digits (base : Z) (s : string) (v : Z) : Z * string :=
  match s with
  | EmptyString => (v, EmptyString)
  | String c s' =>
      match digit_val c with
      | Some d => if d <? base then read_digits base s' (v * base + d) else (v, s)
      | None => (v, s)
      end
  end.

Definition starts_with_digit (base : Z) (s : string) : bool :=
  match s with
  | String c _ => match digit_val c with Some d => d <? base | None => false end
  | EmptyString => false
  end.

(** [isspace] of the C locale. *)
Definition isspace (c : ascii) : bool := (code c =? 32) || ((9 <=? code c) && (code c <=? 13)).

Fixpoint skip_space (s : string) : string :=
  match s with
  | String c s' => if isspace c then skip_space s' else s
  | EmptyString => s
  end.

Definition LONG_MAX : Z := 9223372036854775807.
Definition LONG_MIN : Z := -9223372036854775808.

(** A sign and what follows. *)
Definition read_sign (s : string) : Z * string :=
  match s with
  | String "+" s' => (1, s')
  | String "-" s' => (-1, s')
  | _ => (1, s)
  end.

(** The base that base 0 stands for, and the digits after the prefix. *)
Definition detect_base (s : string) : Z * string :=
  match s with
  | String "0" (String "x" s' | String "X" s') => if starts_with_digit 16 s' then (16, s') else (8, s)
  | String "0" _ => (8, s)
  | _ => (10, s)
  end.

(** [strtol(s, &end, base)] for base 10 and base 0 (detect the base): the value,
    clipped to the range of [long], and whether there was a number at all. *)
Definition strtol (s : string) (base : Z) : Z * bool :=
  let '(sign, s) := read_sign (skip_space s) in
  let '(base, s) := if base =? 0 then detect_base s else (base, s) in
  if starts_with_digit base s
  then (Z.max LONG_MIN (Z.min LONG_MAX (sign * (read_digits base s 0).1)), true)
  else (0, false).

(** [std::stoi]. *)
Definition stoi (s : string) : outcome Z :=
  let '(v, converted) := strtol s 10 in
  if negb converted then Throw (invalid_argument "stoi")
  else if (v <? -2147483648) || (2147483647 <? v) then Throw (out_of_range "stoi")
  else Ok v.

(** [strncmp(a, b, n) == 0]. *)
Fixpoint strncmp_eq (a b : string) (n : nat) : bool :=
  match n, a, b with
  | O, _, _ => true
  | S _, EmptyString, EmptyString => true
  | S n, String c a, String d b => Ascii.eqb c d && strncmp_eq a b n
  | S _, _, _ => false
  end.

(** ** Round trips *)

Lemma show_fuel_read fuel base n acc :
  2 <= base <= 16 -> 0 <= n < 2 ^ Z.of_nat fuel -> (fuel <> 0)%nat ->
  exists k, 0 <= k /\ forall v, read_digits base (show_fuel fuel base n acc) v = read_digits base acc (v * base ^ k + n).
Proof.
  intros Hb. revert n acc. induction fuel as [|fuel IH]; intros n acc Hn Hf; [done|]. cbn [show_fuel].
  assert (0 <= n mod base < base) as Hm by (apply Z.mod_pos_bound; lia).
  pose proof (Z.div_mod n base ltac:(lia)) as Hd.
  assert (forall v, read_digits base (String (digit_char (n mod base)) acc) v =
    read_digits base acc (v * base + n mod base)) as Hread.
  { intros v. cbn [read_digits]. rewrite digit_val_char by lia. by replace (n mod base <? base) with true by lia. }
  destruct (n / base =? 0) eqn:E.
  - exists 1. split; [lia|]. intros v. rewrite Hread, Z.pow_1_r. f_equal. nia.
  - assert (0 <= n / base) by (apply Z.div_pos; lia).
    assert (n / base < 2 ^ Z.of_nat fuel) as Hlt.
    { apply Z.div_lt_upper_bound; [lia|]. rewrite Nat2Z.inj_succ, Z.pow_succ_r in Hn by lia. nia. }
    destruct (IH (n / base) (String (digit_char (n mod base)) acc)) as (k & Hk & IHk); [lia| |].
    { intros ->. cbn in Hlt. lia. }
    exists (k + 1). split; [lia|]. intros v. rewrite IHk, Hread. f_equal.
    rewrite Z.pow_add_r, Z.pow_1_r by lia. nia.
Qed.

Lemma show_fuel_enough n : 0 <= n -> 0 <= n < 2 ^ Z.of_nat (S (Z.to_nat (Z.log2 n))).
Proof.
  intros Hn. split; [done|]. destruct (Z.eq_dec n 0) as [->|]; [done|].
  pose proof (Z.log2_spec n ltac:(lia)). pose proof (Z.log2_nonneg n).
  replace (Z.of_nat (S (Z.to_nat (Z.log2 n)))) with (Z.succ (Z.log2 n)) by lia. lia.
Qed.

Lemma string_app_assoc (a b c : string) : (a +:+ b) +:+ c = a +:+ (b +:+ c).
Proof. induction a as [|x a IH]; [done|]. exact (f_equal (String x) IH). Qed.

Lemma string_app_nil (a : string) : a +:+ "" = a.
Proof. induction a as [|x a IH]; [done|]. exact (f_equal (String x) IH). Qed.

Lemma show_fuel_app fuel base n acc : show_fuel fuel base n acc = show_fuel fuel base n "" +:+ acc.
Proof.
  revert n acc. induction fuel as [|fuel IH]; intros n acc; [done|]. cbn [show_fuel].
  destruct (_ =? 0); [done|]. rewrite IH. rewrite (IH _ (String _ "")). by rewrite string_app_assoc.
Qed.

(** Reading back a printed number, whatever follows it. *)
Lemma read_show base n rest :
  2 <= base <= 16 -> 0 <= n -> starts_with_digit base rest = false ->
  read_digits base (show base n +:+ rest) 0 = (n, rest).
Proof.
  intros Hb Hn Hr. unfold show. rewrite <- show_fuel_app.
  destruct (show_fuel_read (S (Z.to_nat (Z.log2 n))) base n rest) as (k & _ & ->);
    [done|by apply show_fuel_enough|done|]. rewrite Z.mul_0_l, Z.add_0_l.
  destruct rest as [|c rest]; [done|]. cbn [read_digits starts_with_digit] in *.
  destruct (digit_val c); [|done]. by rewrite Hr.
Qed.

(** The first character of a printed number is a digit, and not 0 unless the
    number is. *)
Lemma show_head fuel base n acc :
  2 <= base <= 16 -> 0 <= n < 2 ^ Z.of_nat fuel -> (fuel <> 0)%nat ->
  exists d s, show_fuel fuel base n acc = String (digit_char d) s /\ 0 <= d < base /\ (d = 0 -> n = 0).
Proof.
  intros Hb. revert n acc. induction fuel as [|fuel IH]; intros n acc Hn Hf; [done|]. cbn [show_fuel].
  assert (0 <= n mod base < base) as Hm by (apply Z.mod_pos_bound; lia).
  pose proof (Z.div_mod n base ltac:(lia)) as Hd. destruct (n / base =? 0) eqn:E.
  - exists (n mod base), acc. split_and!; [done|lia|lia|nia].
  - assert (0 <= n / base) by (apply Z.div_pos; lia).
    assert (n / base < 2 ^ Z.of_nat fuel) as Hlt.
    { apply Z.div_lt_upper_bound; [lia|]. rewrite Nat2Z.inj_succ, Z.pow_succ_r in Hn by lia. nia. }
    destruct (IH (n / base) (String (digit_char (n mod base)) acc)) as (d & s & E' & ? & ?); [lia| |].
    { intros ->. cbn in Hlt. lia. }
    exists d, s. split_and!; [done|lia|lia|lia].
Qed.

(** [strtol] in base 10 or with the base detected reads back [to_string]. *)
Lemma strtol_to_string n base :
  base = 10 \/ base = 0 -> 0 <= n <= LONG_MAX -> strtol (to_string n) base = (n, true).
Proof.
  intros Hbase Hn. unfold LONG_MAX in *. unfold to_string. replace (n <? 0) with false by lia.
  pose proof (read_show 10 n "" ltac:(lia) ltac:(lia) eq_refl) as Hread.
  rewrite string_app_nil in Hread.
  destruct (show_head (S (Z.to_nat (Z.log2 n))) 10 n "") as (d & s & E & Hd & H0);
    [lia|apply show_fuel_enough; lia|done|]. fold (show 10 n) in E. rewrite E in *.
  assert (d = 0 \/ d = 1 \/ d = 2 \/ d = 3 \/ d = 4 \/ d = 5 \/ d = 6 \/ d = 7 \/ d = 8 \/ d = 9) as Hds by lia.
  destruct Hds as [->|Hds].
  - rewrite (H0 eq_refl) in *. vm_compute in E. injection E as <-. by destruct Hbase as [-> | ->].
  - assert (strtol (String (digit_char d) s) base =
      (Z.max LONG_MIN (Z.min LONG_MAX (1 * (read_digits 10 (String (digit_char d) s) 0).1)), true)) as ->.
    { destruct Hbase as [-> | ->]; repeat destruct Hds as [->|Hds]; subst; reflexivity. }
    rewrite Hread. unfold LONG_MIN, LONG_MAX. cbn [fst]. f_equal. lia.
Qed.

Lemma stoi_to_string n : 0 <= n < 2147483648 -> stoi (to_string n) = Ok n.
Proof.
  intros. unfold stoi. rewrite strtol_to_string by (unfold LONG_MAX; lia || auto). cbn [negb].
  by replace (_ || _) with false by lia.
Qed.

(** ** Widths *)

Definition width (s : string) : Z := Z.of_nat (String.length s).

Lemma width_app a b : width (a +:+ b) = width a + width b.
Proof.
  induction a as [|c a IH]; [done|]. unfold width in *.
  change (String c a +:+ b) with (String c (a +:+ b)). cbn [String.length]. lia.
Qed.

Lemma width_setw w c s : width (setw w c s) = Z.max w (width s).
Proof.
  unfold setw. rewrite width_app. unfold width at 1.
  assert (forall n, String.length (String.string_of_list_ascii (replicate n c)) = n) as ->
    by (intros n; induction n; simpl; congruence). unfold width. lia.
Qed.

(** A number below [base ^ k] has at most [k] digits. *)
Lemma width_show_fuel fuel base n k acc :
  2 <= base -> 0 <= n < base ^ k -> 1 <= k -> width (show_fuel fuel base n acc) <= k + width acc.
Proof.
  intros Hb. revert n k acc. induction fuel as [|fuel IH]; intros n k acc Hn Hk; cbn [show_fuel]; [lia|].
  assert (width (String (digit_char (n mod base)) acc) = 1 + width acc) as Hw by (unfold width; simpl; lia).
  destruct (n / base =? 0) eqn:E; [lia|].
  assert (0 <= n / base) by (apply Z.div_pos; lia).
  destruct (Z.eq_dec k 1) as [->|]; [rewrite Z.div_small in E; lia|].
  assert (n / base < base ^ (k - 1)).
  { apply Z.div_lt_upper_bound; [lia|]. rewrite <- Z.pow_succ_r by lia. replace (Z.succ (k - 1)) with k by lia. lia. }
  etransitivity; [apply (IH (n / base) (k - 1)); lia|]. lia.
Qed.

(** [strncmp] with a bound beyond the option's length compares whole strings. *)
Lemma strncmp_eq_spec a b n : (String.length a < n)%nat -> strncmp_eq a b n = true <-> a = b.
Proof.
  revert b n. induction a as [|c a IH]; intros [|d b] [|n] Hn; simpl in *; try (lia || done).
  rewrite andb_true_iff, Ascii.eqb_eq, IH by lia. split; [by intros [-> ->]|by intros [= -> ->]].
Qed.

End Text.
