(* ===== verification/Benchmark.v ===== *)
(** * The benchmark: [apps/tcp_benchmark.cc]

    Two connections in one process exchange their segments directly, in order or
    with every batch reversed, while one of them sends a long string to the other.
    [loop] is the lambda of [main_loop], [move_segments] the function; the string
    drawn from [rand()], the initial sequence numbers drawn by the two senders and
    the number of rounds are parameters. *)
From S2P Require Import Prelude WrappingIntegers ByteStream OrderedMap StreamReassembler Buffer.
From S2P Require Import Parser Checksum TCPSegment TCPReceiver TCPSender TCPConnection Network Text Outbound Handshake.
Import WrappingIntegers.

Module Benchmark.

Definition len : Z := 100 * 1024 * 1024.

(** [move_segments(x, y, segments, reorder)]; both callers pass an empty vector,
    and the function leaves it empty. *)
Definition move_segments (x y : TCPConnection.t) (reorder : bool) : TCPConnection.t * TCPConnection.t :=
  let segments := TCPConnection._segments_out x in
  let x := x <| TCPConnection._segments_out := [] |> in
  let y := fold_left (fun y seg => TCPConnection.segment_received seg y)
             (if reorder then rev segments else segments) y in
  (x, y).

(** The variables of [main_loop]. *)
Record run := mk {
  x : TCPConnection.t;
  y : TCPConnection.t;
  bytes_to_send : Buffer.t;
  x_closed : bool;
  string_received : bytes }.

#[global] Instance eta_run : Eta run := fun r =>
  mk (x r) (y r) (bytes_to_send r) (x_closed r) (string_received r).

Definition mismatch (want written : Z) : exn :=
  runtime_error ("want = " +:+ Text.to_string want +:+ ", written = " +:+ Text.to_string written).

(** [while (bytes_to_send.size() and x.remaining_outbound_capacity())]; [None]
    means that the fuel is used up. *)
Fixpoint write_input (fuel : nat) (r : run) : option (outcome run) :=
  match fuel with
  | O => None
  | S fuel =>
      if negb (Buffer.size (bytes_to_send r) =? 0) && negb (TCPConnection.remaining_outbound_capacity (x r) =? 0) then
        let want := Z.min (TCPConnection.remaining_outbound_capacity (x r)) (Buffer.size (bytes_to_send r)) in
        let '(written, x') := TCPConnection.write (substr (Buffer.str (bytes_to_send r)) 0 want) (x r) in
        let r := r <| x := x' |> in
        if negb (want =? written) then Some (Throw (mismatch want written))
        else
          match Buffer.remove_prefix written (bytes_to_send r) with
          | Throw e => Some (Throw e)
          | Ok b => write_input fuel (r <| bytes_to_send := b |>)
          end
      else Some (Ok r)
  end.

(** Every pass takes a byte off [bytes_to_send]. *)
Definition write_fuel (r : run) : nat := S (Z.to_nat (Buffer.size (bytes_to_send r))).

(** Closing [x] once everything is written. *)
Definition close_x (r : run) : run :=
  if (Buffer.size (bytes_to_send r) =? 0) && negb (x_closed r)
  then r <| x := TCPConnection.end_input_stream (x r) |> <| x_closed := true |>
  else r.

(** The exchange of segments. *)
Definition exchange (reorder : bool) (r : run) : run :=
  let '(x1, y1) := move_segments (x r) (y r) reorder in
  let '(y2, x2) := move_segments y1 x1 false in
  r <| x := x2 |> <| y := y2 |>.

(** Reading the output of [y]. *)
Definition read_output (r : run) : run :=
  let available_output := ByteStream.buffer_size (TCPConnection.inbound_stream (y r)) in
  if 0 <? available_output then
    r <| string_received := string_received r ++ (ByteStream.read available_output (TCPConnection.inbound_stream (y r))).1 |>
      <| y := TCPConnection.with_inbound (fun o => (ByteStream.read available_output o).2) (y r) |>
  else r.

Definition time_passes (r : run) : run :=
  r <| x := TCPConnection.tick 1000 (x r) |> <| y := TCPConnection.tick 1000 (y r) |>.

Definition loop (reorder : bool) (r : run) : option (outcome run) :=
  match write_input (write_fuel r) r with
  | Some (Ok r) => Some (Ok (time_passes (read_output (exchange reorder (close_x r)))))
  | o => o
  end.

(** The string whose characters are the results of [rand()]. *)
Definition string_of_rand (rand : list Z) : bytes := map byte_of rand.

(** [main_loop] up to its first loop; [random_x] and [random_y] are the numbers
    the two senders draw. *)
Definition start (string_to_send : bytes) (random_x random_y : Z) : run :=
  let config := TCPConfig.default in
  mk (TCPConnection.connect (TCPConnection.make config random_x))
     (TCPConnection.end_input_stream (TCPConnection.make config random_y))
     (Buffer.of_string string_to_send) false [].

(** [while (cond) loop();] in at most [fuel] rounds. *)
Fixpoint while (cond : run -> bool) (reorder : bool) (fuel : nat) (r : run) : option (outcome run) :=
  if cond r then
    match fuel with
    | O => None
    | S fuel =>
        match loop reorder r with
        | Some (Ok r) => while cond reorder fuel r
        | o => o
        end
    end
  else Some (Ok r).

Definition receiving (r : run) : bool := negb (ByteStream.eof (TCPConnection.inbound_stream (y r))).

Definition alive (r : run) : bool := TCPConnection.active (x r) || TCPConnection.active (y r).

Definition main_loop (reorder : bool) (string_to_send : bytes) (random_x random_y : Z) (fuel : nat) :
    option (outcome run) :=
  match while receiving reorder fuel (start string_to_send random_x random_y) with
  | Some (Ok r) =>
      if negb (bool_decide (string_received r = string_to_send))
      then Some (Throw (runtime_error "strings sent vs. received don't match"))
      else while alive reorder fuel r
  | o => o
  end.

(** [main]: [rand1] and [rand2] are the values of [rand()] in the two runs, [seed] the
    initial sequence numbers.  The result is the exit status. *)
Definition main (rand1 rand2 : list Z) (seed : nat -> Z) (fuel : nat) : option Z :=
  match main_loop false (string_of_rand rand1) (seed 0%nat) (seed 1%nat) fuel with
  | None => None
  | Some (Throw _) => Some 1
  | Some (Ok _) =>
      match main_loop true (string_of_rand rand2) (seed 2%nat) (seed 3%nat) fuel with
      | None => None
      | Some (Throw _) => Some 1
      | Some (Ok _) => Some 0
      end
  end.

(** ** Invariant

    [x] sends [S] from [isn_x], [y] the empty stream from [isn_y]. *)
Section invariant.
Context (S : bytes) (isn_x isn_y : WrappingInt32).
Context (HS : zlen S < 2147483640) (Hx : wf isn_x) (Hy : wf isn_y).

Abbreviation cap := 64000.
Abbreviation conn_x := (TCPConnection.inv S isn_x [] isn_y cap).
Abbreviation conn_y := (TCPConnection.inv [] isn_y S isn_x cap).
Abbreviation outbound c := (TCPSender._stream (TCPConnection._sender c)).
Abbreviation queue c := (TCPConnection._segments_out c).
Abbreviation acked c := (TCPSender._last_ackno (TCPConnection._sender c)).

(** The two connections and what is under way between them. *)
Record connected (del : bytes) (x y : TCPConnection.t) : Prop := {
  co_x : exists hist, conn_x hist [] x;
  co_y : exists hist, conn_y hist del y;
  co_out : Handshake.link S isn_x [] isn_y x y;
  co_in : Handshake.link [] isn_y S isn_x y x }.

(** What is left of the string, and whether the stream was closed. *)
Record input_ok (r : run) : Prop := {
  in_wf : Buffer.wf (bytes_to_send r);
  in_stream : ByteStream.wf (outbound (x r));
  in_left : Buffer.str (bytes_to_send r) = zdrop (ByteStream.bytes_written (outbound (x r))) S;
  in_written : ByteStream.bytes_written (outbound (x r)) = zlen S - zlen (Buffer.str (bytes_to_send r));
  in_open : ByteStream.input_ended (outbound (x r)) = x_closed r;
  in_closed : x_closed r = true -> Buffer.str (bytes_to_send r) = [];
  in_capacity : ByteStream._capacity (outbound (x r)) = cap }.

Record running (r : run) : Prop := {
  ru_connected : connected (string_received r) (x r) (y r);
  ru_input : input_ok r;
  ru_queue : Forall Handshake.no_syn (queue (x r)) \/ acked (x r) = 0 }.

Lemma nil_short : zlen (@nil byte) < 2147483640.
Proof. done. Qed.

Lemma input_drained r r' :
  input_ok r -> Outbound.drained (outbound (x r)) (outbound (x r')) ->
  bytes_to_send r' = bytes_to_send r -> x_closed r' = x_closed r -> input_ok r'.
Proof.
  intros [W1 W2 L B O C K] [D1 D2 D4 D3] Eb Ec. destruct (D3 W2). split; rewrite ?Eb, ?Ec, ?D1, ?D2, ?D4; done.
Qed.

(** Everything that only adds to the queue of [x] keeps the connections. *)
Lemma advance_x retx del a b a' :
  connected del a b -> (exists hist, conn_x hist [] a') -> Handshake.advance [] isn_y retx a a' ->
  TCPReceiver.last_no (TCPConnection._receiver a') = TCPReceiver.last_no (TCPConnection._receiver a) -> connected del a' b.
Proof.
  intros [[hx Ix] Iy Lx Ly] Ix' Ha Er. split; [done|done| |].
  - eapply Handshake.link_advance; [|done|done]. eapply Handshake.acked_nonneg, Ix.
  - destruct Ly. split; try done; unfold TCPReceiver.synced; by rewrite Er.
Qed.

Lemma advance_y retx del del' a b b' :
  connected del a b -> (exists hist, conn_y hist del' b') -> Handshake.advance S isn_x retx b b' ->
  TCPReceiver.last_no (TCPConnection._receiver b') = TCPReceiver.last_no (TCPConnection._receiver b) -> connected del' a b'.
Proof.
  intros [Ix [hy Iy] Lx Ly] Iy' Ha Er. split; [done|done| |].
  - destruct Lx. split; try done; unfold TCPReceiver.synced; by rewrite Er.
  - eapply Handshake.link_advance; [|done|done]. eapply Handshake.acked_nonneg, Iy.
Qed.

Lemma new_no_syn s new :
  Forall (fun seg => Handshake.pushed false s seg /\ Handshake.ack_ok [] isn_y seg) new -> Forall Handshake.no_syn new.
Proof.
  intros Hn. eapply Forall_impl; [exact Hn|]. intros seg [[R _ _ _] _]. unfold Handshake.no_syn.
  destruct (Handshake.is_syn seg); [|done]. by specialize (R eq_refl).
Qed.

Lemma queue_kept a a' :
  Handshake.advance [] isn_y false a a' -> acked a' = acked a ->
  Forall Handshake.no_syn (queue a) \/ acked a = 0 -> Forall Handshake.no_syn (queue a') \/ acked a' = 0.
Proof.
  intros [_ _ _ (new & -> & Hn)] Ea [Hq|Hq]; [left|right; congruence]. apply Forall_app. split; [done|].
  by eapply new_no_syn.
Qed.

Lemma write_connected del a b d rest :
  connected del a b ->
  S = ztake (ByteStream.bytes_written (outbound a)) S ++ ztake (ByteStream.write d (outbound a)).1 d ++ rest ->
  connected del (TCPConnection.write d a).2 b.
Proof.
  intros Hc HSd. pose proof Hc as [[hx Ix] Iy Lx Ly].
  destruct (Handshake.write_advance S isn_x [] isn_y cap HS nil_short Hy hx [] a d rest Ix
    (Handshake.li_opening _ _ _ _ _ _ Lx) HSd) as [Hadv _].
  eapply (advance_x false); [done| |done|].
  - apply (TCPConnection.conn_write_inv S isn_x [] isn_y cap ltac:(unfold TCPSender.fits; lia) hx [] a d _ Ix HSd).
  - unfold TCPConnection.write. by destruct (ByteStream.write _ _).
Qed.

(** One pass of the writing loop. *)
Lemma write_pass r (want := Z.min (TCPConnection.remaining_outbound_capacity (x r)) (Buffer.size (bytes_to_send r)))
    (d := substr (Buffer.str (bytes_to_send r)) 0 want) (w := TCPConnection.write d (x r)) :
  running r -> Buffer.size (bytes_to_send r) <> 0 -> TCPConnection.remaining_outbound_capacity (x r) <> 0 ->
  w.1 = want /\ 0 < want /\
  exists b, Buffer.remove_prefix want (bytes_to_send r) = Ok b /\
    Buffer.size b = Buffer.size (bytes_to_send r) - want /\ running (r <| x := w.2 |> <| bytes_to_send := b |>) /\
    S = ztake (ByteStream.bytes_written (outbound (x r))) S ++ ztake (ByteStream.write d (outbound (x r))).1 d ++ Buffer.str b.
Proof.
  intros [Hc Hi Hq] Hb Hcap. destruct Hi as [W1 W2 L B O C K]. unfold Buffer.size in *. pose_zlen.
  unfold TCPConnection.remaining_outbound_capacity, TCPSender.stream_in in Hcap, want.
  pose proof (ByteStream.remaining_capacity_range _ W2) as Hrc.
  assert (zlen (Buffer.str (bytes_to_send r)) <= zlen S) by (rewrite L; zlia).
  assert (0 < want) as Hw by lia. assert (ByteStream.input_ended (outbound (x r)) = false) as Hopen.
  { rewrite O. destruct (x_closed r); [|done]. rewrite C in Hb by done. done. }
  assert (d = ztake want (Buffer.str (bytes_to_send r))) as Ed by done. assert (zlen d = want) as Hd by (rewrite Ed; zlia).
  assert (zlen d <= ByteStream.remaining_capacity (outbound (x r))) as Hfit by lia.
  pose proof (ByteStream.write_fits d _ W2 Hopen Hfit) as Ew.
  assert (w.1 = want) as Hw1.
  { unfold w, TCPConnection.write, TCPSender.stream_in. by rewrite Ew. }
  pose proof (Buffer.remove_prefix_spec want (bytes_to_send r) W1 ltac:(lia)) as Hr.
  replace (want <=? _) with true in Hr by lia. destruct Hr as (b & Eb & Hwb & Hsb).
  split_and!; [done|done|]. exists b. split; [done|]. split; [rewrite Hsb; zlia|].
  assert (S = ztake (ByteStream.bytes_written (outbound (x r))) S ++ ztake (ByteStream.write d (outbound (x r))).1 d ++
    Buffer.str b) as HSd.
  { rewrite Ew. cbn [fst]. rewrite Hd, (ztake_all _ d) by lia. by rewrite Ed, Hsb, ztake_zdrop, L, ztake_zdrop. }
  pose proof (Outbound.write_drained d (x r)) as [D1 D2 D4 D3]. rewrite Ew in D1, D2, D3, D4. fold w in D1, D2, D3, D4. cbn [snd] in D1, D2, D3, D4.
  split; [|exact HSd]. split; cbn [x y string_received bytes_to_send modify].
  - apply (write_connected _ _ _ d (Buffer.str b)); done.
  - destruct (D3 (ByteStream.append_wf _ _ W2 Hfit)) as [W3 _].
    assert (ByteStream.bytes_written (outbound w.2) = ByteStream.bytes_written (outbound (x r)) + want) as Hbw.
    { rewrite D1. change (ByteStream.bytes_written (ByteStream.append d (outbound (x r))))
        with (u64 (ByteStream.bytes_written (outbound (x r)) + zlen d)). rewrite Hd. apply u64_small. lia. }
    split; simpl; rewrite ?Hbw, ?D2, ?D4; try done.
    + by rewrite Hsb, L, zdrop_zdrop by lia.
    + rewrite Hsb. zlia.
    + rewrite O in Hopen. by rewrite Hopen.
  - destruct Hc as [[hx Ix] _ Lx _].
    destruct (Handshake.write_advance S isn_x [] isn_y cap HS nil_short Hy hx [] (x r) d (Buffer.str b) Ix
      (Handshake.li_opening _ _ _ _ _ _ Lx) HSd). by eapply queue_kept.
Qed.

Lemma write_input_ok fuel : forall r, running r -> Buffer.size (bytes_to_send r) < Z.of_nat fuel ->
  exists r', write_input fuel r = Some (Ok r') /\ running r'.
Proof.
  induction fuel as [|fuel IH]; intros r Hr Hf; [unfold Buffer.size in Hf; pose_zlen; lia|]. cbn [write_input].
  destruct (negb (Buffer.size (bytes_to_send r) =? 0)) eqn:E1; cbn [andb]; [|by exists r].
  destruct (negb (TCPConnection.remaining_outbound_capacity (x r) =? 0)) eqn:E2; [|by exists r].
  destruct (write_pass r Hr) as (Ew & Hw & b & Eb & Hs & Hr' & _); [lia..|].
  destruct (TCPConnection.write _ _) as [written x']. cbn [fst snd] in *. subst written.
  rewrite Z.eqb_refl. cbn [negb bytes_to_send modify] in *. rewrite Eb. apply IH; [done|]. simpl. lia.
Qed.

Lemma close_ok r : running r -> running (close_x r).
Proof.
  intros Hr. unfold close_x. destruct (Buffer.size (bytes_to_send r) =? 0) eqn:E; [|done].
  destruct (x_closed r) eqn:Ec; [done|]. cbn [negb andb]. destruct Hr as [Hc [W1 W2 L B O C K] Hq].
  assert (Buffer.str (bytes_to_send r) = []) as Hnil by (apply zlen_0_nil; unfold Buffer.size in E; lia).
  rewrite Hnil, zlen_nil, Z.sub_0_r in B. pose proof Hc as [[hx Ix] Iy Lx Ly].
  destruct (Handshake.end_input_advance S isn_x [] isn_y cap HS nil_short Hy hx [] (x r) Ix
    (Handshake.li_opening _ _ _ _ _ _ Lx) B) as [Hadv Hack].
  pose proof (Outbound.end_drained (x r)) as [D1 D2 D4 D3]. destruct (D3 (ByteStream.end_input_wf _ W2)) as [W3 _].
  split; cbn [x y string_received bytes_to_send modify].
  - eapply (advance_x false); [done| |done|done].
    by apply (TCPConnection.conn_end_input_inv S isn_x [] isn_y cap ltac:(unfold TCPSender.fits; lia) hx).
  - change (ByteStream.bytes_written (ByteStream.end_input _)) with (ByteStream.bytes_written (outbound (x r))) in D1.
    split; cbn [x bytes_to_send x_closed modify]; rewrite ?D1, ?D2, ?D4; try done.
    by rewrite B, Hnil, zlen_nil, Z.sub_0_r.
  - by eapply queue_kept.
Qed.

Lemma delivered_drained l : forall c, Outbound.drained (outbound c) (outbound (Handshake.delivered l c)).
Proof.
  induction l as [|seg l IH]; intros c; [apply Outbound.drained_refl|].
  eapply Outbound.drained_trans; [apply Outbound.received_drained|apply IH].
Qed.

(** The batch of [x] reaches [y]. *)
Lemma first_move (reorder : bool) r (l := if reorder then rev (queue (x r)) else queue (x r))
    (x1 := (x r) <| TCPConnection._segments_out := [] |>) (y1 := Handshake.delivered l (y r)) :
  running r ->
  l ≡ₚ queue (x r) /\ Handshake.settled isn_x l /\ (exists hist, conn_x hist [] x1) /\
  (exists hist, conn_y hist (string_received r) y1) /\
  Handshake.link S isn_x [] isn_y x1 y1 /\ Handshake.link [] isn_y S isn_x y1 x1.
Proof.
  intros [[[hx Ix] [hy Iy] Lx Ly] Hi Hq]. assert (l ≡ₚ queue (x r)) as Hp
    by (unfold l; destruct reorder; [symmetry; apply Permutation_rev|done]).
  assert (Handshake.settled isn_x l) as Hset.
  { unfold l. destruct reorder; [|apply Lx]. destruct Hq as [Hq|Hq].
    - apply Handshake.no_syn_settled. by rewrite <- Permutation_rev.
    - apply Handshake.low_settled. rewrite <- Permutation_rev. by apply (Handshake.li_low _ _ _ _ _ _ Lx). }
  destruct (Handshake.move_link S isn_x [] isn_y cap cap hx hy [] (string_received r) (x r) (y r) l)
    as (Ix1 & Iy1 & Lx1 & Ly1 & _); try done. split_and!; try done. by exists hx.
Qed.

Lemma exchange_ok reorder r : running r ->
  let r' := exchange reorder r in running r' /\ Forall Handshake.no_syn (queue (x r')).
Proof.
  intros Hr. destruct (first_move reorder r Hr) as (_ & _ & [hx Ix1] & [hy1 Iy1] & Lx1 & Ly1). destruct Hr as [_ Hi Hq].
  cbv zeta. unfold exchange, move_segments. set (l := if reorder then rev (queue (x r)) else queue (x r)) in *.
  fold (Handshake.delivered l (y r)).
  set (x1 := (x r) <| TCPConnection._segments_out := [] |>) in *. set (y1 := Handshake.delivered l (y r)) in *.
  destruct (Handshake.move_link [] isn_y S isn_x cap cap hy1 hx (string_received r) [] y1 x1 (queue y1))
    as (Iy2 & Ix2 & Ly2 & Lx2 & [_ _ _ (new & En & Hn)]); try done; [apply Ly1|].
  fold (Handshake.delivered (queue y1) x1). split; [split; simpl|]; cbn [x y string_received modify].
  - split; try done. by exists hy1.
  - eapply input_drained; [exact Hi| |done|done]. simpl.
    exact (delivered_drained (queue y1) x1).
  - left. rewrite En. by eapply new_no_syn.
  - rewrite En. by eapply new_no_syn.
Qed.

Lemma read_ok r : running r -> running (read_output r) /\ x (read_output r) = x r.
Proof.
  intros Hr. unfold read_output. split_if; [|done]. split; [|done]. destruct Hr as [Hc Hi Hq].
  pose proof Hc as [_ [hy Iy] _ Ly]. split; [|by destruct Hi|done]. cbn [x y string_received modify].
  eapply (advance_y false); [done| | |done].
  - exists hy. apply TCPConnection.read_inv; [done|lia].
  - split; [apply Ly|simpl; lia|done|]. exists []. by rewrite app_nil_r.
Qed.

Lemma tick_last ms c : TCPReceiver.last_no (TCPConnection._receiver (TCPConnection.tick ms c)) = TCPReceiver.last_no (TCPConnection._receiver c).
Proof. unfold TCPConnection.tick. cbv zeta. by destruct (_ <? _). Qed.

Lemma ticks_ok r : running r -> Forall Handshake.no_syn (queue (x r)) -> running (time_passes r).
Proof.
  intros [Hc Hi _] Hq. unfold time_passes. set (a := TCPConnection.tick 1000 (x r)). set (b := TCPConnection.tick 1000 (y r)).
  pose proof Hc as [[hx Ix] [hy Iy] Lx Ly].
  pose proof (Handshake.tick_advance S isn_x [] isn_y cap HS nil_short Hy hx [] (x r) 1000 Ix (Handshake.li_opening _ _ _ _ _ _ Lx)) as Ha.
  pose proof (Handshake.tick_advance [] isn_y S isn_x cap nil_short HS Hx hy _ (y r) 1000 Iy (Handshake.li_opening _ _ _ _ _ _ Ly)) as Hb.
  assert (connected (string_received r) a (y r)) as Hc1.
  { eapply (advance_x true); [done| |done|apply tick_last]. exists hx.
    apply TCPConnection.conn_tick_inv; [unfold TCPSender.fits; lia|done]. }
  split; cbn [x y string_received modify].
  - eapply (advance_y true); [done| |done|apply tick_last]. exists hy. apply TCPConnection.conn_tick_inv; [by unfold TCPSender.fits|done].
  - eapply input_drained; [done|apply Outbound.tick_drained|done|done].
  - destruct Ha as [_ _ _ (new & En & Hn)]. fold a in En, Hn. destruct (Z.eq_dec (acked a) 0); [by right|left]. rewrite En.
    apply Forall_app. split; [done|]. eapply Forall_impl; [exact Hn|]. intros seg [[_ _ P _] _]. unfold Handshake.no_syn.
    destruct (Handshake.is_syn seg); [|done]. by destruct P.
Qed.

Lemma loop_ok reorder r : running r -> exists r', loop reorder r = Some (Ok r') /\ running r'.
Proof.
  intros Hr. unfold loop. destruct (write_input_ok (write_fuel r) r Hr) as (r1 & -> & H1).
  { unfold write_fuel, Buffer.size. pose_zlen. lia. }
  eexists. split; [done|]. destruct (exchange_ok reorder _ (close_ok _ H1)) as [H2 Hq].
  destruct (read_ok _ H2) as [H3 E]. apply ticks_ok; [done|]. by rewrite E.
Qed.

(** What was read is the beginning of the string, and all of it at the end. *)
Lemma received_prefix r : running r ->
  string_received r = ztake (zlen (string_received r)) S /\
  (ByteStream.eof (TCPConnection.inbound_stream (y r)) = true -> string_received r = S).
Proof.
  intros [[_ [hy Iy] _ _] _ _].
  destruct (Network.good_reader [] isn_y S isn_x cap (Network.mk (y r) [] (string_received r))) as [Hp He].
  { split; [by exists hy|done]. }
  cbn [Network.got Network.inbound Network.conn] in Hp, He. split.
  - apply (f_equal (ztake (zlen (string_received r)))) in Hp. rewrite ztake_app_exact, ztake_ztake in Hp.
    rewrite Hp at 1. f_equal. zlia.
  - intros E. apply TCPSender.eof_drained in E as [E1 E2]. specialize (He E2).
    unfold Network.inbound in He. simpl in He. by rewrite E1, app_nil_r in He.
Qed.

End invariant.

(** The start: SYN segments are queued on both sides. *)
Definition first_syn (isn : WrappingInt32) : TCPSegment.t :=
  TCPSender.syn_segment <| TCPSegment._header := TCPHeader.default <| TCPHeader.syn := true |>
    <| TCPHeader.seqno := wrap 0 isn |> <| TCPHeader.win := 64000 |> |>.

Lemma first_link S isn S' isn' c peer :
  TCPConnection._segments_out c = [first_syn isn] ->
  let s := TCPConnection._sender c in
  TCPSender._isn s = isn -> TCPSender._next_seqno s = 1 -> TCPSender._window_size s = 1 -> TCPSender._last_ackno s = 0 ->
  Forall (fun e => TCPSender.seg_len e.2 = 1 /\ Handshake.made e.2) (TCPSender._segments_outstanding s) ->
  TCPReceiver.last_no (TCPConnection._receiver peer) = 0 ->
  Handshake.link S isn S' isn' c peer.
Proof.
  intros Eq s Ei En Ew Ea Ho El. unfold s in *. split; rewrite ?Eq.
  - split; [lia|done|..]; (eapply Forall_impl; [exact Ho|by intros ? []]).
  - done.
  - by apply Forall_singleton.
  - by apply Forall_singleton.
  - intros _. apply Forall_singleton. exists 0. split; [lia|done].
  - split; [|done]. left. exists 0. split; [lia|done].
  - left. lia.
  - unfold TCPReceiver.synced. pose_zlen. lia.
Qed.

Lemma start_running S random_x random_y :
  zlen S < 2147483640 -> running S (WrappingInt32_of random_x) (WrappingInt32_of random_y) (start S random_x random_y).
Proof.
  intros HS. set (isn_x := WrappingInt32_of random_x). set (isn_y := WrappingInt32_of random_y).
  assert (wf isn_x /\ wf isn_y) as [Hx Hy] by (split; apply u32_range).
  assert (TCPConnection.inv S isn_x [] isn_y 64000 [] [] (TCPConnection.make TCPConfig.default random_x)) as Ix
    by (by apply (TCPConnection.conn_make_inv S isn_x [] isn_y TCPConfig.default random_x)).
  assert (TCPConnection.inv [] isn_y S isn_x 64000 [] [] (TCPConnection.make TCPConfig.default random_y)) as Iy.
  { apply (TCPConnection.conn_make_inv [] isn_y S isn_x TCPConfig.default random_y); try done.
    split; [done|lia]. }
  split; [split| |by right].
  - apply (TCPConnection.connect_inv S isn_x [] isn_y 64000 ltac:(unfold TCPSender.fits; lia) [] [] _ Ix).
  - by apply (TCPConnection.conn_end_input_inv [] isn_y S isn_x 64000 ltac:(by unfold TCPSender.fits) [] [] _ Iy).
  - apply first_link; try done. by apply Forall_singleton.
  - apply first_link; try done. by apply Forall_singleton.
  - split; try done; cbn [bytes_to_send start x].
    + apply Buffer.of_string_wf. lia.
    + rewrite Buffer.str_of_string by lia. done.
    + rewrite Buffer.str_of_string by lia. by rewrite Z.sub_diag.
Qed.

Lemma random_wf z : wf (WrappingInt32_of z).
Proof. apply u32_range. Qed.

(** The state after [n] rounds. *)
Fixpoint rounds (reorder : bool) (n : nat) (r : run) : option (outcome run) :=
  match n with
  | O => Some (Ok r)
  | S n => match loop reorder r with Some (Ok r) => rounds reorder n r | o => o end
  end.

(** ** Properties *)

(** C5: the exchange of the benchmark is correct.  Whatever string below 2 GiB is
    sent, whatever initial sequence numbers are drawn and whether or not every
    batch of segments is reversed: every round completes without an error, what
    [y] has received so far is the beginning of the string, and when [y] sees the
    end of its stream it has received all of it. *)
Theorem benchmark_rounds (reorder : bool) (string_to_send : bytes) (random_x random_y : Z) (n : nat) :
  zlen string_to_send < 2147483640 ->
  exists r, rounds reorder n (start string_to_send random_x random_y) = Some (Ok r) /\
    string_received r = ztake (zlen (string_received r)) string_to_send /\
    (receiving r = false -> string_received r = string_to_send).
Proof.
  intros HS. pose proof (start_running string_to_send random_x random_y HS) as Hr.
  assert (exists r, rounds reorder n (start string_to_send random_x random_y) = Some (Ok r) /\
    running string_to_send (WrappingInt32_of random_x) (WrappingInt32_of random_y) r) as (r & E & Hr').
  { revert Hr. generalize (start string_to_send random_x random_y) as r0.
    induction n as [|n IH]; intros r0 Hr; cbn [rounds]; [by exists r0|].
    destruct (loop_ok _ _ _ HS (random_wf random_x) (random_wf random_y) reorder r0 Hr) as (r1 & -> & H1). by apply IH. }
  exists r. split; [done|]. destruct (received_prefix _ _ _ r Hr') as [Hp He]. split; [done|].
  intros Hf. apply He. unfold receiving in Hf. by destruct (ByteStream.eof _).
Qed.

Lemma benchmark_rounds_witness :
  exists r, rounds true 8 (start (str "benchmark") 4294967290 7) = Some (Ok r) /\
    string_received r = ztake (zlen (string_received r)) (str "benchmark") /\
    (receiving r = false -> string_received r = str "benchmark").
Proof. apply (benchmark_rounds true (str "benchmark") 4294967290 7 8). reflexivity. Defined.

(** Both runs end, and the connections with them. *)
Example benchmark_ends :
  match main_loop false (str "benchmark") 4294967290 7 20, main_loop true (str "benchmark") 5 4294967295 20 with
  | Some (Ok r1), Some (Ok r2) => string_received r1 = str "benchmark" /\ string_received r2 = str "benchmark"
  | _, _ => False
  end.
Proof. vm_compute. done. Qed.

End Benchmark.
