(* ===== verification/BenchmarkLive.v ===== *)
(** * The benchmark completes

    Every round of the loop of [apps/tcp_benchmark.cc] brings the transfer forward
    ([live]): the oldest unacknowledged segment of [x] is in its queue when the
    segments are exchanged, [y] accepts it and answers, and the acknowledgement
    restarts the timer of [x], so that the next tick sends the then oldest segment.
    The same in the other direction keeps [y] from giving up.  When all of [x] is
    acknowledged ([closing]) the FIN of [y] is still to be acknowledged; after that
    ([over]) one more batch of empty segments is exchanged, and then nothing is
    ([silent]) until both connections have lingered long enough.  [stage] puts the
    phases in order; both loops of [main_loop] end. *)
From S2P Require Import Prelude WrappingIntegers ByteStream OrderedMap StreamReassembler Buffer.
From S2P Require Import Parser Checksum TCPSegment TCPReceiver TCPSender TCPConnection Outbound Handshake Progress Closing.
From S2P Require Import Network Text Benchmark.
Import WrappingIntegers Benchmark.

Module BenchmarkLive.

Section live.
Context (S : bytes) (isn_x isn_y : WrappingInt32).
Context (HS : zlen S < 2147483640) (Hx : wf isn_x) (Hy : wf isn_y).

Abbreviation cap := 64000.
Abbreviation outbound c := (TCPSender._stream (TCPConnection._sender c)).
Abbreviation sender c := (TCPConnection._sender c).
Abbreviation receiver c := (TCPConnection._receiver c).
Abbreviation queue c := (TCPConnection._segments_out c).
Abbreviation la c := (TCPSender._last_ackno (TCPConnection._sender c)).
Abbreviation nx c := (TCPSender._next_seqno (TCPConnection._sender c)).
Abbreviation outstanding c := (TCPSender._segments_outstanding (TCPConnection._sender c)).
Abbreviation received c := (Progress.ack_abs (TCPConnection._receiver c)).
Abbreviation time c := (TCPConnection._time_since_last_segment_received c).
Abbreviation fin_sent c := (TCPSender._fin_sent (TCPConnection._sender c)).
Abbreviation backup c := (TCPSender._init_timer_backup (TCPConnection._sender c)).
Abbreviation closed c := (ByteStream.input_ended (TCPSender._stream (TCPConnection._sender c))).
Abbreviation timeout c := (TCPConfig.rt_timeout (TCPConnection._cfg c)).
Abbreviation ended c := (ByteStream.input_ended (TCPReceiver.stream_out (TCPConnection._receiver c))).

(** [x] and [y], given the next number and the acknowledgement of the other. *)
Abbreviation sound_x := (Progress.sound S isn_x [] isn_y cap []).
Abbreviation sound_y := (Progress.sound [] isn_y S isn_x cap).

(** A copy of the segment is under way. *)
Definition queued (c : TCPConnection.t) (seg : TCPSegment.t) : Prop :=
  exists seg', seg' ∈ queue c /\ Progress.copy_of seg seg'.

(** All that [y] sent below [N] is, or is about to be, acknowledged; the rest is
    under way. *)
Record answered (N : Z) (x y : TCPConnection.t) : Prop := {
  an_clocked : Progress.clocked N (sender y);
  an_acked : N <= la y \/ exists seg, seg ∈ queue x /\ Progress.acked_by isn_y N seg;
  an_queued : Forall (fun e => e.1.1 + TCPSender.seg_len e.2 <= N \/ queued y e.2) (outstanding y);
  an_received : received x = 2 -> nx y <= N }.

(** What holds between two rounds. *)
Record shared (N : Z) (r : run) : Prop := {
  sh_running : running S isn_x isn_y r;
  sh_x : sound_x (nx (y r)) (received (y r)) (x r);
  sh_y : sound_y (string_received r) (nx (x r)) (received (x r)) (y r);
  sh_read : ByteStream._buffer (TCPConnection.inbound_stream (y r)) = [];
  sh_answered : answered N (x r) (y r);
  sh_supply : la (y r) < nx (y r) \/ fin_sent (y r) = true;
  sh_closed : closed (y r) = true;
  sh_prompt : Closing.prompt (receiver (x r));
  sh_backup : backup (x r) = 1000 /\ backup (y r) = 1000;
  sh_timeout : timeout (x r) = 1000 /\ timeout (y r) = 1000 }.

(** [x] waits for acknowledgements. *)
Record live (r : run) : Prop := {
  lv_shared : exists N, shared N r;
  lv_waits : la (x r) < nx (x r);
  lv_oldest : match outstanding (x r) with [] => False | e :: _ => queued (x r) e.2 end;
  lv_attentive : Closing.attentive (y r) }.

(** All of [x] is acknowledged. *)
Record closing (r : run) : Prop := {
  cl_shared : shared (nx (y r)) r;
  cl_acked : la (x r) = nx (x r);
  cl_fin : fin_sent (x r) = true;
  cl_fresh : Progress.timer_fresh (sender (x r)) }.

(** And all of [y]. *)
Record over (r : run) : Prop := {
  ov_closing : closing r;
  ov_acked : la (y r) = nx (y r);
  ov_queue : queue (y r) = [] }.

Record silent (r : run) : Prop := {
  si_over : over r;
  si_queue : queue (x r) = [] }.

Lemma Hcap : 0 <= cap < MAX32.
Proof. done. Qed.

Lemma nil_zlen : zlen (@nil byte) = 0.
Proof. done. Qed.

Lemma shared_bounds N r : shared N r ->
  0 <= la (x r) <= received (y r) /\ received (y r) <= nx (x r) <= zlen S + 2 /\ 1 <= nx (x r) /\
  0 <= la (y r) <= received (x r) /\ received (x r) <= nx (y r) <= 2 /\ 1 <= nx (y r).
Proof.
  intros Hv. pose proof (Handshake.op_started _ (Progress.so_opening _ _ _ _ _ _ _ _ _ (sh_y _ _ Hv))).
  pose proof (Handshake.op_started _ (Progress.so_opening _ _ _ _ _ _ _ _ _ (sh_x _ _ Hv))).
  pose proof (Progress.sound_fields S isn_x [] isn_y cap HS [] (nx (y r)) _ _ ltac:(lia) (sh_x _ _ Hv)).
  pose proof (Progress.sound_fields [] isn_y S isn_x cap nil_short _ (nx (x r)) _ _ ltac:(lia) (sh_y _ _ Hv)).
  rewrite nil_zlen in *. lia.
Qed.

(** ** Writing *)

Lemma queued_grows c c' seg new : queue c' = queue c ++ new -> queued c seg -> queued c' seg.
Proof. intros E (seg' & Hin & Hc). exists seg'. split; [|done]. rewrite E. apply elem_of_app. by left. Qed.

Lemma answered_grows N a a' b new : queue a' = queue a ++ new -> receiver a' = receiver a -> answered N a b -> answered N a' b.
Proof.
  intros E Er [H1 H2 H3 H4]. split; [done| |done|by rewrite Er]. destruct H2 as [|(seg & Hin & Ha)]; [by left|right].
  exists seg. split; [rewrite E; apply elem_of_app; by left|done].
Qed.

(** [x] has another outbound stream and fills its window. *)
Lemma live_filled hist st r r' (s1 := (sender (x r)) <| TCPSender._stream := st |>) :
  live r -> running S isn_x isn_y r' -> y r' = y r -> string_received r' = string_received r ->
  x r' = TCPConnection.pop_and_send_segments ((x r) <| TCPConnection._sender := TCPSender.fill_window s1 |>) ->
  TCPSender.inv S hist s1 -> ByteStream.error st = false -> live r' /\ la (x r') = la (x r).
Proof.
  intros [[N Hv] V6 V7 Hat] Hr Ey Es Ex Hi Herr. destruct (shared_bounds N r Hv) as (_ & B2 & _).
  destruct (co_x _ _ _ _ _ _ (ru_connected _ _ _ _ Hr)) as [hx Ix]. rewrite Ex in Ix.
  pose proof (Progress.filled_sound S isn_x [] isn_y cap HS nil_short Hcap Hy [] _ _ hist hx (x r) st (sh_x _ _ Hv) Hi Ix Herr) as Hf.
  cbv zeta in Hf. subst s1. destruct Hf
    as (Hsx & Ela & Hnx & Eb & _ & [new En] & [seen Eo]). rewrite <- Ex in Hsx, Ela, Hnx, Eb, En, Eo.
  assert (receiver (x r') = receiver (x r)) as Er by (by rewrite Ex).
  assert (timeout (x r') = timeout (x r)) as Et by (by rewrite Ex).
  destruct (Progress.base_bounds _ _ _ _ _ HS _ _ _ (TCPConnection.inv_base _ _ _ _ _ _ _ _ Ix)) as [_ B]. rewrite <- Ex in B.
  split; [|done]. split; [exists N| | |].
  - destruct Hv as [R1 R2 R3 R4 R5 R6 R7 R8 R9 R10]. split; rewrite ?Ey, ?Es, ?Er, ?Et, ?Eb; try done.
    + destruct R3. split; try done. by eapply Progress.within_le; [done|lia..].
    + by eapply answered_grows.
  - lia.
  - rewrite Eo. destruct (outstanding (x r)) as [|e os]; [done|]. by eapply queued_grows.
  - by rewrite Ey.
Qed.

Lemma live_write_input fuel : forall r, live r -> Buffer.size (bytes_to_send r) < Z.of_nat fuel ->
  exists r', write_input fuel r = Some (Ok r') /\ live r' /\ la (x r') = la (x r) /\
    (Buffer.size (bytes_to_send r') = 0 \/ TCPConnection.remaining_outbound_capacity (x r') = 0).
Proof.
  induction fuel as [|fuel IH]; intros r Hv Hf; [unfold Buffer.size in Hf; pose_zlen; lia|]. cbn [write_input].
  destruct (Buffer.size (bytes_to_send r) =? 0) eqn:E1; cbn [negb andb]; [exists r; split_and!; [done..|lia]|].
  destruct (TCPConnection.remaining_outbound_capacity (x r) =? 0) eqn:E2; cbn [negb]; [exists r; split_and!; [done..|lia]|]. destruct (lv_shared _ Hv) as [N Hsh].
  destruct (write_pass S isn_x isn_y HS Hy r (sh_running _ _ Hsh)) as (Ew & Hw & b & Eb & Hs & Hr' & HSd); [lia..|].
  destruct (co_x _ _ _ _ _ _ (ru_connected _ _ _ _ (sh_running _ _ Hsh))) as [hx [Hb _ _]].
  set (d := substr _ _ _) in *.
  pose proof (TCPSender.write_inv S hx _ d _ (Handshake.HS S HS) (TCPConnection.base_sender _ _ _ _ _ _ _ _ Hb) HSd) as Hi.
  assert (ByteStream.error (ByteStream.write d (outbound (x r))).2 = ByteStream.error (outbound (x r))) as Herr
    by (unfold ByteStream.write; by destruct (ByteStream.input_ended _)).
  destruct (live_filled hx (ByteStream.write d (outbound (x r))).2 r _ Hv Hr') as [Hv' Ela]; try done.
  - simpl. unfold TCPConnection.write, TCPSender.stream_in. by destruct (ByteStream.write d _).
  - rewrite Herr. apply (Progress.so_calm _ _ _ _ _ _ _ _ _ (sh_x _ _ Hsh)).
  - destruct (TCPConnection.write _ _) as [written x']. cbn [fst snd] in *. subst written.
    rewrite Z.eqb_refl. cbn [negb bytes_to_send modify] in *. rewrite Eb. rewrite <- Ela. apply IH; [done|]. simpl. lia.
Qed.

(** After the writing and closing, [x] has something to send. *)
Lemma live_close r : live r -> Buffer.size (bytes_to_send r) = 0 \/ TCPConnection.remaining_outbound_capacity (x r) = 0 ->
  live (close_x r) /\ la (x (close_x r)) = la (x r) /\ Progress.eager (sender (x (close_x r))).
Proof.
  intros Hv He. destruct (lv_shared _ Hv) as [N Hsh]. pose proof (close_ok S isn_x isn_y HS Hy r (sh_running _ _ Hsh)) as Hr'.
  pose proof (ru_input _ _ _ _ (sh_running _ _ Hsh)) as [W1 W2 L B O C K]. revert Hr'. unfold close_x.
  destruct (Buffer.size (bytes_to_send r) =? 0) eqn:E1; cbn [andb].
  - destruct (x_closed r) eqn:Ec; cbn [negb]; intros Hr'; [split_and!; [done|done|by right]|].
    destruct (co_x _ _ _ _ _ _ (ru_connected _ _ _ _ (sh_running _ _ Hsh))) as [hx [Hb _ _]].
    assert (ByteStream.bytes_written (outbound (x r)) = zlen S) as Hz by (unfold Buffer.size in E1; lia).
    pose proof (TCPSender.end_input_inv S hx _ (TCPConnection.base_sender _ _ _ _ _ _ _ _ Hb) Hz) as Hi.
    destruct (live_filled hx (ByteStream.end_input (outbound (x r))) r _ Hv Hr') as [Hv' Ela]; try done.
    { apply (Progress.so_calm _ _ _ _ _ _ _ _ _ (sh_x _ _ Hsh)). }
    split_and!; [done|done|]. right. exact (Outbound.drained_ended _ _ (Outbound.end_drained (x r))).
  - intros _. split_and!; [done|done|left]. unfold TCPConnection.remaining_outbound_capacity, TCPSender.stream_in in He.
    destruct He as [He|He]; [lia|]. rewrite ByteStream.remaining_capacity_wf, K in He by done. intros Hn. rewrite Hn in He. done.
Qed.

(** ** The exchange *)

Abbreviation emptied c := (c <| TCPConnection._segments_out := [] |>).
Abbreviation conn_of H := (Progress.so_inv _ _ _ _ _ _ _ _ _ H).
Abbreviation base_of H := (TCPConnection.inv_base _ _ _ _ _ _ _ _ H).
Abbreviation sender_of H := (TCPConnection.base_sender _ _ _ _ _ _ _ _ (TCPConnection.inv_base _ _ _ _ _ _ _ _ H)).
Abbreviation receiver_of H := (TCPConnection.base_receiver _ _ _ _ _ _ _ _ (TCPConnection.inv_base _ _ _ _ _ _ _ _ H)).
Abbreviation calm_of H := (Progress.so_calm _ _ _ _ _ _ _ _ _ H).
Abbreviation opening_of H := (Progress.so_opening _ _ _ _ _ _ _ _ _ H).

(** What [y] has acknowledged when everything was read. *)
Lemma read_received hist del c : TCPConnection.inv [] isn_y S isn_x cap hist del c ->
  ByteStream._buffer (TCPConnection.inbound_stream c) = [] -> received c <= 2 + zlen del /\ (zlen del < zlen S -> received c <= 1 + zlen del).
Proof.
  intros Hi Hb. destruct (receiver_of Hi) as [[_ _ Hn Hp _ _ He] _ _].
  unfold TCPConnection.inbound_stream, TCPReceiver.stream_out, StreamReassembler.stream_out in *. rewrite Hb, app_nil_r in Hp.
  apply (f_equal zlen) in Hp. rewrite zlen_ztake in Hp. pose_zlen. unfold Progress.ack_abs.
  unfold TCPReceiver.stream_out, StreamReassembler.stream_out.
  destruct (TCPReceiver._syn_recived _); [|lia]. destruct (ByteStream.input_ended _) eqn:E; [specialize (He eq_refl)|]; lia.
Qed.

(** The acknowledgement that is under way to [y] arrives, or [y] is done. *)
Lemma ack_arrives N r y1 : shared N r ->
  sound_y (string_received r) (nx (x r)) (received (x r)) y1 -> Progress.took (received (x r)) (y r) y1 ->
  (forall seg, seg ∈ queue (x r) -> Progress.served isn_y S isn_x cap (string_received r) (received (x r)) (received (y r)) seg y1) ->
  N <= la y1.
Proof.
  intros Hv Hs1 Ht Hsv. destruct (sh_answered _ _ Hv) as [Hck HN _ _]. pose proof (Progress.ck_next _ _ Hck) as HNx.
  destruct (conn_of Hs1) as [hy Iy]. destruct (TCPConnection.active y1) eqn:Ea.
  2: { destruct (Progress.inactive_done _ _ _ _ _ nil_short _ _ _ Iy (calm_of Hs1) Ea) as [E _].
       pose proof (Progress.tk_nx _ _ _ Ht). lia. }
  destruct HN as [HN|(seg & Hin & HA)]; [pose proof (Progress.tk_la _ _ _ Ht); lia|].
  destruct (Hsv seg Hin) as [|[Hsa _]]; [congruence|]. apply Hsa; [done|].
  pose proof (Progress.so_acks _ _ _ _ _ _ _ _ _ (sh_x _ _ Hv)) as Hac. rewrite Forall_forall in Hac. specialize (Hac seg Hin).
  destruct (shared_bounds N r Hv) as (_ & _ & _ & B0 & B & _).
  unfold Progress.acked_by in HA. unfold Progress.acks_upto in Hac. destruct (TCPHeader.ack _); [|lia].
  destruct (Hac eq_refl) as (k & Hk & Ek). destruct HA as [HA1 HA]. rewrite HA in Ek. apply (f_equal raw_value) in Ek. rewrite !raw_wrap in Ek. word.
Qed.

(** [y] after the batch of [x]. *)
Record heard (N : Z) (r : run) (y1 : TCPConnection.t) : Prop := {
  he_sound : sound_y (string_received r) (nx (x r)) (received (x r)) y1;
  he_took : Progress.took (received (x r)) (y r) y1;
  he_served : forall seg, seg ∈ queue (x r) -> Progress.served isn_y S isn_x cap (string_received r) (received (x r)) (received (y r)) seg y1;
  he_acked : N <= la y1;
  he_fresh : Progress.timer_fresh (sender y1);
  he_queued : Forall (fun e => queued y1 e.2) (outstanding y1);
  he_supply : la y1 < nx y1 \/ fin_sent y1 = true;
  he_closed : closed y1 = true }.

(** The facts about a batch of [x], in the order [l]. *)
Lemma batch_of_x N r l : shared N r -> l ≡ₚ queue (x r) -> Handshake.settled isn_x l ->
  Closing.batch isn_y S isn_x (nx (x r)) (received (x r)) l (y r).
Proof.
  intros Hv Hp Hset. pose proof (ru_connected _ _ _ _ (sh_running _ _ Hv)) as [_ _ Lx _]. split.
  - rewrite Hp. by eapply Progress.queue_incoming, (sh_x _ _ Hv).
  - done.
  - rewrite Hp. apply Lx.
  - rewrite Hp. destruct (Handshake.li_peer _ _ _ _ _ _ Lx) as [|[_ ?]]; [by left|by right].
Qed.

Lemma first_half N r l (y1 := Handshake.delivered l (y r)) :
  shared N r -> l ≡ₚ queue (x r) -> Handshake.settled isn_x l -> heard N r y1.
Proof.
  intros Hv Hperm Hset. destruct (shared_bounds N r Hv) as (B1 & B2 & B3 & B4 & B5 & B6).
  destruct (batch_of_x N r l Hv Hperm Hset) as [T1 T2 T3 T4].
  destruct (Progress.batch_served [] isn_y S isn_x cap nil_short HS Hcap Hx (string_received r) (nx (x r)) (received (x r))
    ltac:(lia) ltac:(lia) l (received (y r)) (y r) (sh_y _ _ Hv) T1 T2 T3 T4 ltac:(lia)) as (Hs1 & Ht1 & Hsv). fold y1 in Hs1, Ht1, Hsv.
  assert (forall seg, seg ∈ queue (x r) -> Progress.served isn_y S isn_x cap (string_received r) (received (x r)) (received (y r)) seg y1) as Hsv'.
  { rewrite Forall_forall in Hsv. intros seg Hin. apply Hsv. by rewrite Hperm. }
  pose proof (ack_arrives N r y1 Hv Hs1 Ht1 Hsv') as HN1. destruct (sh_answered _ _ Hv) as [Hck HN Hq _].
  destruct (conn_of Hs1) as [hy1 Iy1]. split; try done.
  - apply (Progress.ck_timer _ _ (Progress.tk_clocked _ _ _ Ht1 N Hck) HN1).
  - destruct (Progress.tk_queue _ _ _ Ht1) as (new & En & Hcov). pose proof (TCPSender.inv_unacked _ _ _ (sender_of Iy1)) as Hun.
    rewrite Forall_forall in Hun, Hcov, Hq |- *. intros e He. destruct (Hcov e He) as [He0|(seg & Hin & Hc)].
    + specialize (Hun e He). destruct (Hq e He0) as [|Hqe]; [lia|]. by eapply queued_grows.
    + exists seg. split; [rewrite En; apply elem_of_app; by right|done].
  - apply (Progress.su_waits (nx (y r))), (Progress.tk_supplied _ _ _ Ht1); [lia|]. split; [lia|right; right; apply Hv|apply Hv].
  - rewrite <- (sh_closed _ _ Hv). apply (Outbound.drained_ended _ _ (delivered_drained l (y r))).
Qed.

(** [x] after the answers. *)
Record replied (r : run) (y1 x2 : TCPConnection.t) : Prop := {
  rp_sound : sound_x (nx y1) (received y1) x2;
  rp_took : Progress.took (received y1) (emptied (x r)) x2;
  rp_served : forall seg, seg ∈ queue y1 -> Progress.served isn_x [] isn_y cap [] (received y1) (received (x r)) seg x2;
  rp_la : la (x r) <= la x2;
  rp_nx : nx (x r) <= nx x2;
  rp_prompt : Closing.prompt (receiver x2);
  rp_answered : outstanding y1 = [] \/ exists ans, ans ∈ queue x2 /\ Progress.acked_by isn_y (nx y1) ans }.

(** The oldest segment of [y] is answered by [x], or was before. *)
Lemma y_answered N r y1 x2 : shared N r -> heard N r y1 -> sound_x (nx y1) (received y1) x2 ->
  Progress.took (received y1) (emptied (x r)) x2 -> Closing.prompt (receiver x2) ->
  (forall seg, seg ∈ queue y1 -> Progress.served isn_x [] isn_y cap [] (received y1) (received (x r)) seg x2) ->
  received x2 = received (x r) \/ (exists ans, ans ∈ queue x2 /\ Progress.acked_by isn_y (received x2) ans) ->
  outstanding y1 = [] \/ exists ans, ans ∈ queue x2 /\ Progress.acked_by isn_y (nx y1) ans.
Proof.
  intros Hv Hh Hs2 Ht2 Hpr Hsv Hj. destruct (conn_of (he_sound _ _ _ Hh)) as [hy1 Iy1]. destruct (conn_of Hs2) as [hx2 Ix2].
  destruct (shared_bounds N r Hv) as (B1 & B2 & B3 & B4 & B5 & B6). pose proof (Progress.tk_nx _ _ _ (he_took _ _ _ Hh)) as Hn1.
  destruct (Progress.base_bounds _ _ _ _ _ nil_short _ _ _ (base_of Iy1)) as [C1 C2]. rewrite nil_zlen in C2.
  pose proof (Progress.within_ack _ _ _ _ _ _ (receiver_of Ix2) (Progress.so_within _ _ _ _ _ _ _ _ _ Hs2) ltac:(lia)) as Hw.
  destruct (Progress.one_outstanding [] nil_short hy1 (sender y1) eq_refl (sender_of Iy1) (opening_of (he_sound _ _ _ Hh)))
    as [|(e & Eo & Ee)]; [by left|]. pose proof (he_queued _ _ _ Hh) as Hq. rewrite Eo in Hq. apply Forall_singleton in Hq as (seg & Hin & Hc).
  pose proof (TCPSender.inv_unacked _ _ _ (sender_of Iy1)) as Hun. rewrite Eo in Hun. apply Forall_cons_1 in Hun as [Hun _].
  pose proof (Progress.so_peer _ _ _ _ _ _ _ _ _ (he_sound _ _ _ Hh)) as Hpe.
  destruct (TCPConnection.active x2) eqn:Ea.
  - right. destruct (Progress.oldest_answered [] isn_y isn_x cap ltac:(done) hy1 [] (received y1) (received (x r)) (sender y1) e [] seg x2)
      as (ans & k & Hin2 & Hak & Hk); try done; [apply (base_of Iy1)|apply (base_of Iy1)|apply (opening_of (he_sound _ _ _ Hh))|rewrite nil_zlen; lia|lia|by apply Hsv|].
    exists ans. split; [done|]. by replace (nx y1) with k by lia.
  - destruct (Progress.inactive_done _ _ _ _ _ HS _ _ _ Ix2 (calm_of Hs2) Ea) as [_ Een].
    pose proof (Closing.prompt_ended isn_y cap [] _ (receiver_of Ix2) Hpr Een) as E2.
    destruct Hj as [Hj|(ans & Hin2 & Hak)].
    + pose proof (an_received _ _ _ (sh_answered _ _ Hv) ltac:(lia)). pose proof (he_acked _ _ _ Hh). lia.
    + right. exists ans. split; [done|]. replace (nx y1) with (received x2) by lia. done.
Qed.

(** The batch of [y]. *)
Lemma batch_of_y N r y1 : shared N r -> heard N r y1 -> Handshake.link [] isn_y S isn_x y1 (emptied (x r)) ->
  0 <= received y1 /\ nx y1 <= zlen (@nil byte) + 2 /\ sound_x (nx y1) (received y1) (emptied (x r)) /\
  Closing.batch isn_x [] isn_y (nx y1) (received y1) (queue y1) (emptied (x r)).
Proof.
  intros Hv [Hs1 Ht1 _ _ _ _ _ _] Ly. destruct (shared_bounds N r Hv) as (B1 & B2 & B3 & B4 & B5 & B6).
  pose proof (Progress.sound_fields [] isn_y S isn_x cap nil_short _ (nx (x r)) _ _ ltac:(lia) Hs1) as Bs.
  pose proof (Progress.tk_ack _ _ _ Ht1). pose proof (Progress.tk_nx _ _ _ Ht1). rewrite nil_zlen in *.
  split_and!; [lia|lia|eapply Progress.emptied_sound; [exact (sh_x _ _ Hv)|rewrite nil_zlen; lia|lia]|].
  split; [by eapply Progress.queue_incoming|apply Ly|apply Ly|].
  destruct (Handshake.li_peer _ _ _ _ _ _ Ly) as [|[_ ?]]; [by left|by right].
Qed.

Lemma second_half N r y1 (x2 := Handshake.delivered (queue y1) (emptied (x r))) :
  shared N r -> heard N r y1 -> Handshake.link [] isn_y S isn_x y1 (emptied (x r)) -> replied r y1 x2.
Proof.
  intros Hv Hh Ly. destruct (batch_of_y N r y1 Hv Hh Ly) as (H0 & Hn & Hsx1 & Hbt). pose proof Hbt as [T1 T2 T3 T4].
  destruct (Progress.batch_served S isn_x [] isn_y cap HS nil_short Hcap Hy [] (nx y1) (received y1)
    Hn H0 (queue y1) (received (x r)) (emptied (x r)) Hsx1 T1 T2 T3 T4 ltac:(done)) as (Hs2 & Ht2 & Hsv).
  destruct (Closing.batch_answers S isn_x isn_y cap HS ltac:(done) Hy [] (nx y1) (received y1) (queue y1) (emptied (x r))
    Hn H0 Hsx1 Hbt (sh_prompt _ _ Hv)) as [Hp Hj].
  fold x2 in Hs2, Ht2, Hsv, Hp, Hj. rewrite Forall_forall in Hsv.
  split; try done; [exact (Progress.tk_la _ _ _ Ht2)|exact (Progress.tk_nx _ _ _ Ht2)|]. by eapply y_answered.
Qed.

(** Between the exchange and the passing of time. *)
Record resting (r : run) : Prop := {
  re_x : sound_x (nx (y r)) (received (y r)) (x r);
  re_y : sound_y (string_received r) (nx (x r)) (received (x r)) (y r);
  re_fresh : Progress.timer_fresh (sender (x r)) /\ Progress.timer_fresh (sender (y r));
  re_answered : outstanding (y r) = [] \/ exists ans, ans ∈ queue (x r) /\ Progress.acked_by isn_y (nx (y r)) ans;
  re_supply : la (y r) < nx (y r) \/ fin_sent (y r) = true;
  re_closed : closed (y r) = true;
  re_prompt : Closing.prompt (receiver (x r));
  re_backup : backup (x r) = 1000 /\ backup (y r) = 1000;
  re_timeout : timeout (x r) = 1000 /\ timeout (y r) = 1000 }.

(** The two batches of an exchange. *)
Definition batch_x (reorder : bool) (r : run) : list TCPSegment.t := if reorder then rev (queue (x r)) else queue (x r).
Abbreviation y_of reorder r := (Handshake.delivered (batch_x reorder r) (y r)).
Abbreviation x_of reorder r := (Handshake.delivered (queue (y_of reorder r)) (emptied (x r))).

Lemma exchange_eq reorder r : exchange reorder r = r <| x := x_of reorder r |> <| y := emptied (y_of reorder r) |>.
Proof. done. Qed.

Lemma exchanged reorder N r : shared N r ->
  heard N r (y_of reorder r) /\ replied r (y_of reorder r) (x_of reorder r) /\ batch_x reorder r ≡ₚ queue (x r) /\
  Handshake.settled isn_x (batch_x reorder r) /\ Handshake.link [] isn_y S isn_x (y_of reorder r) (emptied (x r)).
Proof.
  intros Hv. destruct (first_move S isn_x isn_y HS Hx Hy reorder r (sh_running _ _ Hv)) as (Hp & Hset & _ & _ & _ & Ly).
  pose proof (first_half N r (batch_x reorder r) Hv Hp Hset) as Hh.
  split_and!; [done| |done|done|done]. by eapply second_half.
Qed.

Lemma exchange_resting reorder N r : shared N r -> Progress.timer_fresh (sender (x_of reorder r)) -> resting (exchange reorder r).
Proof.
  intros Hv Hf. destruct (exchanged reorder N r Hv) as (Hh & Hp & _). rewrite exchange_eq.
  destruct (shared_bounds N r Hv) as (B1 & B2 & B3 & B4 & B5 & B6). destruct (sh_backup _ _ Hv) as [E1 E2].
  destruct (sh_timeout _ _ Hv) as [E3 E4]. pose proof (Closing.delivered_cfg (batch_x reorder r) (y r)) as C1.
  pose proof (Closing.delivered_cfg (queue (y_of reorder r)) (emptied (x r))) as C2.
  set (x2 := x_of reorder r) in *. set (y1 := y_of reorder r) in *.
  destruct Hh as [Hs1 Ht1 _ _ Hfy _ Hsu Hcl]. destruct Hp as [Hs2 Ht2 _ _ _ Hpr Han].
  pose proof (Progress.sound_fields S isn_x [] isn_y cap HS [] (nx y1) _ _ ltac:(pose proof (Progress.tk_nx _ _ _ Ht1); lia) Hs2) as Bx.
  pose proof (Progress.tk_nx _ _ _ Ht2) as Hnx. pose proof (Progress.tk_ack _ _ _ Ht2) as Hrc.
  assert (timeout x2 = 1000 /\ timeout y1 = 1000) as Eto by (by rewrite C1, C2). clear C1 C2.
  pose proof (Progress.so_peer _ _ _ _ _ _ _ _ _ Hs1) as Hp1. clearbody x2 y1.
  split; cbn [x y string_received modify]; try done.
  - eapply Progress.emptied_sound; [exact Hs1|simpl in Hnx; lia|simpl in Hrc; lia].
  - split; [rewrite (Progress.tk_backup _ _ _ Ht2)|simpl; rewrite (Progress.tk_backup _ _ _ Ht1)]; done.
Qed.

(** While [x] waits, an exchange acknowledges its oldest segment. *)
Lemma live_exchange reorder r : live r -> Progress.eager (sender (x r)) ->
  resting (exchange reorder r) /\ la (x r) < la (x_of reorder r) /\
  (la (x_of reorder r) < nx (x_of reorder r) \/ fin_sent (x_of reorder r) = true) /\
  Closing.attentive (y_of reorder r) /\ time (y_of reorder r) = 0.
Proof.
  intros [[N Hv] V6 V7 Hat] Heager. destruct (exchanged reorder N r Hv) as (Hh & Hp & Hperm & _).
  destruct (shared_bounds N r Hv) as (B1 & B2 & B3 & B4 & B5 & B6).
  pose proof (Closing.attentive_delivered (batch_x reorder r) (y r) Hat) as Hat1.
  pose proof (Closing.attentive_active _ (calm_of (he_sound _ _ _ Hh)) Hat1) as Ha1.
  destruct (conn_of (sh_x _ _ Hv)) as [hx Ix]. destruct (conn_of (sh_y _ _ Hv)) as [hy Iy].
  destruct (conn_of (rp_sound _ _ _ Hp)) as [hx2 Ix2].
  destruct (outstanding (x r)) as [|e os] eqn:Eo; [done|]. destruct V7 as (seg & Hin & Hc).
  pose proof (Progress.clocked_oldest _ _ _ _ _ (sender_of Ix) Eo) as Hco. pose proof (Progress.ck_next _ _ Hco) as Hce.
  pose proof (TCPSender.inv_unacked _ _ _ (sender_of Ix)) as Hun. rewrite Eo in Hun. apply Forall_cons_1 in Hun as [Hun _].
  destruct (Progress.oldest_answered S isn_x isn_y cap ltac:(done) hx (string_received r) (received (x r)) (received (y r)) (sender (x r)) e os seg (y_of reorder r))
    as (ans & k & Hin' & Hak & Hk); try done.
  { apply (base_of Ix). }
  { apply (base_of Ix). }
  { apply (opening_of (sh_x _ _ Hv)). }
  { destruct (read_received hy (string_received r) (y r) Iy (sh_read _ _ Hv)) as [R1 R2].
    destruct (Z_lt_ge_dec (zlen (string_received r)) (zlen S)); [specialize (R2 ltac:(done))|]; lia. }
  { lia. }
  { by apply (he_served _ _ _ Hh). }
  assert (e.1.1 + TCPSender.seg_len e.2 <= la (x_of reorder r)) as Hla.
  { destruct (rp_served _ _ _ Hp ans Hin') as [Hin2|[Hsa _]].
    - destruct (Progress.inactive_done _ _ _ _ _ HS _ _ _ Ix2 (calm_of (rp_sound _ _ _ Hp)) Hin2) as [E _].
      pose proof (rp_nx _ _ _ Hp). lia.
    - specialize (Hsa k Hak ltac:(lia)). lia. }
  split_and!; [|lia| |done|].
  - eapply exchange_resting; [done|]. apply (Progress.ck_timer _ _ (Progress.tk_clocked _ _ _ (rp_took _ _ _ Hp) _ Hco)). done.
  - apply (Progress.su_waits (nx (x r))), (Progress.tk_supplied _ _ _ (rp_took _ _ _ Hp)).
    + pose proof (Progress.so_within _ _ _ _ _ _ _ _ _ (he_sound _ _ _ Hh)) as Hw. destruct (conn_of (he_sound _ _ _ Hh)) as [hy1 Iy1].
      exact (Progress.within_ack _ _ _ _ _ _ (receiver_of Iy1) Hw ltac:(lia)).
    + split; simpl; [lia|by right|by left].
  - apply Closing.delivered_fresh; [exact (Closing.attentive_active _ (calm_of (sh_y _ _ Hv)) Hat)|].
    intros E. rewrite E in Hperm. apply Permutation_nil_l in Hperm. rewrite <- Hperm in Hin. by apply elem_of_nil in Hin.
Qed.

Lemma final_eager hist c : TCPSender.inv S hist (sender c) -> fin_sent c = true -> Progress.eager (sender c).
Proof. intros Hi Hf. right. by apply TCPSender.eof_drained, (TCPSender.data_fin _ _ _ (TCPSender.inv_data _ _ _ Hi)). Qed.

(** After that, one acknowledges what [y] has sent. *)
Lemma closing_exchange reorder r : closing r ->
  resting (exchange reorder r) /\ la (x_of reorder r) = nx (x_of reorder r) /\ fin_sent (x_of reorder r) = true /\
  nx (y r) <= la (y_of reorder r).
Proof.
  intros [Hv C1 C2 C3]. destruct (exchanged reorder _ r Hv) as (Hh & Hp & _).
  destruct (shared_bounds _ r Hv) as (B1 & B2 & B3 & B4 & B5 & B6).
  destruct (conn_of (sh_x _ _ Hv)) as [hx Ix]. destruct (conn_of (rp_sound _ _ _ Hp)) as [hx2 Ix2].
  pose proof (Progress.fin_sent_next S HS hx _ (sender_of Ix) C2) as En.
  pose proof (Progress.base_bounds _ _ _ _ _ HS _ _ _ (base_of Ix2)) as Hb2.
  pose proof (rp_la _ _ _ Hp) as Hla.
  assert (Progress.supplied (nx (x r)) (sender (x_of reorder r))) as [_ _ Hw].
  { apply (Progress.tk_supplied _ _ _ (rp_took _ _ _ Hp)).
    - pose proof (Progress.so_within _ _ _ _ _ _ _ _ _ (he_sound _ _ _ Hh)) as Hw. destruct (conn_of (he_sound _ _ _ Hh)) as [hy1 Iy1].
      exact (Progress.within_ack _ _ _ _ _ _ (receiver_of Iy1) Hw ltac:(lia)).
    - split; simpl; [lia| |by right]. right. exact (final_eager hx (x r) (sender_of Ix) C2). }
  split_and!; [|lia| |apply Hh].
  - eapply exchange_resting; [done|].
    pose proof (Progress.clocked_next _ _ _ (sender_of Ix) (fun _ => C3)) as Hck.
    apply (Progress.ck_timer _ _ (Progress.tk_clocked _ _ _ (rp_took _ _ _ Hp) _ Hck)). lia.
  - destruct Hw; [lia|done].
Qed.

(** ** Reading and time *)

Lemma read_all n c (c' := TCPConnection.with_inbound (fun o => (ByteStream.read n o).2) c) :
  ended c' = ended c /\ received c' = received c /\
  (ByteStream.buffer_size (TCPConnection.inbound_stream c) <= n -> ByteStream._buffer (TCPConnection.inbound_stream c') = []).
Proof.
  split_and!; try done. intros Hn. unfold ByteStream.buffer_size in Hn.
  change (zdrop (Z.min n (zlen (ByteStream._buffer (TCPConnection.inbound_stream c))))
    (ByteStream._buffer (TCPConnection.inbound_stream c)) = []). apply zlen_0_nil. zlia.
Qed.

(** What reading leaves as it was. *)
Record same_but_read (r r' : run) : Prop := {
  sr_x : x r' = x r;
  sr_sender : sender (y r') = sender (y r);
  sr_queue : queue (y r') = queue (y r);
  sr_linger : TCPConnection._linger_after_streams_finish (y r') = TCPConnection._linger_after_streams_finish (y r);
  sr_cfg : TCPConnection._cfg (y r') = TCPConnection._cfg (y r);
  sr_time : time (y r') = time (y r);
  sr_read : ByteStream._buffer (TCPConnection.inbound_stream (y r')) = [];
  sr_resting : resting r -> resting r' }.

Lemma read_same r : same_but_read r (read_output r).
Proof.
  unfold read_output. split_if.
  - match goal with |- context [TCPConnection.with_inbound (fun o => (ByteStream.read ?n o).2) ?c] =>
      destruct (read_all n c) as (E1 & E2 & E5); pose proof (fun hist del H => TCPConnection.read_inv [] isn_y S isn_x cap hist del c n H) as Hri end.
    split; try done; [apply E5; lia|]. intros [R1 R2 R3 R4 R5 R6 R7 R8 R9]. split; try done.
    destruct R2 as [[hist Hi] Hop Hca Hwi Hac Hbe Hpe]. split; try done; [exists hist; apply Hri; [done|lia]|by destruct Hwi; split].
  - split; try done. unfold ByteStream.buffer_size in *. apply zlen_0_nil. pose_zlen. lia.
Qed.

(** All that [y] has sent is or is about to be acknowledged. *)
Lemma answered_next a c hist del : TCPConnection.inv [] isn_y S isn_x cap hist del c ->
  (outstanding c = [] -> Progress.timer_fresh (sender c)) ->
  outstanding c = [] \/ (exists ans, ans ∈ queue a /\ Progress.acked_by isn_y (nx c) ans) -> answered (nx c) a c.
Proof.
  intros Hi Hf Ha. destruct (TCPSender.inv_core _ _ _ (sender_of Hi)) as [_ (lo & _ & Hc) _ Hh _ _ _ _ _ _]. split; [| | |done].
  - by eapply Progress.clocked_next, Hf; apply Hi.
  - destruct Ha as [E|]; [left; rewrite E in Hh; lia|by right].
  - eapply Forall_impl; [by eapply Progress.contig_ends|]. intros e [_ He]. by left.
Qed.

(** What a tick leaves as it was, and what it sends. *)
Record ticked (c c' : TCPConnection.t) : Prop := {
  ti_la : la c' = la c;
  ti_nx : nx c' = nx c;
  ti_fin : fin_sent c' = fin_sent c;
  ti_receiver : receiver c' = receiver c;
  ti_outstanding : outstanding c' = outstanding c;
  ti_queue : exists new, queue c' = queue c ++ new;
  ti_oldest : match outstanding c with
    | [] => Progress.timer_fresh (sender c') /\ queue c' = queue c
    | e :: _ => queued c' e.2
    end }.

Lemma rested_shared r (r' := time_passes r) : resting r -> running S isn_x isn_y r' ->
  ByteStream._buffer (TCPConnection.inbound_stream (y r)) = [] ->
  shared (nx (y r')) r' /\ ticked (x r) (x r') /\ ticked (y r) (y r').
Proof.
  intros [R1 R2 [F1 F2] R4 R5 R6 R7 [B1 B2] [T1 T2]] Hr Hb. unfold r', time_passes in *.
  destruct (conn_of R1) as [hx Ix]. destruct (conn_of R2) as [hy Iy].
  destruct (Progress.ticked_sound S isn_x [] isn_y cap HS nil_short Hcap Hy _ _ _ hx (x r) R1 Ix F1 B1)
    as (Tx1 & Tx2 & Tx3 & Tx4 & Tx5 & Tx6 & [nw Tx7] & Tx8 & Tx9).
  destruct (Progress.ticked_sound [] isn_y S isn_x cap nil_short HS Hcap Hx _ _ _ hy (y r) R2 Iy F2 B2)
    as (Ty1 & Ty2 & Ty3 & Ty4 & Ty5 & Ty6 & [nwy Ty7] & Ty8 & Ty9).
  destruct (Closing.tick_rest 1000 (x r)) as (Cx & _). destruct (Closing.tick_rest 1000 (y r)) as (Cy & _).
  pose proof (Outbound.drained_ended _ _ (Outbound.tick_drained 1000 (y r))) as Hcl.
  set (x' := TCPConnection.tick 1000 (x r)) in *. set (y' := TCPConnection.tick 1000 (y r)) in *.
  cbn [x y modify]. split_and!.
  - split; cbn [x y string_received modify]; unfold TCPConnection.inbound_stream in *;
      rewrite ?Tx3, ?Tx6, ?Ty2, ?Ty3, ?Ty5, ?Ty6, ?Cx, ?Cy; try done; [|congruence].
    destruct (conn_of Ty1) as [hy' Iy']. rewrite <- Ty3. eapply answered_next; [exact Iy'|..]; rewrite Ty8.
    + intros E. rewrite E in Ty9. apply Ty9.
    + rewrite Ty3. destruct R4 as [|(ans & Hin & Ha)]; [by left|right]. exists ans. split; [rewrite Tx7; apply elem_of_app; by left|done].
  - split; try done. by exists nw.
  - split; try done. by exists nwy.
Qed.

(** ** Rounds *)

(** A round after the writing. *)
Definition next (reorder : bool) (r : run) : run := time_passes (read_output (exchange reorder r)).

Record advanced (reorder : bool) (r r' : run) : Prop := {
  ad_shared : shared (nx (y r')) r';
  ad_x : ticked (x_of reorder r) (x r');
  ad_la : la (y r') = la (y_of reorder r);
  ad_nx : nx (y r') = nx (y_of reorder r);
  ad_queue : outstanding (y_of reorder r) = [] -> queue (y r') = [];
  ad_attentive : Closing.attentive (y_of reorder r) -> time (y_of reorder r) = 0 -> Closing.attentive (y r') }.

Lemma round_advanced reorder N r : shared N r -> resting (exchange reorder r) -> advanced reorder r (next reorder r).
Proof.
  intros Hv Hre. destruct (exchange_ok S isn_x isn_y HS Hx Hy reorder r (sh_running _ _ Hv)) as [H3 Hq].
  destruct (read_ok S isn_x isn_y (exchange reorder r) H3) as [H4 _]. pose proof (read_same (exchange reorder r)) as Hsr.
  unfold next. set (r4 := read_output (exchange reorder r)) in *.
  assert (running S isn_x isn_y (time_passes r4)) as H5 by (apply ticks_ok; try done; by rewrite (sr_x _ _ Hsr)).
  destruct (rested_shared r4 (sr_resting _ _ Hsr Hre) H5 (sr_read _ _ Hsr)) as (Hsh & Hx4 & Hy4).
  pose proof (sr_sender _ _ Hsr) as Es. pose proof (sr_queue _ _ Hsr) as Eq. rewrite exchange_eq in Es, Eq. cbn [y modify] in Es, Eq.
  change (sender (emptied (y_of reorder r))) with (sender (y_of reorder r)) in Es. change (queue (emptied (y_of reorder r))) with (@nil TCPSegment.t) in Eq.
  split.
  - done.
  - rewrite <- (sr_x _ _ Hsr : _ = x_of reorder r). done.
  - by rewrite (ti_la _ _ Hy4), Es.
  - by rewrite (ti_nx _ _ Hy4), Es.
  - intros Eo. pose proof (ti_oldest _ _ Hy4) as Ho. assert (outstanding (y r4) = []) as E by (by rewrite Es). rewrite E in Ho.
    destruct Ho as [_ ->]. exact Eq.
  - intros [A1 A2 A3 A4] Ht. apply Closing.attentive_tick.
    + split; [by rewrite (sr_linger _ _ Hsr)|rewrite (sr_time _ _ Hsr); done|by rewrite (sr_cfg _ _ Hsr)|by rewrite Es].
    + by rewrite (sr_time _ _ Hsr).
Qed.

Lemma outstanding_waits S0 hist c : TCPSender.inv S0 hist (sender c) -> outstanding c = [] <-> la c = nx c.
Proof.
  intros Hi. destruct (TCPSender.inv_core _ _ _ Hi) as [_ (lo & _ & Hc) _ Hh _ _ _ _ _ _].
  destruct (outstanding c) as [|[[p f] seg] os]; [done|]. split; [done|]. destruct Hc as (-> & _ & _ & Hc%TCPSender.contig_le). lia.
Qed.

(** A round either acknowledges another segment of [x] or the last one. *)
Lemma live_loop reorder r : live r ->
  exists r', loop reorder r = Some (Ok r') /\ ((live r' /\ la (x r) < la (x r')) \/ closing r').
Proof.
  intros Hv. unfold loop. destruct (live_write_input (write_fuel r) r Hv) as (r1 & -> & H1 & E1 & Hend).
  { unfold write_fuel, Buffer.size. pose_zlen. lia. }
  destruct (live_close r1 H1 Hend) as (H2 & E2 & He). eexists. split; [done|]. set (r2 := close_x r1) in *.
  fold (next reorder r2). destruct (live_exchange reorder r2 H2 He) as (Hre & Hla & Hwt & Hat & Htm).
  destruct (lv_shared _ H2) as [N Hs2]. destruct (round_advanced reorder N r2 Hs2 Hre) as [A1 A2 A3 A4 A5 A6].
  set (r' := next reorder r2) in *. destruct (conn_of (sh_x _ _ A1)) as [hx Ix].
  pose proof (Progress.base_bounds _ _ _ _ _ HS _ _ _ (base_of Ix)) as Hb. pose proof (outstanding_waits _ _ _ (sender_of Ix)) as Ho.
  pose proof (ti_oldest _ _ A2) as Ht. rewrite <- (ti_outstanding _ _ A2) in Ht.
  rewrite <- (ti_la _ _ A2), <- (ti_nx _ _ A2), <- (ti_fin _ _ A2) in Hwt. rewrite <- (ti_la _ _ A2) in Hla.
  destruct (Z.eq_dec (la (x r')) (nx (x r'))) as [E|E].
  - right. destruct Hwt as [|Hf]; [lia|]. rewrite (proj2 Ho E) in Ht. split; [done|done|done|apply Ht].
  - left. split; [|lia]. split; [by eexists|lia| |by apply A6].
    destruct (outstanding (x r')); [by destruct E; apply Ho|done].
Qed.

(** Nothing is left to write once the FIN is sent. *)
Lemma closing_loop reorder r : closing r -> loop reorder r = Some (Ok (next reorder r)).
Proof.
  intros [Hv _ Hf _]. destruct (conn_of (sh_x _ _ Hv)) as [hx Ix]. pose proof (ru_input _ _ _ _ (sh_running _ _ Hv)) as [_ _ _ _ O C _].
  destruct (final_eager hx (x r) (sender_of Ix) Hf) as [Hn|Hn].
  { destruct Hn. by apply TCPSender.eof_drained, (TCPSender.data_fin _ _ _ (TCPSender.inv_data _ _ _ (sender_of Ix))). }
  rewrite O in Hn. unfold loop, write_fuel. cbn [write_input]. unfold Buffer.size. rewrite (C Hn), nil_zlen. cbn [Z.eqb negb andb].
  unfold close_x. rewrite Hn, andb_false_r. done.
Qed.

Lemma closing_next reorder r : closing r ->
  closing (next reorder r) /\ ((la (y r) < la (y (next reorder r))) \/ over (next reorder r)).
Proof.
  intros Hc. destruct (closing_exchange reorder r Hc) as (Hre & El & Ef & Hy1). pose proof (cl_shared _ Hc) as Hv.
  destruct (round_advanced reorder _ r Hv Hre) as [A1 A2 A3 A4 A5 _]. destruct (shared_bounds _ _ Hv) as (_ & _ & _ & B4 & B5 & B6).
  destruct (shared_bounds _ _ A1) as (_ & _ & _ & D4 & D5 & D6).
  set (r' := next reorder r) in *. destruct (conn_of (sh_x _ _ A1)) as [hx Ix].
  assert (la (x r') = nx (x r')) as E by (by rewrite (ti_la _ _ A2), (ti_nx _ _ A2)).
  assert (closing r') as Hc'.
  { split; [done|done|by rewrite (ti_fin _ _ A2)|]. pose proof (ti_oldest _ _ A2) as Ht. rewrite <- (ti_outstanding _ _ A2) in Ht.
    rewrite (proj2 (outstanding_waits _ _ _ (sender_of Ix)) E) in Ht. apply Ht. }
  split; [done|]. destruct (Z_lt_ge_dec (la (y r)) (nx (y r))) as [Hl|Hl]; [left; lia|right].
  destruct (sh_supply _ _ Hv) as [|Hf]; [lia|]. destruct (conn_of (sh_y _ _ Hv)) as [hy Iy].
  pose proof (Progress.fin_sent_next [] nil_short hy _ (sender_of Iy) Hf) as En. rewrite nil_zlen in En.
  destruct (exchanged reorder _ r Hv) as (Hh & _). destruct (conn_of (he_sound _ _ _ Hh)) as [hy1 Iy1].
  split; [done|lia|]. apply A5, (outstanding_waits _ _ _ (sender_of Iy1)). lia.
Qed.

(** ** The end *)

Lemma over_facts r : over r -> fin_sent (y r) = true /\ la (y r) = 2 /\ received (x r) = 2 /\ received (y r) = zlen S + 2.
Proof.
  intros [[Hv C1 C2 _] Hl _]. destruct (shared_bounds _ _ Hv) as (B1 & B2 & B3 & B4 & B5 & B6).
  destruct (sh_supply _ _ Hv) as [|Hf]; [lia|]. destruct (conn_of (sh_y _ _ Hv)) as [hy Iy]. destruct (conn_of (sh_x _ _ Hv)) as [hx Ix].
  pose proof (Progress.fin_sent_next [] nil_short hy _ (sender_of Iy) Hf) as En. rewrite nil_zlen in En.
  pose proof (Progress.fin_sent_next S HS hx _ (sender_of Ix) C2) as Ex. split_and!; [done|lia..].
Qed.

(** The last answers are empty segments, and are not answered. *)
Lemma over_next reorder r : over r -> silent (next reorder r).
Proof.
  intros Ho. destruct (over_facts r Ho) as (Hf & Hl & Hrx & Hry). pose proof (ov_closing _ Ho) as Hc. pose proof (cl_shared _ Hc) as Hv.
  destruct (closing_exchange reorder r Hc) as (Hre & El & _). destruct (closing_next reorder r Hc) as [Hc' Hor].
  destruct (shared_bounds _ _ (cl_shared _ Hc')) as (_ & _ & _ & D4 & D5 & _). destruct (shared_bounds _ _ Hv) as (_ & B2 & B3 & B4 & B5 & B6).
  split; [destruct Hor; [lia|done]|].
  destruct (exchanged reorder _ r Hv) as (Hh & Hp & Hperm & Hset & Ly). destruct (conn_of (rp_sound _ _ _ Hp)) as [hx2 Ix2].
  pose proof (ad_x _ _ _ (round_advanced reorder _ r Hv Hre)) as Hti. pose proof (ti_oldest _ _ Hti) as Ht.
  rewrite (proj2 (outstanding_waits _ _ _ (sender_of Ix2)) El) in Ht. destruct Ht as [_ ->].
  destruct (Closing.batch_final [] isn_y S isn_x cap nil_short HS Hcap Hx (string_received r) (nx (x r)) (received (x r)) ltac:(lia) ltac:(lia)
    (batch_x reorder r) (y r) (sh_y _ _ Hv) (batch_of_x _ r _ Hv Hperm Hset) Hf) as (_ & new & En & Hpure).
  rewrite (ov_queue _ Ho) in En. cbn [app] in En. destruct (batch_of_y _ r _ Hv Hh Ly) as (H0 & Hn & Hsx1 & Hbt).
  rewrite (Closing.batch_quiet S isn_x [] isn_y cap HS nil_short Hcap Hy [] _ _ Hn H0 _ _ Hsx1 Hbt (cl_fin _ Hc)); [done|done|].
  rewrite En, nil_zlen. by rewrite <- (ov_acked _ Ho), Hl in Hpure.
Qed.

(** Then only time passes. *)
Lemma silent_next reorder r : silent r -> silent (next reorder r) /\
  time (x (next reorder r)) = u64 (time (x r) + 1000) /\ time (y (next reorder r)) = u64 (time (y r) + 1000).
Proof.
  intros [Ho Hq]. split; [by apply over_next|]. pose proof (read_same (exchange reorder r)) as Hsr.
  assert (batch_x reorder r = []) as Eb by (unfold batch_x; rewrite Hq; by destruct reorder).
  assert (x (read_output (exchange reorder r)) = x_of reorder r) as Ex by exact (sr_x _ _ Hsr).
  assert (time (y (read_output (exchange reorder r))) = time (y_of reorder r)) as Et by exact (sr_time _ _ Hsr).
  rewrite Eb in Ex, Et. unfold next, time_passes. cbn [x y modify].
  rewrite !(proj2 (proj2 (Closing.tick_rest 1000 _))), Et, Ex. split; [|done]. cbn [Handshake.delivered fold_left].
  by rewrite (ov_queue _ Ho).
Qed.

Lemma done_inactive c : ByteStream.eof (outbound c) = true -> ByteStream.eof (TCPConnection.inbound_stream c) = true ->
  outstanding c = [] -> timeout c = 1000 -> 10000 <= time c -> TCPConnection.active c = false.
Proof.
  intros E1 E2 E3 E4 Ht. unfold TCPConnection.active, TCPSender.stream_in, TCPConnection.inbound_stream, TCPSender.bytes_in_flight in *.
  rewrite E1, E2, E3, E4. cbn [andb fold_left Z.eqb]. unfold TCPConnection.time_since_last_segment_received.
  destruct (negb _); [done|]. lia.
Qed.

Lemma silent_dead r : silent r -> 10000 <= time (x r) -> 10000 <= time (y r) -> alive r = false.
Proof.
  intros [Ho _] Htx Hty. destruct (over_facts r Ho) as (Hf & Hl & Hrx & Hry). destruct Ho as [[Hv C1 C2 _] Hla _].
  destruct (conn_of (sh_y _ _ Hv)) as [hy Iy]. destruct (conn_of (sh_x _ _ Hv)) as [hx Ix]. destruct (sh_timeout _ _ Hv) as [T1 T2].
  unfold alive. rewrite (done_inactive (x r)), (done_inactive (y r)); try done.
  - exact (TCPSender.data_fin _ _ _ (TCPSender.inv_data _ _ _ (sender_of Iy)) Hf).
  - unfold ByteStream.eof, ByteStream.buffer_empty. rewrite (sh_read _ _ Hv). unfold TCPConnection.inbound_stream.
    by rewrite (Progress.ack_abs_ended [] S isn_x cap _ _ (receiver_of Iy) Hry).
  - by apply (outstanding_waits _ _ _ (sender_of Iy)).
  - exact (TCPSender.data_fin _ _ _ (TCPSender.inv_data _ _ _ (sender_of Ix)) C2).
  - pose proof (Progress.ack_abs_ended [] [] isn_y cap _ _ (receiver_of Ix) Hrx) as He. unfold TCPConnection.inbound_stream.
    unfold ByteStream.eof. rewrite He, andb_true_r. destruct (Closing.empty_index isn_y cap ltac:(done) _ _ (receiver_of Ix)) as [E0 _].
    pose proof (StreamReassembler.con_prefix _ _ _ _ (TCPReceiver.inv_stream _ _ _ _ _ (receiver_of Ix))) as Hpr. rewrite E0 in Hpr.
    unfold ByteStream.buffer_empty, TCPReceiver.stream_out, StreamReassembler.stream_out. simpl in Hpr. by rewrite Hpr.
  - by apply (outstanding_waits _ _ _ (sender_of Ix)).
Qed.

(** ** The order of the phases *)

(** [stage n r]: at most [n] more rounds. *)
Inductive stage : nat -> run -> Prop :=
| stage_live r : live r -> stage (Z.to_nat (zlen S + 2 - la (x r)) + 30) r
| stage_closing r : closing r -> stage (Z.to_nat (2 - la (y r)) + 25) r
| stage_over r : over r -> stage 24 r
| stage_silent n r : silent r -> (n <= 20)%nat -> 0 <= time (x r) < MAX64 -> 0 <= time (y r) < MAX64 ->
    10000 <= u64 (time (x r) + 1000 * Z.of_nat n) -> 10000 <= u64 (time (y r) + 1000 * Z.of_nat n) -> stage n r.

Lemma closing_received r : closing r -> receiving r = false.
Proof.
  intros [Hv C1 C2 _]. destruct (shared_bounds _ _ Hv) as (B1 & B2 & _). destruct (conn_of (sh_y _ _ Hv)) as [hy Iy].
  destruct (conn_of (sh_x _ _ Hv)) as [hx Ix]. pose proof (Progress.fin_sent_next S HS hx _ (sender_of Ix) C2) as En.
  unfold receiving, ByteStream.eof, ByteStream.buffer_empty. rewrite (sh_read _ _ Hv). unfold TCPConnection.inbound_stream.
  by rewrite (Progress.ack_abs_ended [] S isn_x cap _ _ (receiver_of Iy)) by lia.
Qed.

Lemma live_alive r : live r -> alive r = true.
Proof.
  intros [[N Hv] _ _ Hat]. unfold alive. rewrite (Closing.attentive_active (y r) (calm_of (sh_y _ _ Hv)) Hat). apply orb_true_r.
Qed.

Lemma stage_running n r : stage n r -> running S isn_x isn_y r.
Proof.
  intros [r0 [[N Hv] _ _ _]|r0 [Hv _ _ _]|r0 [[Hv _ _ _] _ _]|n0 r0 [[[Hv _ _ _] _ _] _] _ _ _ _ _]; apply Hv.
Qed.

(** In the quiet phase there is soon a round in which both have lingered. *)
Lemma lingered tx ty : 0 <= tx < MAX64 -> 0 <= ty < MAX64 ->
  exists n, (n <= 20)%nat /\ 10000 <= u64 (tx + 1000 * Z.of_nat n) /\ 10000 <= u64 (ty + 1000 * Z.of_nat n).
Proof.
  intros Hx0 Hy0. assert (forall t n, 0 <= t < MAX64 -> 10000 <= u64 (t + 1000 * Z.of_nat n) \/ u64 (t + 1000 * Z.of_nat n) < 10000) as D by lia.
  destruct (D tx 0%nat Hx0), (D ty 0%nat Hy0); [by exists 0%nat; split; [lia|]|..];
    (destruct (D tx 10%nat Hx0), (D ty 10%nat Hy0); [by exists 10%nat; split; [lia|]|..]; (exists 20%nat; word)).
Qed.

Lemma silent_stage r : silent r -> 0 <= time (x r) < MAX64 -> 0 <= time (y r) < MAX64 -> exists n, (n <= 20)%nat /\ stage n r.
Proof. intros Hs H1 H2. destruct (lingered _ _ H1 H2) as (n & Hn & H3 & H4). exists n. split; [done|by apply stage_silent]. Qed.

Lemma next_time reorder r : 0 <= time (x (next reorder r)) < MAX64 /\ 0 <= time (y (next reorder r)) < MAX64.
Proof.
  unfold next, time_passes. cbn [x y modify]. rewrite !(proj2 (proj2 (Closing.tick_rest 1000 _))). split; apply u64_range.
Qed.

Lemma stage_step reorder n r : stage n r -> receiving r = true \/ alive r = true ->
  exists n' r', loop reorder r = Some (Ok r') /\ stage n' r' /\ (n' < n)%nat.
Proof.
  intros Hst Hgo. destruct Hst as [r Hv|r Hc|r Ho|n r Hs Hn Tx Ty H1 H2].
  - destruct (live_loop reorder r Hv) as (r' & E & [[Hv' Hla]|Hc']); eexists _, r'; (split; [done|]).
    + split; [by apply stage_live|]. destruct (lv_shared _ Hv') as [N Hsh]. destruct (shared_bounds _ _ Hsh) as (? & ? & _). lia.
    + split; [by apply stage_closing|]. destruct (shared_bounds _ _ (cl_shared _ Hc')) as (_ & _ & _ & ? & _). lia.
  - pose proof (closing_loop reorder r Hc) as El. destruct (closing_next reorder r Hc) as [Hc' [Hla|Ho]]; eexists _, _; (split; [exact El|]).
    + split; [by apply stage_closing|]. destruct (shared_bounds _ _ (cl_shared _ Hc')) as (_ & _ & _ & ? & ? & _). lia.
    + split; [by apply stage_over|]. lia.
  - destruct (next_time reorder r) as [T1 T2]. destruct (silent_stage (next reorder r) (over_next reorder r Ho) T1 T2) as (n & Hn & Hst).
    exists n, (next reorder r). split_and!; [by apply closing_loop, Ho|done|lia].
  - destruct n as [|n].
    + rewrite Z.mul_0_r, !Z.add_0_r, !u64_small in * by done. rewrite (silent_dead r Hs H1 H2), (closing_received r) in Hgo by apply Hs. by destruct Hgo.
    + destruct (silent_next reorder r Hs) as (Hs' & Ex & Ey). destruct (next_time reorder r) as [T1 T2].
      exists n, (next reorder r). split_and!; [by apply closing_loop, Hs| |lia].
      apply stage_silent; [done|lia|done|done|rewrite Ex|rewrite Ey].
      * replace (u64 (u64 (time (x r) + 1000) + _)) with (u64 (time (x r) + 1000 * Z.of_nat (Datatypes.S n))) by word. done.
      * replace (u64 (u64 (time (y r) + 1000) + _)) with (u64 (time (y r) + 1000 * Z.of_nat (Datatypes.S n))) by word. done.
Qed.

Lemma stage_while cond reorder : (forall r, cond r = true -> receiving r = true \/ alive r = true) ->
  forall fuel n r, stage n r -> (n <= fuel)%nat ->
  exists n' r', while cond reorder fuel r = Some (Ok r') /\ stage n' r' /\ (n' <= n)%nat /\ cond r' = false.
Proof.
  intros Hcond fuel. induction fuel as [|fuel IH]; intros n r Hst Hf; cbn [while]; (destruct (cond r) eqn:E; [|by exists n, r]);
    destruct (stage_step reorder n r Hst (Hcond r E)) as (n1 & r1 & El & Hst1 & Hlt); [lia|].
  rewrite El. destruct (IH n1 r1 Hst1 ltac:(lia)) as (n2 & r2 & Ew & Hst2 & Hle & Hc). exists n2, r2. split_and!; [done|done|lia|done].
Qed.

End live.

(** ** The start *)

Lemma fresh_within S N cfg : 1 <= N -> Progress.within S N (TCPReceiver.make cfg).
Proof. intros. split; try done. by left. Qed.

Lemma syn_below S isn : Progress.below S isn 1 (first_syn isn).
Proof.
  split; [|done]. exists 0. split; [|done]. split; try done.
  - pose_zlen. lia.
  - intros i b E. by rewrite zget_nil in E.
Qed.

Lemma start_live S random_x random_y : zlen S < 2147483640 ->
  live S (WrappingInt32_of random_x) (WrappingInt32_of random_y) (start S random_x random_y).
Proof.
  intros HS. pose proof (start_running S random_x random_y HS) as Hr. pose proof (ru_connected _ _ _ _ Hr) as [Hx Hy Lx Ly].
  split; [exists 0|done| |done].
  - split; try done; [| | |by left].
    + split; try done; [apply Lx|by apply fresh_within|by apply Forall_singleton|apply Forall_singleton, syn_below].
    + split; try done; [apply Ly|by apply fresh_within|by apply Forall_singleton|apply Forall_singleton, syn_below|apply Lx].
    + split; [|by left| |done].
      * split; [apply Forall_singleton; by right|done|]. intros _. by split.
      * apply Forall_singleton. right. eexists. split; [left|by split].
  - eexists. split; [left|by split].
Qed.

(** ** Properties *)

(** The rounds a run can take: one for every number of the stream at most, and the
    end. *)
Definition enough (string_to_send : bytes) : nat := Z.to_nat (zlen string_to_send) + 32.

Lemma main_loop_ends reorder S random_x random_y fuel : zlen S < 2147483640 -> (enough S <= fuel)%nat ->
  exists r, main_loop reorder S random_x random_y fuel = Some (Ok r) /\ string_received r = S /\ alive r = false.
Proof.
  intros HS Hf. pose proof (start_live S random_x random_y HS) as Hv.
  set (isn_x := WrappingInt32_of random_x) in *. set (isn_y := WrappingInt32_of random_y) in *.
  assert (wf isn_x) as Hx by apply random_wf. assert (wf isn_y) as Hy by apply random_wf.
  pose proof (stage_live S isn_x isn_y _ Hv) as Hst.
  set (n := (Z.to_nat _ + 30)%nat) in Hst. assert (n <= fuel)%nat as Hn by (unfold n, enough in *; pose_zlen; change (TCPSender._last_ackno _) with 0; lia).
  destruct (stage_while S isn_x isn_y HS Hx Hy receiving reorder ltac:(by left) fuel n _ Hst Hn) as (n1 & r1 & E1 & Hst1 & Hn1 & Hc1).
  unfold main_loop. rewrite E1. pose proof (stage_running _ _ _ _ _ Hst1) as Hr1.
  assert (string_received r1 = S) as Es.
  { apply (received_prefix _ _ _ r1 Hr1). unfold receiving in Hc1. by destruct (ByteStream.eof _). }
  rewrite bool_decide_true by done. cbn [negb].
  destruct (stage_while S isn_x isn_y HS Hx Hy alive reorder ltac:(by right) fuel n1 r1 Hst1 ltac:(lia)) as (n2 & r2 & E2 & Hst2 & _ & Hc2).
  exists r2. split_and!; [done| |done]. apply (received_prefix _ _ _ r2 (stage_running _ _ _ _ _ Hst2)).
  assert (receiving r2 = false) as Hrc; [|unfold receiving in Hrc; by destruct (ByteStream.eof _)].
  destruct Hst2 as [r Hv2|r Hv2|r Hv2|m r Hv2]; [by rewrite (live_alive _ _ _ r Hv2) in Hc2|..];
    eapply (closing_received S isn_x isn_y HS); by apply Hv2.
Qed.

(** C4: the benchmark succeeds.  Whatever the strings (below 2 GiB; the program
    takes 100 MiB), whatever numbers the four senders draw: with enough rounds both
    runs of [main_loop], the one that keeps the order of the segments and the one
    that reverses every batch, deliver the whole string, both connections end, and
    [main] returns 0. *)
Theorem benchmark_succeeds (rand1 rand2 : list Z) (seed : nat -> Z) (fuel : nat) :
  zlen rand1 < 2147483640 -> zlen rand2 < 2147483640 ->
  (enough (string_of_rand rand1) <= fuel)%nat -> (enough (string_of_rand rand2) <= fuel)%nat ->
  main rand1 rand2 seed fuel = Some 0 /\
  exists r1 r2,
    main_loop false (string_of_rand rand1) (seed 0%nat) (seed 1%nat) fuel = Some (Ok r1) /\
    string_received r1 = string_of_rand rand1 /\ alive r1 = false /\
    main_loop true (string_of_rand rand2) (seed 2%nat) (seed 3%nat) fuel = Some (Ok r2) /\
    string_received r2 = string_of_rand rand2 /\ alive r2 = false.
Proof.
  intros H1 H2 F1 F2. assert (forall l, zlen (string_of_rand l) = zlen l) as El by (intros; unfold string_of_rand, zlen; by rewrite length_map).
  destruct (main_loop_ends false (string_of_rand rand1) (seed 0%nat) (seed 1%nat) fuel) as (r1 & E1 & S1 & A1); [by rewrite El|done|].
  destruct (main_loop_ends true (string_of_rand rand2) (seed 2%nat) (seed 3%nat) fuel) as (r2 & E2 & S2 & A2); [by rewrite El|done|].
  split; [|by exists r1, r2]. unfold main. by rewrite E1, E2.
Qed.

Lemma benchmark_succeeds_witness :
  main [98; 101; 110; 99; 104] [109; 97; 114; 107] (fun n => 4294967294 + Z.of_nat n) 40 = Some 0 /\
  exists r1 r2,
    main_loop false (string_of_rand [98; 101; 110; 99; 104]) 4294967294 4294967295 40 = Some (Ok r1) /\
    string_received r1 = str "bench" /\ alive r1 = false /\
    main_loop true (string_of_rand [109; 97; 114; 107]) 4294967296 4294967297 40 = Some (Ok r2) /\
    string_received r2 = str "mark" /\ alive r2 = false.
Proof.
  apply (benchmark_succeeds [98; 101; 110; 99; 104] [109; 97; 114; 107] (fun n => 4294967294 + Z.of_nat n) 40);
    [reflexivity|reflexivity|vm_compute; lia|vm_compute; lia].
Defined.

End BenchmarkLive.
