(* ===== verification/Address.v ===== *)
(** * Socket addresses: [util/address.hh/.cc]

    An [Address] is a [sockaddr_storage] of 128 bytes with the length in use.  Name
    resolution, [getaddrinfo(3)] and [getnameinfo(3)], is the C library's: the
    class [Resolver] gives the two functions, [ResolverLaws] what their manual
    says of numeric names.  The layout of [sockaddr_in] is the one of a
    little-endian Linux host. *)
From Stdlib Require Import Ascii.
From S2P Require Import Prelude Text Buffer Parser Adapter.

(** ** The C library's resolver *)

Definition AF_INET : Z := 2.
Definition AI_NUMERICHOST : Z := 4.
Definition AI_ALL : Z := 16.
Definition AI_NUMERICSERV : Z := 1024.
Definition NI_NUMERICHOST : Z := 1.
Definition NI_NUMERICSERV : Z := 2.

Record addrinfo := mkHints {
  ai_flags : Z;
  ai_family : Z }.

(** The list of results: address bytes and length of each. *)
Record gai_reply := mkGai {
  gai_ret : Z;
  resolved : list (bytes * Z) }.

Record gni_reply := mkGni {
  gni_ret : Z;
  gni_host : string;
  gni_service : string }.

Class Resolver := {
  getaddrinfo : string -> string -> addrinfo -> gai_reply;
  getnameinfo : bytes -> Z -> Z -> gni_reply }.

(** [struct sockaddr_in] with its eight bytes of padding. *)
Definition sockaddr_in (ip port : Z) : bytes :=
  [byte_of AF_INET; byte_of 0] ++ be_bytes 2 port ++ be_bytes 4 ip ++ replicate 8 Corelib.Init.Byte.x00.

(** The dotted-quad notation ([inet_ntoa(3)]). *)
Definition dotted (ip : Z) : string :=
  Text.to_string (ip / 16777216) +:+ "." +:+ Text.to_string (ip / 65536 mod 256) +:+ "." +:+
  Text.to_string (ip / 256 mod 256) +:+ "." +:+ Text.to_string (ip mod 256).

Class ResolverLaws `{Resolver} := {
  getaddrinfo_numeric ip port flags :
    0 <= ip < MAX32 -> 0 <= port < MAX16 -> flags = AI_ALL \/ flags = Z.lor AI_NUMERICHOST AI_NUMERICSERV ->
    exists more, getaddrinfo (dotted ip) (Text.to_string port) (mkHints flags AF_INET) =
      mkGai 0 ((sockaddr_in ip port, 16) :: more);
  getnameinfo_numeric ip port :
    0 <= ip < MAX32 -> 0 <= port < MAX16 ->
    getnameinfo (resize 128 (sockaddr_in ip port)) 16 (Z.lor NI_NUMERICHOST NI_NUMERICSERV) =
      mkGni 0 (dotted ip) (Text.to_string port) }.

Module Address.

Record t := mk {
  _size : Z;
  _address : bytes }.

#[global] Instance socket_address_eq_dec : EqDecision t.
Proof. solve_decision. Defined.

(** ** Operations *)

(** [sizeof(sockaddr_storage)] and [sizeof(sockaddr_in)]. *)
Definition storage_size : Z := 128.
Definition sockaddr_in_size : Z := 16.

Definition zeroed : bytes := replicate (Z.to_nat storage_size) Corelib.Init.Byte.x00.

(** The constructor from a [sockaddr *], which points to at least [size] bytes. *)
Definition of_sockaddr (addr : bytes) (size : Z) : outcome t :=
  if storage_size <? size then Throw (runtime_error "invalid sockaddr size")
  else Ok (mk (u32 size) (ztake size addr ++ zdrop size zeroed)).

Definition make_hints (ai_flags ai_family : Z) : addrinfo := mkHints ai_flags ai_family.

Definition size (a : t) : Z := _size a.

Section resolver.
Context `{Resolver}.

(** The private constructor. *)
Definition resolve (node service : string) (hints : addrinfo) : outcome t :=
  let reply := getaddrinfo node service hints in
  if negb (gai_ret reply =? 0)
  then Throw (gai_error ("getaddrinfo(" +:+ node +:+ ", " +:+ service +:+ ")") (gai_ret reply))
  else match resolved reply with
  | [] => Throw (runtime_error "getaddrinfo returned successfully but with no results")
  | (ai_addr, ai_addrlen) :: _ => of_sockaddr ai_addr ai_addrlen
  end.

(** By host and service name. *)
Definition of_host (hostname service : string) : outcome t :=
  resolve hostname service (make_hints AI_ALL AF_INET).

(** By dotted quad and port number. *)
Definition of_ip (ip : string) (port : Z) : outcome t :=
  resolve ip (Text.to_string port) (make_hints (Z.lor AI_NUMERICHOST AI_NUMERICSERV) AF_INET).

Definition ip_port (a : t) : outcome (string * Z) :=
  let reply := getnameinfo (_address a) (_size a) (Z.lor NI_NUMERICHOST NI_NUMERICSERV) in
  if negb (gni_ret reply =? 0) then Throw (gai_error "getnameinfo" (gni_ret reply))
  else
    let! port := Text.stoi (gni_service reply) in
    Ok (gni_host reply, u16 port).

Definition ip (a : t) : outcome string :=
  let! (ip, _) := ip_port a in Ok ip.

Definition port (a : t) : outcome Z :=
  let! (_, port) := ip_port a in Ok port.

Definition to_string (a : t) : outcome string :=
  let! (ip, port) := ip_port a in
  Ok (ip +:+ ":" +:+ Text.to_string port).

End resolver.

(** [ss_family], a 16-bit integer in the byte order of the host. *)
Definition ss_family (a : t) : Z :=
  byte_val (default Corelib.Init.Byte.x00 (zget (_address a) 0)) +
  256 * byte_val (default Corelib.Init.Byte.x00 (zget (_address a) 1)).

Definition ipv4_numeric (a : t) : outcome Z :=
  if negb (ss_family a =? AF_INET) || negb (_size a =? sockaddr_in_size)
  then Throw (runtime_error "ipv4_numeric called on non-IPV4 address")
  else
    let ipv4_addr := ztake (_size a) (_address a) in
    Ok (be_value (substr ipv4_addr 4 4)).

Definition from_ipv4_numeric (ip_address : Z) : outcome t :=
  let ipv4_addr := sockaddr_in ip_address 0 in
  of_sockaddr ipv4_addr sockaddr_in_size.

Definition eq (a other : t) : bool :=
  if negb (_size a =? _size other) then false
  else bool_decide (ztake (_size a) (_address a) = ztake (_size a) (_address other)).

(** ** Invariant: what the constructors establish *)

Record wf (a : t) : Prop := {
  wf_size : 0 <= _size a <= storage_size;
  wf_storage : zlen (_address a) = storage_size;
  wf_unused : zdrop (_size a) (_address a) = zdrop (_size a) zeroed }.

Lemma zlen_zeroed : zlen zeroed = storage_size.
Proof. reflexivity. Qed.

Lemma of_sockaddr_wf addr n a : 0 <= n <= zlen addr -> of_sockaddr addr n = Ok a -> wf a.
Proof.
  unfold of_sockaddr, storage_size. intros Hn. destruct (128 <? n) eqn:E; [done|]. intros [= <-].
  pose proof zlen_zeroed as Hz. unfold storage_size in Hz. split; cbn [_size _address]; unfold storage_size.
  - rewrite u32_small; lia.
  - zlia.
  - rewrite u32_small by lia. rewrite zdrop_app_ge by zlia.
    rewrite zlen_ztake. by rewrite zdrop_nonpos by lia.
Qed.

Lemma sockaddr_in_length ip port : zlen (sockaddr_in ip port) = 16.
Proof. unfold sockaddr_in. rewrite !zlen_app, !zlen_be_bytes. reflexivity. Qed.

(** The address that stands for [ip] and [port]. *)
Definition inet (ip port : Z) : t := mk 16 (resize 128 (sockaddr_in ip port)).

Lemma of_sockaddr_inet ip port : of_sockaddr (sockaddr_in ip port) 16 = Ok (inet ip port).
Proof.
  reflexivity.
Qed.

Lemma inet_wf ip port : wf (inet ip port).
Proof.
  apply (of_sockaddr_wf (sockaddr_in ip port) 16); [rewrite sockaddr_in_length; lia|apply of_sockaddr_inet].
Qed.

Lemma inet_numeric ip port : 0 <= ip < MAX32 -> ipv4_numeric (inet ip port) = Ok ip.
Proof.
  intros Hip. unfold ipv4_numeric.
  assert (ss_family (inet ip port) = AF_INET) as -> by reflexivity.
  replace (negb _ || negb _) with false by reflexivity.
  assert (substr (ztake (_size (inet ip port)) (_address (inet ip port))) 4 4 = be_bytes 4 ip) as -> by reflexivity.
  by rewrite be_value_bytes, Z.mod_small by done.
Qed.

(** What the adapters use of an IPv4 address ([Adapter.v]), and back. *)
Definition endpoint (a : t) : Endpoint.t :=
  Endpoint.mk (be_value (substr (_address a) 4 4)) (be_value (substr (_address a) 2 2)).

Definition of_endpoint (e : Endpoint.t) : t := inet (Endpoint.ipv4_numeric e) (Endpoint.port e).

Lemma endpoint_of_endpoint e : Endpoint.wf e -> endpoint (of_endpoint e) = e.
Proof.
  destruct e as [n p]. intros [Hn Hp]. unfold endpoint, of_endpoint. cbn [Endpoint.ipv4_numeric Endpoint.port] in *.
  assert (substr (_address (inet n p)) 4 4 = be_bytes 4 n) as -> by reflexivity.
  assert (substr (_address (inet n p)) 2 2 = be_bytes 2 p) as -> by reflexivity.
  by rewrite !be_value_bytes, !Z.mod_small by done.
Qed.

(** ** Properties *)

(** [operator==] is equality: only the bytes in use are compared, but the
    constructors leave the others zero. *)
Theorem address_eq_spec (a b : t) : wf a -> wf b -> eq a b = true <-> a = b.
Proof.
  intros [_ _ Ha] [_ _ Hb]. unfold eq. destruct (_size a =? _size b) eqn:E; cbn [negb].
  - apply Z.eqb_eq in E. rewrite bool_decide_eq_true. split; [|congruence]. intros Et.
    destruct a as [na sa], b as [nb sb]. cbn in *. subst nb. f_equal.
    rewrite <- (ztake_zdrop na sa), <- (ztake_zdrop na sb), Et.
    f_equal. by rewrite Ha, Hb.
  - split; [done|]. intros ->. by rewrite Z.eqb_refl in E.
Qed.

Lemma address_eq_spec_witness :
  eq (inet 167772161 80) (inet 167772161 80) = true <-> inet 167772161 80 = inet 167772161 80.
Proof. apply address_eq_spec; apply inet_wf. Defined.

Section laws.
Context `{ResolverLaws}.

Lemma of_ip_inet ip port :
  0 <= ip < MAX32 -> 0 <= port < MAX16 -> of_ip (dotted ip) port = Ok (inet ip port).
Proof.
  intros Hip Hp. unfold of_ip, resolve, make_hints.
  destruct (getaddrinfo_numeric ip port _ Hip Hp (or_intror eq_refl)) as (more & ->).
  cbn [gai_ret resolved Z.eqb negb]. exact (of_sockaddr_inet ip port).
Qed.

Lemma of_host_inet ip port :
  0 <= ip < MAX32 -> 0 <= port < MAX16 -> of_host (dotted ip) (Text.to_string port) = Ok (inet ip port).
Proof.
  intros Hip Hp. unfold of_host, resolve, make_hints.
  destruct (getaddrinfo_numeric ip port _ Hip Hp (or_introl eq_refl)) as (more & ->).
  cbn [gai_ret resolved Z.eqb negb]. apply of_sockaddr_inet.
Qed.

Lemma inet_ip_port ip port :
  0 <= ip < MAX32 -> 0 <= port < MAX16 -> ip_port (inet ip port) = Ok (dotted ip, port).
Proof.
  intros Hip Hp. unfold ip_port. cbn [_address _size inet]. rewrite getnameinfo_numeric by done.
  cbn [gni_ret gni_service gni_host Z.eqb negb]. rewrite Text.stoi_to_string by lia. cbn [obind].
  by rewrite u16_small by lia.
Qed.

(** C26: an IPv4 address and port survive every way in and out of the
    class: the address made from a dotted quad and a port gives both back, as
    text and as numbers, and is the one made from the numeric address when the
    port is 0. *)
Theorem address_roundtrip (n p : Z) :
  0 <= n < MAX32 -> 0 <= p < MAX16 ->
  exists a, of_ip (dotted n) p = Ok a /\ wf a /\
    ip_port a = Ok (dotted n, p) /\ ipv4_numeric a = Ok n /\
    to_string a = Ok (dotted n +:+ ":" +:+ Text.to_string p) /\
    (p = 0 -> from_ipv4_numeric n = Ok a).
Proof.
  intros Hn Hp. exists (inet n p). rewrite of_ip_inet by done. unfold to_string. rewrite inet_ip_port by done.
  split_and!; [done|apply inet_wf|done|by apply inet_numeric|done|].
  intros ->. unfold from_ipv4_numeric. rewrite <- of_sockaddr_inet. reflexivity.
Qed.

End laws.

(** ** A resolver of numeric names only *)

Definition read_field (s : string) : Z * string :=
  let '(v, rest) := Text.read_digits 10 s 0 in
  (v, match rest with String "."%char rest => rest | _ => rest end).

Definition read_quad (s : string) : Z :=
  let '(a, s) := read_field s in
  let '(b, s) := read_field s in
  let '(c, s) := read_field s in
  let '(d, _) := read_field s in
  ((a * 256 + b) * 256 + c) * 256 + d.

Definition numeric_resolver : Resolver := {|
  getaddrinfo node service _ :=
    if Text.starts_with_digit 10 node && Text.starts_with_digit 10 service
    then mkGai 0 [(sockaddr_in (read_quad node) (Text.read_digits 10 service 0).1, 16)]
    else mkGai (-2) [];
  getnameinfo storage size _ :=
    mkGni 0 (dotted (be_value (substr storage 4 4))) (Text.to_string (be_value (substr storage 2 2))) |}.

Lemma read_field_show n rest : 0 <= n -> read_field (Text.to_string n +:+ "." +:+ rest) = (n, rest).
Proof.
  intros Hn. unfold read_field, Text.to_string. replace (n <? 0) with false by lia.
  by rewrite Text.read_show by (done || lia).
Qed.

Lemma read_number n : 0 <= n -> Text.read_digits 10 (Text.to_string n) 0 = (n, "").
Proof.
  intros Hn. unfold Text.to_string. replace (n <? 0) with false by lia.
  rewrite <- (Text.string_app_nil (Text.show 10 n)). by apply Text.read_show.
Qed.

Lemma read_quad_dotted n : 0 <= n < MAX32 -> read_quad (dotted n) = n.
Proof.
  intros Hn. unfold read_quad, dotted.
  assert (0 <= n / 16777216) by (apply Z.div_pos; lia).
  assert (0 <= n / 65536 mod 256 /\ 0 <= n / 256 mod 256 /\ 0 <= n mod 256) as (? & ? & ?)
    by (split_and!; apply Z.mod_pos_bound; lia).
  rewrite !read_field_show by done. unfold read_field. rewrite read_number by done.
  Z.div_mod_to_equations. lia.
Qed.

Lemma starts_with_digit_show n rest : 0 <= n -> Text.starts_with_digit 10 (Text.to_string n +:+ rest) = true.
Proof.
  intros Hn. unfold Text.to_string. replace (n <? 0) with false by lia. unfold Text.show.
  destruct (Text.show_head (S (Z.to_nat (Z.log2 n))) 10 n "") as (d & s & -> & Hd & _);
    [lia|by apply Text.show_fuel_enough|done|]. simpl. rewrite Text.digit_val_char by lia. lia.
Qed.

Lemma numeric_resolver_laws : @ResolverLaws numeric_resolver.
Proof.
  split.
  - intros n p flags Hn Hp _. exists []. cbn [getaddrinfo numeric_resolver].
    assert (0 <= n / 16777216) by (apply Z.div_pos; lia).
    unfold dotted at 1. rewrite starts_with_digit_show by done.
    rewrite <- (Text.string_app_nil (Text.to_string p)) at 1. rewrite starts_with_digit_show by lia.
    rewrite read_quad_dotted, read_number by lia. done.
  - intros n p Hn Hp. cbn [getnameinfo numeric_resolver].
    assert (substr (resize 128 (sockaddr_in n p)) 4 4 = be_bytes 4 n) as -> by reflexivity.
    assert (substr (resize 128 (sockaddr_in n p)) 2 2 = be_bytes 2 p) as -> by reflexivity.
    rewrite !be_value_bytes, !Z.mod_small by done. done.
Qed.

Lemma address_roundtrip_witness :
  let _ := numeric_resolver in
  exists a, of_ip "169.254.144.9" 1440 = Ok a /\ wf a /\
    ip_port a = Ok ("169.254.144.9", 1440) /\ ipv4_numeric a = Ok 2852032521 /\
    to_string a = Ok "169.254.144.9:1440" /\
    (1440 = 0 -> from_ipv4_numeric 2852032521 = Ok a).
Proof. apply (@address_roundtrip numeric_resolver numeric_resolver_laws 2852032521 1440); lia. Defined.

End Address.
