(* ===== verification/FileDescriptor.v ===== *)
(** * System calls and file descriptors: [util/util.cc], [util/file_descriptor.hh/.cc]

    The kernel is outside the program: what a system call answers is an argument
    ([sysret], [read_reply]) of the operation that makes it.  All copies of a
    [FileDescriptor] share one [FDWrapper] ([duplicate] copies the pointer), so an
    operation acts on the wrapper; a client keeps one wrapper per descriptor and
    every handle to it sees the same flags and counters.  Reference counting (the
    wrapper closes itself when its last handle dies) is the C++ runtime's. *)
From stdpp Require Import pretty.
From S2P Require Import Prelude Buffer.

(** The answer to a system call: its return value and [errno]. *)
Record sysret := mkSys {
  ret : Z;
  errno : Z }.

(** The answer to [read(2)]: the bytes stored at the start of the buffer too. *)
Record read_reply := mkRead {
  read_ret : sysret;
  stored : bytes }.

Definition EINTR : Z := 4.
Definition EAGAIN : Z := 11.
Definition O_NONBLOCK : Z := 2048.

(** The parameter [return_value] is an [int]: wider results are truncated. *)
Definition SystemCall (attempt : string) (r : sysret) (errno_mask : Z) : outcome Z :=
  let return_value := i32 (ret r) in
  if (0 <=? return_value) || (errno r =? errno_mask) then Ok return_value
  else Throw (unix_error attempt (errno r)).

Module FDWrapper.

Record t := mk {
  _fd : Z;
  _eof : bool;
  _closed : bool;
  _read_count : Z;
  _write_count : Z }.

#[global] Instance eta_t : Eta t := fun w =>
  mk (_fd w) (_eof w) (_closed w) (_read_count w) (_write_count w).

#[global] Instance wrapper_eq_dec : EqDecision t.
Proof. solve_decision. Defined.

Definition make (fd : Z) : outcome t :=
  if fd <? 0 then Throw (runtime_error ("invalid fd number:" +:+ pretty fd))
  else Ok (mk fd false false 0 0).

Definition close (r : sysret) (w : t) : outcome t :=
  let! _ := SystemCall "close" r 0 in
  Ok (w <| _closed := true |> <| _eof := true |>).

(** The destructor closes the descriptor once, and swallows what that throws. *)
Definition destroy (r : sysret) (w : t) : t :=
  if _closed w then w
  else match close r w with Ok w' => w' | Throw _ => w end.

End FDWrapper.

Module FileDescriptor.
Import FDWrapper.

(** ** Operations *)

Definition make (fd : Z) : outcome t := FDWrapper.make fd.

Definition duplicate (w : t) : t := w.

Definition fd_num (w : t) : Z := _fd w.

Definition eof (w : t) : bool := _eof w.

Definition closed (w : t) : bool := _closed w.

Definition read_count (w : t) : Z := _read_count w.

Definition write_count (w : t) : Z := _write_count w.

Definition register_read (w : t) : t := w <| _read_count := u32 (_read_count w + 1) |>.

Definition register_write (w : t) : t := w <| _write_count := u32 (_write_count w + 1) |>.

Definition close (r : sysret) (w : t) : outcome t := FDWrapper.close r w.

Definition BUFFER_SIZE : Z := 1048576.

(** [read(str, limit)]: the kernel overwrites the beginning of the resized
    string. *)
Definition read_into (reply : read_reply) (str : bytes) (limit : Z) (w : t) : outcome (bytes * t) :=
  let size_to_read := Z.min BUFFER_SIZE limit in
  let str := resize size_to_read str in
  let str := resize size_to_read (stored reply ++ zdrop (zlen (stored reply)) str) in
  let! bytes_read := SystemCall "read" (read_ret reply) 0 in
  let w := if (0 <? limit) && (bytes_read =? 0) then w <| _eof := true |> else w in
  if size_to_read <? bytes_read then Throw (runtime_error "read() read more than requested")
  else Ok (resize bytes_read str, register_read w).

Definition read (reply : read_reply) (limit : Z) (w : t) : outcome (bytes * t) :=
  read_into reply [] limit w.

(** One round of the loop of [write]. *)
Definition write_once (r : sysret) (buffer : BufferViewList.t) (w : t) :
    outcome (Z * BufferViewList.t * t) :=
  let! bytes_written := SystemCall "writev" r 0 in
  if (bytes_written =? 0) && negb (BufferViewList.size buffer =? 0)
  then Throw (runtime_error "write returned 0 given non-empty input buffer")
  else if i64 (BufferViewList.size buffer) <? bytes_written
  then Throw (runtime_error "write wrote more than length of input buffer")
  else
    let w := register_write w in
    let! buffer := BufferViewList.remove_prefix (u64 bytes_written) buffer in
    Ok (bytes_written, buffer, w).

(** The [do ... while] loop, one answer of the kernel per round; [None] when the
    kernel has not answered yet.  What is left of the answers comes back. *)
Fixpoint write_loop (replies : list sysret) (buffer : BufferViewList.t) (write_all : bool)
    (total_bytes_written : Z) (w : t) : option (outcome (Z * t * list sysret)) :=
  match replies with
  | [] => None
  | r :: replies =>
      match write_once r buffer w with
      | Throw e => Some (Throw e)
      | Ok (bytes_written, buffer, w) =>
          let total_bytes_written := u64 (total_bytes_written + bytes_written) in
          if write_all && negb (BufferViewList.size buffer =? 0)
          then write_loop replies buffer write_all total_bytes_written w
          else Some (Ok (total_bytes_written, w, replies))
      end
  end.

Definition write (replies : list sysret) (buffer : BufferViewList.t) (write_all : bool) (w : t) :
    option (outcome (Z * t * list sysret)) :=
  write_loop replies buffer write_all 0 w.

(** The flags given to [F_SETFL], from the answers to [F_GETFL] and [F_SETFL]. *)
Definition set_blocking (getfl setfl : sysret) (blocking_state : bool) : outcome Z :=
  let! flags := SystemCall "fcntl" getfl 0 in
  let flags := if blocking_state then Z.lxor flags (Z.land flags O_NONBLOCK)
               else Z.lor flags O_NONBLOCK in
  let! _ := SystemCall "fcntl" setfl 0 in
  Ok flags.

(** ** Reading *)

Lemma system_call_ok attempt n e mask : 0 <= n < 2147483648 -> SystemCall attempt (mkSys n e) mask = Ok n.
Proof. intros. unfold SystemCall. cbn [ret]. rewrite i32_small by lia. by replace (0 <=? n) with true by lia. Qed.

(** What [read(2)] documents: it stores as many bytes as it returns. *)
Definition delivers (reply : read_reply) (data : bytes) : Prop :=
  stored reply = data /\ ret (read_ret reply) = zlen data.

Lemma read_delivers reply data limit w :
  delivers reply data -> zlen data <= Z.min BUFFER_SIZE limit ->
  read reply limit w =
    Ok (data, register_read (if (0 <? limit) && (zlen data =? 0) then w <| _eof := true |> else w)).
Proof.
  intros [Hs Hr] Hl. pose proof (zlen_nonneg data). unfold BUFFER_SIZE in *.
  unfold read, read_into, BUFFER_SIZE. destruct reply as [[n e] st]. cbn in Hs, Hr. subst st n. cbn [stored read_ret].
  rewrite system_call_ok by lia. cbn [obind]. replace (_ <? zlen data) with false by lia.
  by rewrite resize_stored by lia.
Qed.

(** A kernel that stores more than it was asked for is caught. *)
Lemma read_too_much reply limit w :
  Z.min BUFFER_SIZE limit < ret (read_ret reply) < 2147483648 -> 0 <= limit ->
  read reply limit w = Throw (runtime_error "read() read more than requested").
Proof.
  unfold BUFFER_SIZE. intros H Hl. unfold read, read_into, BUFFER_SIZE. destruct reply as [[n e] st]. cbn in *.
  rewrite system_call_ok by lia. cbn [obind]. by replace (_ <? n) with true by lia.
Qed.

(** ** Writing *)

Lemma write_once_ok n e buffer w :
  let size := zlen (concat buffer) in
  size < 2147483648 -> 0 <= n <= size -> (n = 0 -> size = 0) ->
  exists rest, write_once (mkSys n e) buffer w = Ok (n, rest, register_write w) /\
    concat rest = zdrop n (concat buffer).
Proof.
  intros size Hs Hn H0. unfold size in *. pose proof (zlen_nonneg (concat buffer)).
  unfold write_once. rewrite system_call_ok by lia. cbn [obind].
  rewrite BufferViewList.view_size by lia. rewrite i64_small by lia.
  replace (zlen (concat buffer) <? n) with false by lia.
  replace ((n =? 0) && negb (zlen (concat buffer) =? 0)) with false by lia.
  destruct (BufferViewList.view_remove_prefix buffer n) as (v & E & Hv); [done|].
  rewrite u64_small, E by lia. cbn [obind]. by exists v.
Qed.

Lemma write_loop_all ks es w total buffer rest :
  Forall (fun k => 1 <= k) ks -> length es = length ks -> ks <> [] ->
  foldr Z.add 0 ks = zlen (concat buffer) -> 0 <= total -> total + zlen (concat buffer) < 2147483648 ->
  write_loop (zip_with mkSys ks es ++ rest) buffer true total w =
    Some (Ok (total + zlen (concat buffer), Nat.iter (length ks) register_write w, rest)).
Proof.
  intros Hk. revert es w total buffer. induction Hk as [|k ks Hk Hks IH]; [done|].
  intros [|e es] w total buffer Hlen _ Hsum H0 Hb; [done|]. cbn [zip_with app write_loop foldr] in *.
  assert (0 <= foldr Z.add 0 ks) as Hpos by (clear -Hks; induction Hks; simpl; lia).
  destruct (write_once_ok k e buffer w) as (v & -> & Hv); [lia..|]. cbn [andb].
  assert (zlen (concat v) = foldr Z.add 0 ks) as Hv' by (rewrite Hv, zlen_zdrop; lia).
  rewrite BufferViewList.view_size, u64_small by lia.
  destruct ks as [|k' ks]; cbn [foldr] in *.
  - replace (zlen (concat v) =? 0) with true by lia. destruct es; [|done]. simpl. repeat f_equal. lia.
  - inversion Hks; subst. assert (0 <= foldr Z.add 0 ks) by (clear -H3; induction H3; simpl; lia).
    replace (zlen (concat v) =? 0) with false by lia. cbn [negb].
    rewrite IH; [|simpl in *; lia|done|cbn [foldr]; lia|lia|lia].
    change (length (k :: k' :: ks)) with (S (length (k' :: ks))). rewrite (Nat.iter_succ_r (length (k' :: ks))).
    by replace (total + k + zlen (concat v)) with (total + zlen (concat buffer)) by lia.
Qed.

(** The buffer may be empty: one call that takes nothing then suffices. *)
Definition accepts_all (ks : list Z) (buffer : BufferViewList.t) : Prop :=
  ks <> [] /\ foldr Z.add 0 ks = zlen (concat buffer) /\ (Forall (fun k => 1 <= k) ks \/ ks = [0]).

Lemma iter_register n w :
  Nat.iter n register_write w = w <| _write_count := if (n =? 0)%nat then _write_count w else u32 (_write_count w + Z.of_nat n) |>.
Proof.
  induction n as [|n IH]; [by destruct w|]. rewrite Nat.iter_succ, IH. unfold register_write. destruct w. simpl.
  f_equal. destruct n; simpl; [done|]. word.
Qed.

(** ** Properties *)

(** C20: writing everything.  However the kernel cuts the data into pieces (it accepts
    at least one byte of a non-empty rest per call), [write] with [write_all]
    ends, after exactly as many calls as there are pieces, and reports that the
    whole discontiguous string was written; the counter of writes has advanced by
    the number of calls. *)
Theorem write_all_complete (ks es : list Z) (buffer : BufferViewList.t) (rest : list sysret) (w : t) :
  zlen (concat buffer) < 2147483648 -> accepts_all ks buffer -> length es = length ks ->
  write (zip_with mkSys ks es ++ rest) buffer true w =
    Some (Ok (zlen (concat buffer), w <| _write_count := u32 (_write_count w + zlen ks) |>, rest)).
Proof.
  intros Hs (Hne & Hsum & Hk) Hlen. unfold write.
  assert (Nat.iter (length ks) register_write w = w <| _write_count := u32 (_write_count w + zlen ks) |>) as E
    by (rewrite iter_register; by destruct ks).
  destruct Hk as [Hk| ->].
  - rewrite write_loop_all, E by (done || lia). by rewrite Z.add_0_l.
  - destruct es as [|e []]; try done. cbn in Hsum. cbn [zip_with app write_loop].
    destruct (write_once_ok 0 e buffer w) as (v & -> & Hv); [lia..|].
    rewrite BufferViewList.view_size by (rewrite Hv, zlen_zdrop; lia).
    replace (zlen (concat v) =? 0) with true by (rewrite Hv, zlen_zdrop; lia).
    rewrite <- Hsum. by rewrite <- E.
Qed.

Lemma write_all_complete_witness :
  write [mkSys 2 0; mkSys 5 0; mkSys 1 0; mkSys 9 9] [str "abc"; []; str "defgh"] true (mk 3 false false 7 4294967294) =
    Some (Ok (8, mk 3 false false 7 1, [mkSys 9 9])).
Proof.
  apply (write_all_complete [2; 5; 1] [0; 0; 0] [str "abc"; []; str "defgh"] [mkSys 9 9]);
    [reflexivity| |reflexivity].
  split_and!; [done|reflexivity|left; repeat constructor; lia].
Defined.

(** Switching between blocking and non-blocking changes the one flag and no
    other. *)
Theorem set_blocking_flag (flags e : Z) (r : sysret) (blocking_state : bool) :
  0 <= flags < 2147483648 -> 0 <= i32 (ret r) ->
  exists flags', set_blocking (mkSys flags e) r blocking_state = Ok flags' /\
    forall i, 0 <= i -> Z.testbit flags' i = if i =? 11 then negb blocking_state else Z.testbit flags i.
Proof.
  intros Hf Hr. unfold set_blocking. rewrite system_call_ok by lia. cbn [obind].
  unfold SystemCall. replace (0 <=? i32 (ret r)) with true by lia. cbn [orb obind].
  eexists. split; [done|]. intros i Hi.
  assert (Z.testbit O_NONBLOCK i = (i =? 11)) as Hbit.
  { change O_NONBLOCK with (2 ^ 11). rewrite Z.pow2_bits_eqb by lia. apply Z.eqb_sym. }
  destruct blocking_state.
  - rewrite Z.lxor_spec, Z.land_spec, Hbit. by destruct (i =? 11), (Z.testbit flags i).
  - rewrite Z.lor_spec, Hbit. by destruct (i =? 11), (Z.testbit flags i).
Qed.

Lemma set_blocking_flag_witness :
  exists flags', set_blocking (mkSys 2050 0) (mkSys 0 0) true = Ok flags' /\
    forall i, 0 <= i -> Z.testbit flags' i = if i =? 11 then negb true else Z.testbit 2050 i.
Proof. apply set_blocking_flag; [lia|vm_compute; congruence]. Defined.

End FileDescriptor.
