(* ===== verification/EventLoop.v ===== *)
(** * The event loop: [util/eventloop.hh/.cc]

    [Σ] is the state the callbacks share (the variables they capture by
    reference).  The descriptor of a rule is a handle to a shared [FDWrapper], so
    it is looked up in that state.  Callbacks may throw.  The answer of
    [poll(2)] is a function of the list of [pollfd]s the loop builds. *)
From S2P Require Import Prelude Buffer FileDescriptor.

Module EventLoop.

Inductive Direction := In | Out.

Inductive Result := Success | Timeout | Exit.

Definition POLLIN : Z := 1.
Definition POLLOUT : Z := 4.
Definition POLLERR : Z := 8.
Definition POLLHUP : Z := 16.
Definition POLLNVAL : Z := 32.

(** [static_cast<short>(direction)]. *)
Definition direction_events (d : Direction) : Z := match d with In => POLLIN | Out => POLLOUT end.

Record pollfd := mkPoll {
  poll_fd : Z;
  events : Z;
  revents : Z }.

#[global] Instance eta_pollfd : Eta pollfd := fun p => mkPoll (poll_fd p) (events p) (revents p).

(** The answer to [poll(2)]: its result and what it wrote to the [revents]. *)
Record poll_reply := mkPollReply {
  poll_ret : sysret;
  returned : list Z }.

(** [static_cast<bool>(a & b)]. *)
Definition has (a b : Z) : bool := negb (Z.land a b =? 0).

Section loop.
Context {Σ : Type}.

Record Rule := mkRule {
  fd : Σ -> FDWrapper.t;
  direction : Direction;
  callback : Σ -> outcome Σ;
  interest : Σ -> bool;
  cancel : Σ -> outcome Σ }.

Definition service_count (r : Rule) (s : Σ) : Z :=
  match direction r with
  | In => FileDescriptor.read_count (fd r s)
  | Out => FileDescriptor.write_count (fd r s)
  end.

(** [add_rule] stores a duplicate of the handle: the same wrapper. *)
Definition add_rule (fd : Σ -> FDWrapper.t) (direction : Direction) (callback : Σ -> outcome Σ)
    (interest : Σ -> bool) (cancel : Σ -> outcome Σ) (_rules : list Rule) : list Rule :=
  _rules ++ [mkRule (fun s => FileDescriptor.duplicate (fd s)) direction callback interest cancel].

(** The first loop: cancel the rules that cannot fire any more, and set up one
    [pollfd] for each other rule. *)
Fixpoint setup (_rules : list Rule) (s : Σ) : outcome (list Rule * list pollfd * bool * Σ) :=
  match _rules with
  | [] => Ok ([], [], false, s)
  | this_rule :: rest =>
      if (match direction this_rule with In => FileDescriptor.eof (fd this_rule s) | Out => false end)
         || FileDescriptor.closed (fd this_rule s)
      then let! s := cancel this_rule s in setup rest s
      else
        let interested := interest this_rule s in
        let this_pollfd := mkPoll (FileDescriptor.fd_num (fd this_rule s))
          (if interested then direction_events (direction this_rule) else 0) 0 in
        let! (kept, pollfds, something_to_poll, s) := setup rest s in
        Ok (this_rule :: kept, this_pollfd :: pollfds, interested || something_to_poll, s)
  end.

(** The last loop.  [pollfds[idx]] is in range ([service_in_range] below). *)
Fixpoint service (pollfds : list pollfd) (_rules : list Rule) (idx : Z) (s : Σ) : outcome (list Rule * Σ) :=
  match _rules with
  | [] => Ok ([], s)
  | this_rule :: rest =>
      match zget pollfds idx with
      | None => Throw (out_of_range "pollfds")
      | Some this_pollfd =>
          let poll_error := has (revents this_pollfd) (Z.lor POLLERR POLLNVAL) in
          if poll_error then Throw (runtime_error "EventLoop: error on polled file descriptor")
          else
            let poll_ready := has (revents this_pollfd) (events this_pollfd) in
            let poll_hup := has (revents this_pollfd) POLLHUP in
            if poll_hup && negb (events this_pollfd =? 0) && negb poll_ready then
              let! s := cancel this_rule s in
              service pollfds rest (idx + 1) s
            else
              let! s :=
                if poll_ready then
                  let count_before := service_count this_rule s in
                  let! s := callback this_rule s in
                  if (count_before =? service_count this_rule s) && interest this_rule s
                  then Throw (runtime_error
                    "EventLoop: busy wait detected: callback did not read/write fd and is still interested")
                  else Ok s
                else Ok s in
              let! (kept, s) := service pollfds rest (idx + 1) s in
              Ok (this_rule :: kept, s)
      end
  end.

(** [poll] fills in the [revents]. *)
Definition answered (pollfds : list pollfd) (returned : list Z) : list pollfd :=
  zip_with (fun p v => p <| revents := v |>) pollfds returned.

(** An exception of [SystemCall] other than [EINTR] is caught and dropped: the
    loop goes on with the [revents] it has. *)
Definition wait_next_event (poll : list pollfd -> poll_reply) (_rules : list Rule) (s : Σ) :
    outcome (Result * list Rule * Σ) :=
  let! (_rules, pollfds, something_to_poll, s) := setup _rules s in
  if negb something_to_poll then Ok (Exit, _rules, s)
  else
    let reply := poll pollfds in
    let pollfds := answered pollfds (returned reply) in
    match SystemCall "poll" (poll_ret reply) 0 with
    | Ok 0 => Ok (Timeout, _rules, s)
    | Throw (unix_error _ EINTR') =>
        if EINTR' =? EINTR then Ok (Exit, _rules, s)
        else let! (_rules, s) := service pollfds _rules 0 s in Ok (Success, _rules, s)
    | _ => let! (_rules, s) := service pollfds _rules 0 s in Ok (Success, _rules, s)
    end.


(** ** The two loops *)

(** The condition under which the first loop keeps a rule. *)
Definition live (s : Σ) (r : Rule) : bool :=
  negb ((match direction r with In => FileDescriptor.eof (fd r s) | Out => false end)
        || FileDescriptor.closed (fd r s)).

Definition pollfd_of (s : Σ) (r : Rule) : pollfd :=
  mkPoll (FileDescriptor.fd_num (fd r s)) (if interest r s then direction_events (direction r) else 0) 0.

Lemma setup_live _rules s :
  Forall (fun r => live s r = true) _rules ->
  setup _rules s = Ok (_rules, map (pollfd_of s) _rules, existsb (fun r => interest r s) _rules, s).
Proof.
  induction 1 as [|r rules Hr _ IH]; simpl; [done|]. unfold live in Hr.
  apply negb_true_iff in Hr. by rewrite Hr, IH.
Qed.

Lemma setup_aligned _rules s kept pollfds something s' :
  setup _rules s = Ok (kept, pollfds, something, s') -> length pollfds = length kept /\ sublist kept _rules.
Proof.
  revert s kept pollfds something. induction _rules as [|r rules IH]; intros s kept pollfds something; simpl.
  - intros [= <- <- <- <-]. split; [done|constructor].
  - destruct (_ || _).
    + destruct (cancel r s) as [s1|] eqn:E; [|done]. intros H. apply IH in H as [? ?].
      split; [done|]. by constructor.
    + destruct (setup rules s) as [[[[k p] b] s1]|] eqn:E; [|done]. simpl. intros [= <- <- <- <-].
      apply IH in E as [? ?]. split; [simpl; lia|]. by constructor.
Qed.

(** The last loop with every rule next to its own [pollfd]. *)
Fixpoint serve (pairs : list (Rule * pollfd)) (s : Σ) : outcome (list Rule * Σ) :=
  match pairs with
  | [] => Ok ([], s)
  | (r, p) :: rest =>
      if has (revents p) (Z.lor POLLERR POLLNVAL)
      then Throw (runtime_error "EventLoop: error on polled file descriptor")
      else if has (revents p) POLLHUP && negb (events p =? 0) && negb (has (revents p) (events p)) then
        let! s := cancel r s in serve rest s
      else
        let! s :=
          if has (revents p) (events p) then
            let! s' := callback r s in
            if (service_count r s =? service_count r s') && interest r s'
            then Throw (runtime_error
              "EventLoop: busy wait detected: callback did not read/write fd and is still interested")
            else Ok s'
          else Ok s in
        let! (kept, s) := serve rest s in Ok (r :: kept, s)
  end.

Lemma service_in_range front pollfds _rules s :
  length pollfds = length _rules ->
  service (front ++ pollfds) _rules (zlen front) s = serve (zip _rules pollfds) s.
Proof.
  revert front pollfds s. induction _rules as [|r rules IH]; intros front [|p pollfds] s Hl; try done.
  cbn [service serve zip zip_with].
  replace (zget (front ++ p :: pollfds) (zlen front)) with (Some p)
    by (rewrite zget_app, Z.ltb_irrefl, Z.sub_diag; done).
  cbv beta iota zeta.
  replace (front ++ p :: pollfds) with ((front ++ [p]) ++ pollfds) by (by rewrite <- app_assoc).
  replace (zlen front + 1) with (zlen (front ++ [p])) by (by rewrite zlen_app).
  simpl in Hl. destruct (has (revents p) (Z.lor _ _)); [done|].
  destruct (_ && _ && _).
  - destruct (cancel r s); [|done]. apply IH. lia.
  - destruct (has (revents p) (events p)); cbn [obind]; [|by rewrite IH by lia].
    destruct (callback r s) as [s'|]; [|done]. cbn [obind]. destruct (_ && _); [done|]. cbn [obind]. by rewrite IH by lia.
Qed.


(** ** A proof rule for clients

    A client gives an invariant [I] and, with every rule, a guard: a condition that
    holds when the rule is found interested and that no other rule destroys, so
    that it still holds when the callback runs.  Callbacks keep [I] or throw
    something allowed by [E], and a callback reads or writes the descriptor or
    stops being interested. *)
Record handles (I : Σ -> Prop) (E : exn -> Prop) (spec : Rule * (Σ -> Prop)) : Prop := {
  on_interest s : I s -> live s spec.1 = true -> interest spec.1 s = true -> spec.2 s;
  on_callback s : I s -> spec.2 s ->
    match callback spec.1 s with
    | Ok s' => I s' /\ (service_count spec.1 s <> service_count spec.1 s' \/ interest spec.1 s' = false)
    | Throw e => E e
    end;
  on_cancel s : I s -> match cancel spec.1 s with Ok s' => I s' | Throw e => E e end }.

(** The rule [r] does not destroy [G]. *)
Definition respects (I : Σ -> Prop) (r : Rule) (G : Σ -> Prop) : Prop :=
  forall s s', I s -> G s -> callback r s = Ok s' \/ cancel r s = Ok s' -> G s'.

Record client (I : Σ -> Prop) (E : exn -> Prop) (specs : list (Rule * (Σ -> Prop))) : Prop := {
  client_handles : Forall (handles I E) specs;
  client_respects : ForallOrdPairs (fun a b => respects I a.1 b.2 /\ respects I b.1 a.2) specs }.

(** What [poll(2)] documents for descriptors without an error condition. *)
Definition poll_clean (poll : list pollfd -> poll_reply) : Prop :=
  forall pollfds, length (returned (poll pollfds)) = length pollfds /\
    Forall (fun v => has v (Z.lor POLLERR POLLNVAL) = false) (returned (poll pollfds)).

Lemma map_sublist {A B} (f : A -> B) l1 l2 : sublist l1 l2 -> sublist (map f l1) (map f l2).
Proof. induction 1; simpl; by constructor. Qed.

Lemma Forall_sublist {A} (P : A -> Prop) l1 l2 : sublist l1 l2 -> Forall P l2 -> Forall P l1.
Proof. rewrite !Forall_forall. intros Hs H x Hx. eapply H, elem_of_sublist; done. Qed.

Lemma client_sublist I E specs' specs : sublist specs' specs -> client I E specs -> client I E specs'.
Proof.
  intros Hs [Hh Ho]. split.
  - by eapply Forall_sublist.
  - induction Hs as [|x l1 l2 Hs IH|x l1 l2 Hs IH]; [done| |].
    + inversion Ho; subst. inversion Hh; subst. constructor; [|by apply IH].
      by eapply Forall_sublist.
    + inversion Ho; subst. inversion Hh; subst. by apply IH.
Qed.

Lemma setup_keeps I E (P : Σ -> Prop) specs s kept pollfds something s' :
  Forall (handles I E) specs -> Forall (fun sp => respects I sp.1 P) specs -> I s -> P s ->
  setup (map fst specs) s = Ok (kept, pollfds, something, s') -> P s'.
Proof.
  intros Hh Hp. revert s kept pollfds something. induction Hh as [|[r G] specs [_ _ Hc] _ IH];
    intros s kept pollfds something HI HP; simpl; [by intros [= <- <- <- <-]|].
  inversion Hp as [|? ? Hr Hp']; subst. destruct (_ || _).
  - specialize (Hc s HI). cbn [fst] in Hc, Hr. destruct (cancel r s) as [s1|] eqn:E1; [|done].
    cbn [obind]. apply IH; [done..|]. eapply Hr; eauto.
  - destruct (setup (map fst specs) s) as [[[[k p] b] s1]|] eqn:E1; [|done]. intros [= <- <- <- <-]. by eapply IH.
Qed.

(** After the first loop, the guard of every rule that is polled holds. *)
Lemma setup_client I E specs s :
  client I E specs -> I s ->
  match setup (map fst specs) s with
  | Ok (kept, pollfds, _, s') =>
      I s' /\ exists specs', sublist specs' specs /\ kept = map fst specs' /\
        Forall2 (fun sp p => events p <> 0 -> sp.2 s') specs' pollfds
  | Throw e => E e
  end.
Proof.
  intros [Hh Ho]. revert s. induction Hh as [|[r G] specs [Hi _ Hc] Hh IH]; intros s HI; simpl.
  { split; [done|]. exists []. split_and!; constructor. }
  inversion Ho as [|? ? Hr Ho']; subst. specialize (IH Ho'). destruct (_ || _) eqn:El.
  - specialize (Hc s HI). cbn [fst] in Hc. destruct (cancel r s) as [s1|]; cbn [obind]; [|done].
    specialize (IH s1 Hc). destruct (setup _ s1) as [[[[k p] b] s2]|]; [|done].
    destruct IH as (? & specs' & ? & ? & ?). split; [done|]. exists specs'. split_and!; [by constructor|done..].
  - specialize (IH s HI). destruct (setup (map fst specs) s) as [[[[k p] b] s1]|] eqn:Es; cbn [obind]; [|done].
    destruct IH as (HI' & specs' & Hsub & -> & HG). split; [done|]. exists ((r, G) :: specs').
    split_and!; [by constructor|done|]. constructor; [|done]. cbn [snd events]. intros Hev.
    eapply (setup_keeps I E G); [exact Hh| |exact HI| |exact Es].
    + eapply Forall_impl; [exact Hr|]. by intros [] [_ ?].
    + apply Hi; [done|unfold live; cbn [fst]; by rewrite El|]. cbn [fst]. by destruct (interest r s).
Qed.

Lemma serve_client I E specs pollfds s :
  client I E specs -> Forall2 (fun sp p => events p <> 0 -> sp.2 s) specs pollfds ->
  Forall (fun p => has (revents p) (Z.lor POLLERR POLLNVAL) = false) pollfds -> I s ->
  match serve (zip (map fst specs) pollfds) s with
  | Ok (kept, s') => I s' /\ exists specs', sublist specs' specs /\ kept = map fst specs'
  | Throw e => E e
  end.
Proof.
  intros [Hh Ho]. revert s pollfds. induction Hh as [|[r G] specs [_ Hcb Hc] _ IH];
    intros s pollfds HG He HI; inversion HG as [|? p ? pf Hp HG']; subst; simpl.
  { split; [done|]. exists []. by split; [constructor|]. }
  inversion He as [|? ? Hpe He']; subst. rewrite Hpe. inversion Ho as [|? ? Hr Ho']; subst. specialize (IH Ho').
  cbn [fst snd] in *.
  assert (forall s1, I s -> callback r s = Ok s1 \/ cancel r s = Ok s1 ->
            Forall2 (fun sp p => events p <> 0 -> sp.2 s1) specs pf) as Hkeep.
  { intros s1 _ H1. apply Forall2_same_length_lookup. apply Forall2_same_length_lookup in HG' as [Hl HG'].
    split; [done|]. intros i sp q Hsp Hq Hev. rewrite Forall_lookup in Hr.
    destruct (Hr i sp Hsp) as [Hre _]. eapply Hre; eauto. }
  assert (forall s1, I s1 -> Forall2 (fun sp p => events p <> 0 -> sp.2 s1) specs pf ->
            match (let! (kept, s2) := serve (zip (map fst specs) pf) s1 in Ok (r :: kept, s2)) with
            | Ok (kept, s') => I s' /\ exists specs', sublist specs' ((r, G) :: specs) /\ kept = map fst specs'
            | Throw e => E e end) as Hnext.
  { intros s1 H1 H2. specialize (IH s1 pf H2 He' H1). destruct (serve _ s1) as [[k s2]|]; cbn [obind]; [|done].
    destruct IH as (? & specs' & ? & ->). split; [done|]. exists ((r, G) :: specs'). by split; [constructor|]. }
  destruct (_ && _ && _).
  - specialize (Hc s HI). destruct (cancel r s) as [s1|] eqn:E1; cbn [obind]; [|done].
    specialize (IH s1 pf (Hkeep s1 HI (or_intror eq_refl)) He' Hc).
    destruct (serve _ s1) as [[k s2]|]; [|done]. destruct IH as (? & specs' & ? & ->).
    split; [done|]. exists specs'. by split; [constructor|].
  - destruct (has (revents p) (events p)) eqn:Eh; cbn [obind]; [|by apply Hnext].
    assert (events p <> 0) as Hev by (intros E0; unfold has in Eh; rewrite E0, Z.land_0_r in Eh; done).
    specialize (Hcb s HI (Hp Hev)). destruct (callback r s) as [s1|] eqn:E1; cbn [obind]; [|done].
    destruct Hcb as [Hs' Hb].
    replace (_ && _) with false; [cbn [obind]; apply Hnext; [done|]; apply Hkeep; eauto|].
    destruct Hb as [Hb| ->]; [|by rewrite andb_false_r]. apply Z.eqb_neq in Hb. by rewrite Hb.
Qed.

Lemma service_client I E poll specs pollfds s :
  client I E specs -> Forall2 (fun sp p => events p <> 0 -> sp.2 s) specs pollfds -> poll_clean poll -> I s ->
  match service (answered pollfds (returned (poll pollfds))) (map fst specs) 0 s with
  | Ok (kept, s') => I s' /\ exists specs', sublist specs' specs /\ kept = map fst specs'
  | Throw e => E e
  end.
Proof.
  intros Hc HG Hp HI. destruct (Hp pollfds) as [Hn He]. pose proof (Forall2_length _ _ _ HG) as Hl.
  set (pf := answered pollfds (returned (poll pollfds))).
  assert (length pf = length (map fst specs)) as Ha
    by (unfold pf, answered; rewrite length_zip_with, length_map; lia).
  pose proof (service_in_range [] pf (map fst specs) s Ha) as Hsv.
  cbn [app] in Hsv. change (zlen []) with 0 in Hsv. rewrite Hsv. apply serve_client; try done.
  - apply Forall2_same_length_lookup. apply Forall2_same_length_lookup in HG as [_ HG].
    rewrite length_map in Ha. split; [done|]. intros i sp p Hsp Hpi.
    unfold pf, answered in Hpi. apply lookup_zip_with_Some in Hpi as (q & v & -> & Hq & _).
    destruct q. cbn. by apply (HG i sp _ Hsp Hq).
  - apply Forall_lookup. intros i p Hpi. unfold pf, answered in Hpi.
    apply lookup_zip_with_Some in Hpi as (q & v & -> & _ & Hv). rewrite Forall_lookup in He.
    destruct q. by apply (He i).
Qed.

(** The rule itself, for the clients of the loop. *)
Lemma wait_next_event_keeps I E poll specs s :
  client I E specs -> poll_clean poll -> I s ->
  match wait_next_event poll (map fst specs) s with
  | Ok (_, kept, s') => I s' /\ exists specs', sublist specs' specs /\ kept = map fst specs'
  | Throw e => E e
  end.
Proof.
  intros Hc Hp HI. unfold wait_next_event. pose proof (setup_client I E specs s Hc HI) as Hsetup.
  destruct (setup _ s) as [[[[kept pollfds] something] s1]|] eqn:Es; cbn [obind]; [|done].
  destruct Hsetup as (HI1 & specs' & Hsub & -> & HG).
  pose proof (service_client I E poll specs' pollfds s1 (client_sublist _ _ _ _ Hsub Hc) HG Hp HI1) as Hsv.
  destruct something; cbn [negb]; [|by eauto].
  destruct (service _ _ 0 s1) as [[kept' s2]|] eqn:Ev.
  - destruct Hsv as (HI2 & specs'' & Hsub' & ->). assert (sublist specs'' specs) by (by etrans).
    destruct (SystemCall _ _ _) as [[]|[]]; cbn [obind]; eauto. destruct (_ =? EINTR); cbn [obind]; eauto.
  - destruct (SystemCall _ _ _) as [[]|[]]; cbn [obind]; eauto. destruct (_ =? EINTR); cbn [obind]; eauto.
Qed.

(** Rules that need no guard. *)
Definition unguarded (rules : list Rule) : list (Rule * (Σ -> Prop)) := map (fun r => (r, fun _ => True)) rules.

Lemma unguarded_rules rules : map fst (unguarded rules) = rules.
Proof. unfold unguarded. rewrite map_map. apply map_id. Qed.

Lemma unguarded_client I E rules :
  Forall (fun r => handles I E (r, fun _ => True)) rules -> client I E (unguarded rules).
Proof.
  intros H. split; [by apply Forall_map|]. clear H. unfold unguarded.
  induction rules as [|r rules IH]; simpl; constructor; [|done].
  by apply Forall_map, Forall_true.
Qed.

(** ** Rounds in which everything is ready *)

(** [poll] reports every descriptor ready for exactly what was asked. *)
Definition poll_ready (poll : list pollfd -> poll_reply) : Prop :=
  forall pollfds, returned (poll pollfds) = map events pollfds /\ 0 < ret (poll_ret (poll pollfds)) < 2147483648.

(** Rules that are live, or that nothing is lost by cancelling. *)
Lemma setup_pure _rules s :
  Forall (fun r => live s r = true \/ cancel r s = Ok s) _rules ->
  setup _rules s = Ok (List.filter (live s) _rules, map (pollfd_of s) (List.filter (live s) _rules),
                       existsb (fun r => interest r s) (List.filter (live s) _rules), s).
Proof.
  induction 1 as [|r rules Hr _ IH]; simpl; [done|]. unfold live in *. destruct (_ || _) eqn:E; cbn [negb] in *.
  - destruct Hr as [|Hr]; [done|]. by rewrite Hr.
  - by rewrite IH.
Qed.

(** The last loop then calls the rules that were interested in [s0]. *)
Fixpoint run_ready (s0 : Σ) (rules : list Rule) (s : Σ) : outcome (list Rule * Σ) :=
  match rules with
  | [] => Ok ([], s)
  | r :: rest =>
      let! s :=
        if interest r s0 then
          let! s' := callback r s in
          if (service_count r s =? service_count r s') && interest r s'
          then Throw (runtime_error
            "EventLoop: busy wait detected: callback did not read/write fd and is still interested")
          else Ok s'
        else Ok s in
      let! (kept, s) := run_ready s0 rest s in Ok (r :: kept, s)
  end.

Lemma serve_ready s0 rules s :
  serve (zip rules (map (fun p => p <| revents := events p |>) (map (pollfd_of s0) rules))) s = run_ready s0 rules s.
Proof.
  revert s. induction rules as [|r rules IH]; intros s; [done|]. cbn [map zip zip_with serve run_ready].
  set (p := (pollfd_of s0 r) <| revents := _ |>).
  assert (events p = revents p) as Ep by done. assert (has (revents p) (Z.lor POLLERR POLLNVAL) = false) as ->
    by (subst p; cbn; by destruct (interest r s0), (direction r)).
  assert (has (revents p) POLLHUP = false) as -> by (subst p; cbn; by destruct (interest r s0), (direction r)).
  assert (has (revents p) (events p) = interest r s0) as ->
    by (subst p; cbn; by destruct (interest r s0), (direction r)). cbn [andb].
  destruct (interest r s0); cbn [obind]; [|by rewrite IH].
  destruct (callback r s) as [s'|]; cbn [obind]; [|done]. destruct (_ && _); [done|]. cbn [obind]. by rewrite IH.
Qed.

Lemma wait_next_event_ready poll _rules s :
  poll_ready poll -> Forall (fun r => live s r = true \/ cancel r s = Ok s) _rules ->
  wait_next_event poll _rules s =
    let kept := List.filter (live s) _rules in
    if existsb (fun r => interest r s) kept
    then let! (kept, s) := run_ready s kept s in Ok (Success, kept, s)
    else Ok (Exit, kept, s).
Proof.
  intros Hp Hr. unfold wait_next_event. rewrite setup_pure by done. cbn [obind]. cbv zeta.
  set (kept := List.filter _ _). destruct (existsb _ kept); cbn [negb]; [|done].
  destruct (Hp (map (pollfd_of s) kept)) as [Hret Hn]. destruct (poll (map (pollfd_of s) kept)) as [[n e] rs].
  cbn [returned poll_ret ret] in *. subst rs. rewrite FileDescriptor.system_call_ok by lia.
  assert (answered (map (pollfd_of s) kept) (map events (map (pollfd_of s) kept)) =
    map (fun p => p <| revents := events p |>) (map (pollfd_of s) kept)) as ->.
  { unfold answered. generalize (map (pollfd_of s) kept). intros l.
    induction l as [|p l IH]; [done|]. cbn [map zip_with]. by f_equal. }
  assert (forall l, length l = length kept -> service l kept 0 s = serve (zip kept l) s) as Hsv
    by (intros l Hl; by apply (service_in_range [] l kept s)).
  rewrite Hsv by (by rewrite !length_map). rewrite serve_ready. by destruct n as [|n|n]; [lia| |lia].
Qed.

(** ** Invariants alone

    What every callback and cancellation preserves, a round of the loop preserves,
    whatever [poll] answers. *)
Definition keeps (P : Σ -> Prop) (r : Rule) : Prop := respects (fun _ => True) r P.

Lemma handles_keeps I E r : handles I E (r, fun _ => True) -> keeps I r.
Proof.
  intros [_ Hcb Hc] s s' _ HI [H1|H1].
  - specialize (Hcb s HI Logic.I). cbn [fst] in Hcb. rewrite H1 in Hcb. apply Hcb.
  - specialize (Hc s HI). cbn [fst] in Hc. by rewrite H1 in Hc.
Qed.

Lemma setup_invariant P _rules s :
  Forall (keeps P) _rules -> P s ->
  match setup _rules s with Ok (kept, _, _, s') => P s' /\ Forall (keeps P) kept | Throw _ => True end.
Proof.
  intros Hk. revert s. induction Hk as [|r rules Hr _ IH]; intros s HP; cbn [setup]; [done|]. destruct (_ || _).
  - destruct (cancel r s) as [s1|] eqn:E; cbn [obind]; [|done]. apply IH. eapply Hr; eauto.
  - specialize (IH s HP). destruct (setup rules s) as [[[[k p] b] s1]|]; cbn [obind]; [|done]. destruct IH. by split; [|constructor].
Qed.

Lemma service_invariant P pollfds _rules idx s :
  Forall (keeps P) _rules -> P s ->
  match service pollfds _rules idx s with Ok (kept, s') => P s' /\ Forall (keeps P) kept | Throw _ => True end.
Proof.
  intros Hk. revert idx s. induction Hk as [|r rules Hr _ IH]; intros idx s HP; cbn [service]; [done|].
  destruct (zget pollfds idx) as [p|]; [|done]. cbv zeta. destruct (has _ (Z.lor _ _)); [done|].
  destruct (_ && _ && _).
  - destruct (cancel r s) as [s1|] eqn:E; cbn [obind]; [|done]. apply IH. eapply Hr; eauto.
  - match goal with |- context [obind (A := Σ) ?o] => set (o1 := o) end.
    assert (match o1 with Ok s1 => P s1 | Throw _ => True end) as H1.
    { unfold o1. destruct (has _ _); [|done]. destruct (callback r s) as [s1|] eqn:E; cbn [obind]; [|done].
      destruct (_ && _); [done|]. eapply Hr; eauto. }
    destruct o1 as [s1|]; cbn [obind]; [|done]. specialize (IH (idx + 1) s1 H1).
    destruct (service _ rules _ s1) as [[k s2]|]; cbn [obind]; [|done]. destruct IH. by split; [|constructor].
Qed.

Lemma wait_next_event_invariant P poll _rules s :
  Forall (keeps P) _rules -> P s ->
  match wait_next_event poll _rules s with Ok (_, kept, s') => P s' /\ Forall (keeps P) kept | Throw _ => True end.
Proof.
  intros Hk HP. unfold wait_next_event. pose proof (setup_invariant P _rules s Hk HP) as H1.
  destruct (setup _ s) as [[[[kept pollfds] something] s1]|]; cbn [obind]; [|done]. destruct H1 as [HP1 Hk1].
  destruct something; cbn [negb]; [|done]. cbv zeta.
  pose proof (service_invariant P (answered pollfds (returned (poll pollfds))) kept 0 s1 Hk1 HP1) as H2.
  destruct (service _ _ 0 s1) as [[kept' s2]|]; destruct (SystemCall _ _ _) as [[]|[]]; cbn [obind]; eauto;
    destruct (_ =? EINTR); cbn [obind]; eauto.
Qed.

(** The rules that are left after a round. *)
Lemma service_sublist pollfds _rules idx s kept s' :
  service pollfds _rules idx s = Ok (kept, s') -> sublist kept _rules.
Proof.
  revert idx s kept. induction _rules as [|r rules IH]; intros idx s kept; cbn [service]; [by intros [= <- <-]|].
  destruct (zget pollfds idx) as [p|]; [|done]. cbv zeta. destruct (has _ (Z.lor _ _)); [done|].
  destruct (_ && _ && _).
  - destruct (cancel r s) as [s1|]; cbn [obind]; [|done]. intros H. apply IH in H. by constructor.
  - match goal with |- obind (A := Σ) ?o _ = _ -> _ => destruct o as [s1|]; cbn [obind]; [|done] end.
    destruct (service _ rules _ s1) as [[k s2]|] eqn:E; cbn [obind]; [|done]. intros [= <- <-].
    apply IH in E. by constructor.
Qed.

(** A round whose first rule, while it is there, needs more than the others keep:
    [P0] holds before it, [P] afterwards. *)
Record first_then (P0 P : Σ -> Prop) (first : Rule) (rest : list Rule) : Prop := {
  ft_weak s : P0 s -> P s;
  ft_cancel r s s' : r ∈ first :: rest -> P0 s -> cancel r s = Ok s' -> P0 s';
  ft_first s s' : P0 s -> callback first s = Ok s' -> P s';
  ft_rest : Forall (keeps P) rest }.

Lemma setup_first P0 (_rules : list Rule) s :
  (forall r s s', r ∈ _rules -> P0 s -> cancel r s = Ok s' -> P0 s') -> P0 s ->
  match setup _rules s with Ok (_, _, _, s') => P0 s' | Throw _ => True end.
Proof.
  revert s. induction _rules as [|r rules IH]; intros s Hc HP; cbn [setup]; [done|].
  assert (forall r0 s s', r0 ∈ rules -> P0 s -> cancel r0 s = Ok s' -> P0 s') as Hc'
    by (intros; eapply Hc; [by right|done..]).
  destruct (_ || _).
  - destruct (cancel r s) as [s1|] eqn:E; cbn [obind]; [|done]. apply IH; [done|]. eapply Hc; [by left|done..].
  - specialize (IH s Hc' HP). by destruct (setup rules s) as [[[[k p] b] s1]|].
Qed.

Lemma service_first P0 P first rest pollfds _rules s :
  first_then P0 P first rest -> sublist _rules (first :: rest) -> P0 s ->
  match service pollfds _rules 0 s with Ok (_, s') => P s' | Throw _ => True end.
Proof.
  intros [Hw Hc Hf Hr] Hsub HP.
  assert (forall rules idx s, sublist rules rest -> P s ->
    match service pollfds rules idx s with Ok (_, s') => P s' | Throw _ => True end) as Hrest.
  { intros rules idx s1 Hs HP1. pose proof (service_invariant P pollfds rules idx s1 (Forall_sublist _ _ _ Hs Hr) HP1) as H.
    destruct (service _ rules idx s1) as [[]|]; [apply H|done]. }
  inversion Hsub as [|? rules ? Hs|? ? ? Hs]; subst; [|by apply Hrest; [|apply Hw]]. cbn [service].
  destruct (zget pollfds 0) as [p|]; [|done]. cbv zeta. destruct (has _ (Z.lor _ _)); [done|].
  destruct (_ && _ && _).
  - destruct (cancel first s) as [s1|] eqn:E; cbn [obind]; [|done]. apply Hrest; [done|]. eapply Hw, Hc; [by left|done..].
  - match goal with |- context [obind (A := Σ) ?o] => set (o1 := o) end.
    assert (match o1 with Ok s1 => P s1 | Throw _ => True end) as Ho.
    { unfold o1. destruct (has _ _); [|by auto]. destruct (callback first s) as [s1|] eqn:E; cbn [obind]; [|done].
      destruct (_ && _); [done|]. by eapply Hf. }
    destruct o1 as [s1|]; cbn [obind]; [|done]. specialize (Hrest rules (0 + 1) s1 Hs Ho).
    by destruct (service _ rules _ s1) as [[]|].
Qed.

Lemma wait_next_event_first P0 P first rest poll _rules s :
  first_then P0 P first rest -> sublist _rules (first :: rest) -> P0 s ->
  match wait_next_event poll _rules s with
  | Ok (_, kept, s') => P s' /\ sublist kept (first :: rest)
  | Throw _ => True
  end.
Proof.
  intros Hft Hsub HP. unfold wait_next_event.
  pose proof (setup_first P0 _rules s) as H1. destruct (setup _ s) as [[[[kept pf] something] s1]|] eqn:E; cbn [obind]; [|done].
  apply setup_aligned in E as [_ Hk]. assert (sublist kept (first :: rest)) as Hk' by (by etrans).
  assert (P0 s1) as HP1.
  { apply H1; [|done]. intros r t t' Hr. apply (ft_cancel _ _ _ _ Hft). by eapply elem_of_sublist. }
  pose proof (ft_weak _ _ _ _ Hft s1 HP1) as HP1'. destruct something; cbn [negb]; [|done]. cbv zeta.
  set (pf' := answered _ _). pose proof (service_first P0 P first rest pf' kept s1 Hft Hk' HP1) as H2.
  destruct (service pf' kept 0 s1) as [[kept' s2]|] eqn:E2; cbn [obind];
    [apply service_sublist in E2; assert (sublist kept' (first :: rest)) as Hk2 by (by etrans)|];
    destruct (SystemCall _ _ _) as [[]|[]]; try done; by destruct (_ =? EINTR).
Qed.

(** ** Properties *)

(** C17: no busy wait.  If every rule keeps an invariant [I] without throwing, its
    callback reads or writes the descriptor or stops being interested whenever its
    guard holds, no rule destroys the guard of another, and the polled descriptors
    have no error condition, then [wait_next_event] returns: the busy-wait and
    polling-error exceptions do not occur, [I] holds again, and rules have been
    removed but not added or reordered. *)
Theorem wait_next_event_returns (I : Σ -> Prop) (poll : list pollfd -> poll_reply)
    (specs : list (Rule * (Σ -> Prop))) (s : Σ) :
  client I (fun _ => False) specs -> poll_clean poll -> I s ->
  exists result kept s', wait_next_event poll (map fst specs) s = Ok (result, kept, s') /\
    I s' /\ sublist kept (map fst specs).
Proof.
  intros Hr Hp Hs. pose proof (wait_next_event_keeps I (fun _ => False) poll specs s Hr Hp Hs) as H.
  destruct (wait_next_event _ _ _) as [[[result kept] s']|]; [|done].
  destruct H as (? & specs' & ? & ->). eexists _, _, _. split_and!; [done..|]. by apply map_sublist.
Qed.

End loop.

(** ** Less state

    A client whose state is seen through [π]: a loop over the projected rules does
    what the loop over the rules does, seen through [π]. *)
Section project.
Context {Σ Σ' : Type} (π : Σ -> Σ').

Definition seen (o : outcome Σ) : outcome Σ' := match o with Ok s => Ok (π s) | Throw e => Throw e end.

Record projects (r : Rule (Σ := Σ)) (r' : Rule (Σ := Σ')) : Prop := {
  pr_fd s : fd r' (π s) = fd r s;
  pr_direction : direction r' = direction r;
  pr_callback s : callback r' (π s) = seen (callback r s);
  pr_interest s : interest r' (π s) = interest r s;
  pr_cancel s : cancel r' (π s) = seen (cancel r s) }.

Lemma setup_projects rules rules' : Forall2 projects rules rules' -> forall s,
  match setup rules s with
  | Ok (kept, pollfds, something, s1) =>
      exists kept', setup rules' (π s) = Ok (kept', pollfds, something, π s1) /\ Forall2 projects kept kept'
  | Throw e => setup rules' (π s) = Throw e
  end.
Proof.
  induction 1 as [|r r' rules rules' [P1 P2 P3 P4 P5] _ IH]; intros s; cbn [setup]; [by exists []|].
  rewrite P1, P2, P4, P5. destruct (_ || _).
  - destruct (cancel r s) as [s1|]; cbn [seen obind]; [apply IH|done].
  - specialize (IH s). destruct (setup rules s) as [[[[kept pollfds] something] s1]|]; [|by rewrite IH].
    destruct IH as (kept' & -> & Hk). cbn [obind]. eexists. split; [reflexivity|]. by constructor.
Qed.

Lemma service_projects pollfds rules rules' : Forall2 projects rules rules' -> forall idx s,
  match service pollfds rules idx s with
  | Ok (kept, s1) => exists kept', service pollfds rules' idx (π s) = Ok (kept', π s1) /\ Forall2 projects kept kept'
  | Throw e => service pollfds rules' idx (π s) = Throw e
  end.
Proof.
  induction 1 as [|r r' rules rules' Hpr _ IH]; intros idx s; cbn [service]; [by exists []|].
  pose proof Hpr as [P1 P2 P3 P4 P5].
  destruct (zget pollfds idx) as [p|]; [|done]. destruct (has (revents p) (Z.lor _ _)); [done|].
  destruct (_ && _ && _).
  { rewrite P5. destruct (cancel r s) as [s1|]; cbn [seen obind]; [apply IH|done]. }
  assert (forall s1, match (let! (kept, s) := service pollfds rules (idx + 1) s1 in Ok (r :: kept, s)) with
    | Ok (kept, s2) => exists kept', (let! (kept, s) := service pollfds rules' (idx + 1) (π s1) in Ok (r' :: kept, s)) =
        Ok (kept', π s2) /\ Forall2 projects kept kept'
    | Throw e => (let! (kept, s) := service pollfds rules' (idx + 1) (π s1) in Ok (r' :: kept, s)) = Throw e
    end) as Hnext.
  { intros s1. specialize (IH (idx + 1) s1). destruct (service pollfds rules _ s1) as [[kept s2]|]; [|by rewrite IH].
    destruct IH as (kept' & -> & Hk). cbn [obind]. eexists. split; [reflexivity|]. by constructor. }
  destruct (has _ _); [|exact (Hnext s)]. cbv zeta. rewrite P3. unfold service_count. rewrite P1, P2.
  destruct (callback r s) as [s1|]; cbn [seen obind]; [|done]. rewrite P1, P4.
  destruct (_ && _); cbn [obind]; [done|exact (Hnext s1)].
Qed.

Lemma wait_projects poll rules rules' s : Forall2 projects rules rules' ->
  match wait_next_event poll rules s with
  | Ok (ret, kept, s1) =>
      exists kept', wait_next_event poll rules' (π s) = Ok (ret, kept', π s1) /\ Forall2 projects kept kept'
  | Throw e => wait_next_event poll rules' (π s) = Throw e
  end.
Proof.
  intros Hr. unfold wait_next_event. pose proof (setup_projects rules rules' Hr s) as Hs.
  destruct (setup rules s) as [[[[kept pollfds] something] s1]|]; [|by rewrite Hs].
  destruct Hs as (kept' & -> & Hk). cbn [obind]. destruct (negb something); [by exists kept'|]. cbv zeta.
  pose proof (service_projects (answered pollfds (returned (poll pollfds))) kept kept' Hk 0 s1) as Hv.
  assert (match (let! (_rules, s) := service (answered pollfds (returned (poll pollfds))) kept 0 s1 in Ok (Success, _rules, s)) with
    | Ok (ret, kept2, s2) => exists kept2', (let! (_rules, s) := service (answered pollfds (returned (poll pollfds))) kept' 0 (π s1) in
        Ok (Success, _rules, s)) = Ok (ret, kept2', π s2) /\ Forall2 projects kept2 kept2'
    | Throw e => (let! (_rules, s) := service (answered pollfds (returned (poll pollfds))) kept' 0 (π s1) in
        Ok (Success, _rules, s)) = Throw e
    end) as Hgo.
  { destruct (service _ kept 0 s1) as [[kept2 s2]|]; [|by rewrite Hv]. destruct Hv as (kept2' & -> & Hk2). by exists kept2'. }
  destruct (SystemCall _ _ _) as [[]|[]]; try exact Hgo; [by exists kept'|]. destruct (_ =? EINTR); [by exists kept'|exact Hgo].
Qed.

End project.
Arguments Rule : clear implicits.

(** *** Which callbacks run

    [traced] writes down the calls made to a rule. *)
Inductive call := Called (i : nat) | Cancelled (i : nat).

Definition traced {Σ} (i : nat) (r : Rule Σ) : Rule (Σ * list call) :=
  mkRule (fun s => fd r s.1) (direction r)
    (fun s => let! s' := callback r s.1 in Ok (s', s.2 ++ [Called i]))
    (fun s => interest r s.1)
    (fun s => let! s' := cancel r s.1 in Ok (s', s.2 ++ [Cancelled i])).

(** What the answer of [poll] asks for. *)
Definition dispatched (i : nat) (p : pollfd) : list call :=
  if has (revents p) POLLHUP && negb (events p =? 0) && negb (has (revents p) (events p)) then [Cancelled i]
  else if has (revents p) (events p) then [Called i] else [].

Lemma serve_traced {Σ} k (rules : list (Rule Σ)) pollfds s log kept s' log' :
  serve (zip (imap (fun i => traced (k + i)) rules) pollfds) (s, log) = Ok (kept, (s', log')) ->
  length pollfds = length rules ->
  log' = log ++ concat (imap (fun i => dispatched (k + i)) pollfds).
Proof.
  revert k pollfds s log kept. induction rules as [|r rules IH]; intros k [|p pollfds] s log kept; try done.
  { intros [= <- <- <-] _. by rewrite app_nil_r. }
  rewrite !imap_cons. cbn [zip zip_with serve concat]. intros Hsv Hl. simpl in Hl.
  assert (forall s1 log1 kept1, serve (zip (imap (fun i => traced (S k + i)) rules) pollfds) (s1, log1) = Ok (kept1, (s', log')) ->
    log1 = log ++ dispatched k p -> log' = log ++ dispatched (k + 0) p ++ concat (imap (fun i => dispatched (S k + i)) pollfds)) as Hnext.
  { intros s1 log1 kept1 H1 ->. apply IH in H1; [|lia]. rewrite Nat.add_0_r, app_assoc. exact H1. }
  replace (imap ((fun i => dispatched (k + i)) ∘ S) pollfds) with (imap (fun i => dispatched (S k + i)) pollfds)
    by (apply imap_ext; intros; simpl; f_equal; lia).
  replace (imap ((fun i => traced (k + i)) ∘ S) rules) with (imap (fun i => traced (S k + i)) rules) in Hsv
    by (apply imap_ext; intros; simpl; f_equal; lia).
  unfold dispatched in Hnext at 1. rewrite Nat.add_0_r in Hsv.
  destruct (has (revents p) (Z.lor _ _)); [done|].
  destruct (_ && _ && _).
  - cbn [traced cancel fst snd] in Hsv. destruct (cancel r s) as [s1|]; cbn [obind] in Hsv; [|done]. by eapply Hnext.
  - destruct (has (revents p) (events p)); cbn [obind traced callback fst snd] in Hsv.
    + destruct (callback r s) as [s1|]; cbn [obind] in Hsv; [|done]. destruct (_ && _); cbn [obind] in Hsv; [done|].
      destruct (serve _ _) as [[k1 [s2 log2]]|] eqn:E; [|done]. injection Hsv as <- <- <-. by eapply Hnext.
    + destruct (serve _ _) as [[k1 [s2 log2]]|] eqn:E; [|done]. injection Hsv as <- <- <-.
      eapply Hnext; [done|]. by rewrite app_nil_r.
Qed.

Lemma traced_live {Σ} (s : Σ) log rules :
  Forall (fun r => live s r = true) rules ->
  Forall (fun r => live (s, log) r = true) (imap traced rules) /\
  map (pollfd_of (s, log)) (imap traced rules) = map (pollfd_of s) rules.
Proof.
  intros H. split.
  - apply Forall_lookup. intros i r Hi. rewrite list_lookup_imap in Hi.
    apply fmap_Some in Hi as (r' & Hr' & ->). rewrite Forall_lookup in H. by apply H in Hr'.
  - apply list_eq. intros i. change (map ?f ?l) with (f <$> l). rewrite !list_lookup_fmap, list_lookup_imap.
    by destruct (rules !! i).
Qed.

(** C18: dispatch is exact.  When no rule is at its end and [wait_next_event] succeeds,
    the calls it has made, in order, are those the answer of [poll] asks for: the
    callback of a rule whenever its descriptor is ready for what the rule was
    interested in, the cancellation of a rule whose descriptor only hung up, and
    nothing for any other rule; each at most once and in the order in which the
    rules were added. *)
Theorem events_dispatched {Σ} (poll : list pollfd -> poll_reply) (_rules : list (Rule Σ)) (s s' : Σ)
    (kept : list (Rule (Σ * list call))) (log' : list call) :
  Forall (fun r => live s r = true) _rules ->
  wait_next_event poll (imap traced _rules) (s, []) = Ok (Success, kept, (s', log')) ->
  length (returned (poll (map (pollfd_of s) _rules))) = length _rules ->
  log' = concat (imap dispatched
    (answered (map (pollfd_of s) _rules) (returned (poll (map (pollfd_of s) _rules))))).
Proof.
  intros Hlive Hw Hn. destruct (traced_live s [] _rules Hlive) as [Ht Hp].
  unfold wait_next_event in Hw. rewrite setup_live in Hw by done. cbn [obind] in Hw. rewrite Hp in Hw.
  set (pf := answered _ _) in *.
  assert (length pf = length _rules) as Hl by (unfold pf, answered; rewrite length_zip_with, length_map; lia).
  destruct (negb _); [done|].
  assert (exists k, service pf (imap traced _rules) 0 (s, []) = Ok (k, (s', log'))) as [k Hsv].
  { destruct (service pf _ 0 _) as [[k [s1 l1]]|]; cbn [obind] in Hw;
      destruct (SystemCall _ _ _) as [[]|[]]; try done; try (destruct (_ =? EINTR); [done|]);
      try done; injection Hw as <- <- <-; by eexists. }
  pose proof (service_in_range [] pf (imap traced _rules) (s, [])) as Hr.
  cbn [app] in Hr. change (zlen []) with 0 in Hr. rewrite length_imap in Hr. rewrite Hr in Hsv by done.
  change (imap traced _rules) with (imap (fun i => traced (0 + i)) _rules) in Hsv.
  apply serve_traced in Hsv; done.
Qed.

(** A failed [poll] is not reported: any error but [EINTR] leaves every rule and
    the state as they are and counts as success, although the documentation of the
    function promises an exception. *)
Theorem poll_error_ignored {Σ} (poll : list pollfd -> poll_reply) (_rules : list (Rule Σ)) (s : Σ) (e : Z) :
  Forall (fun r => live s r = true) _rules -> existsb (fun r => interest r s) _rules = true ->
  (forall pollfds, poll pollfds = mkPollReply (mkSys (-1) e) (map (fun _ => 0) pollfds)) ->
  e <> 0 -> e <> EINTR ->
  wait_next_event poll _rules s = Ok (Success, _rules, s).
Proof.
  intros Hl Hi Hp H0 He. unfold wait_next_event. rewrite setup_live by done. cbn [obind]. rewrite Hi, Hp.
  cbn [negb poll_ret returned]. unfold SystemCall. cbn [ret errno]. rewrite (i32_small (-1)) by lia.
  replace (e =? 0) with false by lia. cbn [Z.leb Z.compare orb]. replace (e =? EINTR) with false by lia.
  set (pf := answered _ _).
  assert (Forall (fun p => revents p = 0) pf /\ length pf = length _rules) as [Hz Hn].
  { unfold pf, answered. split; [|by rewrite length_zip_with, !length_map, Nat.min_id].
    apply Forall_lookup. intros i p Hp'. apply lookup_zip_with_Some in Hp' as (q & v & -> & _ & Hv).
    change (map ?f ?l) with (f <$> l) in Hv. rewrite !list_lookup_fmap in Hv. destruct (_rules !! i); simplify_eq/=.
    by destruct q. }
  pose proof (service_in_range [] pf _rules s) as Hr. cbn [app] in Hr. change (zlen []) with 0 in Hr.
  rewrite Hr by done. clearbody pf. clear -Hz Hn.
  assert (serve (zip _rules pf) s = Ok (_rules, s)) as ->; [|done].
  revert pf Hz Hn. induction _rules as [|r rules IH]; intros [|p pf] Hz Hn; try done.
  inversion Hz as [|? ? Hp Hz']; subst. cbn [zip zip_with serve]. unfold has. rewrite Hp, !Z.land_0_l. cbn [Z.eqb negb andb obind].
  by rewrite IH by (simpl in *; done || lia).
Qed.

(** *** A loop with one reader and one writer on the same descriptor *)

(** The reader counts, the writer waits for the first count. *)
Definition demo_reader : Rule (FDWrapper.t * Z) :=
  mkRule fst In (fun s => Ok (FileDescriptor.register_read s.1, s.2 + 1)) (fun _ => true) (fun s => Ok s).

Definition demo_writer : Rule (FDWrapper.t * Z) :=
  mkRule fst Out (fun s => Ok (FileDescriptor.register_write s.1, s.2)) (fun s => 0 <? s.2) (fun s => Ok (s.1, -2)).

Definition demo_fd : FDWrapper.t := FDWrapper.mk 5 false false 0 0.

Definition demo_poll (rs : list Z) (pollfds : list pollfd) : poll_reply :=
  mkPollReply (mkSys 1 0) (take (length pollfds) (rs ++ map (fun _ => 0) pollfds)).

Lemma demo_poll_clean rs :
  Forall (fun v => has v (Z.lor POLLERR POLLNVAL) = false) rs -> poll_clean (demo_poll rs).
Proof.
  intros Hrs pollfds. unfold demo_poll. cbn [returned]. split.
  - rewrite length_take, length_app, length_map. lia.
  - apply Forall_take, Forall_app. split; [done|]. by apply Forall_forall; intros v [? [-> _]]%list_elem_of_fmap.
Qed.

(** The writer runs only after a count, which the reader does not take back. *)
Definition demo_specs : list (Rule (FDWrapper.t * Z) * (FDWrapper.t * Z -> Prop)) :=
  [(demo_reader, fun _ => True); (demo_writer, fun s => 0 < s.2)].

Lemma demo_client : client (fun s => FDWrapper._fd s.1 = 5) (fun _ => False) demo_specs.
Proof.
  assert (forall x, x <> u32 (x + 1)) as Hne by (intros; word). split.
  - apply Forall_cons_2; [|apply Forall_cons_2; [|apply Forall_nil_2]]; split; cbn.
    + done.
    + intros [[] ?]; simpl. intros. split; [done|]. left. apply Hne.
    + done.
    + intros s _ _ H. lia.
    + intros [[] ?]; simpl. intros. split; [done|]. left. apply Hne.
    + done.
  - apply FOP_cons; [|apply FOP_cons; [constructor|constructor]].
    apply Forall_cons_2; [|constructor]. split; [|done].
    intros [w n] s' _ Hn [[= <-]|[= <-]]; cbn in *; lia.
Qed.

Lemma wait_next_event_returns_witness :
  exists result kept s', wait_next_event (demo_poll [1; 0]) (map fst demo_specs) (demo_fd, 0) = Ok (result, kept, s') /\
    FDWrapper._fd s'.1 = 5 /\ sublist kept (map fst demo_specs).
Proof.
  apply (wait_next_event_returns (fun s => FDWrapper._fd s.1 = 5));
    [apply demo_client|apply demo_poll_clean; repeat constructor|reflexivity].
Defined.

Lemma events_dispatched_witness : [Called 0; Cancelled 1] =
  concat (imap dispatched (answered (map (pollfd_of (demo_fd, 3)) [demo_reader; demo_writer]) [1; POLLHUP])).
Proof.
  apply (events_dispatched (demo_poll [1; POLLHUP]) [demo_reader; demo_writer] (demo_fd, 3)
    (FileDescriptor.register_read demo_fd, -2) [traced 0 demo_reader]);
    [repeat constructor|reflexivity|reflexivity].
Defined.

Lemma poll_error_ignored_witness :
  wait_next_event (fun pollfds => mkPollReply (mkSys (-1) 12) (map (fun _ => 0) pollfds)) [demo_reader; demo_writer] (demo_fd, 0) =
    Ok (Success, [demo_reader; demo_writer], (demo_fd, 0)).
Proof. apply (poll_error_ignored _ _ _ 12); [repeat constructor|reflexivity|reflexivity|lia|discriminate]. Defined.

End EventLoop.
