(* ===== verification/Channel.v ===== *)
(** * Stream descriptors and the kernel's side of them: [util/socket.cc], [util/file_descriptor.cc]

    A [Channel.t] is a stream descriptor (a pipe, a terminal or a stream socket)
    with the answers the kernel is going to give and the bytes that have passed
    through it: [taken] by [read] and [written] by [write].  A call for which no
    answer is left fails with [EAGAIN]: the descriptors are non-blocking. *)
From S2P Require Import Prelude Buffer FileDescriptor.

Module Channel.

Record t := mk {
  fd : FDWrapper.t;
  reads : list read_reply;
  writes : list sysret;
  others : list sysret;
  taken : bytes;
  written : bytes }.

#[global] Instance eta_t : Eta t := fun c =>
  mk (fd c) (reads c) (writes c) (others c) (taken c) (written c).

Definition again : sysret := mkSys (-1) EAGAIN.

(** ** Operations *)

(** [FileDescriptor::read(limit)]. *)
Definition read (limit : Z) (c : t) : outcome (bytes * t) :=
  let! (data, w) := FileDescriptor.read (hd (mkRead again []) (reads c)) limit (fd c) in
  Ok (data, c <| fd := w |> <| reads := tail (reads c) |> <| taken := taken c ++ data |>).

(** [FileDescriptor::write(str, false)]. *)
Definition write (data : bytes) (c : t) : outcome (Z * t) :=
  match FileDescriptor.write [hd again (writes c)] (BufferViewList.of_string data) false (fd c) with
  | None => Throw (unix_error "writev" EAGAIN)
  | Some o =>
      let! (n, w, _) := o in
      Ok (n, c <| fd := w |> <| writes := tail (writes c) |> <| written := written c ++ ztake n data |>)
  end.

(** [FileDescriptor::write(buffer)], which writes everything. *)
Definition write_all (buffer : BufferViewList.t) (c : t) : outcome (Z * t) :=
  match FileDescriptor.write (writes c) buffer true (fd c) with
  | None => Throw (unix_error "writev" EAGAIN)
  | Some o =>
      let! (n, w, rest) := o in
      Ok (n, c <| fd := w |> <| writes := rest |> <| written := written c ++ ztake n (concat buffer) |>)
  end.

Definition close (c : t) : outcome t :=
  let! w := FileDescriptor.close (hd (mkSys 0 0) (others c)) (fd c) in
  Ok (c <| fd := w |> <| others := tail (others c) |>).

Definition SHUT_RD : Z := 0.
Definition SHUT_WR : Z := 1.
Definition SHUT_RDWR : Z := 2.

(** [Socket::shutdown]. *)
Definition shutdown (how : Z) (c : t) : outcome t :=
  let! _ := SystemCall "shutdown" (hd (mkSys 0 0) (others c)) 0 in
  let c := c <| others := tail (others c) |> in
  if how =? SHUT_RD then Ok (c <| fd := FileDescriptor.register_read (fd c) |>)
  else if how =? SHUT_WR then Ok (c <| fd := FileDescriptor.register_write (fd c) |>)
  else if how =? SHUT_RDWR then
    Ok (c <| fd := FileDescriptor.register_write (FileDescriptor.register_read (fd c)) |>)
  else Throw (runtime_error "Socket::shutdown() called with invalid `how`").

(** ** What they do to the data *)

(** The exceptions that only an error or a misbehaviour of the kernel causes. *)
Definition kernel_fault (e : exn) : Prop :=
  match e with
  | unix_error _ _ => True
  | out_of_range what => what = "BufferListView::remove_prefix"
  | runtime_error what =>
      what = "read() read more than requested" \/ what = "write returned 0 given non-empty input buffer" \/
      what = "write wrote more than length of input buffer"
  | _ => False
  end.

Lemma system_call_fault attempt r mask :
  match SystemCall attempt r mask with Ok n => n = i32 (ret r) | Throw e => kernel_fault e end.
Proof. unfold SystemCall. cbv zeta. by destruct (_ || _). Qed.

Lemma i32_range x : -2147483648 <= i32 x < 2147483648.
Proof. unfold i32. split_if; word. Qed.

(** Reading takes at most [limit] bytes from the other side. *)
Lemma read_spec limit c :
  0 <= limit ->
  match read limit c with
  | Ok (data, c') =>
      zlen data <= limit /\ taken c' = taken c ++ data /\ written c' = written c /\
      FDWrapper._read_count (fd c') = u32 (FDWrapper._read_count (fd c) + 1)
  | Throw e => kernel_fault e
  end.
Proof.
  intros Hl. unfold read, FileDescriptor.read, FileDescriptor.read_into. set (r := hd _ _).
  pose proof (system_call_fault "read" (read_ret r) 0) as Hs. pose proof (i32_range (ret (read_ret r))).
  destruct (SystemCall "read" _ _) as [n|e]; cbn [obind]; [|done]. subst n. set (n := i32 _) in *. clearbody n.
  destruct (_ <? n) eqn:E; cbn [obind]; [unfold kernel_fault; auto|].
  unfold FileDescriptor.BUFFER_SIZE in *. split_and!.
  - rewrite zlen_resize. lia.
  - done.
  - done.
  - by destruct (_ && _).
Qed.

(** More than there is cannot be removed. *)
Lemma remove_prefix_beyond l n :
  zlen (concat l) < n -> BufferViewList.remove_prefix n l = Throw (out_of_range "BufferListView::remove_prefix").
Proof.
  revert n. induction l as [|v l IH]; intros n Hn; cbn [BufferViewList.remove_prefix concat] in *.
  - rewrite zlen_nil in Hn. by replace (0 <? n) with true by lia.
  - rewrite zlen_app in Hn. pose_zlen. replace (0 <? n) with true by lia. replace (n <? zlen v) with false by lia.
    apply IH. lia.
Qed.

(** One call of [writev(2)] on less than 2 GiB. *)
Lemma write_once_spec r buffer w :
  zlen (concat buffer) < 2147483648 ->
  match FileDescriptor.write_once r buffer w with
  | Ok (n, rest, w') =>
      0 <= n <= zlen (concat buffer) /\ concat rest = zdrop n (concat buffer) /\ w' = FileDescriptor.register_write w
  | Throw e => kernel_fault e
  end.
Proof.
  intros Hl. pose proof (zlen_nonneg (concat buffer)) as H0. unfold FileDescriptor.write_once.
  pose proof (system_call_fault "writev" r 0) as Hs. pose proof (i32_range (ret r)) as Hr.
  rewrite BufferViewList.view_size, i64_small by lia.
  destruct (SystemCall "writev" _ _) as [n|e]; cbn [obind]; [|done]. subst n. set (n := i32 _) in *. clearbody n.
  destruct (_ && _); [unfold kernel_fault; auto|]. destruct (_ <? n) eqn:E; [unfold kernel_fault; auto|].
  destruct (Z_lt_le_dec n 0) as [Hneg|Hpos].
  - rewrite remove_prefix_beyond; [done|]. replace (u64 n) with (n + MAX64) by word. lia.
  - rewrite (u64_small n) by lia.
    destruct (BufferViewList.view_remove_prefix buffer n) as (v & -> & Hv); [lia|]. cbn [obind].
    split_and!; (done || lia).
Qed.

(** A write of less than 2 GiB passes on the prefix that it reports. *)
Lemma write_spec data c :
  zlen data < 2147483648 ->
  match write data c with
  | Ok (n, c') =>
      0 <= n <= zlen data /\ written c' = written c ++ ztake n data /\ taken c' = taken c /\
      fd c' = FileDescriptor.register_write (fd c)
  | Throw e => kernel_fault e
  end.
Proof.
  intros Hl. assert (concat [data] = data) as Hc by apply app_nil_r.
  unfold write, FileDescriptor.write, BufferViewList.of_string. cbn [FileDescriptor.write_loop].
  pose proof (write_once_spec (hd again (writes c)) [data] (fd c)) as H. rewrite Hc in H. specialize (H Hl).
  destruct (FileDescriptor.write_once _ _ _) as [[[n rest] w']|e]; [|done]. destruct H as (Hn & _ & ->).
  cbn [andb obind]. rewrite u64_small by lia. done.
Qed.

(** Writing everything reports, and passes on, everything. *)
Lemma write_loop_spec replies buffer total w :
  0 <= total -> total + zlen (concat buffer) < 2147483648 ->
  match FileDescriptor.write_loop replies buffer true total w with
  | Some (Ok (n, _, _)) => n = total + zlen (concat buffer)
  | Some (Throw e) => kernel_fault e
  | None => True
  end.
Proof.
  revert buffer total w. induction replies as [|r replies IH]; intros buffer total w H0 Hl; [done|].
  cbn [FileDescriptor.write_loop]. pose proof (zlen_nonneg (concat buffer)).
  pose proof (write_once_spec r buffer w) as H1. destruct (FileDescriptor.write_once _ _ _) as [[[n rest] w']|e];
    [|apply H1; lia]. destruct H1 as (Hn & Hrest & ->); [lia|].
  assert (zlen (concat rest) = zlen (concat buffer) - n) as Hz by (rewrite Hrest, zlen_zdrop; lia).
  rewrite BufferViewList.view_size, u64_small by lia. cbn [andb]. destruct (_ =? 0) eqn:E; cbn [negb].
  - lia.
  - pose proof (IH rest (total + n) (FileDescriptor.register_write w)) as IH'.
    destruct (FileDescriptor.write_loop _ _ _ _ _) as [[[[m w''] ?]|e]|]; [rewrite IH'; lia|apply IH'; lia|done].
Qed.

Lemma write_all_spec buffer c :
  zlen (concat buffer) < 2147483648 ->
  match write_all buffer c with
  | Ok (n, c') =>
      n = zlen (concat buffer) /\ written c' = written c ++ concat buffer /\ taken c' = taken c
  | Throw e => kernel_fault e
  end.
Proof.
  intros Hl. unfold write_all, FileDescriptor.write. pose proof (write_loop_spec (writes c) buffer 0 (fd c)) as H.
  destruct (FileDescriptor.write_loop _ _ _ _ _) as [[[[n w'] rest]|e]|]; cbn [obind];
    [|apply H; lia|done]. rewrite H, Z.add_0_l by lia. cbn [modify written taken].
  by rewrite ztake_all.
Qed.

(** Writing is not counted as reading. *)
Lemma write_loop_read_count replies all buffer total w n w' rest :
  FileDescriptor.write_loop replies buffer all total w = Some (Ok (n, w', rest)) ->
  FDWrapper._read_count w' = FDWrapper._read_count w.
Proof.
  revert buffer total w. induction replies as [|r replies IH]; intros buffer total w; [done|].
  cbn [FileDescriptor.write_loop].
  destruct (FileDescriptor.write_once r buffer w) as [[[k v] w1]|e] eqn:E; [|done].
  assert (FDWrapper._read_count w1 = FDWrapper._read_count w) as <-.
  { unfold FileDescriptor.write_once in E. destruct (SystemCall _ _ _); cbn [obind] in E; [|done].
    repeat (destruct (_ : bool) in E; [done|]). destruct (BufferViewList.remove_prefix _ _); [|done].
    by injection E as <- <- <-. }
  destruct (_ && _); [apply IH|]. by intros [= <- <- <-].
Qed.

Lemma write_all_read_count buffer c n c' :
  write_all buffer c = Ok (n, c') -> FDWrapper._read_count (fd c') = FDWrapper._read_count (fd c).
Proof.
  unfold write_all. destruct (FileDescriptor.write _ _ _ _) as [[[[m w'] rest]|e]|] eqn:E; [|done..]. cbn [obind].
  intros [= <- <-]. by apply write_loop_read_count in E.
Qed.

Lemma shutdown_spec c :
  match shutdown SHUT_WR c with
  | Ok c' => written c' = written c /\ taken c' = taken c /\ fd c' = FileDescriptor.register_write (fd c)
  | Throw e => kernel_fault e
  end.
Proof.
  unfold shutdown. pose proof (system_call_fault "shutdown" (hd (mkSys 0 0) (others c)) 0) as Hs.
  by destruct (SystemCall _ _ _).
Qed.

Lemma close_spec c :
  match close c with
  | Ok c' => written c' = written c /\ taken c' = taken c /\
      FDWrapper._write_count (fd c') = FDWrapper._write_count (fd c)
  | Throw e => kernel_fault e
  end.
Proof.
  unfold close, FileDescriptor.close, FDWrapper.close.
  pose proof (system_call_fault "close" (hd (mkSys 0 0) (others c)) 0) as Hs. by destruct (SystemCall _ _ _).
Qed.

(** ** What they do when the kernel answers as documented *)

(** [writev(2)] takes [n] bytes. *)
Lemma write_takes n e ws data c :
  writes c = mkSys n e :: ws -> 0 <= n <= zlen data -> zlen data < 2147483648 -> (n = 0 -> data = []) ->
  write data c =
    Ok (n, c <| fd := FileDescriptor.register_write (fd c) |> <| writes := ws |> <| written := written c ++ ztake n data |>).
Proof.
  intros Hw Hn Hl H0. assert (concat [data] = data) as Hc by apply app_nil_r.
  unfold write, FileDescriptor.write, BufferViewList.of_string. rewrite Hw. cbn [hd tail FileDescriptor.write_loop].
  unfold FileDescriptor.write_once. rewrite FileDescriptor.system_call_ok by lia. cbn [obind].
  rewrite BufferViewList.view_size by (rewrite Hc; lia). rewrite Hc, i64_small, (u64_small n) by lia.
  replace ((n =? 0) && negb (zlen data =? 0)) with false
    by (destruct (Z.eqb_spec n 0); [by rewrite H0|done]).
  replace (zlen data <? n) with false by lia.
  destruct (BufferViewList.view_remove_prefix [data] n) as (v & -> & _); [rewrite Hc; lia|]. cbn [obind andb].
  by rewrite u64_small by lia.
Qed.

(** [shutdown(2)] and [close(2)] succeed. *)
Definition succeeds (r : sysret) : Prop := 0 <= ret r < 2147483648.

Lemma hd_succeeds l : Forall succeeds l -> succeeds (hd (mkSys 0 0) l) /\ Forall succeeds (tail l).
Proof. destruct 1; split; try done. Qed.

Lemma shutdown_succeeds how c :
  how = SHUT_WR \/ how = SHUT_RDWR -> Forall succeeds (others c) ->
  shutdown how c = Ok (c <| others := tail (others c) |>
    <| fd := FileDescriptor.register_write
               (if how =? SHUT_WR then fd c else FileDescriptor.register_read (fd c)) |>).
Proof.
  intros Hh Ho. apply hd_succeeds in Ho as [Ho _]. unfold shutdown. destruct (hd _ _) as [n e].
  rewrite FileDescriptor.system_call_ok by exact Ho. by destruct Hh as [-> | ->].
Qed.

(** The counters the event loop watches change with every call. *)
Lemma count_changes x : x <> u32 (x + 1).
Proof. word. Qed.
Lemma count_changes_twice x : x <> u32 (u32 (x + 1) + 1).
Proof. word. Qed.

End Channel.
