(* ===== verification/Socket.v ===== *)
(** * Sockets and devices: [util/socket.hh/.cc], [util/tun.hh/.cc]

    The system calls the classes wrap are the fields of [SocketCalls]: a call that
    only succeeds or fails gives a [sysret], one that fills memory gives its
    contents too.  Every method passes what the source passes and acts on the
    answer as the source does.  A [Socket] is its [FDWrapper]. *)
From S2P Require Import Prelude Text Buffer Parser Adapter Address FileDescriptor Channel.

(** The answer to [getsockopt(2)]: the option's value and length. *)
Record sockopt_reply := mkOpt {
  opt_ret : sysret;
  opt_value : Z;
  opt_len : Z }.

(** The answer to [getsockname(2)] or [getpeername(2)]. *)
Record name_reply := mkName {
  name_ret : sysret;
  name_addr : bytes;
  name_len : Z }.

(** The answer to [recvfrom(2)]: the bytes stored, the source and its length. *)
Record recv_reply := mkRecv {
  recv_ret : sysret;
  recv_data : bytes;
  from_addr : bytes;
  from_len : Z }.

Class SocketCalls := {
  sys_socket : Z -> Z -> Z -> sysret;
  sys_getsockopt : Z -> Z -> Z -> sockopt_reply;
  sys_setsockopt : Z -> Z -> Z -> Z -> Z -> sysret;
  sys_bind : Z -> bytes -> Z -> sysret;
  sys_connect : Z -> bytes -> Z -> sysret;
  sys_listen : Z -> Z -> sysret;
  sys_accept : Z -> sysret;
  sys_getsockname : Z -> name_reply;
  sys_getpeername : Z -> name_reply;
  sys_open : string -> Z -> sysret;
  sys_tunsetiff : Z -> bytes -> Z -> sysret }.

Definition AF_UNIX : Z := 1.
Definition SOCK_STREAM : Z := 1.
Definition SOCK_DGRAM : Z := 2.
Definition SOL_SOCKET : Z := 1.
Definition SO_REUSEADDR : Z := 2.
Definition SO_TYPE : Z := 3.
Definition SO_DOMAIN : Z := 39.
Definition O_RDWR : Z := 2.

(** [sizeof(int)]. *)
Definition sizeof_int : Z := 4.

Module Socket.

Section calls.
Context `{SocketCalls}.

Definition make (domain type : Z) : outcome FDWrapper.t :=
  let! fd := SystemCall "socket" (sys_socket domain type 0) 0 in
  FileDescriptor.make fd.

Definition of_fd (w : FDWrapper.t) (domain type : Z) : outcome FDWrapper.t :=
  let reply := sys_getsockopt (FileDescriptor.fd_num w) SOL_SOCKET SO_DOMAIN in
  let! _ := SystemCall "getsockopt" (opt_ret reply) 0 in
  if negb (opt_len reply =? sizeof_int) || negb (opt_value reply =? domain)
  then Throw (runtime_error "socket domain mismatch")
  else
    let reply := sys_getsockopt (FileDescriptor.fd_num w) SOL_SOCKET SO_TYPE in
    let! _ := SystemCall "getsockopt" (opt_ret reply) 0 in
    if negb (opt_len reply =? sizeof_int) || negb (opt_value reply =? type)
    then Throw (runtime_error "socket type mismatch")
    else Ok w.

(** The kernel fills the beginning of a zeroed [Address::Raw]. *)
Definition get_address (name_of_function : string) (function : Z -> name_reply) (w : FDWrapper.t) :
    outcome Address.t :=
  let reply := function (FileDescriptor.fd_num w) in
  let! _ := SystemCall name_of_function (name_ret reply) 0 in
  Address.of_sockaddr (resize Address.storage_size (name_addr reply)) (name_len reply).

Definition local_address (w : FDWrapper.t) : outcome Address.t := get_address "getsockname" sys_getsockname w.

Definition peer_address (w : FDWrapper.t) : outcome Address.t := get_address "getpeername" sys_getpeername w.

Definition bind (address : Address.t) (w : FDWrapper.t) : outcome unit :=
  let! _ := SystemCall "bind" (sys_bind (FileDescriptor.fd_num w) (Address._address address) (Address.size address)) 0 in
  Ok tt.

Definition connect (address : Address.t) (w : FDWrapper.t) : outcome unit :=
  let! _ := SystemCall "connect"
              (sys_connect (FileDescriptor.fd_num w) (Address._address address) (Address.size address)) 0 in
  Ok tt.

Definition setsockopt (level option option_value : Z) (w : FDWrapper.t) : outcome unit :=
  let! _ := SystemCall "setsockopt" (sys_setsockopt (FileDescriptor.fd_num w) level option option_value sizeof_int) 0 in
  Ok tt.

Definition set_reuseaddr (w : FDWrapper.t) : outcome unit := setsockopt SOL_SOCKET SO_REUSEADDR 1 w.

End calls.
End Socket.

Module UDPSocket.

Record received_datagram := mkDatagram {
  source_address : Address.t;
  payload : bytes }.

Definition make `{SocketCalls} : outcome FDWrapper.t := Socket.make AF_INET SOCK_DGRAM.

Definition of_fd `{SocketCalls} (w : FDWrapper.t) : outcome FDWrapper.t := Socket.of_fd w AF_INET SOCK_DGRAM.

(** [recv(datagram, mtu)]: with [MSG_TRUNC] the call returns the length of the
    datagram, also when that is more than it could store. *)
Definition recv_into (reply : recv_reply) (datagram : received_datagram) (mtu : Z) (w : FDWrapper.t) :
    outcome (received_datagram * FDWrapper.t) :=
  let buf := resize mtu (payload datagram) in
  let buf := resize mtu (recv_data reply ++ zdrop (zlen (recv_data reply)) buf) in
  let! recv_len := SystemCall "recvfrom" (recv_ret reply) 0 in
  if i64 mtu <? recv_len then Throw (runtime_error "recvfrom (oversized datagram)")
  else
    let w := FileDescriptor.register_read w in
    let! source := Address.of_sockaddr (resize Address.storage_size (from_addr reply)) (from_len reply) in
    Ok (mkDatagram source (resize recv_len buf), w).

Definition recv (reply : recv_reply) (mtu : Z) (w : FDWrapper.t) : outcome (received_datagram * FDWrapper.t) :=
  let! none := Address.of_sockaddr [] 0 in
  recv_into reply (mkDatagram none []) mtu w.

(** The default argument [mtu]. *)
Definition MTU : Z := 65536.

(** [sendmsg_helper]: the destination is [None] for the null pointer. *)
Definition sendmsg_helper (sys_sendmsg : Z -> option (bytes * Z) -> list (bytes * Z) -> sysret) (fd_num : Z)
    (destination : option (bytes * Z)) (payload : BufferViewList.t) : outcome unit :=
  let iovecs := BufferViewList.as_iovecs payload in
  let! bytes_sent := SystemCall "sendmsg" (sys_sendmsg fd_num destination iovecs) 0 in
  if negb (u64 bytes_sent =? BufferViewList.size payload)
  then Throw (runtime_error "datagram payload too big for sendmsg()")
  else Ok tt.

Definition sendto sys_sendmsg (destination : Address.t) (payload : BufferViewList.t) (w : FDWrapper.t) :
    outcome FDWrapper.t :=
  let! _ := sendmsg_helper sys_sendmsg (FileDescriptor.fd_num w)
              (Some (Address._address destination, Address.size destination)) payload in
  Ok (FileDescriptor.register_write w).

Definition send sys_sendmsg (payload : BufferViewList.t) (w : FDWrapper.t) : outcome FDWrapper.t :=
  let! _ := sendmsg_helper sys_sendmsg (FileDescriptor.fd_num w) None payload in
  Ok (FileDescriptor.register_write w).

End UDPSocket.

Module TCPSocket.
Section calls.
Context `{SocketCalls}.

Definition make : outcome FDWrapper.t := Socket.make AF_INET SOCK_STREAM.

Definition of_fd (w : FDWrapper.t) : outcome FDWrapper.t := Socket.of_fd w AF_INET SOCK_STREAM.

(** The default argument [backlog]. *)
Definition BACKLOG : Z := 16.

Definition listen (backlog : Z) (w : FDWrapper.t) : outcome unit :=
  let! _ := SystemCall "listen" (sys_listen (FileDescriptor.fd_num w) backlog) 0 in
  Ok tt.

(** The accepted socket and the listening one. *)
Definition accept (w : FDWrapper.t) : outcome (FDWrapper.t * FDWrapper.t) :=
  let w := FileDescriptor.register_read w in
  let! fd := SystemCall "accept" (sys_accept (FileDescriptor.fd_num w)) 0 in
  let! fd := FileDescriptor.make fd in
  let! socket := of_fd fd in
  Ok (socket, w).

End calls.
End TCPSocket.

Module LocalStreamSocket.

Definition of_fd `{SocketCalls} (w : FDWrapper.t) : outcome FDWrapper.t := Socket.of_fd w AF_UNIX SOCK_STREAM.

End LocalStreamSocket.

Module TunTapFD.

Definition CLONEDEV : string := "/dev/net/tun".
Definition IFNAMSIZ : Z := 16.
Definition IFF_TUN : Z := 1.
Definition IFF_TAP : Z := 2.
Definition IFF_NO_PI : Z := 4096.

(** [strncpy(dst, src, n)]: what it stores in [dst], zeros included. *)
Fixpoint strncpy (src : bytes) (n : nat) : bytes :=
  match n, src with
  | O, _ => []
  | S n, c :: src =>
      if decide (c = Corelib.Init.Byte.x00) then replicate (S n) c else c :: strncpy src n
  | S n, [] => replicate (S n) Corelib.Init.Byte.x00
  end.

(** The field [ifr_name] of [tun_req]. *)
Definition ifr_name (devname : bytes) : bytes :=
  strncpy devname (Z.to_nat (IFNAMSIZ - 1)) ++ [Corelib.Init.Byte.x00].

Definition make `{SocketCalls} (devname : string) (is_tun : bool) : outcome FDWrapper.t :=
  let! fd := SystemCall "open" (sys_open CLONEDEV O_RDWR) 0 in
  let! w := FileDescriptor.make fd in
  let ifr_flags := Z.lor (if is_tun then IFF_TUN else IFF_TAP) IFF_NO_PI in
  let! _ := SystemCall "ioctl" (sys_tunsetiff (FileDescriptor.fd_num w) (ifr_name (str devname)) ifr_flags) 0 in
  Ok w.

Definition TunFD `{SocketCalls} (devname : string) : outcome FDWrapper.t := make devname true.
Definition TapFD `{SocketCalls} (devname : string) : outcome FDWrapper.t := make devname false.

Lemma length_strncpy src n : length (strncpy src n) = n.
Proof.
  revert src. induction n as [|n IH]; intros [|c src]; [done..|simpl; by rewrite length_replicate|].
  cbn [strncpy]. destruct (decide _); [apply length_replicate|]. simpl. by rewrite IH.
Qed.

(** The name the kernel gets is the longest prefix of the device's name that
    fits, null-terminated within its 16 bytes. *)
Lemma ifr_name_spec devname :
  Corelib.Init.Byte.x00 ∉ devname ->
  zlen (ifr_name devname) = IFNAMSIZ /\
  ifr_name devname = ztake 15 devname ++ replicate (Z.to_nat (16 - Z.min 15 (zlen devname))) Corelib.Init.Byte.x00.
Proof.
  intros Hnul. unfold ifr_name. change (Z.to_nat (IFNAMSIZ - 1)) with 15%nat. split.
  - unfold zlen. by rewrite length_app, length_strncpy.
  - unfold ztake, zlen. change (Z.to_nat 15) with 15%nat.
    replace (Z.to_nat (16 - Z.min 15 (Z.of_nat (length devname)))) with (S (15 - length devname)) by lia.
    generalize 15%nat. intros n. revert devname Hnul. induction n as [|n IH]; intros [|c src] Hnul; [done..| |].
    + cbn [strncpy take app length Nat.sub]. change [Corelib.Init.Byte.x00] with (replicate 1 Corelib.Init.Byte.x00).
      rewrite <- replicate_add. f_equal. lia.
    + apply not_elem_of_cons in Hnul as [Hc Hnul]. cbn [strncpy take length Nat.sub].
      rewrite decide_False by done. simpl. f_equal. by apply IH.
Qed.

End TunTapFD.

(** ** Properties *)

Module SocketSpec.

(** What the kernel answers when a datagram [data] from [ip]:[port] arrives in a
    buffer of [mtu] bytes: its length, and as much of it as fits. *)
Definition arrives (ip port : Z) (data : bytes) (mtu e : Z) : recv_reply :=
  mkRecv (mkSys (zlen data) e) (ztake mtu data) (sockaddr_in ip port) 16.

Lemma udp_recv_spec ip port e mtu data old w :
  0 <= mtu < 2147483648 -> zlen data < 2147483648 ->
  UDPSocket.recv_into (arrives ip port data mtu e) old mtu w =
    if zlen data <=? mtu
    then Ok (UDPSocket.mkDatagram (Address.inet ip port) data, FileDescriptor.register_read w)
    else Throw (runtime_error "recvfrom (oversized datagram)").
Proof.
  intros Hm Hd. pose proof (zlen_nonneg data). unfold UDPSocket.recv_into, arrives.
  cbn [recv_ret recv_data from_addr from_len]. rewrite FileDescriptor.system_call_ok by lia. cbn [obind].
  rewrite i64_small by lia. destruct (zlen data <=? mtu) eqn:E.
  - replace (mtu <? zlen data) with false by lia. rewrite (ztake_all mtu data) by lia.
    rewrite resize_stored by lia. reflexivity.
  - by replace (mtu <? zlen data) with true by lia.
Qed.

(** Receiving a datagram.  Whatever the caller's storage held, a
    datagram that fits the buffer is handed out whole, with its source, and the
    read is counted; one that does not fit throws, as documented. *)
Theorem udp_recv_correct (ip port e mtu : Z) (data : bytes) (old : UDPSocket.received_datagram) (w : FDWrapper.t) :
  0 <= mtu < 2147483648 -> zlen data < 2147483648 ->
  UDPSocket.recv_into (arrives ip port data mtu e) old mtu w =
    if zlen data <=? mtu
    then Ok (UDPSocket.mkDatagram (Address.inet ip port) data, FileDescriptor.register_read w)
    else Throw (runtime_error "recvfrom (oversized datagram)").
Proof. apply udp_recv_spec. Qed.

Lemma udp_recv_correct_witness :
  UDPSocket.recv_into (arrives 2130706433 1440 (str "hello") 65536 0)
      (UDPSocket.mkDatagram (Address.inet 0 0) (str "something longer")) 65536 (FDWrapper.mk 5 false false 0 0) =
    if zlen (str "hello") <=? 65536
    then Ok (UDPSocket.mkDatagram (Address.inet 2130706433 1440) (str "hello"), FDWrapper.mk 5 false false 1 0)
    else Throw (runtime_error "recvfrom (oversized datagram)").
Proof. apply udp_recv_correct; [lia|reflexivity]. Defined.

(** [sendto] succeeds exactly when the kernel takes the whole payload. *)
Lemma sendto_spec kernel dst payload w :
  zlen (concat payload) < 2147483648 ->
  let r := kernel (FDWrapper._fd w) (Some (Address._address dst, Address.size dst)) (BufferViewList.as_iovecs payload) in
  ret r = zlen (concat payload) -> UDPSocket.sendto kernel dst payload w = Ok (FileDescriptor.register_write w).
Proof.
  cbv zeta. intros Hs Hr. pose proof (zlen_nonneg (concat payload)).
  unfold UDPSocket.sendto, UDPSocket.sendmsg_helper, FileDescriptor.fd_num.
  destruct (kernel _ _ _) as [n e]. cbn in Hr. subst n. rewrite FileDescriptor.system_call_ok by lia. cbn [obind].
  rewrite BufferViewList.view_size, u64_small by lia. by rewrite Z.eqb_refl.
Qed.

(** A descriptor becomes a socket of the class only if the kernel says that it is
    one. *)
Lemma of_fd_checked `{SocketCalls} w domain type w' :
  Socket.of_fd w domain type = Ok w' ->
  w' = w /\ opt_value (sys_getsockopt (FDWrapper._fd w) SOL_SOCKET SO_DOMAIN) = domain /\
  opt_value (sys_getsockopt (FDWrapper._fd w) SOL_SOCKET SO_TYPE) = type.
Proof.
  unfold Socket.of_fd, FileDescriptor.fd_num. destruct (SystemCall _ _ _) as [?|]; cbn [obind]; [|done].
  destruct (_ || _) eqn:E1; [done|]. destruct (SystemCall _ _ _) as [?|]; cbn [obind]; [|done].
  destruct (negb (opt_len (sys_getsockopt (FDWrapper._fd w) SOL_SOCKET SO_TYPE) =? _) || _) eqn:E2; [done|].
  intros [= <-]. split_and!; [done|lia|lia].
Qed.

(** What [recv] returns has less than 2 GiB. *)
Lemma recv_length reply mtu w dg w' :
  UDPSocket.recv reply mtu w = Ok (dg, w') -> zlen (UDPSocket.payload dg) < MAX64.
Proof.
  unfold UDPSocket.recv. change (Address.of_sockaddr [] 0) with (Ok (Address.mk 0 Address.zeroed)). cbn [obind].
  unfold UDPSocket.recv_into. pose proof (Channel.system_call_fault "recvfrom" (recv_ret reply) 0) as Hs.
  pose proof (Channel.i32_range (ret (recv_ret reply))).
  destruct (SystemCall _ _ _) as [n|]; cbn [obind]; [|done]. destruct (_ <? n); [done|].
  destruct (Address.of_sockaddr _ _) as [src|]; cbn [obind]; [|done]. intros [= <- <-].
  cbn [UDPSocket.payload]. rewrite zlen_resize. lia.
Qed.

End SocketSpec.
