(* ===== verification/NetworkInterface.v ===== *)
(** * The network interface: [network_interface.hh/.cc]

    The class as it is in the repository, whose operations are placeholders: it
    has the queue of frames to send, but neither sends nor receives anything.
    [EthernetAdapter] drives it as a complete implementation would be driven. *)
From S2P Require Import Prelude Buffer Parser IPv4 Ethernet Text Adapter Address.

Module NetworkInterface.

Record t := mk {
  _ethernet_address : bytes;
  _ip_address : Address.t;
  _frames_out : list EthernetFrame.t }.

#[global] Instance eta_t : Eta t := fun i => mk (_ethernet_address i) (_ip_address i) (_frames_out i).

(** The constructor prints the IP address, for which it is resolved. *)
Definition make `{Resolver} (ethernet_address : bytes) (ip_address : Address.t) : outcome t :=
  let i := mk ethernet_address ip_address [] in
  let! _ := Address.ip ip_address in
  Ok i.

Definition frames_out (i : t) : list EthernetFrame.t := _frames_out i.

Definition send_datagram (dgram : IPv4Datagram.t) (next_hop : Address.t) (i : t) : outcome t :=
  let! next_hop_ip := Address.ipv4_numeric next_hop in
  Ok i.

Definition recv_frame (frame : EthernetFrame.t) (i : t) : option IPv4Datagram.t * t := (None, i).

Definition tick (ms_since_last_tick : Z) (i : t) : t := i.

End NetworkInterface.
