(* ===== verification/DatagramAdapter.v ===== *)
(** * Datagram adapters over their devices: [fd_adapter.hh/.cc], [lossy_fd_adapter.hh],
    [tuntap_adapter.hh/.cc]

    The class [DatagramAdapter] is what [TCPSpongeSocket] needs of its template
    parameter [AdaptT]; its instances are the adapters the source instantiates the
    template with: over a TUN device, over a TAP device, over a UDP socket, and
    the lossy wrapper around any of them.  What the adapters do with segments is
    [Adapter.v]; here they are joined to their descriptors. *)
From S2P Require Import Prelude Text Buffer Parser TCPSegment IPv4 Ethernet Adapter Address.
From S2P Require Import FileDescriptor Channel Socket NetworkInterface.

(** ** What the socket needs of an adapter *)

Class DatagramAdapter (A : Type) := {
  adapter_fd : A -> FDWrapper.t;
  adapter_read : A -> outcome (option TCPSegment.t * A);
  adapter_write : TCPSegment.t -> A -> outcome A;
  adapter_tick : Z -> A -> outcome A;
  adapter_config : A -> FdAdapterConfig.t;
  adapter_set_config : FdAdapterConfig.t -> A -> A;
  adapter_set_listening : bool -> A -> A }.

(** A read is registered with the descriptor, for the busy-wait check. *)
Class DatagramAdapterLaws (A : Type) `{DatagramAdapter A} :=
  adapter_read_counts (a a' : A) seg :
    adapter_read a = Ok (seg, a') ->
    FDWrapper._read_count (adapter_fd a') = u32 (FDWrapper._read_count (adapter_fd a) + 1).

(** ** The adapter over a TUN device *)

Module TunAdapter.

Record t := mk {
  base : FdAdapterBase.t;
  _tun : Channel.t }.

#[global] Instance eta_t : Eta t := fun a => mk (base a) (_tun a).

Definition read (a : t) : outcome (option TCPSegment.t * t) :=
  let! (raw, ch) := Channel.read 18446744073709551615 (_tun a) in
  let! (seg, b) := TCPOverIPv4OverTunFdAdapter.read raw (base a) in
  Ok (seg, mk b ch).

Definition write (seg : TCPSegment.t) (a : t) : outcome t :=
  let! (out, _) := TCPOverIPv4OverTunFdAdapter.write seg (base a) in
  let! (_, ch) := Channel.write_all (BufferViewList.of_buffers out) (_tun a) in
  Ok (a <| _tun := ch |>).

#[global] Instance adapter : DatagramAdapter t := {
  adapter_fd a := Channel.fd (_tun a);
  adapter_read := read;
  adapter_write := write;
  adapter_tick ms a := Ok (a <| base := FdAdapterBase.tick ms (base a) |>);
  adapter_config a := FdAdapterBase.config (base a);
  adapter_set_config c a := a <| base := (base a) <| FdAdapterBase._cfg := c |> |>;
  adapter_set_listening l a := a <| base := FdAdapterBase.set_listening l (base a) |> }.

#[global] Instance adapter_laws : DatagramAdapterLaws t.
Proof.
  intros a a' seg. cbn. unfold read. pose proof (Channel.read_spec 18446744073709551615 (_tun a)) as Hc.
  destruct (Channel.read _ _) as [[raw ch]|]; cbn [obind]; [|done]. destruct Hc as (_ & _ & _ & Hc); [lia|].
  destruct (TCPOverIPv4OverTunFdAdapter.read _ _) as [[seg' b]|]; cbn [obind]; [|done]. by intros [= <- <-].
Qed.

End TunAdapter.

(** ** The adapter over a TAP device *)

Module EthernetAdapter.

Record t := mk {
  base : FdAdapterBase.t;
  _tap : Channel.t;
  _interface : NetworkInterface.t;
  _next_hop : Address.t }.

#[global] Instance eta_t : Eta t := fun a => mk (base a) (_tap a) (_interface a) (_next_hop a).

(** The loop of [send_pending], on the queue of frames. *)
Fixpoint send_frames (frames : list EthernetFrame.t) (ch : Channel.t) : outcome Channel.t :=
  match frames with
  | [] => Ok ch
  | frame :: frames =>
      let! (_, ch) := Channel.write_all (BufferViewList.of_buffers (EthernetFrame.serialize frame)) ch in
      send_frames frames ch
  end.

Definition send_pending (a : t) : outcome t :=
  let! ch := send_frames (NetworkInterface.frames_out (_interface a)) (_tap a) in
  Ok (a <| _tap := ch |> <| _interface := (_interface a) <| NetworkInterface._frames_out := [] |> |>).

(** The constructor sends a dummy frame. *)
Definition make `{Resolver} (tap : Channel.t) (eth_address : bytes) (ip_address next_hop : Address.t) : outcome t :=
  let! interface := NetworkInterface.make eth_address ip_address in
  let! (_, tap) := Channel.write_all (BufferViewList.of_buffers (EthernetFrame.serialize EthernetFrame.default)) tap in
  Ok (mk FdAdapterBase.default tap interface next_hop).

Definition read (a : t) : outcome (option TCPSegment.t * t) :=
  let! (raw, ch) := Channel.read 18446744073709551615 (_tap a) in
  let a := a <| _tap := ch |> in
  let '(res, frame) := EthernetFrame.parse (Buffer.of_string raw) EthernetFrame.default in
  if bool_decide (res <> NoError) then Ok (None, a)
  else
    let '(ip_dgram, interface) := NetworkInterface.recv_frame frame (_interface a) in
    let! a := send_pending (a <| _interface := interface |>) in
    match ip_dgram with
    | Some dgram =>
        let! (seg, b) := TCPOverIPv4Adapter.unwrap_tcp_in_ip dgram (base a) in
        Ok (seg, a <| base := b |>)
    | None => Ok (None, a)
    end.

Definition tick (ms_since_last_tick : Z) (a : t) : outcome t :=
  send_pending (a <| _interface := NetworkInterface.tick ms_since_last_tick (_interface a) |>).

Definition write (seg : TCPSegment.t) (a : t) : outcome t :=
  let! (dgram, _) := TCPOverIPv4Adapter.wrap_tcp_in_ip seg (base a) in
  let! interface := NetworkInterface.send_datagram dgram (_next_hop a) (_interface a) in
  send_pending (a <| _interface := interface |>).

#[global] Instance adapter : DatagramAdapter t := {
  adapter_fd a := Channel.fd (_tap a);
  adapter_read := read;
  adapter_write := write;
  adapter_tick := tick;
  adapter_config a := FdAdapterBase.config (base a);
  adapter_set_config c a := a <| base := (base a) <| FdAdapterBase._cfg := c |> |>;
  adapter_set_listening l a := a <| base := FdAdapterBase.set_listening l (base a) |> }.

(** ** What it sends *)

Lemma send_frames_read_count frames ch ch' :
  send_frames frames ch = Ok ch' ->
  FDWrapper._read_count (Channel.fd ch') = FDWrapper._read_count (Channel.fd ch).
Proof.
  revert ch. induction frames as [|f frames IH]; intros ch; cbn [send_frames]; [by intros [= <-]|].
  destruct (Channel.write_all _ ch) as [[n ch1]|] eqn:E; cbn [obind]; [|done].
  intros H%IH. rewrite H. by apply Channel.write_all_read_count in E.
Qed.

Lemma send_pending_read_count a a' :
  send_pending a = Ok a' ->
  FDWrapper._read_count (Channel.fd (_tap a')) = FDWrapper._read_count (Channel.fd (_tap a)).
Proof.
  unfold send_pending. destruct (send_frames _ _) as [ch|] eqn:E; cbn [obind]; [|done]. intros [= <-].
  by apply send_frames_read_count in E.
Qed.

#[global] Instance adapter_laws : DatagramAdapterLaws t.
Proof.
  intros a a' seg. cbn. unfold read. pose proof (Channel.read_spec 18446744073709551615 (_tap a)) as Hc.
  destruct (Channel.read _ _) as [[raw ch]|]; cbn [obind]; [|done]. destruct Hc as (_ & _ & _ & <-); [lia|].
  destruct (EthernetFrame.parse _ _) as [res frame]. case_bool_decide; [by intros [= <- <-]|].
  cbn [NetworkInterface.recv_frame]. set (a1 := a <| _tap := ch |> <| _interface := _ |>).
  change ch with (_tap a1) at 1. destruct (send_pending a1) as [a2|] eqn:E; cbn [obind]; [|done].
  intros [= <- <-]. by apply send_pending_read_count.
Qed.

(** The bytes of a frame on the wire. *)
Definition frame_wire (f : EthernetFrame.t) : bytes :=
  concat (BufferViewList.of_buffers (EthernetFrame.serialize f)).

Lemma send_frames_spec frames ch :
  Forall (fun f => zlen (frame_wire f) < 2147483648) frames ->
  match send_frames frames ch with
  | Ok ch' => Channel.written ch' = Channel.written ch ++ concat (map frame_wire frames)
              /\ Channel.taken ch' = Channel.taken ch
  | Throw e => Channel.kernel_fault e
  end.
Proof.
  intros Hf. revert ch. induction Hf as [|f frames Hl Hf IH]; intros ch; cbn [send_frames].
  - split; [|done]. by rewrite app_nil_r.
  - pose proof (Channel.write_all_spec (BufferViewList.of_buffers (EthernetFrame.serialize f)) ch Hl) as Hw.
    destruct (Channel.write_all _ ch) as [[n ch1]|e]; cbn [obind]; [|done]. destruct Hw as (_ & Hw & Ht).
    specialize (IH ch1). destruct (send_frames frames ch1) as [ch'|e]; [|done]. destruct IH as [IH ->].
    split; [|done]. rewrite IH, Hw, <- app_assoc. done.
Qed.

(** Flushing the interface.  Whatever frames the network interface has
    queued, [send_pending] writes exactly their serialisations to the device, in
    order, and leaves the queue empty; only a fault of the kernel makes it
    throw. *)
Theorem send_pending_flushes (a : t) :
  Forall (fun f => zlen (frame_wire f) < 2147483648) (NetworkInterface.frames_out (_interface a)) ->
  match send_pending a with
  | Ok a' =>
      Channel.written (_tap a') =
        Channel.written (_tap a) ++ concat (map frame_wire (NetworkInterface.frames_out (_interface a))) /\
      NetworkInterface.frames_out (_interface a') = [] /\ base a' = base a /\ _next_hop a' = _next_hop a
  | Throw e => Channel.kernel_fault e
  end.
Proof.
  intros Hf. unfold send_pending. pose proof (send_frames_spec _ (_tap a) Hf) as H.
  destruct (send_frames _ _) as [ch|e]; cbn [obind]; [|done]. by destruct H.
Qed.

Definition demo_tap (writes : list sysret) : Channel.t :=
  Channel.mk (FDWrapper.mk 4 false false 0 0) [] writes [] [] [].

Definition demo_adapter : t :=
  mk FdAdapterBase.default (demo_tap [mkSys 10 0; mkSys 11 0; mkSys 21 0])
    (NetworkInterface.mk (be_bytes 6 1) (Address.inet 167772161 0) [EthernetFrame.sample; EthernetFrame.sample])
    (Address.inet 167772162 0).

Lemma send_pending_flushes_witness :
  match send_pending demo_adapter with
  | Ok a' =>
      Channel.written (_tap a') = frame_wire EthernetFrame.sample ++ frame_wire EthernetFrame.sample /\
      NetworkInterface.frames_out (_interface a') = [] /\ base a' = FdAdapterBase.default /\
      _next_hop a' = Address.inet 167772162 0
  | Throw e => Channel.kernel_fault e
  end.
Proof. apply (send_pending_flushes demo_adapter). repeat constructor. Defined.

(** With the placeholder interface nothing gets through: [read] never
    returns a segment, and [write] of a segment puts nothing on the device. *)
Theorem ethernet_adapter_silent (a : t) (seg : TCPSegment.t) :
  NetworkInterface.frames_out (_interface a) = [] ->
  match read a with Ok (s, _) => s = None | Throw _ => True end /\
  match write seg a with Ok a' => Channel.written (_tap a') = Channel.written (_tap a) | Throw _ => True end.
Proof.
  intros Hq. split.
  - unfold read. destruct (Channel.read _ _) as [[raw ch]|]; cbn [obind]; [|done].
    destruct (EthernetFrame.parse _ _) as [res frame]. case_bool_decide; [done|]. cbn [NetworkInterface.recv_frame].
    by destruct (send_pending _).
  - unfold write. destruct (TCPOverIPv4Adapter.wrap_tcp_in_ip _ _) as [[dgram ?]|]; cbn [obind]; [|done].
    unfold NetworkInterface.send_datagram. destruct (Address.ipv4_numeric _); cbn [obind]; [|done].
    unfold send_pending. destruct a as [b ch i nh]. cbn in *. unfold NetworkInterface.frames_out in *. by rewrite Hq.
Qed.

Lemma ethernet_adapter_silent_witness :
  let a := demo_adapter <| _interface := NetworkInterface.mk (be_bytes 6 1) (Address.inet 167772161 0) [] |> in
  match read a with Ok (s, _) => s = None | Throw _ => True end /\
  match write TCPSegment.sample a with Ok a' => Channel.written (_tap a') = Channel.written (_tap a) | Throw _ => True end.
Proof. apply ethernet_adapter_silent. reflexivity. Defined.

End EthernetAdapter.

(** ** The adapter over a UDP socket *)

Module UDPAdapter.

(** The socket with the answers the kernel is going to give and the addresses and
    payloads that [sendto] was called with. *)
Record t := mk {
  base : FdAdapterBase.t;
  _sock : FDWrapper.t;
  recvs : list recv_reply;
  sends : list sysret;
  sent : list (Endpoint.t * bytes) }.

#[global] Instance eta_t : Eta t := fun a => mk (base a) (_sock a) (recvs a) (sends a) (sent a).

(** No datagram is waiting on the non-blocking socket. *)
Definition nothing : recv_reply := mkRecv Channel.again [] [] 0.

Definition read (a : t) : outcome (option TCPSegment.t * t) :=
  let! (datagram, sock) := UDPSocket.recv (hd nothing (recvs a)) UDPSocket.MTU (_sock a) in
  let '(seg, b) := TCPOverUDPSocketAdapter.read (Address.endpoint (UDPSocket.source_address datagram))
                     (UDPSocket.payload datagram) (base a) in
  Ok (seg, a <| base := b |> <| _sock := sock |> <| recvs := tail (recvs a) |>).

Definition write (seg : TCPSegment.t) (a : t) : outcome t :=
  let! (destination, out, _) := TCPOverUDPSocketAdapter.write seg (base a) in
  let address := Address.of_endpoint destination in
  let payload := BufferViewList.of_buffers out in
  let! sock := UDPSocket.sendto (fun _ _ _ => hd Channel.again (sends a)) address payload (_sock a) in
  Ok (a <| _sock := sock |> <| sends := tail (sends a) |>
        <| sent := sent a ++ [(Address.endpoint address, concat payload)] |>).

#[global] Instance adapter : DatagramAdapter t := {
  adapter_fd := _sock;
  adapter_read := read;
  adapter_write := write;
  adapter_tick ms a := Ok (a <| base := FdAdapterBase.tick ms (base a) |>);
  adapter_config a := FdAdapterBase.config (base a);
  adapter_set_config c a := a <| base := (base a) <| FdAdapterBase._cfg := c |> |>;
  adapter_set_listening l a := a <| base := FdAdapterBase.set_listening l (base a) |> }.

#[global] Instance adapter_laws : DatagramAdapterLaws t.
Proof.
  intros a a' seg. cbn [adapter_read adapter_fd adapter]. unfold read, UDPSocket.recv.
  change (Address.of_sockaddr [] 0) with (Ok (Address.mk 0 Address.zeroed)). cbn [obind]. unfold UDPSocket.recv_into.
  destruct (SystemCall _ _ _) as [n|]; cbn [obind]; [|done]. destruct (_ <? n); cbn [obind]; [done|].
  destruct (Address.of_sockaddr _ _) as [src|]; cbn [obind]; [|done].
  destruct (TCPOverUDPSocketAdapter.read _ _ _) as [seg' b]. by intros [= <- <-].
Qed.

(** ** What it accepts and sends *)

(** A datagram from the configured destination is accepted as the
    segment it holds, whatever ports that segment names.  (The comment on
    [TCPOverUDPSocketAdapter::read] says that the ports are checked.) *)
Theorem udp_ports_unchecked (a : FdAdapterBase.t) (seg : TCPSegment.t) :
  FdAdapterBase.listening a = false -> TCPSegment.wf seg -> zlen (TCPSegment.wire 0 seg) < MAX64 ->
  exists c pl,
    TCPOverUDPSocketAdapter.read (FdAdapterBase.destination a) (TCPSegment.wire 0 seg) a =
      (Some (TCPSegment.mk ((TCPSegment.header seg) <| TCPHeader.cksum := c |>) pl), a) /\
    Buffer.str pl = Buffer.str (TCPSegment.payload seg).
Proof.
  intros Hl Hwf Hlen. unfold TCPOverUDPSocketAdapter.read. rewrite Hl. cbn [negb andb].
  rewrite bool_decide_eq_false_2 by auto.
  destruct (TCPSegment.wire_parse 0 seg TCPSegment.default (Buffer.of_string (TCPSegment.wire 0 seg)))
    as (c & pl & -> & _ & Hpl); [done|lia|apply Buffer.of_string_wf; lia|apply Buffer.str_of_string; lia|].
  by exists c, pl.
Qed.

Lemma udp_ports_unchecked_witness :
  exists c pl,
    TCPOverUDPSocketAdapter.read (FdAdapterBase.destination AdapterSpec.demo_a) (TCPSegment.wire 0 TCPSegment.sample) AdapterSpec.demo_a =
      (Some (TCPSegment.mk ((TCPSegment.header TCPSegment.sample) <| TCPHeader.cksum := c |>) pl), AdapterSpec.demo_a) /\
    Buffer.str pl = Buffer.str (TCPSegment.payload TCPSegment.sample).
Proof. apply udp_ports_unchecked; [reflexivity|apply TCPSegment.sample_wf|reflexivity]. Defined.

(** C21: a segment travels through two UDP sockets.  The adapters' addresses
    mirror each other, [b] is not listening, and the kernel takes the datagram and
    delivers it: what [write] on one side sends goes to the configured destination
    and is read on the other side as the same segment, with the ports of the
    connection filled in. *)
Theorem udp_roundtrip (a b : t) (seg : TCPSegment.t) (e e' : Z) (more : list recv_reply) :
  AdapterSpec.carries (base a) seg -> FdAdapterBase.source (base b) = FdAdapterBase.destination (base a) ->
  FdAdapterBase.destination (base b) = FdAdapterBase.source (base a) -> FdAdapterBase.listening (base b) = false ->
  hd Channel.again (sends a) = mkSys (zlen (TCPSegment.wire 0 (AdapterSpec.addressed seg (base a)))) e ->
  exists a' data seg' b',
    adapter_write seg a = Ok a' /\ sent a' = sent a ++ [(FdAdapterBase.destination (base a), data)] /\
    adapter_read (b <| recvs := SocketSpec.arrives (Endpoint.ipv4_numeric (FdAdapterBase.source (base a)))
                      (Endpoint.port (FdAdapterBase.source (base a))) data UDPSocket.MTU e' :: more |>) = Ok (Some seg', b') /\
    (TCPSegment.header seg') <| TCPHeader.cksum := 0 |> =
      (TCPSegment.header (AdapterSpec.addressed seg (base a))) <| TCPHeader.cksum := 0 |> /\
    Buffer.str (TCPSegment.payload seg') = Buffer.str (TCPSegment.payload seg) /\
    base b' = base b /\ recvs b' = more.
Proof.
  intros Hc Hsrc Hdst Hlis Hk. pose proof (AdapterSpec.addressed_wf _ _ Hc) as Hw.
  set (sg := AdapterSpec.addressed seg (base a)) in *.
  destruct (TCPSegment.serialize_wire 0 sg) as (bl & E & Hbl);
    [apply Hw|apply (TCPHeader.wf_doff _ (TCPSegment.wf_header _ Hw))|].
  pose proof (TCPSegment.wire_length 0 sg Hw) as Hlen.
  assert (zlen (TCPSegment.wire 0 sg) < MAX16) as Hfit.
  { rewrite Hlen. pose proof (AdapterSpec.carries_len _ _ Hc).
    change (TCPHeader.doff (TCPSegment.header sg)) with (TCPHeader.doff (TCPSegment.header seg)).
    change (TCPSegment.payload sg) with (TCPSegment.payload seg). lia. }
  destruct (udp_ports_unchecked (base b) sg) as (c & pl & Eread & Hpl); [done|done|lia|]. rewrite Hdst in Eread.
  eexists _, (TCPSegment.wire 0 sg), _, _. split; [|split; [|split]].
  - cbn [adapter_write adapter]. unfold write, TCPOverUDPSocketAdapter.write. cbv zeta. fold sg.
    fold (AdapterSpec.addressed seg (base a)). fold sg. rewrite E. cbn [obind].
    rewrite SocketSpec.sendto_spec; rewrite ?BufferViewList.concat_of_buffers, ?Hbl; [done|lia|].
    by rewrite Hk.
  - cbn [sent modify]. rewrite Address.endpoint_of_endpoint by apply Hc. done.
  - cbn [adapter_read adapter]. unfold read. cbn [modify recvs _sock base hd tail]. unfold UDPSocket.recv.
    change (Address.of_sockaddr [] 0) with (Ok (Address.mk 0 Address.zeroed)). cbn [obind].
    rewrite SocketSpec.udp_recv_spec by (unfold UDPSocket.MTU; lia).
    replace (zlen (TCPSegment.wire 0 sg) <=? UDPSocket.MTU) with true by (unfold UDPSocket.MTU; lia).
    cbn [obind UDPSocket.source_address UDPSocket.payload].
    change (Address.inet _ _) with (Address.of_endpoint (FdAdapterBase.source (base a))).
    rewrite Address.endpoint_of_endpoint by apply Hc. rewrite Eread. reflexivity.
  - done.
Qed.

Definition demo_wire : bytes := TCPSegment.wire 0 (AdapterSpec.addressed TCPSegment.sample AdapterSpec.demo_a).

Definition demo_a : t :=
  mk AdapterSpec.demo_a (FDWrapper.mk 5 false false 0 0) [] [mkSys (zlen demo_wire) 0] [].

Definition demo_b : t :=
  mk AdapterSpec.demo_b (FDWrapper.mk 6 false false 0 0)
    [SocketSpec.arrives 167772161 4000 demo_wire UDPSocket.MTU 0] [mkSys 20 0] [].

Lemma udp_roundtrip_witness :
  exists a' data seg' b',
    adapter_write TCPSegment.sample demo_a = Ok a' /\ sent a' = [(Endpoint.mk 167772162 80, data)] /\
    adapter_read (demo_b <| recvs := [SocketSpec.arrives 167772161 4000 data UDPSocket.MTU 0] |>) = Ok (Some seg', b') /\
    (TCPSegment.header seg') <| TCPHeader.cksum := 0 |> =
      (TCPSegment.header (AdapterSpec.addressed TCPSegment.sample (base demo_a))) <| TCPHeader.cksum := 0 |> /\
    Buffer.str (TCPSegment.payload seg') = Buffer.str (TCPSegment.payload TCPSegment.sample) /\
    base b' = base demo_b /\ recvs b' = [].
Proof.
  apply (udp_roundtrip demo_a demo_b TCPSegment.sample 0 0 []); [apply AdapterSpec.demo_carries|reflexivity..].
Defined.

End UDPAdapter.

(** ** The lossy wrapper around an adapter *)

Module LossyAdapter.
Section lossy.
Context {A : Type} `{DatagramAdapter A}.

(** [_rand] is the sequence of numbers the generator is going to give. *)
Record t := mk {
  _rand : list Z;
  _adapter : A }.

#[global] Instance eta_t : Eta t := fun l => mk (_rand l) (_adapter l).

(** [_should_drop] draws a number only when there is a loss rate. *)
Definition _should_drop (uplink : bool) (l : t) : bool * t :=
  let cfg := adapter_config (_adapter l) in
  let loss := if uplink then FdAdapterConfig.loss_rate_up cfg else FdAdapterConfig.loss_rate_dn cfg in
  if loss =? 0 then (false, l)
  else (LossyFdAdapter._should_drop uplink (hd 0 (_rand l)) cfg, l <| _rand := tail (_rand l) |>).

Definition read (l : t) : outcome (option TCPSegment.t * t) :=
  let! (ret, a) := adapter_read (_adapter l) in
  let '(drop, l) := _should_drop false (l <| _adapter := a |>) in
  Ok (if drop then None else ret, l).

Definition write (seg : TCPSegment.t) (l : t) : outcome t :=
  let '(drop, l) := _should_drop true l in
  if drop then Ok l
  else
    let! a := adapter_write seg (_adapter l) in
    Ok (l <| _adapter := a |>).

#[global] Instance adapter : DatagramAdapter t := {
  adapter_fd l := adapter_fd (_adapter l);
  adapter_read := read;
  adapter_write := write;
  adapter_tick ms l := let! a := adapter_tick ms (_adapter l) in Ok (l <| _adapter := a |>);
  adapter_config l := adapter_config (_adapter l);
  adapter_set_config c l := l <| _adapter := adapter_set_config c (_adapter l) |>;
  adapter_set_listening b l := l <| _adapter := adapter_set_listening b (_adapter l) |> }.

(** ** The lossy adapter *)

Lemma should_drop_adapter uplink l : _adapter (_should_drop uplink l).2 = _adapter l.
Proof. unfold _should_drop. cbv zeta. by destruct (_ =? 0). Qed.

#[global] Instance adapter_laws `{!DatagramAdapterLaws A} : DatagramAdapterLaws t.
Proof.
  intros l l' seg. cbn. unfold read. destruct (adapter_read _) as [[ret a]|] eqn:E; cbn [obind]; [|done].
  apply adapter_read_counts in E. pose proof (should_drop_adapter false (l <| _adapter := a |>)) as Hd.
  destruct (_should_drop _ _) as [drop l1]. cbn [snd modify _adapter] in Hd. intros [= <- <-]. by rewrite Hd.
Qed.

(** Without loss rates the wrapper changes nothing: reading, writing and
    every other operation do what the wrapped adapter does, and no random number
    is drawn. *)
Theorem lossless_transparent (rand : list Z) (a : A) (seg : TCPSegment.t) :
  FdAdapterConfig.loss_rate_up (adapter_config a) = 0 ->
  (forall s a', adapter_read a = Ok (s, a') -> FdAdapterConfig.loss_rate_dn (adapter_config a') = 0) ->
  adapter_write seg (mk rand a) = (let! a' := adapter_write seg a in Ok (mk rand a')) /\
  adapter_read (mk rand a) = (let! (s, a') := adapter_read a in Ok (s, mk rand a')).
Proof.
  intros Hup Hdn. split; cbn.
  - unfold write, _should_drop. cbn [_adapter]. rewrite Hup. reflexivity.
  - unfold read. cbn [_adapter]. destruct (adapter_read a) as [[s a']|]; cbn [obind]; [|done].
    unfold _should_drop. cbn [modify _adapter]. by rewrite (Hdn s a').
Qed.

(** In general a datagram is either passed through or dropped without a trace. *)
Lemma lossy_write_spec seg l :
  (exists l', write seg l = Ok l' /\ _adapter l' = _adapter l) \/
  match adapter_write seg (_adapter l) with
  | Ok a' => exists l', write seg l = Ok l' /\ _adapter l' = a'
  | Throw e => write seg l = Throw e
  end.
Proof.
  unfold write. pose proof (should_drop_adapter true l) as Hd. destruct (_should_drop true l) as [[] l1]; cbn in Hd.
  - left. by exists l1.
  - right. rewrite Hd. destruct (adapter_write _ _); cbn [obind]; [|done]. by eexists.
Qed.

End lossy.
Arguments t : clear implicits.

Lemma lossless_transparent_witness :
  let a := UDPAdapter.demo_b in
  let seg := TCPSegment.default in
  adapter_write seg (mk [3; 4] a) = (let! a' := adapter_write seg a in Ok (mk [3; 4] a')) /\
  adapter_read (mk [3; 4] a) = (let! (s, a') := adapter_read a in Ok (s, mk [3; 4] a')).
Proof. apply lossless_transparent; [reflexivity|]. intros s a'. vm_compute. by intros [= <- <-]. Defined.

End LossyAdapter.
