(* ===== verification/StreamCopy.v ===== *)
(** * Copying between a socket and the terminal: [apps/bidirectional_stream_copy.cc]

    The four rules the function adds to its event loop, over the variables they
    capture.  The theorem says that the two copies lose, repeat and reorder
    nothing, however the kernel cuts reads and writes. *)
From S2P Require Import Prelude ByteStream Buffer FileDescriptor EventLoop Channel.

Module StreamCopy.

Record t := mk {
  socket : Channel.t;
  _input : Channel.t;
  _output : Channel.t;
  _outbound : ByteStream.t;
  _inbound : ByteStream.t;
  _outbound_shutdown : bool;
  _inbound_shutdown : bool }.

#[global] Instance eta_t : Eta t := fun s =>
  mk (socket s) (_input s) (_output s) (_outbound s) (_inbound s) (_outbound_shutdown s) (_inbound_shutdown s).

Definition max_copy_length : Z := 65536.
Definition buffer_size : Z := 1048576.

Definition make (socket _input _output : Channel.t) : t :=
  mk socket _input _output (ByteStream.make buffer_size) (ByteStream.make buffer_size) false false.

(** Rule 1: read from stdin into outbound byte stream. *)
Definition input_callback (s : t) : outcome t :=
  let! (data, c) := Channel.read (ByteStream.remaining_capacity (_outbound s)) (_input s) in
  let s := s <| _input := c |> <| _outbound := (ByteStream.write data (_outbound s)).2 |> in
  Ok (if FileDescriptor.eof (Channel.fd (_input s))
      then s <| _outbound := ByteStream.end_input (_outbound s) |> else s).

Definition input_interest (s : t) : bool :=
  negb (ByteStream.error (_outbound s)) && (0 <? ByteStream.remaining_capacity (_outbound s))
  && negb (ByteStream.error (_inbound s)).

(** Rule 2: read from outbound byte stream into socket. *)
Definition outbound_callback (s : t) : outcome t :=
  let bytes_to_write := Z.min max_copy_length (ByteStream.buffer_size (_outbound s)) in
  let! (bytes_written, c) := Channel.write (ByteStream.peek_output bytes_to_write (_outbound s)) (socket s) in
  let s := s <| socket := c |> <| _outbound := ByteStream.pop_output bytes_written (_outbound s) |> in
  if ByteStream.eof (_outbound s) then
    let! c := Channel.shutdown Channel.SHUT_WR (socket s) in
    Ok (s <| socket := c |> <| _outbound_shutdown := true |>)
  else Ok s.

Definition outbound_interest (s : t) : bool :=
  negb (ByteStream.buffer_empty (_outbound s)) || (ByteStream.eof (_outbound s) && negb (_outbound_shutdown s)).

(** Rule 3: read from socket into inbound byte stream. *)
Definition socket_callback (s : t) : outcome t :=
  let! (data, c) := Channel.read (ByteStream.remaining_capacity (_inbound s)) (socket s) in
  let s := s <| socket := c |> <| _inbound := (ByteStream.write data (_inbound s)).2 |> in
  Ok (if FileDescriptor.eof (Channel.fd (socket s))
      then s <| _inbound := ByteStream.end_input (_inbound s) |> else s).

Definition socket_interest (s : t) : bool :=
  negb (ByteStream.error (_inbound s)) && (0 <? ByteStream.remaining_capacity (_inbound s))
  && negb (ByteStream.error (_outbound s)).

(** Rule 4: read from inbound byte stream into stdout. *)
Definition inbound_callback (s : t) : outcome t :=
  let bytes_to_write := Z.min max_copy_length (ByteStream.buffer_size (_inbound s)) in
  let! (bytes_written, c) := Channel.write (ByteStream.peek_output bytes_to_write (_inbound s)) (_output s) in
  let s := s <| _output := c |> <| _inbound := ByteStream.pop_output bytes_written (_inbound s) |> in
  if ByteStream.eof (_inbound s) then
    let! c := Channel.close (_output s) in
    Ok (s <| _output := c |> <| _inbound_shutdown := true |>)
  else Ok s.

Definition inbound_interest (s : t) : bool :=
  negb (ByteStream.buffer_empty (_inbound s)) || (ByteStream.eof (_inbound s) && negb (_inbound_shutdown s)).

Definition end_outbound (s : t) : outcome t := Ok (s <| _outbound := ByteStream.end_input (_outbound s) |>).
Definition end_inbound (s : t) : outcome t := Ok (s <| _inbound := ByteStream.end_input (_inbound s) |>).

Definition rules : list (EventLoop.Rule t) :=
  let rules := [] in
  let rules := EventLoop.add_rule (fun s => Channel.fd (_input s)) EventLoop.In
                 input_callback input_interest end_outbound rules in
  let rules := EventLoop.add_rule (fun s => Channel.fd (socket s)) EventLoop.Out
                 outbound_callback outbound_interest end_outbound rules in
  let rules := EventLoop.add_rule (fun s => Channel.fd (socket s)) EventLoop.In
                 socket_callback socket_interest end_inbound rules in
  EventLoop.add_rule (fun s => Channel.fd (_output s)) EventLoop.Out
    inbound_callback inbound_interest end_inbound rules.

(** Loop until completion, one answer of [poll] per round; the flag says that the
    function has returned. *)
Fixpoint copy_loop (polls : list (list EventLoop.pollfd -> EventLoop.poll_reply))
    (rules : list (EventLoop.Rule t)) (s : t) : outcome (bool * t) :=
  match polls with
  | [] => Ok (false, s)
  | poll :: polls =>
      let! (result, rules, s) := EventLoop.wait_next_event poll rules s in
      match result with
      | EventLoop.Exit => Ok (true, s)
      | _ => copy_loop polls rules s
      end
  end.

(** The whole function; [flags] are the answers to the six calls of [fcntl]. *)
Definition bidirectional_stream_copy (flags : list (sysret * sysret))
    (polls : list (list EventLoop.pollfd -> EventLoop.poll_reply)) (socket _input _output : Channel.t) :
    outcome (bool * t) :=
  let set_blocking i :=
    let f := nth i flags (mkSys 0 0, mkSys 0 0) in FileDescriptor.set_blocking f.1 f.2 false in
  let! _ := set_blocking 0%nat in
  let! _ := set_blocking 1%nat in
  let! _ := set_blocking 2%nat in
  copy_loop polls rules (make socket _input _output).

(** ** Conservation of data *)

(** What went into a byte stream from [src] is what came out to [dst] and what it
    still holds; once its input has ended, further input is dropped. *)
Record conserved (src dst : bytes) (st : ByteStream.t) : Prop := {
  conserved_wf : ByteStream.wf st;
  conserved_open : ByteStream.input_ended st = false -> src = dst ++ ByteStream._buffer st;
  conserved_prefix : exists lost, src = dst ++ ByteStream._buffer st ++ lost }.

Lemma conserved_write src dst st data :
  conserved src dst st -> zlen data <= ByteStream.remaining_capacity st ->
  conserved (src ++ data) dst (ByteStream.write data st).2.
Proof.
  intros [Hwf Ho [lost Hl]] Hd. destruct (ByteStream.input_ended st) eqn:E.
  - unfold ByteStream.write. rewrite E. split; cbn [snd]; [done|congruence|].
    exists (lost ++ data). by rewrite Hl, <- !app_assoc.
  - rewrite ByteStream.write_fits by done. split.
    + by apply ByteStream.append_wf.
    + intros _. simpl. rewrite Ho by done. by rewrite <- app_assoc.
    + exists []. simpl. rewrite Ho by done. by rewrite app_nil_r, <- app_assoc.
Qed.

Lemma conserved_end src dst st : conserved src dst st -> conserved src dst (ByteStream.end_input st).
Proof. intros [Hwf Ho Hl]. split; [by apply ByteStream.end_input_wf|done|done]. Qed.

Lemma conserved_pop src dst st n k :
  conserved src dst st -> 0 <= k -> 0 <= n <= zlen (ByteStream.peek_output k st) ->
  conserved src (dst ++ ztake n (ByteStream.peek_output k st)) (ByteStream.pop_output n st).
Proof.
  intros [Hwf Ho [lost Hl]] Hk Hn. pose proof (zlen_nonneg (ByteStream._buffer st)).
  assert (ztake n (ByteStream.peek_output k st) ++ ByteStream._buffer (ByteStream.pop_output n st) = ByteStream._buffer st) as E.
  { unfold ByteStream.peek_output, ByteStream.pop_output in *. simpl in *. rewrite zlen_ztake in Hn.
    rewrite ztake_ztake, zdrop_clip, Z.min_l by lia. apply ztake_zdrop. }
  split.
  - by apply ByteStream.pop_output_wf.
  - intros Hopen. rewrite <- app_assoc, E. by apply Ho.
  - exists lost. by rewrite <- app_assoc, (app_assoc (ztake _ _)), E.
Qed.

Record copying (s : t) : Prop := {
  copy_outbound : conserved (Channel.taken (_input s)) (Channel.written (socket s)) (_outbound s);
  copy_inbound : conserved (Channel.taken (socket s)) (Channel.written (_output s)) (_inbound s) }.

Lemma make_copying socket _input _output :
  Channel.taken _input = [] -> Channel.written socket = [] -> Channel.taken socket = [] ->
  Channel.written _output = [] -> copying (make socket _input _output).
Proof.
  intros E1 E2 E3 E4. split; simpl; rewrite ?E1, ?E2, ?E3, ?E4; split; try done;
    try (by apply ByteStream.make_wf); by exists [].
Qed.

Lemma peek_small k st : 0 <= k -> zlen (ByteStream.peek_output (Z.min max_copy_length k) st) < 2147483648.
Proof. intros. unfold ByteStream.peek_output, max_copy_length. zlia. Qed.

Ltac kept := split; simpl in *; done.

Lemma input_rule s : copying s ->
  match input_callback s with
  | Ok s' => copying s' /\ FDWrapper._read_count (Channel.fd (_input s')) = u32 (FDWrapper._read_count (Channel.fd (_input s)) + 1)
  | Throw e => Channel.kernel_fault e
  end.
Proof.
  intros [Ho Hi]. unfold input_callback.
  pose proof (ByteStream.remaining_capacity_range _ (conserved_wf _ _ _ Ho)) as Hr.
  pose proof (Channel.read_spec (ByteStream.remaining_capacity (_outbound s)) (_input s)) as Hc.
  destruct (Channel.read _ _) as [[data c]|e]; cbn [obind]; [|apply Hc; lia].
  destruct Hc as (Hd & Ht & Hw & Hn); [lia|].
  apply (conserved_write _ _ _ data) in Ho; [|done]. rewrite <- Ht in Ho.
  destruct s. simpl in *. destruct (FileDescriptor.eof _); simpl; (split; [|done]).
  - split; simpl; [by apply conserved_end|done].
  - kept.
Qed.

Lemma outbound_rule s : copying s ->
  match outbound_callback s with
  | Ok s' => copying s' /\ FDWrapper._write_count (Channel.fd (socket s)) <> FDWrapper._write_count (Channel.fd (socket s'))
  | Throw e => Channel.kernel_fault e
  end.
Proof.
  intros [Ho Hi]. unfold outbound_callback. destruct s as [sk inp outp ob ib osd isd]. cbn [_outbound socket] in *.
  assert (0 <= ByteStream.buffer_size ob) as Hb by apply zlen_nonneg.
  set (k := Z.min max_copy_length (ByteStream.buffer_size ob)) in *.
  assert (0 <= k) as Hk by (unfold k, max_copy_length; lia).
  pose proof (Channel.write_spec (ByteStream.peek_output k ob) sk (peek_small _ ob Hb)) as Hc.
  destruct (Channel.write _ _) as [[n c]|e]; cbn [obind]; [|done].
  destruct Hc as (Hn & Hw & Ht & Hfd).
  pose proof (conserved_pop _ _ _ n k Ho Hk Hn) as Ho'. rewrite <- Hw in Ho'. rewrite <- Ht in Hi. simpl.
  destruct (ByteStream.eof _).
  - pose proof (Channel.shutdown_spec c) as Hs. destruct (Channel.shutdown _ _) as [c'|]; cbn [obind]; [|done].
    destruct Hs as (Hw' & Ht' & Hfd'). rewrite <- Hw' in Ho'. rewrite <- Ht' in Hi. simpl. split; [kept|].
    rewrite Hfd', Hfd. apply Channel.count_changes_twice.
  - split; [kept|]. simpl. rewrite Hfd. apply Channel.count_changes.
Qed.

Lemma socket_rule s : copying s ->
  match socket_callback s with
  | Ok s' => copying s' /\ FDWrapper._read_count (Channel.fd (socket s')) = u32 (FDWrapper._read_count (Channel.fd (socket s)) + 1)
  | Throw e => Channel.kernel_fault e
  end.
Proof.
  intros [Ho Hi]. unfold socket_callback.
  pose proof (ByteStream.remaining_capacity_range _ (conserved_wf _ _ _ Hi)) as Hr.
  pose proof (Channel.read_spec (ByteStream.remaining_capacity (_inbound s)) (socket s)) as Hc.
  destruct (Channel.read _ _) as [[data c]|e]; cbn [obind]; [|apply Hc; lia].
  destruct Hc as (Hd & Ht & Hw & Hn); [lia|].
  apply (conserved_write _ _ _ data) in Hi; [|done]. rewrite <- Ht in Hi. rewrite <- Hw in Ho.
  destruct s. simpl in *. destruct (FileDescriptor.eof _); simpl; (split; [|done]).
  - split; simpl; [done|by apply conserved_end].
  - kept.
Qed.

Lemma inbound_rule s : copying s ->
  match inbound_callback s with
  | Ok s' => copying s' /\ FDWrapper._write_count (Channel.fd (_output s)) <> FDWrapper._write_count (Channel.fd (_output s'))
  | Throw e => Channel.kernel_fault e
  end.
Proof.
  intros [Ho Hi]. unfold inbound_callback. destruct s as [sk inp outp ob ib osd isd]. cbn [_inbound _output] in *.
  assert (0 <= ByteStream.buffer_size ib) as Hb by apply zlen_nonneg.
  set (k := Z.min max_copy_length (ByteStream.buffer_size ib)) in *.
  assert (0 <= k) as Hk by (unfold k, max_copy_length; lia).
  pose proof (Channel.write_spec (ByteStream.peek_output k ib) outp (peek_small _ ib Hb)) as Hc.
  destruct (Channel.write _ _) as [[n c]|e]; cbn [obind]; [|done].
  destruct Hc as (Hn & Hw & Ht & Hfd).
  pose proof (conserved_pop _ _ _ n k Hi Hk Hn) as Hi'. rewrite <- Hw in Hi'. simpl.
  destruct (ByteStream.eof _).
  - pose proof (Channel.close_spec c) as Hs. destruct (Channel.close _) as [c'|]; cbn [obind]; [|done].
    destruct Hs as (Hw' & Ht' & Hfd'). rewrite <- Hw' in Hi'. simpl. split; [kept|].
    rewrite Hfd', Hfd. apply Channel.count_changes.
  - split; [kept|]. simpl. rewrite Hfd. apply Channel.count_changes.
Qed.

Lemma rules_handled : EventLoop.client copying Channel.kernel_fault (EventLoop.unguarded rules).
Proof.
  assert (forall s, copying s -> copying (s <| _outbound := ByteStream.end_input (_outbound s) |>) /\
                                 copying (s <| _inbound := ByteStream.end_input (_inbound s) |>)) as Hend.
  { intros [] [Ho Hi]. split; split; simpl in *; try done; by apply conserved_end. }
  assert (forall s, copying s -> match end_outbound s with Ok s' => copying s' | Throw _ => False end) as Ho
    by (intros s Hs; by apply Hend).
  assert (forall s, copying s -> match end_inbound s with Ok s' => copying s' | Throw _ => False end) as Hi
    by (intros s Hs; by apply Hend).
  apply EventLoop.unguarded_client. unfold rules, EventLoop.add_rule. cbn [app]. pose proof Channel.count_changes as Hcount.
  apply Forall_cons_2; [|apply Forall_cons_2; [|apply Forall_cons_2; [|apply Forall_cons_2; [|apply Forall_nil_2]]]].
  - split; [done| |exact Ho]. intros s Hs _. pose proof (input_rule s Hs) as H. cbn [EventLoop.callback fst].
    destruct (input_callback s); [|done]. destruct H as [? H]. split; [done|]. left. intros E. by apply (Hcount _ (eq_trans E H)).
  - split; [done| |exact Ho]. intros s Hs _. pose proof (outbound_rule s Hs) as H. cbn [EventLoop.callback fst].
    destruct (outbound_callback s); [|done]. destruct H. split; [done|]. by left.
  - split; [done| |exact Hi]. intros s Hs _. pose proof (socket_rule s Hs) as H. cbn [EventLoop.callback fst].
    destruct (socket_callback s); [|done]. destruct H as [? H]. split; [done|]. left. intros E. by apply (Hcount _ (eq_trans E H)).
  - split; [done| |exact Hi]. intros s Hs _. pose proof (inbound_rule s Hs) as H. cbn [EventLoop.callback fst].
    destruct (inbound_callback s); [|done]. destruct H. split; [done|]. by left.
Qed.

Lemma copy_loop_copying polls specs s :
  EventLoop.client copying Channel.kernel_fault specs -> Forall EventLoop.poll_clean polls -> copying s ->
  match copy_loop polls (map fst specs) s with Ok (_, s') => copying s' | Throw e => Channel.kernel_fault e end.
Proof.
  intros Hr Hp. revert specs s Hr. induction Hp as [|poll polls Hpoll _ IH]; intros specs s Hr Hs; simpl; [done|].
  pose proof (EventLoop.wait_next_event_keeps copying Channel.kernel_fault poll specs s Hr Hpoll Hs) as H.
  destruct (EventLoop.wait_next_event _ _ _) as [[[res kept] s']|]; cbn [obind]; [|done].
  destruct H as (Hs' & specs' & Hsub & ->). pose proof (EventLoop.client_sublist _ _ _ _ Hsub Hr).
  destruct res; try done; by apply IH.
Qed.

Lemma set_blocking_fault a b state :
  match FileDescriptor.set_blocking a b state with Ok _ => True | Throw e => Channel.kernel_fault e end.
Proof.
  unfold FileDescriptor.set_blocking. pose proof (Channel.system_call_fault "fcntl" a 0) as Ha.
  destruct (SystemCall "fcntl" a 0); cbn [obind]; [|done]. cbv zeta.
  match goal with |- context [SystemCall "fcntl" b ?m] => pose proof (Channel.system_call_fault "fcntl" b m) as Hb end.
  by destruct (SystemCall "fcntl" b _).
Qed.

(** The function from any descriptors whose data is accounted for. *)
Lemma bidirectional_copying flags polls sock inp outp :
  Forall EventLoop.poll_clean polls -> copying (make sock inp outp) ->
  match bidirectional_stream_copy flags polls sock inp outp with
  | Ok (_, s) => copying s
  | Throw e => Channel.kernel_fault e
  end.
Proof.
  intros Hp Hc. unfold bidirectional_stream_copy. cbv zeta.
  do 3 (match goal with |- context [FileDescriptor.set_blocking ?a ?b ?c] =>
          pose proof (set_blocking_fault a b c); destruct (FileDescriptor.set_blocking a b c); cbn [obind]; [|done] end).
  pose proof (copy_loop_copying polls _ (make sock inp outp) rules_handled Hp) as Hl.
  rewrite EventLoop.unguarded_rules in Hl. by apply Hl.
Qed.

(** Whatever [poll] answers, the data stays accounted for. *)
Lemma rules_keep : Forall (EventLoop.keeps copying) rules.
Proof.
  pose proof (EventLoop.client_handles _ _ _ rules_handled) as Hh. unfold EventLoop.unguarded in Hh.
  rewrite Forall_map in Hh. eapply Forall_impl; [exact Hh|]. intros r. apply EventLoop.handles_keeps.
Qed.

Lemma copy_loop_keeps polls : forall rules s,
  Forall (EventLoop.keeps copying) rules -> copying s ->
  match copy_loop polls rules s with Ok (_, s') => copying s' | Throw _ => True end.
Proof.
  induction polls as [|poll polls IH]; intros rules s Hk Hs; cbn [copy_loop]; [done|].
  pose proof (EventLoop.wait_next_event_invariant copying poll rules s Hk Hs) as H.
  destruct (EventLoop.wait_next_event _ _ _) as [[[res kept] s']|]; cbn [obind]; [|done].
  destruct H as [Hs' Hk']. destruct res; [by apply IH..|done].
Qed.

(** ** Property *)

(** C19: the copies are faithful.  However the kernel cuts the reads and writes and
    whatever it reports as ready, what has been written to the socket is at every
    moment the beginning of what was read from the terminal, and equals it up to
    the bytes still buffered as long as the stream is open; the same from the
    socket to the terminal.  Only an error of a system call can end the function
    by an exception: the event loop never detects a busy wait. *)
Theorem stream_copy_faithful (flags : list (sysret * sysret))
    (polls : list (list EventLoop.pollfd -> EventLoop.poll_reply)) (sock inp outp : Channel.t) :
  Channel.taken inp = [] -> Channel.written sock = [] -> Channel.taken sock = [] -> Channel.written outp = [] ->
  Forall EventLoop.poll_clean polls ->
  match bidirectional_stream_copy flags polls sock inp outp with
  | Ok (_, s) =>
      conserved (Channel.taken (_input s)) (Channel.written (socket s)) (_outbound s) /\
      conserved (Channel.taken (socket s)) (Channel.written (_output s)) (_inbound s)
  | Throw e => Channel.kernel_fault e
  end.
Proof.
  intros E1 E2 E3 E4 Hp. pose proof (bidirectional_copying flags polls sock inp outp Hp) as H.
  destruct (bidirectional_stream_copy _ _ _ _ _) as [[b s]|e]; [|apply H; by apply make_copying].
  destruct H as [Ho Hi]; [by apply make_copying|]. done.
Qed.

(** A run: two bytes and end of file on the terminal, a short write to the socket. *)
Definition demo_in : Channel.t :=
  Channel.mk (FDWrapper.mk 0 false false 0 0)
    [mkRead (mkSys 2 0) (str "hi"); mkRead (mkSys 0 0) []] [] [] [] [].
Definition demo_out : Channel.t := Channel.mk (FDWrapper.mk 1 false false 0 0) [] [] [] [] [].
Definition demo_socket : Channel.t :=
  Channel.mk (FDWrapper.mk 4 false false 0 0) [mkRead (mkSys 3 0) (str "yes")] [mkSys 1 0; mkSys 1 0] [] [] [].

Definition demo_polls : list (list EventLoop.pollfd -> EventLoop.poll_reply) :=
  [EventLoop.demo_poll [1; 0; 0; 0]; EventLoop.demo_poll [0; 4; 1; 0]; EventLoop.demo_poll [1; 4; 0; 0]].

Lemma demo_polls_clean : Forall EventLoop.poll_clean demo_polls.
Proof.
  assert (forall rs, Forall (fun v => EventLoop.has v (Z.lor EventLoop.POLLERR EventLoop.POLLNVAL) = false) rs ->
    EventLoop.poll_clean (EventLoop.demo_poll rs)) as H by apply EventLoop.demo_poll_clean.
  repeat (apply Forall_cons_2; [apply H; repeat (apply Forall_cons_2; [reflexivity|]); apply Forall_nil_2|]).
  apply Forall_nil_2.
Qed.

Lemma stream_copy_faithful_witness :
  match bidirectional_stream_copy [] demo_polls demo_socket demo_in demo_out with
  | Ok (_, s) =>
      conserved (Channel.taken (_input s)) (Channel.written (socket s)) (_outbound s) /\
      conserved (Channel.taken (socket s)) (Channel.written (_output s)) (_inbound s)
  | Throw e => Channel.kernel_fault e
  end.
Proof. apply stream_copy_faithful; [reflexivity..|apply demo_polls_clean]. Defined.

Example demo_copied :
  match bidirectional_stream_copy [] demo_polls demo_socket demo_in demo_out with
  | Ok (_, s) => Channel.written (socket s) = str "hi" /\ ByteStream.input_ended (_outbound s) = true
  | Throw _ => False
  end.
Proof. vm_compute. done. Qed.

End StreamCopy.
