(* ===== verification/SpongeSocket.v ===== *)
(** * The TCP thread of a socket: [tcp_helpers/tcp_sponge_socket.hh/.cc]

    [TCPSpongeSocket] runs a [TCPConnection] between the owner's stream (a
    [Channel]) and a datagram adapter (the template parameter [AdaptT], here the
    class [DatagramAdapter]).  The four rules of its event loop are the only way
    the parts meet.  The theorem shows that whatever the loop does is a behaviour
    of one endpoint of [Network]: the contract of [Network.v] is the contract of
    the socket.  [_tcp_main] is what the thread runs; [Programs.v] starts and joins
    it. *)
From stdpp Require Import relations.
From S2P Require Import Prelude WrappingIntegers ByteStream OrderedMap StreamReassembler Buffer.
From S2P Require Import Parser Checksum TCPSegment IPv4 Adapter TCPReceiver TCPSender TCPConnection.
From S2P Require Import FileDescriptor EventLoop Channel DatagramAdapter Network Outbound.

Module TCPSpongeSocket.

Section socket.
Context {A : Type} `{DatagramAdapter A}.

(** The base class's own descriptor (the owner's end) is [_owner]. *)
Record t := mk {
  _owner : Channel.t;
  _thread_data : Channel.t;
  _datagram_adapter : A;
  _tcp : option TCPConnection.t;
  _abort : bool;
  _inbound_shutdown : bool;
  _outbound_shutdown : bool;
  _fully_acked : bool }.

#[global] Instance eta_t : Eta t := fun s =>
  mk (_owner s) (_thread_data s) (_datagram_adapter s) (_tcp s) (_abort s) (_inbound_shutdown s)
     (_outbound_shutdown s) (_fully_acked s).

(** [_tcp.value()]. *)
Definition tcp (s : t) : outcome TCPConnection.t :=
  match _tcp s with Some c => Ok c | None => Throw (runtime_error "bad optional access") end.

(** Rule 1: read from filtered packet stream and dump into TCPConnection. *)
Definition datagram_in_callback (s : t) : outcome t :=
  let! (seg, a) := adapter_read (_datagram_adapter s) in
  let! c := tcp s in
  let c := match seg with Some seg => TCPConnection.segment_received seg c | None => c end in
  let s := s <| _datagram_adapter := a |> <| _tcp := Some c |> in
  Ok (if FileDescriptor.eof (Channel.fd (_thread_data s)) && (TCPConnection.bytes_in_flight c =? 0)
         && negb (_fully_acked s)
      then s <| _fully_acked := true |> else s).

Definition datagram_in_interest (s : t) : bool :=
  match _tcp s with Some c => TCPConnection.active c | None => false end.

(** Rule 2: read from pipe into outbound buffer. *)
Definition owner_in_callback (s : t) : outcome t :=
  let! c := tcp s in
  let! (data, ch) := Channel.read (TCPConnection.remaining_outbound_capacity c) (_thread_data s) in
  let len := zlen data in
  let '(amount_written, c) := TCPConnection.write data c in
  if negb (amount_written =? len)
  then Throw (runtime_error "TCPConnection::write() accepted less than advertised length")
  else
    let s := s <| _thread_data := ch |> <| _tcp := Some c |> in
    Ok (if FileDescriptor.eof (Channel.fd ch)
        then s <| _tcp := Some (TCPConnection.end_input_stream c) |> <| _outbound_shutdown := true |>
        else s).

Definition owner_in_interest (s : t) : bool :=
  match _tcp s with
  | Some c => TCPConnection.active c && negb (_outbound_shutdown s)
              && (0 <? TCPConnection.remaining_outbound_capacity c)
  | None => false
  end.

Definition owner_in_cancel (s : t) : outcome t :=
  let! c := tcp s in
  Ok (s <| _tcp := Some (TCPConnection.end_input_stream c) |> <| _outbound_shutdown := true |>).

(** Rule 3: read from inbound buffer into pipe. *)
Definition owner_out_callback (s : t) : outcome t :=
  let! c := tcp s in
  let inbound := TCPConnection.inbound_stream c in
  let amount_to_write := Z.min 65536 (ByteStream.buffer_size inbound) in
  let buffer := ByteStream.peek_output amount_to_write inbound in
  let! (bytes_written, ch) := Channel.write buffer (_thread_data s) in
  let c := TCPConnection.with_inbound (ByteStream.pop_output bytes_written) c in
  let s := s <| _thread_data := ch |> <| _tcp := Some c |> in
  let inbound := TCPConnection.inbound_stream c in
  if ByteStream.eof inbound || ByteStream.error inbound then
    let! ch := Channel.shutdown Channel.SHUT_WR ch in
    Ok (s <| _thread_data := ch |> <| _inbound_shutdown := true |>)
  else Ok s.

Definition owner_out_interest (s : t) : bool :=
  match _tcp s with
  | Some c =>
      let inbound := TCPConnection.inbound_stream c in
      negb (ByteStream.buffer_empty inbound)
      || ((ByteStream.eof inbound || ByteStream.error inbound) && negb (_inbound_shutdown s))
  | None => false
  end.

(** Rule 4: read outbound segments from TCPConnection and send as datagrams. *)
Fixpoint send_all (segments_out : list TCPSegment.t) (a : A) : outcome A :=
  match segments_out with
  | [] => Ok a
  | seg :: rest => let! a := adapter_write seg a in send_all rest a
  end.

Definition datagram_out_callback (s : t) : outcome t :=
  let! c := tcp s in
  let! a := send_all (TCPConnection._segments_out c) (_datagram_adapter s) in
  Ok (s <| _datagram_adapter := a |> <| _tcp := Some (c <| TCPConnection._segments_out := [] |>) |>).

Definition datagram_out_interest (s : t) : bool :=
  match _tcp s with Some c => negb (zlen (TCPConnection._segments_out c) =? 0) | None => false end.

(** The default cancellation callback. *)
Definition no_cancel (s : t) : outcome t := Ok s.

(** [_initialize_TCP]; [random] is the number the sender's constructor draws. *)
Definition rules : list (EventLoop.Rule t) :=
  let rules := [] in
  let rules := EventLoop.add_rule (fun s => adapter_fd (_datagram_adapter s)) EventLoop.In
                 datagram_in_callback datagram_in_interest no_cancel rules in
  let rules := EventLoop.add_rule (fun s => Channel.fd (_thread_data s)) EventLoop.In
                 owner_in_callback owner_in_interest owner_in_cancel rules in
  let rules := EventLoop.add_rule (fun s => Channel.fd (_thread_data s)) EventLoop.Out
                 owner_out_callback owner_out_interest no_cancel rules in
  EventLoop.add_rule (fun s => adapter_fd (_datagram_adapter s)) EventLoop.Out
    datagram_out_callback datagram_out_interest no_cancel rules.

Definition _initialize_TCP (config : TCPConfig.t) (random : Z) (s : t) : list (EventLoop.Rule t) * t :=
  (rules, s <| _tcp := Some (TCPConnection.make config random) |>).

(** What happens around one round of the loop: the answer of [poll], whether the
    owner has set [_abort], and the clock. *)
Record round := mkRound {
  round_poll : list EventLoop.pollfd -> EventLoop.poll_reply;
  round_abort : bool;
  round_time : Z }.

(** [_tcp_loop]; the flag says that the loop has ended. *)
Fixpoint _tcp_loop (condition : t -> bool) (rounds : list round) (base_time : Z)
    (rules : list (EventLoop.Rule t)) (s : t) : outcome (bool * list (EventLoop.Rule t) * t) :=
  match rounds with
  | [] => Ok (negb (condition s), rules, s)
  | r :: rounds =>
      if negb (condition s) then Ok (true, rules, s)
      else
        let! (ret, rules, s) := EventLoop.wait_next_event (round_poll r) rules s in
        let s := s <| _abort := _abort s || round_abort r |> in
        match ret, _abort s with
        | EventLoop.Exit, _ | _, true => Ok (true, rules, s)
        | _, false =>
            let! c := tcp s in
            if TCPConnection.active c then
              let next_time := round_time r in
              let s := s <| _tcp := Some (TCPConnection.tick (u64 (next_time - base_time)) c) |> in
              let! a := adapter_tick (u64 (next_time - base_time)) (_datagram_adapter s) in
              _tcp_loop condition rounds next_time rules (s <| _datagram_adapter := a |>)
            else _tcp_loop condition rounds base_time rules s
        end
  end.

(** [connect], up to the start of the thread. *)
Definition connect (c_tcp : TCPConfig.t) (c_ad : FdAdapterConfig.t) (random : Z) (rounds : list round)
    (base_time : Z) (s : t) : outcome (bool * list (EventLoop.Rule t) * t) :=
  if bool_decide (is_Some (_tcp s))
  then Throw (runtime_error "connect() with TCPConnection already initialized")
  else
    let '(rules, s) := _initialize_TCP c_tcp random s in
    let s := s <| _datagram_adapter := adapter_set_config c_ad (_datagram_adapter s) |> in
    let! c := tcp s in
    let c := TCPConnection.connect c in
    let s := s <| _tcp := Some c |> in
    let expected_state := TCPState.of_state TCPState.SYN_SENT in
    if TCPState.neqb (TCPConnection.state c) expected_state
    then Throw (runtime_error ("After TCPConnection::connect(), state was " +:+
           TCPState.name (TCPConnection.state c) +:+ " but expected " +:+ TCPState.name expected_state))
    else
      _tcp_loop (fun s => match _tcp s with
                          | Some c => TCPState.eqb (TCPConnection.state c) (TCPState.of_state TCPState.SYN_SENT)
                          | None => false end) rounds base_time rules s.

(** [listen_and_accept], up to the start of the thread. *)
Definition listen_and_accept (c_tcp : TCPConfig.t) (c_ad : FdAdapterConfig.t) (random : Z) (rounds : list round)
    (base_time : Z) (s : t) : outcome (bool * list (EventLoop.Rule t) * t) :=
  if bool_decide (is_Some (_tcp s))
  then Throw (runtime_error "listen_and_accept() with TCPConnection already initialized")
  else
    let '(rules, s) := _initialize_TCP c_tcp random s in
    let s := s <| _datagram_adapter :=
               adapter_set_listening true (adapter_set_config c_ad (_datagram_adapter s)) |> in
    _tcp_loop (fun s => match _tcp s with
                        | Some c =>
                            let st := TCPConnection.state c in
                            TCPState.eqb st (TCPState.of_state TCPState.LISTEN)
                            || TCPState.eqb st (TCPState.of_state TCPState.SYN_RCVD)
                            || TCPState.eqb st (TCPState.of_state TCPState.SYN_SENT)
                        | None => false end) rounds base_time rules s.

(** [_tcp_main]; [_tcp.reset()] runs the destructor of the connection, whose
    last segments nobody sends any more. *)
Definition _tcp_main (rounds : list round) (base_time : Z) (rules : list (EventLoop.Rule t)) (s : t) :
    outcome (bool * t) :=
  if negb (bool_decide (is_Some (_tcp s))) then Throw (runtime_error "no TCP")
  else
    let! (ended, rules, s) := _tcp_loop (fun _ => true) rounds base_time rules s in
    if ended then
      let! o := Channel.shutdown Channel.SHUT_RDWR (_owner s) in
      Ok (true, s <| _owner := o |> <| _tcp := None |>)
    else Ok (false, s).

End socket.
Arguments t : clear implicits.
Arguments round : clear implicits.

(** ** The socket as an endpoint of the network *)

(** An adapter that also writes down the segments it is given. *)
#[local] Instance recorded {A} `{DatagramAdapter A} : DatagramAdapter (A * list TCPSegment.t) := {
  adapter_fd a := adapter_fd a.1;
  adapter_read a := let! (seg, a') := adapter_read a.1 in Ok (seg, (a', a.2));
  adapter_write seg a := let! a' := adapter_write seg a.1 in Ok (a', a.2 ++ [seg]);
  adapter_tick ms a := let! a' := adapter_tick ms a.1 in Ok (a', a.2);
  adapter_config a := adapter_config a.1;
  adapter_set_config c a := (adapter_set_config c a.1, a.2);
  adapter_set_listening l a := (adapter_set_listening l a.1, a.2) }.

Section refinement.
Context {A : Type} `{Laws : DatagramAdapterLaws A}.
Abbreviation sock := (t (A * list TCPSegment.t)).
Implicit Types (s : sock) (n : Network.node).

(** One step of an endpoint whose application writes [S]; [R] says which segments
    may be delivered to it. *)
Context (R : Network.node -> TCPSegment.t -> Prop).

Definition endpoint_move (S : bytes) (n n' : Network.node) : Prop :=
  Network.local S n n' \/ exists seg, R n seg /\ n' = Network.receive seg n.

(** Something that the steps keep. *)
Context (Q : bytes -> Network.node -> Prop).
Context (Qstep : forall S n n', endpoint_move S n n' -> Q S n -> Q S n').

Lemma Qsteps S n n' : rtc (endpoint_move S) n n' -> Q S n -> Q S n'.
Proof. induction 1 as [|x y z Hxy _ IH]; [done|]. intros Hx. apply IH. by eapply Qstep. Qed.

(** The socket state shows the endpoint: its connection, the segments given to the
    adapter, and the bytes written to the owner; the connection has accepted the
    bytes taken from the owner. *)
Record represents s n : Prop := {
  rep_tcp : _tcp s = Some (Network.conn n);
  rep_sent : (_datagram_adapter s).2 = Network.sent n;
  rep_got : Channel.written (_thread_data s) = Network.got n;
  rep_wf : ByteStream.wf (Network.outbound n);
  rep_taken : ByteStream.bytes_written (Network.outbound n) = u64 (zlen (Channel.taken (_thread_data s)));
  rep_open : _outbound_shutdown s = false -> ByteStream.input_ended (Network.outbound n) = false }.

(** A stream that the owner may be writing. *)
Definition writes (S : bytes) s n : Prop :=
  zlen S < MAX64 /\ Channel.taken (_thread_data s) `prefix_of` S /\
  (ByteStream.input_ended (Network.outbound n) = true -> S = Channel.taken (_thread_data s)).

Definition simulated s : Prop :=
  exists n, represents s n /\ forall S, writes S s n -> Q S n.

(** The exceptions of system calls and of the adapter. *)
Definition fault (e : exn) : Prop :=
  Channel.kernel_fault e \/ (exists a : A, adapter_read a = Throw e) \/
  (exists seg (a : A), adapter_write seg a = Throw e) \/ (exists ms (a : A), adapter_tick ms a = Throw e).

Lemma simulated_step s s' n n' :
  represents s n -> (forall S, writes S s n -> Q S n) -> represents s' n' ->
  (forall S, writes S s' n' -> writes S s n /\ rtc (endpoint_move S) n n') -> simulated s'.
Proof.
  intros Hr Hn Hr' Hs. exists n'. split; [done|]. intros S HS. destruct (Hs S HS) as [HS' Hst].
  eapply Qsteps; [done|by apply Hn].
Qed.

(** A step that takes nothing from the owner. *)
Lemma simulated_quiet s s' n n' :
  represents s n -> (forall S, writes S s n -> Q S n) -> represents s' n' ->
  Channel.taken (_thread_data s') = Channel.taken (_thread_data s) ->
  ByteStream.input_ended (Network.outbound n') = ByteStream.input_ended (Network.outbound n) ->
  (forall S, rtc (endpoint_move S) n n') -> simulated s'.
Proof.
  intros Hr Hn Hr' Ht He Hs. apply (simulated_step s s' n n'); [done..|]. intros S (H1 & H2 & H3).
  split; [|done]. split_and!; [done|by rewrite <- Ht|]. rewrite <- He, <- Ht. done.
Qed.

(** What the adapter delivers next is allowed. *)
Definition deliveries_allowed s : Prop :=
  forall n seg a, represents s n -> adapter_read (_datagram_adapter s).1 = Ok (Some seg, a) -> R n seg.

Lemma datagram_in_rule s : simulated s -> deliveries_allowed s ->
  match datagram_in_callback s with
  | Ok s' => simulated s' /\ FDWrapper._read_count (adapter_fd (_datagram_adapter s)) <>
                                FDWrapper._read_count (adapter_fd (_datagram_adapter s'))
  | Throw e => fault e
  end.
Proof.
  intros (n & Hr & Hn) Hall. unfold datagram_in_callback. cbn [adapter_read recorded].
  destruct (adapter_read (_datagram_adapter s).1) as [[seg a]|e] eqn:Ea; cbn [obind]; [|right; left; eauto].
  pose proof (adapter_read_counts _ _ _ Ea) as Hcount. unfold tcp. rewrite (rep_tcp _ _ Hr). cbn [obind].
  set (c := match seg with Some _ => _ | None => _ end).
  set (s1 := s <| _datagram_adapter := _ |> <| _tcp := Some c |>). set (s2 := if _ && _ && _ then _ else s1).
  assert (Outbound.drained (Network.outbound n) (Network.outbound (n <| Network.conn := c |>))) as Hd.
  { unfold c. destruct seg; [apply Outbound.received_drained|apply Outbound.drained_refl]. }
  assert (represents s2 (n <| Network.conn := c |>)) as Hr'.
  { destruct Hr as [R1 R2 R3 R4 R5 R6]. destruct Hd as [D1 D2 _ D3]. destruct (D3 R4).
    unfold s2. destruct (_ && _ && _); split; simpl in *; try done; try congruence; intros; rewrite D2; auto. }
  split.
  - eapply simulated_quiet; [exact Hr|exact Hn|exact Hr'| |apply Hd|].
    + unfold s2. by destruct (_ && _ && _).
    + intros S. unfold c. destruct seg as [seg|]; [|clear; destruct n; apply rtc_refl].
      apply rtc_once. right. eexists. split; [by eapply Hall|done].
  - replace (_datagram_adapter s2) with (a, (_datagram_adapter s).2) by (unfold s2; by destruct (_ && _ && _)).
    cbn [adapter_fd recorded fst]. rewrite Hcount. apply Channel.count_changes.
Qed.

Lemma owner_in_written s n data :
  represents s n -> ByteStream.input_ended (Network.outbound n) = false ->
  zlen data <= TCPConnection.remaining_outbound_capacity (Network.conn n) ->
  (TCPConnection.write data (Network.conn n)).1 = zlen data /\
  Outbound.drained (ByteStream.append data (Network.outbound n))
    (Network.outbound (n <| Network.conn := (TCPConnection.write data (Network.conn n)).2 |>)).
Proof.
  intros Hr Ho Hl. pose proof (ByteStream.write_fits data _ (rep_wf _ _ Hr) Ho Hl) as Hw.
  pose proof (Outbound.write_drained data (Network.conn n)) as Hd.
  change (TCPSender._stream (TCPConnection._sender (Network.conn n))) with (Network.outbound n) in Hd at 1.
  rewrite Hw in Hd. split; [|exact Hd]. unfold TCPConnection.write.
  change (TCPSender.stream_in (TCPConnection._sender (Network.conn n))) with (Network.outbound n). by rewrite Hw.
Qed.

(** The end of the owner's stream. *)
Lemma owner_ended s s' n :
  represents s n -> (forall S, writes S s n -> Q S n) ->
  _tcp s' = Some (TCPConnection.end_input_stream (Network.conn n)) -> _datagram_adapter s' = _datagram_adapter s ->
  _thread_data s' = _thread_data s -> _outbound_shutdown s' = true -> simulated s'.
Proof.
  intros Hr Hn E1 E2 E3 E4. set (n' := n <| Network.conn := TCPConnection.end_input_stream (Network.conn n) |>).
  pose proof (Outbound.end_drained (Network.conn n)) as [D1 D2 _ D3].
  change (TCPSender._stream (TCPConnection._sender (Network.conn n))) with (Network.outbound n) in *.
  change (TCPSender._stream (TCPConnection._sender (TCPConnection.end_input_stream (Network.conn n))))
    with (Network.outbound n') in *.
  destruct (D3 (ByteStream.end_input_wf _ (rep_wf _ _ Hr))) as [Hwf _].
  apply (simulated_step s s' n n'); try done.
  - destruct Hr as [R1 R2 R3 R4 R5 R6]. split; rewrite ?E2, ?E3; try done; [by rewrite D1|by rewrite E4].
  - intros S (H1 & H2 & H3). rewrite E3 in *. specialize (H3 ltac:(by rewrite D2)). subst S. split; [by split_and!|].
    apply rtc_once. left. apply Network.local_end. rewrite (rep_taken _ _ Hr). apply u64_small. pose_zlen. lia.
Qed.

Definition owner_in_guard s : Prop :=
  _outbound_shutdown s = false /\
  match _tcp s with Some c => 0 < TCPConnection.remaining_outbound_capacity c | None => False end.

(** While the outbound stream is open everything that was read is accepted. *)
Lemma owner_in_open s n :
  represents s n -> (forall S, writes S s n -> Q S n) ->
  ByteStream.input_ended (Network.outbound n) = false ->
  match owner_in_callback s with
  | Ok s' => simulated s' /\ FDWrapper._read_count (Channel.fd (_thread_data s)) <>
                                FDWrapper._read_count (Channel.fd (_thread_data s'))
  | Throw e => fault e
  end.
Proof.
  intros Hr Hn Ho. pose proof (ByteStream.remaining_capacity_range _ (rep_wf _ _ Hr)) as Hcap.
  change (ByteStream.remaining_capacity (Network.outbound n)) with
    (TCPConnection.remaining_outbound_capacity (Network.conn n)) in Hcap.
  unfold owner_in_callback, tcp. rewrite (rep_tcp _ _ Hr). cbn [obind].
  pose proof (Channel.read_spec (TCPConnection.remaining_outbound_capacity (Network.conn n)) (_thread_data s)) as Hc.
  destruct (Channel.read _ _) as [[data ch]|e]; cbn [obind]; [|left; apply Hc; lia].
  destruct Hc as (Hd & Ht & Hw & Hcount); [lia|].
  destruct (owner_in_written s n data Hr Ho Hd) as [Hlen Hdr].
  destruct (TCPConnection.write data (Network.conn n)) as [amount c] eqn:Ew. cbn [fst snd] in *.
  rewrite Hlen, Z.eqb_refl. cbn [negb].
  set (s1 := s <| _thread_data := ch |> <| _tcp := Some c |>). set (n1 := n <| Network.conn := c |>) in *.
  assert (represents s1 n1) as Hr1.
  { destruct Hr as [R1 R2 R3 R4 R5 R6]. destruct Hdr as [D1 D2 _ D3].
    destruct (D3 (ByteStream.append_wf _ _ R4 Hd)) as [D4 _].
    split; simpl; try done; [congruence| |intros _; by rewrite D2].
    rewrite D1, Ht, zlen_app. unfold ByteStream.bytes_written, ByteStream.append in *. simpl. rewrite R5. word. }
  assert (forall S, writes S s1 n1 -> Q S n1) as Hn1.
  { intros S (HS1 & HS2 & HS3). simpl in HS2, HS3. rewrite Ht in HS2. destruct HS2 as [rest HS].
    eapply Qstep; [left|apply Hn].
    - replace n1 with (n <| Network.conn := (TCPConnection.write data (Network.conn n)).2 |>)
        by (by rewrite Ew).
      apply (Network.local_write S n data rest). rewrite (rep_taken _ _ Hr).
      rewrite (ByteStream.write_fits data _ (rep_wf _ _ Hr) Ho Hd). cbn [fst].
      subst S. rewrite !zlen_app in HS1. pose_zlen. rewrite u64_small, (ztake_all (zlen data)) by lia.
      by rewrite <- !app_assoc, ztake_app_exact.
    - split_and!; [done|exists (data ++ rest); by rewrite app_assoc|by rewrite Ho]. }
  split.
  - destruct (FileDescriptor.eof (Channel.fd ch)); [|by exists n1].
    by apply (owner_ended s1 _ n1).
  - destruct (FileDescriptor.eof (Channel.fd ch)); simpl; rewrite Hcount; apply Channel.count_changes.
Qed.

Lemma owner_in_rule s : simulated s -> owner_in_guard s ->
  match owner_in_callback s with
  | Ok s' => simulated s' /\ FDWrapper._read_count (Channel.fd (_thread_data s)) <>
                                FDWrapper._read_count (Channel.fd (_thread_data s'))
  | Throw e => fault e
  end.
Proof. intros (n & Hr & Hn) [Hopen _]. apply (owner_in_open s n Hr Hn), (rep_open _ _ Hr Hopen). Qed.

(** After it has ended nothing is, and the rule only goes on if nothing was read. *)
Lemma owner_in_kept s s' : simulated s -> owner_in_callback s = Ok s' -> simulated s'.
Proof.
  intros (n & Hr & Hn) E. destruct (ByteStream.input_ended (Network.outbound n)) eqn:Ho.
  2:{ pose proof (owner_in_open s n Hr Hn Ho) as H1. rewrite E in H1. apply H1. }
  revert E. unfold owner_in_callback, tcp. rewrite (rep_tcp _ _ Hr). cbn [obind].
  pose proof (ByteStream.remaining_capacity_range _ (rep_wf _ _ Hr)) as Hcap.
  change (ByteStream.remaining_capacity (Network.outbound n)) with
    (TCPConnection.remaining_outbound_capacity (Network.conn n)) in Hcap.
  pose proof (Channel.read_spec (TCPConnection.remaining_outbound_capacity (Network.conn n)) (_thread_data s)) as Hc.
  destruct (Channel.read _ _) as [[data ch]|e]; cbn [obind]; [|done]. destruct Hc as (Hd & Ht & Hw & _); [lia|].
  assert (ByteStream.write data (Network.outbound n) = (0, Network.outbound n)) as Ew0
    by (unfold ByteStream.write; by rewrite Ho).
  pose proof (Outbound.write_drained data (Network.conn n)) as Hdr.
  change (TCPSender._stream (TCPConnection._sender (Network.conn n))) with (Network.outbound n) in Hdr at 1.
  rewrite Ew0 in Hdr. cbn [snd] in Hdr.
  destruct (TCPConnection.write data (Network.conn n)) as [amount c] eqn:Ew.
  assert (amount = 0) as ->.
  { unfold TCPConnection.write in Ew. change (TCPSender.stream_in (TCPConnection._sender (Network.conn n))) with
      (Network.outbound n) in Ew. rewrite Ew0 in Ew. by injection Ew as <- _. }
  destruct (0 =? zlen data) eqn:E0; cbn [negb]; [|done]. apply Z.eqb_eq in E0. symmetry in E0. apply zlen_0_nil in E0.
  subst data. rewrite app_nil_r in Ht. cbn [snd] in Hdr.
  set (s1 := s <| _thread_data := ch |> <| _tcp := Some c |>). set (n1 := n <| Network.conn := c |>) in *.
  change (TCPSender._stream (TCPConnection._sender c)) with (Network.outbound n1) in Hdr.
  assert (represents s1 n1) as Hr1.
  { destruct Hr as [R1 R2 R3 R4 R5 R6]. destruct Hdr as [D1 D2 _ D3]. destruct (D3 R4) as [D4 _].
    split; simpl; try done; [congruence|rewrite D1, Ht; done|]. intros Hs. rewrite D2. auto. }
  assert (forall S, writes S s1 n1 -> Q S n1) as Hn1.
  { intros S (HS1 & HS2 & HS3). simpl in HS2, HS3. rewrite Ht in *. destruct Hdr as [_ D2 _ _]. rewrite D2, Ho in HS3.
    eapply Qstep; [left|apply Hn; by split_and!; [| |rewrite Ho]].
    replace n1 with (n <| Network.conn := (TCPConnection.write [] (Network.conn n)).2 |>) by (by rewrite Ew).
    apply (Network.local_write S n [] []). rewrite (HS3 eq_refl), (rep_taken _ _ Hr). rewrite Ew0. cbn [fst].
    rewrite (HS3 eq_refl) in HS1. pose_zlen. rewrite u64_small by lia. by rewrite ztake_all, app_nil_r by lia. }
  destruct (FileDescriptor.eof (Channel.fd ch)); intros [= <-]; [|by exists n1]. by apply (owner_ended s1 _ n1).
Qed.

Lemma owner_out_rule s : simulated s ->
  match owner_out_callback s with
  | Ok s' => simulated s' /\ FDWrapper._write_count (Channel.fd (_thread_data s)) <>
                                FDWrapper._write_count (Channel.fd (_thread_data s'))
  | Throw e => fault e
  end.
Proof.
  intros (n & Hr & Hn). unfold owner_out_callback, tcp. rewrite (rep_tcp _ _ Hr). cbn [obind].
  set (st := TCPConnection.inbound_stream (Network.conn n)).
  assert (0 <= Z.min 65536 (ByteStream.buffer_size st) < 2147483648) as Hk
    by (unfold ByteStream.buffer_size; pose_zlen; lia).
  set (k := Z.min 65536 (ByteStream.buffer_size st)) in *. clearbody k.
  pose proof (Channel.write_spec (ByteStream.peek_output k st) (_thread_data s)) as Hc.
  destruct (Channel.write _ _) as [[m ch]|e]; cbn [obind];
    [|left; apply Hc; unfold ByteStream.peek_output; zlia].
  destruct Hc as (Hm & Hw & Ht & Hfd); [unfold ByteStream.peek_output; zlia|].
  rewrite (ByteStream.peek_prefix m k st) in Hw by lia.
  set (n1 := Network.app_read m n).
  assert (forall s1, _tcp s1 = Some (Network.conn n1) -> _datagram_adapter s1 = _datagram_adapter s ->
    _outbound_shutdown s1 = _outbound_shutdown s ->
    Channel.taken (_thread_data s1) = Channel.taken (_thread_data s) ->
    Channel.written (_thread_data s1) = Channel.written ch -> simulated s1) as Hsim.
  { intros s1 E1 E2 E3 E4 E5.
    assert (Network.outbound n1 = Network.outbound n) as Eo by (by destruct n as [[]]).
    apply (simulated_quiet s s1 n n1); try done.
    - destruct Hr as [R1 R2 R3 R4 R5 R6]. split; rewrite ?Eo, ?E1, ?E2, ?E3, ?E4, ?E5; try done.
      rewrite Hw, R3. done.
    - intros S. apply rtc_once. left. apply Network.local_read. lia. }
  destruct (_ || _).
  - pose proof (Channel.shutdown_spec ch) as Hs. destruct (Channel.shutdown _ _) as [ch'|]; cbn [obind]; [|by left].
    destruct Hs as (Hw' & Ht' & Hfd'). split; [apply Hsim; simpl; done || congruence|].
    simpl. rewrite Hfd', Hfd. apply Channel.count_changes_twice.
  - split; [by apply Hsim|]. simpl. rewrite Hfd. apply Channel.count_changes.
Qed.

Lemma send_all_recorded l (a : A * list TCPSegment.t) :
  match send_all l a with Ok a' => a'.2 = a.2 ++ l | Throw e => fault e end.
Proof.
  revert a. induction l as [|seg l IH]; intros a; simpl; [by rewrite app_nil_r|].
  destruct (adapter_write seg a.1) as [a'|e] eqn:E; cbn [obind]; [|right; right; left; eauto].
  specialize (IH (a', a.2 ++ [seg])). destruct (send_all l _); [|done]. rewrite IH. simpl. by rewrite <- app_assoc.
Qed.

Lemma datagram_out_rule s : simulated s ->
  match datagram_out_callback s with
  | Ok s' => simulated s' /\ datagram_out_interest s' = false
  | Throw e => fault e
  end.
Proof.
  intros (n & Hr & Hn). unfold datagram_out_callback, tcp. rewrite (rep_tcp _ _ Hr). cbn [obind].
  pose proof (send_all_recorded (TCPConnection._segments_out (Network.conn n)) (_datagram_adapter s)) as Hs.
  destruct (send_all _ _) as [a|e]; cbn [obind]; [|done]. split; [|done].
  assert (Network.outbound (Network.transmit n) = Network.outbound n) as Eo by (by destruct n as [[]]).
  apply (simulated_quiet s _ n (Network.transmit n)); try done.
  - destruct Hr as [R1 R2 R3 R4 R5 R6]. split; rewrite ?Eo; try done. simpl. by rewrite Hs, R2.
  - intros S. apply rtc_once. left. apply Network.local_transmit.
Qed.

(** ** Rounds in which everything that can be delivered is allowed *)

Section rounds.
Context (Hall : forall n seg a a', adapter_read (A := A) a = Ok (Some seg, a') -> R n seg).

(** The rules with their guards. *)
Definition specs : list (EventLoop.Rule sock * (sock -> Prop)) :=
  zip rules [fun _ => True; owner_in_guard; fun _ => True; fun _ => True].

Lemma owner_in_cancelled s : simulated s ->
  match owner_in_cancel s with Ok s' => simulated s' | Throw e => fault e end.
Proof.
  intros (n & Hr & Hn). unfold owner_in_cancel, tcp. rewrite (rep_tcp _ _ Hr). cbn [obind].
  by apply (owner_ended s _ n).
Qed.

(** What the other rules do leaves the owner's rule enabled. *)
Lemma guard_kept s s' n c :
  represents s n -> owner_in_guard s -> _tcp s' = Some c -> _outbound_shutdown s' = _outbound_shutdown s ->
  Outbound.drained (Network.outbound n) (Network.outbound (n <| Network.conn := c |>)) ->
  owner_in_guard s'.
Proof.
  intros Hr [Ho Hc] E1 E2 [_ _ _ Hd]. split; [congruence|]. rewrite E1. rewrite (rep_tcp _ _ Hr) in Hc.
  destruct (Hd (rep_wf _ _ Hr)) as [_ Hle]. unfold TCPConnection.remaining_outbound_capacity, TCPSender.stream_in in *.
  unfold Network.outbound in Hle. simpl in Hle. lia.
Qed.

Lemma datagram_in_guard s s' :
  simulated s -> owner_in_guard s -> datagram_in_callback s = Ok s' -> owner_in_guard s'.
Proof.
  intros (n & Hr & Hn) Hg. unfold datagram_in_callback, tcp.
  destruct (adapter_read _) as [[seg a]|]; cbn [obind]; [|done]. rewrite (rep_tcp _ _ Hr). cbn [obind].
  set (c := match seg with Some _ => _ | None => _ end). intros [= <-].
  apply (guard_kept s _ n c); try done; try by destruct (_ && _ && _).
  unfold c. destruct seg; [apply Outbound.received_drained|apply Outbound.drained_refl].
Qed.

Lemma owner_out_guard s s' :
  simulated s -> owner_in_guard s -> owner_out_callback s = Ok s' -> owner_in_guard s'.
Proof.
  intros (n & Hr & Hn) Hg. unfold owner_out_callback, tcp. rewrite (rep_tcp _ _ Hr). cbn [obind].
  destruct (Channel.write _ _) as [[m ch]|]; cbn [obind]; [|done].
  set (c := TCPConnection.with_inbound _ _). destruct (_ || _).
  - destruct (Channel.shutdown _ _) as [ch'|]; cbn [obind]; [|done]. intros [= <-].
    by apply (guard_kept s _ n c).
  - intros [= <-]. by apply (guard_kept s _ n c).
Qed.

Lemma datagram_out_guard s s' :
  simulated s -> owner_in_guard s -> datagram_out_callback s = Ok s' -> owner_in_guard s'.
Proof.
  intros (n & Hr & Hn) Hg. unfold datagram_out_callback, tcp. rewrite (rep_tcp _ _ Hr). cbn [obind].
  destruct (send_all _ _) as [a|]; cbn [obind]; [|done]. intros [= <-].
  eapply (guard_kept s _ n); [done|done|done|done|].
  match goal with |- Outbound.drained _ (Network.outbound ?x) => replace (Network.outbound x) with (Network.outbound n)
    by (by destruct n as [[]]) end.
  apply Outbound.drained_refl.
Qed.

Lemma specs_client : EventLoop.client simulated fault specs.
Proof.
  assert (forall s, simulated s -> match no_cancel s with Ok s' => simulated s' | Throw e => fault e end) as Hnc by done.
  split.
  - unfold specs, rules, EventLoop.add_rule. cbn [app zip zip_with].
    apply Forall_cons_2; [|apply Forall_cons_2; [|apply Forall_cons_2; [|apply Forall_cons_2; [|apply Forall_nil_2]]]].
    + split; [done| |exact Hnc]. intros s Hs _. pose proof (datagram_in_rule s Hs (fun n seg a _ => Hall n seg _ a)) as H1.
      cbn [EventLoop.callback fst]. destruct (datagram_in_callback s); [|done]. destruct H1. split; [done|]. by left.
    + split; [| |exact (owner_in_cancelled)].
      * intros s Hs _ Hi. cbn [EventLoop.interest fst snd] in *. unfold owner_in_interest in Hi. unfold owner_in_guard.
        destruct (_tcp s); [|done]. apply andb_true_iff in Hi as [Hi ?]. apply andb_true_iff in Hi as [_ Hi].
        destruct (_outbound_shutdown s); [done|]. split; [done|lia].
      * intros s Hs Hg. pose proof (owner_in_rule s Hs Hg) as H1.
        cbn [EventLoop.callback fst]. destruct (owner_in_callback s); [|done]. destruct H1. split; [done|]. by left.
    + split; [done| |exact Hnc]. intros s Hs _. pose proof (owner_out_rule s Hs) as H1.
      cbn [EventLoop.callback fst]. destruct (owner_out_callback s); [|done]. destruct H1. split; [done|]. by left.
    + split; [done| |exact Hnc]. intros s Hs _. pose proof (datagram_out_rule s Hs) as H1.
      cbn [EventLoop.callback fst]. destruct (datagram_out_callback s); [|done]. destruct H1. split; [done|]. by right.
  - unfold specs, rules, EventLoop.add_rule. cbn [app zip zip_with].
    assert (forall r, EventLoop.respects simulated r (fun _ => True)) as Ht by done.
    assert (forall f d i cb, (forall s s', simulated s -> owner_in_guard s -> cb s = Ok s' -> owner_in_guard s') ->
              EventLoop.respects simulated (EventLoop.mkRule f d cb i no_cancel) owner_in_guard) as Hg.
    { intros f d i cb Hcb s s' Hs Hgs [Hk|Hk]; cbn in Hk; [by eapply Hcb|]. injection Hk as <-. done. }
    repeat (apply FOP_cons; [repeat (apply Forall_cons_2; [split; cbn [fst snd]; try apply Ht; apply Hg|]); try apply Forall_nil_2|]);
      try apply FOP_nil; intros s s'; [apply datagram_in_guard|apply owner_out_guard|apply datagram_out_guard].
Qed.

Lemma simulated_tick s ms a c :
  simulated s -> _tcp s = Some c -> a.2 = (_datagram_adapter s).2 ->
  simulated (s <| _tcp := Some (TCPConnection.tick ms c) |> <| _datagram_adapter := a |>).
Proof.
  intros (n & Hr & Hn) Hc Ha. rewrite (rep_tcp _ _ Hr) in Hc. injection Hc as <-.
  set (n1 := n <| Network.conn := TCPConnection.tick ms (Network.conn n) |>).
  assert (Outbound.drained (Network.outbound n) (Network.outbound n1)) as [D1 D2 _ D3] by apply Outbound.tick_drained.
  apply (simulated_quiet s _ n n1); try done.
  - destruct Hr as [R1 R2 R3 R4 R5 R6]. destruct (D3 R4). split; simpl; try done; try congruence.
    intros Ho. rewrite D2. auto.
  - intros S. apply rtc_once. left. apply Network.local_tick.
Qed.

Lemma tcp_loop_simulated condition rounds base_time sps s :
  EventLoop.client simulated fault sps -> Forall (fun r => EventLoop.poll_clean (round_poll r)) rounds ->
  simulated s ->
  match _tcp_loop condition rounds base_time (map fst sps) s with
  | Ok (_, kept, s') => simulated s' /\ exists sps', kept = map fst sps' /\ EventLoop.client simulated fault sps'
  | Throw e => fault e
  end.
Proof.
  intros Hc Hp. revert base_time sps s Hc.
  induction Hp as [|r rounds Hpoll _ IH]; intros base_time sps s Hc Hs; simpl; [by eauto|].
  destruct (negb _); [by eauto|].
  pose proof (EventLoop.wait_next_event_keeps _ _ (round_poll r) sps s Hc Hpoll Hs) as Hw.
  destruct (EventLoop.wait_next_event _ _ _) as [[[ret kept] s1]|]; cbn [obind]; [|done].
  destruct Hw as (Hs1 & sps' & Hsub & ->). pose proof (EventLoop.client_sublist _ _ _ _ Hsub Hc) as Hc'.
  assert (simulated (s1 <| _abort := _abort s1 || round_abort r |>)) as Hs2
    by (destruct Hs1 as (n & [] & ?); by exists n).
  set (s2 := s1 <| _abort := _ |>) in *. destruct (_abort s1 || round_abort r) eqn:Ea; [by destruct ret; eauto|].
  assert (match (let! c := tcp s2 in
      if TCPConnection.active c then
        let next_time := round_time r in
        let s3 := s2 <| _tcp := Some (TCPConnection.tick (u64 (next_time - base_time)) c) |> in
        let! a := adapter_tick (u64 (next_time - base_time)) (_datagram_adapter s3) in
        _tcp_loop condition rounds next_time (map fst sps') (s3 <| _datagram_adapter := a |>)
      else _tcp_loop condition rounds base_time (map fst sps') s2) with
    | Ok (_, kept, s') => simulated s' /\ exists sps', kept = map fst sps' /\ EventLoop.client simulated fault sps'
    | Throw e => fault e end) as Hgoal; [|by destruct ret; eauto].
  unfold tcp. destruct (_tcp s2) as [c|] eqn:Ec; cbn [obind];
    [|by destruct Hs2 as (n & [R1 _ _ _ _ _] & _); rewrite Ec in R1].
  destruct (TCPConnection.active c); [|by apply IH]. cbn [adapter_tick recorded].
  destruct (adapter_tick _ (_datagram_adapter _).1) as [a|] eqn:Et; cbn [obind]; [|right; right; right; eauto].
  apply IH; [done|]. by apply simulated_tick.
Qed.

End rounds.

(** *** One round, in which only what the adapter delivers next need be allowed *)

Section one_round.
Context (Rreceiver : forall n n' seg,
  TCPConnection._receiver (Network.conn n') = TCPConnection._receiver (Network.conn n) -> R n seg -> R n' seg).

Lemma owner_in_cancel_allowed s s' :
  simulated s -> deliveries_allowed s -> owner_in_cancel s = Ok s' -> deliveries_allowed s'.
Proof.
  intros (n & Hr & _) Hd. unfold owner_in_cancel, tcp. rewrite (rep_tcp _ _ Hr). cbn [obind]. intros [= <-].
  intros n' seg a Hr' Ha. apply (Rreceiver n); [|by eapply Hd].
  pose proof (rep_tcp _ _ Hr') as E. cbn in E. injection E as <-. done.
Qed.

Lemma rules_first first rest : rules = first :: rest ->
  EventLoop.first_then (fun s => simulated s /\ deliveries_allowed s) simulated first rest.
Proof.
  intros [= <- <-]. split; cbn [EventLoop.callback].
  - by intros s [].
  - intros r s s' Hr [Hs Hd]. repeat (apply elem_of_cons in Hr as [->|Hr]); [..|by apply not_elem_of_nil in Hr];
      cbn [EventLoop.cancel]; try by intros [= <-].
    intros E. split; [|by eapply owner_in_cancel_allowed]. pose proof (owner_in_cancelled s Hs) as H1. by rewrite E in H1.
  - intros s s' [Hs Hd] E. pose proof (datagram_in_rule s Hs Hd) as H1. rewrite E in H1. apply H1.
  - assert (forall f d cb i cn, (forall s s', simulated s -> cb s = Ok s' -> simulated s') ->
      (forall s s', simulated s -> cn s = Ok s' -> simulated s') ->
      EventLoop.keeps simulated (EventLoop.mkRule f d cb i cn)) as Hk by (intros ????? H1 H2 ?? _ ? []; eauto).
    repeat (apply Forall_cons_2; [apply Hk|]); try apply Forall_nil_2; intros s s' Hs; try by intros [= <-].
    + by apply owner_in_kept.
    + intros E. pose proof (owner_in_cancelled s Hs) as H1. by rewrite E in H1.
    + intros E. pose proof (owner_out_rule s Hs) as H1. rewrite E in H1. apply H1.
    + intros E. pose proof (datagram_out_rule s Hs) as H1. rewrite E in H1. apply H1.
Qed.

(** After a round the state is simulated again, whether the loop goes on or not. *)
Lemma socket_round condition r base_time rs s ended rs' s' :
  sublist rs rules -> simulated s -> deliveries_allowed s ->
  _tcp_loop condition [r] base_time rs s = Ok (ended, rs', s') -> sublist rs' rules /\ simulated s'.
Proof.
  intros Hsub Hs Hd. cbn [_tcp_loop]. destruct (negb _); [by intros [= <- <- <-]|].
  pose proof (EventLoop.wait_next_event_first _ _ _ _ (round_poll r) rs s (rules_first _ _ eq_refl) Hsub (conj Hs Hd)) as Hw.
  destruct (EventLoop.wait_next_event _ rs s) as [[[ret kept] s1]|]; cbn [obind]; [|done]. destruct Hw as [Hs1 Hk].
  change (sublist kept rules) in Hk.
  assert (simulated (s1 <| _abort := _abort s1 || round_abort r |>)) as Hs2
    by (destruct Hs1 as (n & [] & ?); by exists n).
  set (s2 := s1 <| _abort := _ |>) in *. destruct (_abort s2); [destruct ret; by intros [= <- <- <-]|].
  assert ((let! c := tcp s2 in
      if TCPConnection.active c then
        let next_time := round_time r in
        let s3 := s2 <| _tcp := Some (TCPConnection.tick (u64 (next_time - base_time)) c) |> in
        let! a := adapter_tick (u64 (next_time - base_time)) (_datagram_adapter s3) in
        Ok (negb (condition (s3 <| _datagram_adapter := a |>)), kept, s3 <| _datagram_adapter := a |>)
      else Ok (negb (condition s2), kept, s2)) = Ok (ended, rs', s') -> sublist rs' rules /\ simulated s') as Hgoal.
  { unfold tcp. destruct (_tcp s2) as [c|] eqn:Ec; cbn [obind]; [|done].
    destruct (TCPConnection.active c); [|by intros [= <- <- <-]]. cbn [adapter_tick recorded].
    destruct (adapter_tick _ (_datagram_adapter _).1) as [a|] eqn:Et; cbn [obind]; [|done]. intros [= <- <- <-].
    split; [done|].
    exact (simulated_tick s2 _ (a, (_datagram_adapter s2).2) c Hs2 Ec eq_refl). }
  destruct ret; [exact Hgoal|exact Hgoal|by intros [= <- <- <-]].
Qed.

End one_round.

(** ** Opening a connection *)

(** [connect] always leaves the connection in the state SYN_SENT. *)
Lemma connect_syn_sent cfg random :
  TCPConnection.state (TCPConnection.connect (TCPConnection.make cfg random)) = TCPState.of_state TCPState.SYN_SENT.
Proof. destruct cfg as [rt rc sc [i|]]; reflexivity. Qed.

(** A socket that has not been used. *)
Record fresh s : Prop := {
  fresh_tcp : _tcp s = None;
  fresh_sent : (_datagram_adapter s).2 = [];
  fresh_taken : Channel.taken (_thread_data s) = [];
  fresh_written : Channel.written (_thread_data s) = [];
  fresh_open : _outbound_shutdown s = false }.

Lemma initialized_represents cfg random s s' :
  fresh s -> 0 <= TCPConfig.send_capacity cfg < MAX64 ->
  _tcp s' = Some (TCPConnection.make cfg random) -> (_datagram_adapter s').2 = (_datagram_adapter s).2 ->
  _thread_data s' = _thread_data s -> represents s' (Network.start cfg random).
Proof.
  intros [F1 F2 F3 F4 F5] Hcap E1 E2 E3. split; rewrite ?E2, ?E3; try done.
  by rewrite F3.
Qed.

(** Opening a connection, actively or passively, runs the loop from a state that is
    simulated. *)
Definition open (active_open : bool) := if active_open then connect (A := A * list TCPSegment.t) else listen_and_accept.

Definition opens (active_open : bool) c_tcp c_ad random s : Prop :=
  exists condition s1, simulated s1 /\
    forall rounds time, open active_open c_tcp c_ad random rounds time s = _tcp_loop condition rounds time rules s1.

Lemma connect_opens c_tcp c_ad random s :
  fresh s -> 0 <= TCPConfig.send_capacity c_tcp < MAX64 -> (forall S, Q S (Network.start c_tcp random)) ->
  opens true c_tcp c_ad random s.
Proof.
  intros Hf Hcap HQ. set (n0 := Network.start c_tcp random). unfold opens, open, connect. rewrite (fresh_tcp _ Hf).
  cbn [_initialize_TCP]. set (s1 := (s <| _tcp := _ |>) <| _datagram_adapter := _ |>).
  assert (represents s1 n0) as Hr by (by apply (initialized_represents c_tcp random s)).
  unfold tcp. rewrite (rep_tcp _ _ Hr). cbn [obind]. change (Network.conn n0) with (TCPConnection.make c_tcp random).
  rewrite connect_syn_sent. change (TCPState.neqb _ _) with false. cbv iota. eexists _, _. split; [|done].
  set (n1 := n0 <| Network.conn := TCPConnection.connect (Network.conn n0) |>).
  assert (Outbound.drained (Network.outbound n0) (Network.outbound n1)) as [D1 D2 _ D3] by apply Outbound.connect_drained.
  apply (simulated_quiet s1 _ n0 n1); try done.
  - destruct Hr as [R1 R2 R3 R4 R5 R6]. destruct (D3 R4). split; try done; try congruence.
  - intros S. apply rtc_once. left. apply Network.local_connect.
Qed.

Lemma listen_opens c_tcp c_ad random s :
  fresh s -> 0 <= TCPConfig.send_capacity c_tcp < MAX64 -> (forall S, Q S (Network.start c_tcp random)) ->
  opens false c_tcp c_ad random s.
Proof.
  intros Hf Hcap HQ. unfold opens, open, listen_and_accept. rewrite (fresh_tcp _ Hf). cbn [_initialize_TCP].
  eexists _, _. split; [|done]. eexists. split; [by apply (initialized_represents c_tcp random s)|]. done.
Qed.

Lemma socket_opens active_open c_tcp c_ad random s :
  fresh s -> 0 <= TCPConfig.send_capacity c_tcp < MAX64 -> (forall S, Q S (Network.start c_tcp random)) ->
  opens active_open c_tcp c_ad random s.
Proof. destruct active_open; [apply connect_opens|apply listen_opens]. Qed.

End refinement.

(** ** What the thread throws

    The same for a socket over the adapter itself: without the written-down segments
    the loop does the same. *)
Section unrecorded.
Context {A : Type} `{Laws : DatagramAdapterLaws A}.
Abbreviation sock := (t (A * list TCPSegment.t)).

Definition forget (s : sock) : t A :=
  mk (_owner s) (_thread_data s) (_datagram_adapter s).1 (_tcp s) (_abort s) (_inbound_shutdown s)
     (_outbound_shutdown s) (_fully_acked s).

Definition record (s : t A) : sock :=
  mk (_owner s) (_thread_data s) (_datagram_adapter s, []) (_tcp s) (_abort s) (_inbound_shutdown s)
     (_outbound_shutdown s) (_fully_acked s).

Abbreviation forgets := (Forall2 (EventLoop.projects forget)).

Lemma send_all_forgets l (a : A * list TCPSegment.t) :
  match send_all l a with Ok a' => send_all l a.1 = Ok a'.1 | Throw e => send_all l a.1 = Throw e end.
Proof.
  revert a. induction l as [|seg l IH]; intros a; cbn [send_all]; [done|]. cbn [adapter_write recorded].
  destruct (adapter_write seg a.1) as [a1|]; cbn [obind]; [|done]. apply (IH (a1, a.2 ++ [seg])).
Qed.

Lemma rules_forget : forgets rules rules.
Proof.
  unfold rules, EventLoop.add_rule. cbn [app].
  repeat (apply Forall2_cons_2; [split; try done; intros s; cbn [EventLoop.callback EventLoop.cancel]|]);
    try apply Forall2_nil_2.
  - unfold datagram_in_callback. cbn [forget _datagram_adapter adapter_read recorded].
    destruct (adapter_read _.1) as [[seg a]|]; cbn [obind EventLoop.seen]; [|done]. unfold tcp. cbn [forget _tcp].
    destruct (_tcp s); cbn [obind EventLoop.seen]; [|done]. do 2 f_equal. by destruct (_ && _ && _).
  - unfold owner_in_callback, tcp. cbn [forget _tcp _thread_data]. destruct (_tcp s) as [c|]; cbn [obind]; [|done].
    destruct (Channel.read _ _) as [[data ch]|]; cbn [obind]; [|done]. cbv zeta.
    destruct (TCPConnection.write data c). destruct (negb _); [done|]. cbn [EventLoop.seen]. do 2 f_equal.
    by destruct (FileDescriptor.eof _).
  - unfold owner_in_cancel, tcp. cbn [forget _tcp]. by destruct (_tcp s).
  - unfold owner_out_callback, tcp. cbn [forget _tcp _thread_data]. destruct (_tcp s) as [c|]; cbn [obind]; [|done].
    destruct (Channel.write _ _) as [[n ch]|]; cbn [obind]; [|done]. destruct (_ || _); [|done].
    by destruct (Channel.shutdown _ _).
  - unfold datagram_out_callback, tcp. cbn [forget _tcp _datagram_adapter]. destruct (_tcp s) as [c|]; cbn [obind]; [|done].
    pose proof (send_all_forgets (TCPConnection._segments_out c) (_datagram_adapter s)) as Hs.
    destruct (send_all _ (_datagram_adapter s)); rewrite Hs; done.
Qed.

Lemma tcp_loop_forgets condition condition' rounds : (forall s, condition' (forget s) = condition s) ->
  forall base_time rs rs' s, forgets rs rs' ->
  match _tcp_loop condition rounds base_time rs s with
  | Ok (ended, kept, s1) =>
      exists kept', _tcp_loop condition' rounds base_time rs' (forget s) = Ok (ended, kept', forget s1) /\ forgets kept kept'
  | Throw e => _tcp_loop condition' rounds base_time rs' (forget s) = Throw e
  end.
Proof.
  intros Hc. induction rounds as [|r rounds IH]; intros base_time rs rs' s Hr; cbn [_tcp_loop]; rewrite Hc; [by exists rs'|].
  destruct (negb _); [by exists rs'|]. pose proof (EventLoop.wait_projects forget (round_poll r) rs rs' s Hr) as Hw.
  destruct (EventLoop.wait_next_event _ rs s) as [[[ret kept] s1]|]; [|by rewrite Hw]. destruct Hw as (kept' & -> & Hk).
  cbn [obind]. set (s2 := s1 <| _abort := _ |>).
  change ((forget s1) <| _abort := _ |>) with (forget s2). change (_abort (forget s2)) with (_abort s2).
  assert (match (let! c := tcp s2 in
      if TCPConnection.active c then
        let next_time := round_time r in
        let s3 := s2 <| _tcp := Some (TCPConnection.tick (u64 (next_time - base_time)) c) |> in
        let! a := adapter_tick (u64 (next_time - base_time)) (_datagram_adapter s3) in
        _tcp_loop condition rounds next_time kept (s3 <| _datagram_adapter := a |>)
      else _tcp_loop condition rounds base_time kept s2) with
    | Ok (ended, kept2, s3) => exists kept2', (let! c := tcp (forget s2) in
      if TCPConnection.active c then
        let next_time := round_time r in
        let s3 := (forget s2) <| _tcp := Some (TCPConnection.tick (u64 (next_time - base_time)) c) |> in
        let! a := adapter_tick (u64 (next_time - base_time)) (_datagram_adapter s3) in
        _tcp_loop condition' rounds next_time kept' (s3 <| _datagram_adapter := a |>)
      else _tcp_loop condition' rounds base_time kept' (forget s2)) = Ok (ended, kept2', forget s3) /\ forgets kept2 kept2'
    | Throw e => (let! c := tcp (forget s2) in
      if TCPConnection.active c then
        let next_time := round_time r in
        let s3 := (forget s2) <| _tcp := Some (TCPConnection.tick (u64 (next_time - base_time)) c) |> in
        let! a := adapter_tick (u64 (next_time - base_time)) (_datagram_adapter s3) in
        _tcp_loop condition' rounds next_time kept' (s3 <| _datagram_adapter := a |>)
      else _tcp_loop condition' rounds base_time kept' (forget s2)) = Throw e
    end) as Hgo.
  { unfold tcp. cbn [forget _tcp]. destruct (_tcp s2) as [c|]; cbn [obind]; [|done].
    destruct (TCPConnection.active c); [|by apply IH]. cbv zeta. cbn [adapter_tick recorded modify _datagram_adapter forget].
    destruct (adapter_tick _ _.1) as [a|]; cbn [obind]; [|done].
    match goal with |- context [_tcp_loop condition _ _ _ ?x] => exact (IH (round_time r) kept kept' x Hk) end. }
  destruct ret, (_abort s2); first [exact Hgo|by exists kept'].
Qed.

Lemma open_forgets active_open c_tcp c_ad random rounds time (s : sock) :
  match open active_open c_tcp c_ad random rounds time s with
  | Ok (ended, kept, s1) =>
      exists kept', (if active_open then connect else listen_and_accept) c_tcp c_ad random rounds time (forget s) =
        Ok (ended, kept', forget s1) /\ forgets kept kept'
  | Throw e => (if active_open then connect else listen_and_accept) c_tcp c_ad random rounds time (forget s) = Throw e
  end.
Proof.
  unfold open. destruct active_open; unfold connect, listen_and_accept; change (_tcp (forget s)) with (_tcp s);
    (destruct (bool_decide _); [done|]); cbn [_initialize_TCP tcp obind].
  - unfold tcp. cbn [modify _tcp obind]. destruct (TCPState.neqb _ _); [done|].
    refine (tcp_loop_forgets _ (fun s => match _tcp s with
      | Some c => TCPState.eqb (TCPConnection.state c) (TCPState.of_state TCPState.SYN_SENT)
      | None => false end) rounds (fun _ => eq_refl) time rules rules _ rules_forget).
  - refine (tcp_loop_forgets _ (fun s => match _tcp s with
      | Some c =>
          let st := TCPConnection.state c in
          TCPState.eqb st (TCPState.of_state TCPState.LISTEN) || TCPState.eqb st (TCPState.of_state TCPState.SYN_RCVD)
          || TCPState.eqb st (TCPState.of_state TCPState.SYN_SENT)
      | None => false end) rounds (fun _ => eq_refl) time rules rules _ rules_forget).
Qed.

(** An exception of the thread comes from a system call or from the adapter. *)
Lemma thread_faults (active_open : bool) c_tcp c_ad random rounds1 rounds2 time1 time2 (s : t A) owner :
  fresh (record s) -> 0 <= TCPConfig.send_capacity c_tcp < MAX64 ->
  Forall (fun r => EventLoop.poll_clean (round_poll r)) (rounds1 ++ rounds2) ->
  match (if active_open then connect else listen_and_accept) c_tcp c_ad random rounds1 time1 s with
  | Ok (_, rs, s1) =>
      match _tcp_main rounds2 time2 rs (s1 <| _owner := owner |>) with Ok _ => True | Throw e => fault (A := A) e end
  | Throw e => fault (A := A) e
  end.
Proof.
  intros Hf Hcap [Hp1 Hp2]%Forall_app. set (R := fun (_ : Network.node) (_ : TCPSegment.t) => True).
  set (Q := fun (_ : bytes) (_ : Network.node) => True).
  pose proof (specs_client R Q (fun _ _ _ _ _ => I) (fun _ _ _ _ _ => I)) as Hc.
  destruct (socket_opens R Q (fun _ _ _ _ _ => I) active_open c_tcp c_ad random (record s)) as (condition & s0 & Hs0 & E);
    [done|done|done|].
  pose proof (open_forgets active_open c_tcp c_ad random rounds1 time1 (record s)) as Ho. rewrite E in Ho.
  replace (forget (record s)) with s in Ho by (by destruct s).
  pose proof (tcp_loop_simulated R Q (fun _ _ _ _ _ => I) condition rounds1 time1 specs s0 Hc Hp1 Hs0) as Hl.
  change (map fst specs) with (rules (A := A * list TCPSegment.t)) in Hl.
  destruct (_tcp_loop condition _ _ _ _) as [[[ended kept] s1]|]; [|by rewrite Ho].
  destruct Ho as (kept' & -> & Hk). destruct Hl as (Hs1 & sps & -> & Hc').
  set (s2 := s1 <| _owner := owner |>). assert (simulated Q s2) as Hs2 by (destruct Hs1 as (n & [] & ?); by exists n).
  change ((forget s1) <| _owner := owner |>) with (forget s2). unfold _tcp_main.
  assert (is_Some (_tcp (forget s2))) as Ht by (destruct Hs2 as (n & [] & _); by eexists).
  rewrite (bool_decide_eq_true_2 _ Ht). cbn [negb].
  pose proof (tcp_loop_simulated R Q (fun _ _ _ _ _ => I) (fun _ => true) rounds2 time2 sps s2 Hc' Hp2 Hs2) as Hl2.
  pose proof (tcp_loop_forgets (fun _ => true) (fun _ => true) rounds2 (fun _ => eq_refl) time2 _ _ s2 Hk) as Hl3.
  destruct (_tcp_loop _ rounds2 time2 _ s2) as [[[ended2 kept2] s3]|]; [|by rewrite Hl3].
  destruct Hl3 as (kept2' & -> & _). cbn [obind]. destruct ended2; [|done].
  unfold Channel.shutdown. pose proof (Channel.system_call_fault "shutdown" (hd (mkSys 0 0) (Channel.others (_owner (forget s3)))) 0) as Hsh.
  destruct (SystemCall _ _ _); cbn [obind]; [done|]. by left.
Qed.

End unrecorded.

(** The segments that an adapter can deliver. *)
Definition deliverable {A} `{DatagramAdapter A} (_ : Network.node) (seg : TCPSegment.t) : Prop :=
  exists a a' : A, adapter_read a = Ok (Some seg, a').

Definition endpoint_step {A} `{DatagramAdapter A} : bytes -> Network.node -> Network.node -> Prop :=
  endpoint_move (deliverable (A := A)).

(** ** Property *)

(** C15: the socket is an endpoint.  Open a fresh socket actively or passively, over any
    adapter, and let its thread run: whatever the kernel reports, delivers and
    accepts, the state reached is that of an endpoint of the network whose
    application wrote what was read from the owner, whose reader got what was
    written to the owner, and whose wire carries what was given to the adapter.
    Only system calls and the adapter can throw: the state check of [connect], the
    length check of the outbound rule and the busy-wait check of the event loop
    never fail. *)
Theorem socket_refines_endpoint {A} `{Laws : DatagramAdapterLaws A} (active_open : bool) (c_tcp : TCPConfig.t)
    (c_ad : FdAdapterConfig.t) (random : Z) (rounds1 rounds2 : list round) (time1 time2 : Z)
    (s : t (A * list TCPSegment.t)) :
  fresh s -> 0 <= TCPConfig.send_capacity c_tcp < MAX64 ->
  Forall (fun r => EventLoop.poll_clean (round_poll r)) (rounds1 ++ rounds2) ->
  match (let! (_, rules, s1) :=
           (if active_open then connect else listen_and_accept) c_tcp c_ad random rounds1 time1 s in
         _tcp_loop (fun _ => true) rounds2 time2 rules s1) with
  | Ok (_, _, s') =>
      exists n, represents s' n /\
        forall S, writes S s' n -> rtc (endpoint_step (A := A) S) (Network.start c_tcp random) n
  | Throw e => fault (A := A) e
  end.
Proof.
  intros Hf Hcap [Hp1 Hp2]%Forall_app. set (Q := fun S n => rtc (endpoint_step (A := A) S) (Network.start c_tcp random) n).
  assert (forall S n n', endpoint_step (A := A) S n n' -> Q S n -> Q S n') as HQ by (intros; by eapply rtc_r).
  pose proof (specs_client deliverable Q HQ (fun _ seg a a' E => ex_intro _ a (ex_intro _ a' E))) as Hc.
  destruct (socket_opens deliverable Q HQ active_open c_tcp c_ad random s) as (condition & s0 & Hs0 & E);
    [done|done|by intros; apply rtc_refl|]. unfold open in E. rewrite E.
  pose proof (tcp_loop_simulated deliverable Q HQ condition rounds1 time1 specs s0 Hc Hp1 Hs0) as Ho.
  change (map fst specs) with (rules (A := A * list TCPSegment.t)) in Ho.
  destruct (_tcp_loop condition _ _ _ _) as [[[ended kept] s1]|]; cbn [obind]; [|done].
  destruct Ho as (Hs1 & sps' & -> & Hc').
  pose proof (tcp_loop_simulated deliverable Q HQ (fun _ => true) rounds2 time2 sps' s1 Hc' Hp2 Hs1) as Hl.
  destruct (_tcp_loop _ _ _ _ _) as [[[? ?] ?]|]; [apply Hl|done].
Qed.

(** A socket over a TUN device: the SYN leaves in the first round. *)
Definition demo_channel (n : Z) (writes : list sysret) : Channel.t :=
  Channel.mk (FDWrapper.mk n false false 0 0) [] writes [] [] [].

Definition demo_socket : t (TunAdapter.t * list TCPSegment.t) :=
  mk (demo_channel 3 []) (demo_channel 4 [])
    (TunAdapter.mk FdAdapterBase.default (demo_channel 5 [mkSys 40 0]), []) None false false false false.

Definition demo_ad : FdAdapterConfig.t := FdAdapterConfig.mk (Endpoint.mk 167772161 4000) (Endpoint.mk 167772162 80) 0 0.

Definition demo_rounds : list round := [mkRound (EventLoop.demo_poll [0; 0; 0; EventLoop.POLLOUT]) false 10].

Lemma demo_rounds_clean : Forall (fun r => EventLoop.poll_clean (round_poll r)) demo_rounds.
Proof. apply Forall_singleton, EventLoop.demo_poll_clean. repeat (apply Forall_cons_2; [reflexivity|]). apply Forall_nil_2. Qed.

Lemma socket_refines_endpoint_witness :
  match (let! (_, rules, s1) := connect (A := TunAdapter.t * list TCPSegment.t) (Network.demo_cfg 7) demo_ad 0 demo_rounds 0 demo_socket in
         _tcp_loop (fun _ => true) [] 10 rules s1) with
  | Ok (_, _, s') =>
      exists n, represents s' n /\
        forall S, writes S s' n -> rtc (endpoint_step (A := TunAdapter.t) S) (Network.start (Network.demo_cfg 7) 0) n
  | Throw e => fault (A := TunAdapter.t) e
  end.
Proof.
  apply (socket_refines_endpoint (A := TunAdapter.t) true (Network.demo_cfg 7) demo_ad 0 demo_rounds [] 0 10 demo_socket).
  - split; reflexivity.
  - vm_compute. split; congruence.
  - rewrite app_nil_r. apply demo_rounds_clean.
Defined.

Example demo_syn_sent :
  match connect (A := TunAdapter.t * list TCPSegment.t) (Network.demo_cfg 7) demo_ad 0 demo_rounds 0 demo_socket with
  | Ok (ended, rules, s') =>
      ended = false /\ length rules = 4%nat /\
      map (fun seg => TCPHeader.syn (TCPSegment.header seg)) (_datagram_adapter s').2 = [true] /\
      zlen (Channel.written (TunAdapter._tun (_datagram_adapter s').1)) = 40
  | Throw _ => False
  end.
Proof. vm_compute. done. Qed.

(** Destroying a socket sends no reset.  The thread leaves its loop when the owner
    aborts, and destroys the connection; the reset that the destructor of an active
    connection queues is dropped with it: the adapter is what it was when the loop
    ended. *)
Theorem abort_drops_reset {A} `{DatagramAdapter A} (rounds : list round) (base_time : Z)
    (rules0 : list (EventLoop.Rule (t A))) (s s' : t A) :
  _tcp_main rounds base_time rules0 s = Ok (true, s') ->
  exists rules1 s1, _tcp_loop (fun _ => true) rounds base_time rules0 s = Ok (true, rules1, s1) /\
    _tcp s' = None /\ _datagram_adapter s' = _datagram_adapter s1 /\
    forall c, _tcp s1 = Some c -> TCPConnection.active c = true ->
      exists pre rst, TCPConnection._segments_out (TCPConnection.destroy c) = pre ++ [rst] /\
        TCPHeader.rst (TCPSegment.header rst) = true.
Proof.
  unfold _tcp_main. destruct (negb _); [done|].
  destruct (_tcp_loop _ _ _ _ _) as [[[[] rules1] s1]|]; cbn [obind]; [|done..].
  destruct (Channel.shutdown _ _) as [o|]; cbn [obind]; [|done]. intros [= <-].
  exists rules1, s1. split_and!; try done. intros c _ Ha. unfold TCPConnection.destroy. rewrite Ha.
  unfold TCPConnection.positive_unclean_shutdown, TCPSender.send_empty_segment_with_this_header, TCPSender.send_segment.
  destruct c as [cfg r [] out lg tm]. simpl. eexists _, _. split; [reflexivity|].
  unfold TCPConnection.finish_segment. simpl. by destruct (TCPReceiver.ackno r); simpl.
Qed.

End TCPSpongeSocket.
