(* ===== verification/Sockets.v ===== *)
(** * Two sockets and the network between them

    Two [TCPSpongeSocket]s, opened actively or passively over any adapters, whose
    loops run in any interleaving.  The network between the adapters may lose,
    repeat, delay and reorder segments and change their ports and checksums; the
    devices, the kernel and the owners do what they want between two rounds.  The
    contract of [Network.v] reaches the owners' streams: what a socket writes to
    its owner is the beginning of what the other socket took from its own. *)
From stdpp Require Import relations.
From S2P Require Import Prelude WrappingIntegers ByteStream OrderedMap StreamReassembler Buffer.
From S2P Require Import Parser Checksum TCPSegment IPv4 Adapter TCPReceiver TCPSender TCPConnection.
From S2P Require Import FileDescriptor EventLoop Channel DatagramAdapter Network Outbound SpongeSocket.
Import WrappingIntegers TCPSpongeSocket.

Module Sockets.

#[local] Existing Instance recorded.

(** ** Segments that differ only in what the adapters fill in *)

Record alike (seg seg0 : TCPSegment.t) : Prop := {
  alike_header :
    (TCPSegment.header seg) <| TCPHeader.sport := 0 |> <| TCPHeader.dport := 0 |> <| TCPHeader.cksum := 0 |> =
    (TCPSegment.header seg0) <| TCPHeader.sport := 0 |> <| TCPHeader.dport := 0 |> <| TCPHeader.cksum := 0 |>;
  alike_payload : Buffer.str (TCPSegment.payload seg) = Buffer.str (TCPSegment.payload seg0) }.

(** A connection does not look at the rest. *)
Lemma alike_received seg seg0 c :
  alike seg seg0 -> TCPConnection.segment_received seg c = TCPConnection.segment_received seg0 c.
Proof.
  destruct seg as [[] pl], seg0 as [[] pl0]. intros [Hh Hp]. cbn in Hh, Hp. injection Hh as -> -> -> -> -> -> -> -> -> -> ->.
  unfold TCPConnection.segment_received, TCPConnection.keep_alive, TCPReceiver.segment_received,
    TCPReceiver.accept_payload, TCPSegment.length_in_sequence_space, Buffer.copy. cbn. by rewrite Hp.
Qed.

(** ** The system *)

(** A socket with the rules its loop has left. *)
Definition side (A : Type) : Type := t (A * list TCPSegment.t) * list (EventLoop.Rule (t (A * list TCPSegment.t))).

Section sides.
Context {A : Type} `{DatagramAdapter A}.

(** The segments that the socket has given to its adapter. *)
Definition sent_by (x : side A) : list TCPSegment.t := (_datagram_adapter x.1).2.

(** What the device is going to deliver was sent by the peer, at any time before. *)
Definition arrives (sent : list TCPSegment.t) (s : t (A * list TCPSegment.t)) : Prop :=
  forall seg a, adapter_read (_datagram_adapter s).1 = Ok (Some seg, a) -> exists seg0, seg0 ∈ sent /\ alike seg seg0.

(** What the world around the socket cannot change. *)
Record outside (s s' : t (A * list TCPSegment.t)) : Prop := {
  out_tcp : _tcp s' = _tcp s;
  out_sent : (_datagram_adapter s').2 = (_datagram_adapter s).2;
  out_taken : Channel.taken (_thread_data s') = Channel.taken (_thread_data s);
  out_written : Channel.written (_thread_data s') = Channel.written (_thread_data s);
  out_shutdown : _outbound_shutdown s' = _outbound_shutdown s }.

(** What happens on one side: a round of the loop, or something outside. *)
Inductive turn (sent : list TCPSegment.t) : side A -> side A -> Prop :=
| turn_round condition r base_time s rules ended rules' s' :
    arrives sent s -> _tcp_loop condition [r] base_time rules s = Ok (ended, rules', s') ->
    turn sent (s, rules) (s', rules')
| turn_outside s s' rules : outside s s' -> turn sent (s, rules) (s', rules).

(** The socket after [connect] or [listen_and_accept] and before the first round. *)
Definition opened (active_open : bool) (cfg : TCPConfig.t) (random : Z) (x : side A) : Prop :=
  exists c_ad time ended s, fresh s /\ open active_open cfg c_ad random [] time s = Ok (ended, x.2, x.1).

End sides.

Inductive step {A B} `{DatagramAdapter A} `{DatagramAdapter B} : side A * side B -> side A * side B -> Prop :=
| step_left x x' y : turn (sent_by y) x x' -> step (x, y) (x', y)
| step_right x y y' : turn (sent_by x) y y' -> step (x, y) (x, y').

(** ** Invariant *)

(** Streams and receive buffers below 2 GiB. *)
Definition short (S : bytes) : Prop := zlen S < 2147483640.

Definition small (cap : Z) : Prop := 0 <= cap < 2147483648.

Lemma short_fits S cap : short S -> small cap -> TCPReceiver.fits S cap.
Proof. unfold short, small. split; lia. Qed.

Section invariant.
Context (isn1 isn2 : WrappingInt32) (cap1 cap2 : Z).
Context (Hisn2 : wf isn2) (Hcap1 : small cap1).

Lemma received_good S1 S2 n m seg :
  short S1 -> short S2 ->
  Network.good S1 isn1 S2 isn2 cap1 n -> Network.good S2 isn2 S1 isn1 cap2 m ->
  (exists seg0, seg0 ∈ Network.sent m /\ alike seg seg0) ->
  Network.good S1 isn1 S2 isn2 cap1 (Network.receive seg n).
Proof.
  intros H1 H2 Hn [_ Hm] (seg0 & Hin & Ha). unfold Network.receive. rewrite (alike_received seg seg0) by done.
  apply Network.receive_good; try done.
  - by apply (proj2 (short_fits S1 cap1 H1 Hcap1)).
  - by apply short_fits.
  - rewrite Forall_forall in Hm. by apply Hm.
  - intros x _ _. left. unfold TCPReceiver.short, short, small in *. lia.
Qed.

Context {A B : Type} `{DatagramAdapterLaws A} `{DatagramAdapter B}.

(** Whatever the two owners go on to write, both endpoints are as [Network.v] says. *)
Definition linked (s1 : t (A * list TCPSegment.t)) (s2 : t (B * list TCPSegment.t)) : Prop :=
  exists n1 n2, represents s1 n1 /\ represents s2 n2 /\
    forall S1 S2, writes S1 s1 n1 -> writes S2 s2 n2 -> short S1 -> short S2 ->
      Network.good S1 isn1 S2 isn2 cap1 n1 /\ Network.good S2 isn2 S1 isn1 cap2 n2.

Lemma outside_linked s1 s1' s2 : outside s1 s1' -> linked s1 s2 -> linked s1' s2.
Proof.
  intros [O1 O2 O3 O4 O5] (n1 & n2 & Hr1 & Hr2 & Hg). exists n1, n2. split_and!; [|done|].
  - destruct Hr1 as [R1 R2 R3 R4 R5 R6]. split; rewrite ?O1, ?O2, ?O3, ?O4, ?O5; done.
  - intros S1 S2 (W1 & W2 & W3). rewrite O3 in *. by apply Hg.
Qed.

Lemma turn_linked x x' y :
  turn (sent_by y) x x' -> sublist x.2 rules -> linked x.1 y.1 -> sublist x'.2 rules /\ linked x'.1 y.1.
Proof.
  intros Ht. destruct Ht as [condition r base_time s rs ended rs' s' Ha Hl|s s' rs Ho]; cbn [fst snd];
    [|intros; split; [done|]; by eapply outside_linked].
  intros Hsub (n1 & n2 & Hr1 & Hr2 & Hg).
  set (R := fun (_ : Network.node) seg => exists seg0, seg0 ∈ Network.sent n2 /\ alike seg seg0).
  set (Q := fun S1 n => forall S2, writes S2 y.1 n2 -> short S1 -> short S2 ->
    Network.good S1 isn1 S2 isn2 cap1 n /\ Network.good S2 isn2 S1 isn1 cap2 n2).
  destruct (socket_round R Q) with (condition := condition) (r := r) (base_time := base_time) (rs := rs) (s := s)
    (ended := ended) (rs' := rs') (s' := s') as [Hsub' (n & Hr & Hn)]; try done.
  - intros S1 n n' Hm Hq S2 Hw Hs1 Hs2. destruct (Hq S2 Hw Hs1 Hs2) as [Hg1 Hg2]. split; [|done].
    destruct Hm as [Hm|(seg & HR & ->)]; [|by eapply received_good].
    eapply Network.local_good; [|done..]. by apply (proj2 (short_fits S1 cap1 Hs1 Hcap1)).
  - exists n1. split; [done|]. intros S1 W1 S2 W2 ??. by apply Hg.
  - intros n seg a Hr Hread. unfold R. rewrite <- (rep_sent _ _ Hr2). by eapply Ha.
  - split; [done|]. exists n, n2. split_and!; [done..|]. intros S1 S2 W1 W2 ??. by apply Hn.
Qed.

End invariant.

(** The same seen from the other side. *)
Lemma linked_sym {A B} `{DatagramAdapter A} `{DatagramAdapter B} isn1 isn2 cap1 cap2
    (s1 : t (A * list TCPSegment.t)) (s2 : t (B * list TCPSegment.t)) :
  linked isn1 isn2 cap1 cap2 s1 s2 -> linked isn2 isn1 cap2 cap1 s2 s1.
Proof.
  intros (n1 & n2 & ? & ? & Hg). exists n2, n1. split_and!; [done..|]. intros S2 S1 ????. by apply and_comm, Hg.
Qed.

(** Opening gives one side of the invariant. *)
Lemma opened_good {A} `{DatagramAdapterLaws A} active_open cfg random isn isn' (x : side A) :
  Network.cfg_ok cfg random isn -> small (TCPConfig.recv_capacity cfg) -> wf isn' -> opened active_open cfg random x ->
  sublist x.2 rules /\ exists n, represents x.1 n /\ forall S S', writes S x.1 n -> short S -> short S' ->
    Network.good S isn S' isn' (TCPConfig.recv_capacity cfg) n.
Proof.
  intros Hok Hcap Hi (c_ad & time & ended & s & Hf & Ho).
  set (Q := fun S n => forall S', short S -> short S' -> Network.good S isn S' isn' (TCPConfig.recv_capacity cfg) n).
  destruct (socket_opens (fun _ _ => False) Q) with (active_open := active_open) (c_tcp := cfg) (c_ad := c_ad)
    (random := random) (s := s) as (condition & s1 & (n & Hr & Hn) & E); try done.
  - intros S n n' [Hl|(? & [] & _)] Hq S' HS HS'. eapply Network.local_good; [|done|by apply Hq].
    by apply (proj2 (short_fits S _ HS Hcap)).
  - destruct Hok as (_ & _ & Hs & _). lia.
  - intros S S' HS HS'. apply Network.start_good; [by apply short_fits|done..].
  - rewrite E in Ho. injection Ho as _ <- <-. split; [done|]. exists n. split; [done|]. intros S S' ???. by apply Hn.
Qed.

(** ** What the owners see *)

(** The stream taken from an owner is one that it may be writing. *)
Lemma writes_taken {A} `{DatagramAdapter A} (s : t (A * list TCPSegment.t)) n :
  short (Channel.taken (_thread_data s)) -> writes (Channel.taken (_thread_data s)) s n.
Proof. unfold short. intros Hs. split; [lia|done]. Qed.

(** While the owner has not finished, so is every longer one. *)
Lemma writes_more {A} `{DatagramAdapter A} (s : t (A * list TCPSegment.t)) n b :
  represents s n -> _outbound_shutdown s = false -> zlen (Channel.taken (_thread_data s) ++ [b]) < MAX64 ->
  writes (Channel.taken (_thread_data s) ++ [b]) s n.
Proof. intros Hr Ho Hl. split; [done|]. split; [by eexists|]. by rewrite (rep_open _ _ Hr Ho). Qed.

(** What [s2] has given to its owner comes from what [s1] took. *)
Definition delivers {A B} (s1 : t (A * list TCPSegment.t)) (s2 : t (B * list TCPSegment.t)) : Prop :=
  Channel.written (_thread_data s2) `prefix_of` Channel.taken (_thread_data s1) /\
  forall c, _tcp s2 = Some c -> ByteStream.eof (TCPConnection.inbound_stream c) = true ->
    Channel.written (_thread_data s2) = Channel.taken (_thread_data s1) /\ _outbound_shutdown s1 = true.

Lemma linked_delivers {A B} `{DatagramAdapter A} `{DatagramAdapter B} isn1 isn2 cap1 cap2
    (s1 : t (A * list TCPSegment.t)) (s2 : t (B * list TCPSegment.t)) :
  linked isn1 isn2 cap1 cap2 s1 s2 ->
  zlen (Channel.taken (_thread_data s1)) < 2147483639 -> short (Channel.taken (_thread_data s2)) -> delivers s1 s2.
Proof.
  intros (n1 & n2 & Hr1 & Hr2 & Hg) L1 L2. set (T1 := Channel.taken (_thread_data s1)) in *.
  assert (forall S1, writes S1 s1 n1 -> short S1 ->
    let seen := Network.got n2 ++ ByteStream._buffer (Network.inbound n2) in
    seen = ztake (zlen seen) S1 /\ (ByteStream.input_ended (Network.inbound n2) = true -> seen = S1)) as Hseen.
  { intros S1 W1 HS1. destruct (Hg S1 _ W1 (writes_taken s2 n2 L2) HS1 L2) as [_ Hg2]. by eapply Network.good_reader. }
  assert (short T1) as HT1 by (unfold short; lia).
  destruct (Hseen T1 (writes_taken s1 n1 HT1) HT1) as [Hpre Hend]. unfold delivers. rewrite (rep_got _ _ Hr2). split.
  - fold T1. set (seen := Network.got n2 ++ _) in *.
    exists (ByteStream._buffer (Network.inbound n2) ++ zdrop (zlen seen) T1).
    rewrite app_assoc. fold seen. rewrite Hpre at 1. by rewrite ztake_zdrop.
  - intros c Hc. rewrite (rep_tcp _ _ Hr2) in Hc. injection Hc as <-. fold (Network.inbound n2).
    unfold ByteStream.eof. intros [Hb Hie]%andb_true_iff. specialize (Hend Hie).
    assert (ByteStream._buffer (Network.inbound n2) = []) as Enil
      by (apply zlen_0_nil; unfold ByteStream.buffer_empty, ByteStream.buffer_size in Hb; lia).
    rewrite Enil, app_nil_r in *. split; [done|]. destruct (_outbound_shutdown s1) eqn:Eo; [done|exfalso].
    assert (zlen (T1 ++ [Byte.x00]) = zlen T1 + 1) as El by (by rewrite zlen_app).
    destruct (Hseen (T1 ++ [Byte.x00])) as [_ Hend']; [apply writes_more; fold T1; [done|done|lia]|unfold short; lia|].
    specialize (Hend' Hie). rewrite Hend in Hend'. rewrite <- Hend' in El. lia.
Qed.

(** ** Property *)

(** C2: the contract of the sockets.  Open two sockets, each actively or passively,
    over any adapters, and let the rounds of their loops interleave in any way, with
    anything happening outside in between, over a network on which only what one
    side sent arrives at the other, any number of times, any time later and in any
    order (a SYN after data included), with any ports and checksum: what either
    socket has written to its owner is the beginning of what the other has taken
    from its own; and when its inbound stream is over, that is all of it and the
    other owner has closed.  The streams and the receive buffers are below 2 GiB. *)
Theorem sockets_end_to_end {A B} `{DatagramAdapterLaws A} `{DatagramAdapterLaws B} (open1 open2 : bool)
    (cfg1 cfg2 : TCPConfig.t) (random1 random2 : Z) (isn1 isn2 : WrappingInt32)
    (x x' : side A) (y y' : side B) :
  Network.cfg_ok cfg1 random1 isn1 -> Network.cfg_ok cfg2 random2 isn2 ->
  small (TCPConfig.recv_capacity cfg1) -> small (TCPConfig.recv_capacity cfg2) ->
  opened open1 cfg1 random1 x -> opened open2 cfg2 random2 y ->
  rtc step (x, y) (x', y') ->
  zlen (Channel.taken (_thread_data x'.1)) < 2147483639 -> zlen (Channel.taken (_thread_data y'.1)) < 2147483639 ->
  delivers x'.1 y'.1 /\ delivers y'.1 x'.1.
Proof.
  intros Hok1 Hok2 Hc1 Hc2 Ho1 Ho2 Hrtc L1 L2.
  assert (wf isn1 /\ wf isn2) as [Hi1 Hi2] by (split; [apply Hok1|apply Hok2]).
  set (cap1 := TCPConfig.recv_capacity cfg1). set (cap2 := TCPConfig.recv_capacity cfg2).
  assert (forall p, rtc step (x, y) p ->
    sublist p.1.2 rules /\ sublist p.2.2 rules /\ linked isn1 isn2 cap1 cap2 p.1.1 p.2.1) as Hinv.
  { apply rtc_ind_r.
    - destruct (opened_good open1 cfg1 random1 isn1 isn2 x) as (Hs1 & n1 & Hr1 & Hg1); [done..|].
      destruct (opened_good open2 cfg2 random2 isn2 isn1 y) as (Hs2 & n2 & Hr2 & Hg2); [done..|].
      split_and!; [done..|]. exists n1, n2. split_and!; [done..|]. intros S1 S2 ????. split; auto.
    - intros p p' _ Hst (Hs1 & Hs2 & Hl). destruct Hst as [z z' w Ht|z w w' Ht]; cbn [fst snd] in *.
      + destruct (turn_linked isn1 isn2 cap1 cap2 Hi2 Hc1 z z' w) as [? ?]; done.
      + apply linked_sym in Hl. destruct (turn_linked isn2 isn1 cap2 cap1 Hi1 Hc2 w w' z) as [? ?]; try done.
        split_and!; [done..|]. by apply linked_sym. }
  destruct (Hinv _ Hrtc) as (_ & _ & Hl). cbn [fst snd] in Hl.
  split; [eapply linked_delivers; [exact Hl|done|unfold short; lia]|].
  apply linked_sym in Hl. eapply linked_delivers; [exact Hl|done|unfold short; lia].
Qed.

(** ** A run over two TUN devices *)

#[local] Instance header_eq_dec : EqDecision TCPHeader.t.
Proof. solve_decision. Defined.

#[local] Instance alike_dec seg seg0 : Decision (alike seg seg0).
Proof.
  refine (cast_if_and
    (decide ((TCPSegment.header seg) <| TCPHeader.sport := 0 |> <| TCPHeader.dport := 0 |> <| TCPHeader.cksum := 0 |> =
      (TCPSegment.header seg0) <| TCPHeader.sport := 0 |> <| TCPHeader.dport := 0 |> <| TCPHeader.cksum := 0 |>))
    (decide (Buffer.str (TCPSegment.payload seg) = Buffer.str (TCPSegment.payload seg0)))); [by split|by intros []..].
Defined.

Abbreviation tun_side := (side TunAdapter.t).

Definition arrives_check (sent : list TCPSegment.t) (s : t (TunAdapter.t * list TCPSegment.t)) : bool :=
  match adapter_read (_datagram_adapter s).1 with
  | Ok (Some seg, _) => existsb (fun seg0 => bool_decide (alike seg seg0)) sent
  | _ => true
  end.

Lemma arrives_check_ok sent s : arrives_check sent s = true -> arrives sent s.
Proof.
  unfold arrives_check. intros Hc seg a E. rewrite E in Hc. apply existsb_exists in Hc as (seg0 & Hin & Ha).
  exists seg0. split; [by apply list_elem_of_In|]. by apply bool_decide_eq_true in Ha.
Qed.

(** Between two rounds: what the device has and takes, and what the owner does. *)
Record io := mkIo {
  on_left : bool;
  tun_reads : list bytes;
  tun_writes : list Z;
  owner_reads : list bytes;
  owner_writes : list Z;
  io_poll : list Z }.

Definition answers (reads : list bytes) (writes : list Z) (ch : Channel.t) : Channel.t :=
  ch <| Channel.reads := map (fun d => mkRead (mkSys (zlen d) 0) d) reads |>
     <| Channel.writes := map (fun n => mkSys n 0) writes |>.

Definition prepare (i : io) (x : tun_side) : tun_side :=
  let s := x.1 in
  let a := (_datagram_adapter s).1 in
  (s <| _datagram_adapter := (a <| TunAdapter._tun := answers (tun_reads i) (tun_writes i) (TunAdapter._tun a) |>,
                              (_datagram_adapter s).2) |>
     <| _thread_data := answers (owner_reads i) (owner_writes i) (_thread_data s) |>, x.2).

Definition play_round (i : io) (x : tun_side) : outcome (bool * list (EventLoop.Rule (t (TunAdapter.t * list TCPSegment.t))) * t (TunAdapter.t * list TCPSegment.t)) :=
  _tcp_loop (fun _ => true) [mkRound (EventLoop.demo_poll (io_poll i)) false 0] 0 x.2 x.1.

(** [None] when a round throws or something arrives that was not sent. *)
Definition play_side (i : io) (sent : list TCPSegment.t) (x : tun_side) : option tun_side :=
  let x := prepare i x in
  if arrives_check sent x.1 then
    match play_round i x with Ok (_, rules, s) => Some (s, rules) | Throw _ => None end
  else None.

(** The [io] of a round may depend on what has been sent. *)
Fixpoint play (ios : list (tun_side * tun_side -> io)) (p : tun_side * tun_side) : option (tun_side * tun_side) :=
  match ios with
  | [] => Some p
  | f :: ios =>
      let i := f p in
      if on_left i then x ← play_side i (sent_by p.2) p.1; play ios (x, p.2)
      else y ← play_side i (sent_by p.1) p.2; play ios (p.1, y)
  end.

Lemma play_side_turns i sent x x' : play_side i sent x = Some x' -> rtc (turn sent) x x'.
Proof.
  destruct x as [s0 rs]. unfold play_side, play_round. destruct (arrives_check _ _) eqn:Ea; [|done].
  destruct (_tcp_loop _ _ _ _ _) as [[[ended rules] s]|] eqn:El; [|done]. intros [= <-].
  apply (rtc_l _ _ (prepare i (s0, rs))); [by apply turn_outside|]. apply rtc_once.
  eapply turn_round; [by apply arrives_check_ok|exact El].
Qed.

Lemma play_steps ios p p' : play ios p = Some p' -> rtc step p p'.
Proof.
  revert p. induction ios as [|f ios IH]; intros [x y] Hp; cbn in Hp; [by injection Hp as <-|].
  destruct (on_left _); apply bind_Some in Hp as (z & Hz & Hp); apply IH in Hp; apply play_side_turns in Hz;
    (etrans; [|exact Hp]).
  - eapply (rtc_congruence (fun x => (x, y))); [|done]. intros. by constructor.
  - eapply (rtc_congruence (fun y => (x, y))); [|done]. intros. by constructor.
Qed.

(** The last datagram written to the device of a side, [n] bytes long. *)
Definition last_datagram (n : Z) (x : tun_side) : bytes :=
  let w := Channel.written (TunAdapter._tun (_datagram_adapter x.1).1) in zdrop (zlen w - n) w.

Definition first_datagram (n : Z) (x : tun_side) : bytes :=
  ztake n (Channel.written (TunAdapter._tun (_datagram_adapter x.1).1)).

Definition poll_datagram_in : list Z := [EventLoop.POLLIN; 0; 0; 0].
Definition poll_owner_in : list Z := [0; EventLoop.POLLIN; 0; 0].
Definition poll_owner_out : list Z := [0; 0; EventLoop.POLLOUT; 0].
Definition poll_datagram_out : list Z := [0; 0; 0; EventLoop.POLLOUT].

(** Handshake, two bytes from the left owner to the right one, and the end of its
    stream, after which the rule that reads from the left owner is gone; then the SYN
    arrives once more. *)
Definition demo_script : list (tun_side * tun_side -> io) :=
  [fun _ => mkIo true [] [40] [] [] poll_datagram_out;
   fun p => mkIo false [last_datagram 40 p.1] [] [] [] poll_datagram_in;
   fun _ => mkIo false [] [40] [] [] poll_datagram_out;
   fun p => mkIo true [last_datagram 40 p.2] [] [] [] poll_datagram_in;
   fun _ => mkIo true [] [] [str "hi"] [] poll_owner_in;
   fun _ => mkIo true [] [40; 42] [] [] poll_datagram_out;
   fun p => mkIo false [last_datagram 42 p.1] [] [] [] poll_datagram_in;
   fun _ => mkIo false [] [] [] [2] poll_owner_out;
   fun _ => mkIo true [] [] [[]] [] poll_owner_in;
   fun _ => mkIo true [] [40] [] [] (tail poll_datagram_out);
   fun p => mkIo false [last_datagram 40 p.1] [] [] [] poll_datagram_in;
   fun _ => mkIo false [] [] [] [0] poll_owner_out;
   fun p => mkIo false [first_datagram 40 p.1] [] [] [] [EventLoop.POLLIN; 0; 0]].

Definition demo_listen_ad : FdAdapterConfig.t := FdAdapterConfig.mk (Endpoint.mk 0 80) (Endpoint.mk 0 0) 0 0.

Definition demo_open (active_open : bool) (isn : Z) (ad : FdAdapterConfig.t) : tun_side :=
  match open active_open (Network.demo_cfg isn) ad 0 [] 0 demo_socket with
  | Ok (_, rules, s) => (s, rules)
  | Throw _ => (demo_socket, [])
  end.

Definition demo_start : tun_side * tun_side := (demo_open true 7 demo_ad, demo_open false 77 demo_listen_ad).

(** One evaluation of a run: it goes through, both streams are short, the right owner
    has got [data], and its stream is over. *)
Definition plays (script : list (tun_side * tun_side -> io)) (data : bytes) (p : tun_side * tun_side) : bool :=
  match play script p with
  | Some (x, y) =>
      (zlen (Channel.taken (_thread_data x.1)) <? 2147483639) && (zlen (Channel.taken (_thread_data y.1)) <? 2147483639)
      && bool_decide (Channel.written (_thread_data y.1) = data) && _inbound_shutdown y.1
  | None => false
  end.

Lemma plays_run script data p : plays script data p = true ->
  exists x y, rtc step p (x, y) /\ zlen (Channel.taken (_thread_data x.1)) < 2147483639 /\
    zlen (Channel.taken (_thread_data y.1)) < 2147483639 /\
    Channel.written (_thread_data y.1) = data /\ _inbound_shutdown y.1 = true.
Proof.
  unfold plays. destruct (play script p) as [[x y]|] eqn:E; [|done]. intros H. exists x, y.
  apply andb_true_iff in H as [H H4]. apply andb_true_iff in H as [H H3]. apply andb_true_iff in H as [H1 H2].
  apply bool_decide_eq_true in H3. apply Z.ltb_lt in H1, H2. split_and!; [by eapply play_steps|done..].
Qed.

Lemma demo_plays : plays demo_script (str "hi") demo_start = true.
Proof. vm_compute. reflexivity. Qed.

Lemma demo_opened active_open isn ad :
  opened active_open (Network.demo_cfg isn) 0 (demo_open active_open isn ad).
Proof.
  assert (fresh demo_socket) as Hf by (split; reflexivity).
  destruct (socket_opens (A := TunAdapter.t) (fun _ _ => False) (fun _ _ => True)) with (active_open := active_open)
    (c_tcp := Network.demo_cfg isn) (c_ad := ad) (random := 0) (s := demo_socket) as (condition & s1 & _ & E);
    try done.
  specialize (E [] 0). unfold opened, demo_open. rewrite E. exists ad, 0. eexists _, demo_socket. split; [done|exact E].
Qed.

(** In a state reached from there the right owner has both bytes and the end of its
    stream; by the theorem they are all that the left socket took, and its owner has
    closed. *)
Lemma sockets_end_to_end_witness : exists x y : tun_side,
  Channel.written (_thread_data y.1) = str "hi" /\ _inbound_shutdown y.1 = true /\
  delivers x.1 y.1 /\ delivers y.1 x.1.
Proof.
  destruct (plays_run _ _ _ demo_plays) as (x & y & H1 & H2 & H3 & H4 & H5). exists x, y. split; [exact H4|]. split; [exact H5|].
  apply (sockets_end_to_end (A := TunAdapter.t) (B := TunAdapter.t) true false (Network.demo_cfg 7) (Network.demo_cfg 77) 0 0
    (mkWrapping 7) (mkWrapping 77) (demo_open true 7 demo_ad) x (demo_open false 77 demo_listen_ad) y);
    [repeat split; vm_compute; congruence|repeat split; vm_compute; congruence|by split|by split|apply demo_opened|apply demo_opened|
     exact H1|exact H2|exact H3].
Defined.

End Sockets.
