(* ===== verification/Printing.v ===== *)
(** * Printing: the [to_string] and [summary] methods of the headers and [hexdump]

    [tcp_helpers/ethernet_header.cc], [arp_message.cc], [ipv4_header.cc],
    [tcp_header.cc] and [util/util.cc].  The manipulators of a stream ([hex],
    [setw], [setfill], [boolalpha]) are the functions of [Text]; [inet_ntoa(3)] is
    [dotted].  What is written to [cout] is the result. *)
From Stdlib Require Import Ascii.
From S2P Require Import Prelude Text WrappingIntegers Buffer Parser TCPSegment IPv4 Ethernet Adapter Address.
Import WrappingIntegers.

Module Printing.

Definition newline : string := String "010" "".

(** [ss << setw(2) << setfill('0') << hex << int(b)]. *)
Definition hex2 (b : byte) : string := Text.setw 2 "0" (Text.hex (byte_val b)).

(** [to_string(EthernetAddress)]: a colon after every byte but the last. *)
Fixpoint ethernet_address (address : bytes) : string :=
  match address with
  | [] => EmptyString
  | [b] => hex2 b
  | b :: address => hex2 b +:+ ":" +:+ ethernet_address address
  end.

Definition ethernet_header (h : EthernetHeader.t) : string :=
  "dst=" +:+ ethernet_address (EthernetHeader.dst h) +:+
  ", src=" +:+ ethernet_address (EthernetHeader.src h) +:+
  ", type=" +:+
  (if EthernetHeader.type h =? EthernetHeader.TYPE_IPv4 then "IPv4"
   else if EthernetHeader.type h =? EthernetHeader.TYPE_ARP then "ARP"
   else "[unknown type " +:+ Text.hex (EthernetHeader.type h) +:+ "!]").

Definition arp_message (m : ARPMessage.t) : string :=
  let opcode_str := "(unknown type)" in
  let opcode_str := if ARPMessage.opcode m =? ARPMessage.OPCODE_REQUEST then "REQUEST" else opcode_str in
  let opcode_str := if ARPMessage.opcode m =? ARPMessage.OPCODE_REPLY then "REPLY" else opcode_str in
  "opcode=" +:+ opcode_str +:+ ", sender=" +:+ ethernet_address (ARPMessage.sender_ethernet_address m) +:+ "/" +:+
  dotted (ARPMessage.sender_ip_address m) +:+ ", target=" +:+
  ethernet_address (ARPMessage.target_ethernet_address m) +:+ "/" +:+ dotted (ARPMessage.target_ip_address m).

Definition ipv4_header (h : IPv4Header.t) : string :=
  "IP version: " +:+ Text.hex (IPv4Header.ver h) +:+ newline +:+
  "IP hdr len: " +:+ Text.hex (IPv4Header.hlen h) +:+ newline +:+
  "IP tos: " +:+ Text.hex (IPv4Header.tos h) +:+ newline +:+
  "IP dgram len: " +:+ Text.hex (IPv4Header.len h) +:+ newline +:+
  "IP id: " +:+ Text.hex (IPv4Header.id h) +:+ newline +:+
  "Flags: df: " +:+ Text.boolalpha (IPv4Header.df h) +:+ " mf: " +:+ Text.boolalpha (IPv4Header.mf h) +:+ newline +:+
  "Offset: " +:+ Text.hex (IPv4Header.offset h) +:+ newline +:+
  "TTL: " +:+ Text.hex (IPv4Header.ttl h) +:+ newline +:+
  "Protocol: " +:+ Text.hex (IPv4Header.proto h) +:+ newline +:+
  "Checksum: " +:+ Text.hex (IPv4Header.cksum h) +:+ newline +:+
  "Src addr: " +:+ Text.hex (IPv4Header.src h) +:+ newline +:+
  "Dst addr: " +:+ Text.hex (IPv4Header.dst h) +:+ newline.

Definition ipv4_summary (h : IPv4Header.t) : string :=
  "IPv" +:+ Text.hex (IPv4Header.ver h) +:+ ", " +:+
  "len=" +:+ Text.hex (IPv4Header.len h) +:+ ", " +:+
  "protocol=" +:+ Text.hex (IPv4Header.proto h) +:+ ", " +:+
  (if 10 <=? IPv4Header.ttl h then "" else "ttl=" +:+ Text.to_string (IPv4Header.ttl h) +:+ ", ") +:+
  "src=" +:+ dotted (IPv4Header.src h) +:+ ", " +:+
  "dst=" +:+ dotted (IPv4Header.dst h).

(** The output operator of [WrappingInt32], in the base of the stream. *)
Definition wrapping (base : Z) (n : WrappingInt32) : string := Text.show base (raw_value n).

Definition tcp_header (h : TCPHeader.t) : string :=
  "TCP source port: " +:+ Text.hex (TCPHeader.sport h) +:+ newline +:+
  "TCP dest port: " +:+ Text.hex (TCPHeader.dport h) +:+ newline +:+
  "TCP seqno: " +:+ wrapping 16 (TCPHeader.seqno h) +:+ newline +:+
  "TCP ackno: " +:+ wrapping 16 (TCPHeader.ackno h) +:+ newline +:+
  "TCP doff: " +:+ Text.hex (TCPHeader.doff h) +:+ newline +:+
  "Flags: urg: " +:+ Text.boolalpha (TCPHeader.urg h) +:+ " ack: " +:+ Text.boolalpha (TCPHeader.ack h) +:+
  " psh: " +:+ Text.boolalpha (TCPHeader.psh h) +:+ " rst: " +:+ Text.boolalpha (TCPHeader.rst h) +:+
  " syn: " +:+ Text.boolalpha (TCPHeader.syn h) +:+ " fin: " +:+ Text.boolalpha (TCPHeader.fin h) +:+ newline +:+
  "TCP winsize: " +:+ Text.hex (TCPHeader.win h) +:+ newline +:+
  "TCP cksum: " +:+ Text.hex (TCPHeader.cksum h) +:+ newline +:+
  "TCP uptr: " +:+ Text.hex (TCPHeader.uptr h) +:+ newline.

Definition flag (b : bool) (s : string) : string := if b then s else "".

Definition tcp_summary (h : TCPHeader.t) : string :=
  "Header(flags=" +:+ flag (TCPHeader.syn h) "S" +:+ flag (TCPHeader.ack h) "A" +:+ flag (TCPHeader.rst h) "R" +:+
  flag (TCPHeader.fin h) "F" +:+
  ",seqno=" +:+ wrapping 10 (TCPHeader.seqno h) +:+ ",ack=" +:+ wrapping 10 (TCPHeader.ackno h) +:+
  ",win=" +:+ Text.to_string (TCPHeader.win h) +:+ ")".

(** ** Printed addresses can be told apart *)

(** Leading zeros do not change a number. *)
Lemma read_setw base w s v rest :
  2 <= base <= 16 -> v = 0 ->
  Text.read_digits base (Text.setw w "0" s +:+ rest) v = Text.read_digits base (s +:+ rest) v.
Proof.
  intros Hb ->. unfold Text.setw. generalize (Z.to_nat (w - Z.of_nat (String.length s))). intros n.
  induction n as [|n IH]; [done|].
  change (Text.read_digits base (String "0" ((String.string_of_list_ascii (replicate n "0"%char) +:+ s) +:+ rest)) 0 =
    Text.read_digits base (s +:+ rest) 0). cbn.
  change (Text.digit_val "0") with (Some 0). cbv beta iota.
  replace (0 <? base) with true by lia. exact IH.
Qed.

Lemma read_hex2 b rest :
  Text.starts_with_digit 16 rest = false -> Text.read_digits 16 (hex2 b +:+ rest) 0 = (byte_val b, rest).
Proof.
  intros Hr. unfold hex2. rewrite read_setw by lia. apply Text.read_show; [lia| |done].
  pose proof (byte_val_range b). lia.
Qed.

(** Two Ethernet addresses are printed alike only if they are equal. *)
Lemma ethernet_address_inj (a b : bytes) :
  length a = length b -> ethernet_address a = ethernet_address b -> a = b.
Proof.
  revert b. induction a as [|x a IH]; intros [|y b] Hlen; simpl in Hlen; try lia; [done|].
  assert (forall z l, ethernet_address (z :: l) =
    hex2 z +:+ match l with [] => "" | _ => ":" +:+ ethernet_address l end) as Hcons
    by (intros z [|? ?]; [by rewrite Text.string_app_nil|done]).
  rewrite !Hcons. intros E. apply (f_equal (fun s => Text.read_digits 16 s 0)) in E.
  rewrite !read_hex2 in E by (by destruct a, b). injection E as Ex Er.
  rewrite <- (byte_of_val x), <- (byte_of_val y), Ex. f_equal.
  destruct a as [|x' a], b as [|y' b]; [done..|]. apply IH; [simpl in *; lia|].
  exact (f_equal (fun s => match s with String _ t => t | EmptyString => s end) Er).
Qed.

End Printing.

(** ** [hexdump] *)

Module Hexdump.
Import Printing.

Definition spaces (n : Z) : string := String.string_of_list_ascii (replicate (Z.to_nat n) " "%char).

(** [isprint] of the C locale. *)
Definition isprint (b : byte) : bool := (32 <=? byte_val b) && (byte_val b <=? 126).

Definition shown (b : byte) : string := String (if isprint b then ascii_of_byte b else "."%char) "".

(** The string stream [pchars] holds one space until something is written:
    writing starts at its beginning.  [written] is what was written. *)
Definition pchars_str (written : string) : string :=
  match written with EmptyString => " " | _ => written end.

(** The loop over the data; the state is [printed], [pchars] and the output. *)
Fixpoint hexdump_loop (indent_string : string) (data : bytes) (printed : Z) (pchars out : string) :
    Z * string * string :=
  match data with
  | [] => (printed, pchars, out)
  | b :: data =>
      let '(pchars, out) :=
        if Z.land printed 15 =? 0 then
          let '(pchars, out) :=
            if negb (printed =? 0) then (EmptyString, out +:+ "    " +:+ pchars_str pchars +:+ newline)
            else (pchars, out) in
          (pchars, out +:+ indent_string +:+ Text.setw 8 "0" (Text.hex printed) +:+ ":    ")
        else if Z.land printed 1 =? 0 then (pchars, out +:+ " ")
        else (pchars, out) in
      let out := out +:+ hex2 b in
      hexdump_loop indent_string data (printed + 1) (pchars +:+ shown b) out
  end.

Definition hexdump (data : bytes) (indent : Z) : string :=
  let indent_string := spaces indent in
  let '(printed, pchars, out) := hexdump_loop indent_string data 0 EmptyString EmptyString in
  let print_rem := (16 - Z.land printed 15) mod 16 in
  out +:+ spaces (2 * print_rem + print_rem / 2 + 4) +:+ pchars_str pchars +:+ newline +:+ newline.

(** ** A dump, line by line *)

Fixpoint chars (row : bytes) : string :=
  match row with [] => "" | b :: row => shown b +:+ chars row end.

(** The bytes of a row after the first [j], in groups of two. *)
Fixpoint groups (j : Z) (row : bytes) : string :=
  match row with
  | [] => ""
  | b :: row => (if Z.even j then " " else "") +:+ hex2 b +:+ groups (j + 1) row
  end.

Definition row_text (indent off : Z) (row : bytes) : string :=
  match row with
  | [] => ""
  | b :: row => spaces indent +:+ Text.setw 8 "0" (Text.hex off) +:+ ":    " +:+ hex2 b +:+ groups 1 row
  end.

Definition line (indent off : Z) (row : bytes) : string :=
  let missing := 16 - zlen row in
  row_text indent off row +:+ spaces (2 * missing + missing / 2 + 4) +:+ chars row.

Fixpoint lines (indent off : Z) (rows : list bytes) : string :=
  match rows with
  | [] => ""
  | [row] => line indent off row
  | row :: rows => line indent off row +:+ newline +:+ lines indent (off + 16) rows
  end.

(** All rows have 16 bytes, the last one at least one. *)
Inductive laid_out : list bytes -> Prop :=
| last_row row : 0 < zlen row <= 16 -> laid_out [row]
| full_row row rows : zlen row = 16 -> laid_out rows -> laid_out (row :: rows).

Lemma land_low n : Z.land n 15 = n mod 16.
Proof. change 15 with (Z.ones 4). by rewrite Z.land_ones. Qed.
Lemma land_1 n : (Z.land n 1 =? 0) = Z.even n.
Proof. change 1 with (Z.ones 1). rewrite Z.land_ones by lia. rewrite Zmod_even. by destruct (Z.even n). Qed.

Lemma loop_groups ind row rest off j p out :
  off mod 16 = 0 -> 0 < j -> j + zlen row <= 16 ->
  hexdump_loop ind (row ++ rest) (off + j) p out =
    hexdump_loop ind rest (off + j + zlen row) (p +:+ chars row) (out +:+ groups j row).
Proof.
  intros Hoff. revert j p out. induction row as [|b row IH]; intros j p out Hj Hl.
  - cbn [app chars groups]. rewrite !Text.string_app_nil. f_equal. change (zlen []) with 0. lia.
  - rewrite zlen_cons in *. pose proof (zlen_nonneg row). cbn [app hexdump_loop chars groups].
    rewrite land_low, land_1.
    assert ((off + j) mod 16 = j) as -> by (Z.div_mod_to_equations; lia). replace (j =? 0) with false by lia.
    assert (Z.even (off + j) = Z.even j) as ->.
    { rewrite Z.even_add. replace (Z.even off) with true; [by destruct (Z.even j)|].
      rewrite (Z.div_mod off 16), Hoff, Z.add_0_r, Z.even_mul by lia. done. }
    destruct (Z.even j); replace (off + j + 1) with (off + (j + 1)) by lia; rewrite IH by lia;
      (f_equal; [lia|by rewrite Text.string_app_assoc|by rewrite !Text.string_app_assoc]).
Qed.

(** What ends the line before offset [off]. *)
Definition previous (off : Z) (p out : string) : string :=
  if off =? 0 then out else out +:+ "    " +:+ pchars_str p +:+ newline.

Lemma loop_row indent row rest off p out :
  off mod 16 = 0 -> 0 < zlen row <= 16 -> (off = 0 -> p = "") ->
  hexdump_loop (spaces indent) (row ++ rest) off p out =
    hexdump_loop (spaces indent) rest (off + zlen row) (chars row) (previous off p out +:+ row_text indent off row).
Proof.
  intros Hoff Hl Hp. destruct row as [|b row]; [by destruct Hl|]. rewrite zlen_cons in *.
  cbn [app hexdump_loop]. rewrite land_low, Hoff. cbn [Z.eqb].
  assert ((if negb (off =? 0) then ("", out +:+ "    " +:+ pchars_str p +:+ newline) else (p, out)) =
    ("", previous off p out)) as ->.
  { unfold previous. destruct (off =? 0) eqn:E; cbn [negb]; [rewrite Hp by lia|]; done. }
  rewrite loop_groups by lia. unfold row_text. cbn [chars]. f_equal; [lia|].
  by rewrite !Text.string_app_assoc.
Qed.

Lemma chars_str row : 0 < zlen row -> pchars_str (chars row) = chars row.
Proof. destruct row; [done|]. done. Qed.

Lemma loop_lines indent rows : laid_out rows -> forall off p out,
  off mod 16 = 0 -> 0 <= off -> (off = 0 -> p = "") ->
  let '(printed, pchars, out') := hexdump_loop (spaces indent) (concat rows) off p out in
  let print_rem := (16 - Z.land printed 15) mod 16 in
  out' +:+ spaces (2 * print_rem + print_rem / 2 + 4) +:+ pchars_str pchars =
    previous off p out +:+ lines indent off rows.
Proof.
  induction 1 as [row Hl|row rows Hl Hrows IH]; intros off p out Hoff Hpos Hp; cbn [concat].
  - rewrite loop_row by done. cbn [hexdump_loop lines]. rewrite land_low, chars_str by lia. cbv zeta. unfold line.
    replace ((16 - (off + zlen row) mod 16) mod 16) with (16 - zlen row) by (Z.div_mod_to_equations; lia).
    by rewrite Text.string_app_assoc.
  - rewrite loop_row by (done || lia). specialize (IH (off + zlen row) (chars row)
      (previous off p out +:+ row_text indent off row)). rewrite Hl in *.
    destruct (hexdump_loop _ (concat rows) _ _ _) as [[printed pchars] out']. cbv zeta in *.
    rewrite IH; [|rewrite <- Z.add_mod_idemp_l, Hoff by lia; done|lia|lia].
    unfold previous at 1. replace (off + 16 =? 0) with false by lia. rewrite chars_str by lia.
    destruct rows as [|row2 rows]; [inversion Hrows|].
    change (lines indent off (row :: row2 :: rows)) with
      (line indent off row +:+ newline +:+ lines indent (off + 16) (row2 :: rows)).
    unfold line. rewrite Hl. change (spaces (2 * (16 - 16) + (16 - 16) / 2 + 4)) with "    ".
    by rewrite !Text.string_app_assoc.
Qed.

(** ** The columns of a line *)

Lemma width_hex2 b : Text.width (hex2 b) = 2.
Proof. by destruct b. Qed.

Lemma width_spaces n : 0 <= n -> Text.width (spaces n) = n.
Proof.
  intros Hn. unfold Text.width, spaces.
  assert (forall k, String.length (String.string_of_list_ascii (replicate k " "%char)) = k) as ->
    by (intros k; induction k; simpl; congruence). lia.
Qed.

Lemma width_groups j row : 0 <= j -> Text.width (groups j row) = 2 * zlen row + ((j + zlen row + 1) / 2 - (j + 1) / 2).
Proof.
  revert j. induction row as [|b row IH]; intros j Hj; cbn [groups].
  - change (zlen []) with 0. rewrite Z.add_0_r. change (Text.width "") with 0. lia.
  - rewrite !Text.width_app, width_hex2, IH, zlen_cons by lia.
    assert (Text.width (if Z.even j then " " else "") = if Z.even j then 1 else 0) as -> by (by destruct (Z.even j)).
    pose proof (Zmod_even j). destruct (Z.even j); Z.div_mod_to_equations; lia.
Qed.

(** In every line the characters begin in the same column. *)
Lemma characters_aligned indent off row :
  0 <= indent -> 0 <= off < MAX32 -> 0 < zlen row <= 16 ->
  let missing := 16 - zlen row in
  Text.width (row_text indent off row +:+ spaces (2 * missing + missing / 2 + 4)) = indent + 56.
Proof.
  intros Hi Hoff Hl. cbv zeta. destruct row as [|b row]; [by destruct Hl|]. rewrite zlen_cons in *.
  unfold row_text. rewrite !Text.width_app, Text.width_setw, width_hex2, width_groups, !width_spaces
    by (Z.div_mod_to_equations; lia).
  assert (Text.width (Text.hex off) <= 8).
  { apply (Text.width_show_fuel _ 16 off 8 ""); lia. }
  change (Text.width ":    ") with 5. Z.div_mod_to_equations; lia.
Qed.

(** The byte-at-a-time loop of [hexdump] lays the data out in lines of
    sixteen bytes: the offset, the bytes in pairs, and the characters, which the
    padding of the last line keeps in one column. *)
Theorem hexdump_lines (rows : list bytes) (indent : Z) :
  laid_out rows -> hexdump (concat rows) indent = lines indent 0 rows +:+ newline +:+ newline.
Proof.
  intros Hrows. unfold hexdump. pose proof (loop_lines indent rows Hrows 0 "" "") as H.
  destruct (hexdump_loop _ _ _ _ _) as [[printed pchars] out]. cbv zeta in *.
  specialize (H eq_refl ltac:(lia) (fun _ => eq_refl)).
  transitivity ((out +:+ spaces (2 * ((16 - Z.land printed 15) mod 16) + (16 - Z.land printed 15) mod 16 / 2 + 4) +:+
    pchars_str pchars) +:+ newline +:+ newline); [by rewrite !Text.string_app_assoc|].
  by rewrite H.
Qed.

Lemma hexdump_lines_witness :
  hexdump (str "0123456789abcdefGH") 2 =
    lines 2 0 [str "0123456789abcdef"; str "GH"] +:+ newline +:+ newline.
Proof.
  apply (hexdump_lines [str "0123456789abcdef"; str "GH"]). apply full_row; [reflexivity|].
  apply last_row. split; reflexivity || (vm_compute; congruence).
Defined.

End Hexdump.
