(* ===== verification/Options.v ===== *)
(** * The command lines of the applications: [apps/tcp_udp.cc], [apps/tcp_ipv4.cc],
    [apps/tcp_ip_ethernet.cc]

    The functions [show_usage], [check_argc] and [get_config] of the three
    programs.  [argv] is a list of strings and [argc] its length; a read outside it
    is [Undefined], as is the conversion of a [float] that does not fit a
    [uint16_t].  [strtof(3)] and the name resolver are the C library's; floats are
    the binary32 numbers of [SpecFloat]. *)
From Stdlib Require Import Ascii SpecFloat.
From S2P Require Import Prelude Text WrappingIntegers Buffer Parser TCPSegment Adapter Address TCPSender.

(** ** Programs that may exit *)

(** [UseAfterFree] and [NullString] (printing a null pointer) are for the library
    calls of [udp_tcpdump]. *)
Inductive undefined := OutOfBounds | BadConversion | UseAfterFree | NullString.

(** [Aborts]: the process calls [abort].  [Terminates]: an exception has left a thread,
    and [std::terminate] kills the process.  [Waits]: it is waiting for an answer
    that has not come. *)
Inductive run (A : Type) :=
| Done (a : A)
| Exit (status : Z) (printed : string)
| Uncaught (e : exn)
| Undefined (why : undefined)
| Diverges
| Aborts
| Terminates (e : exn)
| Waits.
Arguments Done {A} a.
Arguments Exit {A} status printed.
Arguments Uncaught {A} e.
Arguments Undefined {A} why.
Arguments Diverges {A}.
Arguments Aborts {A}.
Arguments Terminates {A} e.
Arguments Waits {A}.

Definition rbind {A B} (r : run A) (k : A -> run B) : run B :=
  match r with
  | Done a => k a
  | Exit status printed => Exit status printed
  | Uncaught e => Uncaught e
  | Undefined why => Undefined why
  | Diverges => Diverges
  | Aborts => Aborts
  | Terminates e => Terminates e
  | Waits => Waits
  end.

Declare Scope run_scope.
Notation "x '<--' r ';;' k" := (rbind r (fun x => k))
  (at level 60, r at next level, right associativity) : run_scope.
#[local] Open Scope run_scope.

Definition try {A} (o : outcome A) : run A :=
  match o with Ok a => Done a | Throw e => Uncaught e end.

Definition nl : string := String "010" "".

(** [argv[i]]. *)
Definition arg (argv : list string) (i : Z) : run string :=
  match zget argv i with Some a => Done a | None => Undefined OutOfBounds end.

(** [strncmp(opt, a, 3) == 0]. *)
Definition is_opt (opt a : string) : bool := Text.strncmp_eq opt a 3.

(** ** Loss rates *)

(** [static_cast<float>(numeric_limits<uint16_t>::max())]. *)
Definition max_rate : spec_float := S754_finite false 16776960 (-8).

(** [static_cast<uint16_t>]: truncation, undefined outside the range. *)
Definition to_uint16 (f : spec_float) : run Z :=
  match f with
  | S754_zero _ => Done 0
  | S754_finite negative m e =>
      let n := if negative then - Z.shiftl (Z.pos m) e else Z.shiftl (Z.pos m) e in
      if (0 <=? n) && (n <? 65536) then Done n else Undefined BadConversion
  | _ => Undefined BadConversion
  end.

Definition loss_rate (lossrate : spec_float) : run Z := to_uint16 (SFmul 24 128 max_rate lossrate).

Module Options.

(** The local variables of [get_config]; each program uses some of them.  The
    device is [None] for the null pointer. *)
Record t := mk {
  c_fsm : TCPConfig.t;
  c_filt : FdAdapterConfig.t;
  listen : bool;
  device : option string;
  source_address : string;
  source_port : string;
  next_hop_address : string }.

#[global] Instance eta_t : Eta t := fun o =>
  mk (c_fsm o) (c_filt o) (listen o) (device o) (source_address o) (source_port o) (next_hop_address o).

(** [while (argc - curr > 2) { body }]. *)
Fixpoint options_loop (fuel : nat) (body : Z -> t -> run (Z * t)) (argc curr : Z) (o : t) : run (Z * t) :=
  match fuel with
  | O => Diverges
  | S fuel =>
      if 2 <? argc - curr then r <-- body curr o ;; options_loop fuel body argc r.1 r.2
      else Done (curr, o)
  end.

(** ** Assignments the options make *)

Definition set_window (value : string) (o : t) : t :=
  o <| c_fsm := (c_fsm o) <| TCPConfig.recv_capacity := u64 (Text.strtol value 0).1 |> |>.

Definition set_timeout (value : string) (o : t) : t :=
  o <| c_fsm := (c_fsm o) <| TCPConfig.rt_timeout := u16 (Text.strtol value 0).1 |> |>.

Definition set_loss_up (rate : Z) (o : t) : t :=
  o <| c_filt := (c_filt o) <| FdAdapterConfig.loss_rate_up := rate |> |>.

Definition set_loss_dn (rate : Z) (o : t) : t :=
  o <| c_filt := (c_filt o) <| FdAdapterConfig.loss_rate_dn := rate |> |>.

(** [c_filt.source = {host, service}] and [c_filt.destination = {host, service}]. *)
Definition set_source `{Resolver} (host service : string) (o : t) : run t :=
  a <-- try (Address.of_host host service) ;;
  Done (o <| c_filt := (c_filt o) <| FdAdapterConfig.source := Address.endpoint a |> |>).

Definition set_destination `{Resolver} (host service : string) (o : t) : run t :=
  a <-- try (Address.of_host host service) ;;
  Done (o <| c_filt := (c_filt o) <| FdAdapterConfig.destination := Address.endpoint a |> |>).

End Options.

(** ** [apps/tcp_udp.cc] *)

Module TcpUdp.
Import Options.

Definition show_usage (argv0 : string) (msg : option string) : string :=
  "Usage: " +:+ argv0 +:+ " [options] <host> <port>" +:+ nl +:+ nl +:+
  "   Option                                                          Default" +:+ nl +:+
  "   --                                                              --" +:+ nl +:+ nl +:+
  "   -l              Server (listen) mode.                           (client mode)" +:+ nl +:+
  "                   In server mode, <host>:<port> is the address to bind." +:+ nl +:+ nl +:+
  "   -w <winsz>      Use a window of <winsz> bytes                   " +:+ Text.to_string TCPConfig.MAX_PAYLOAD_SIZE +:+ nl +:+ nl +:+
  "   -t <tmout>      Set rt_timeout to tmout                         " +:+ Text.to_string TCPConfig.TIMEOUT_DFLT +:+ nl +:+ nl +:+
  "   -Lu <loss>      Set uplink loss to <rate> (float in 0..1)       (no loss)" +:+ nl +:+
  "   -Ld <loss>      Set downlink loss to <rate> (float in 0..1)     (no loss)" +:+ nl +:+ nl +:+
  "   -h              Show this message and quit." +:+ nl +:+ nl +:+
  default EmptyString msg +:+ nl.

Definition check_argc (argv : list string) (curr : Z) (err : string) : run unit :=
  if zlen argv <=? curr + 3
  then argv0 <-- arg argv 0 ;; Exit 1 (show_usage argv0 (Some err))
  else Done tt.

Section get_config.
Context (strtof : string -> spec_float) (argv : list string).

(** One round of the loop over the options. *)
Definition parse_option (curr : Z) (o : t) : run (Z * t) :=
  a <-- arg argv curr ;;
  if is_opt "-l" a then Done (curr + 1, o <| listen := true |>)
  else if is_opt "-w" a then
    _ <-- check_argc argv curr "ERROR: -w requires one argument." ;;
    v <-- arg argv (curr + 1) ;;
    Done (curr + 2, set_window v o)
  else if is_opt "-t" a then
    _ <-- check_argc argv curr "ERROR: -t requires one argument." ;;
    v <-- arg argv (curr + 1) ;;
    Done (curr + 2, set_timeout v o)
  else if is_opt "-Lu" a then
    _ <-- check_argc argv curr "ERROR: -Lu requires one argument." ;;
    v <-- arg argv (curr + 1) ;;
    rate <-- loss_rate (strtof v) ;; Done (curr + 2, set_loss_up rate o)
  else if is_opt "-Ld" a then
    _ <-- check_argc argv curr "ERROR: -Lu requires one argument." ;;
    v <-- arg argv (curr + 1) ;;
    rate <-- loss_rate (strtof v) ;; Done (curr + 2, set_loss_dn rate o)
  else if is_opt "-h" a then argv0 <-- arg argv 0 ;; Exit 0 (show_usage argv0 None)
  else argv0 <-- arg argv 0 ;; Exit 1 (show_usage argv0 (Some ("ERROR: unrecognized option " +:+ a))).

Definition init : t := mk TCPConfig.default FdAdapterConfig.default false None EmptyString EmptyString EmptyString.

Definition get_config `{Resolver} : run t :=
  let argc := zlen argv in
  r <-- options_loop (Z.to_nat argc) parse_option argc 1 init ;;
  let o := r.2 in
  if listen o then
    port <-- arg argv (argc - 1) ;; set_source "0" port o
  else
    host <-- arg argv (argc - 2) ;; port <-- arg argv (argc - 1) ;; set_destination host port o.

(** The beginning of [main]. *)
Definition configure `{Resolver} : run t :=
  if zlen argv <? 3
  then argv0 <-- arg argv 0 ;; Exit 1 (show_usage argv0 (Some "ERROR: required arguments are missing."))
  else get_config.

End get_config.

End TcpUdp.

(** ** [apps/tcp_ipv4.cc] *)

Module TcpIpv4.
Import Options.

Definition TUN_DFLT : string := "tun144".
Definition LOCAL_ADDRESS_DFLT : string := "169.254.144.9".

Definition show_usage (argv0 : string) (msg : option string) : string :=
  "Usage: " +:+ argv0 +:+ " [options] <host> <port>" +:+ nl +:+ nl +:+
  "   Option                                                          Default" +:+ nl +:+
  "   --                                                              --" +:+ nl +:+ nl +:+
  "   -l              Server (listen) mode.                           (client mode)" +:+ nl +:+
  "                   In server mode, <host>:<port> is the address to bind." +:+ nl +:+ nl +:+
  "   -a <addr>       Set source address (client mode only)           " +:+ LOCAL_ADDRESS_DFLT +:+ nl +:+
  "   -s <port>       Set source port (client mode only)              (random)" +:+ nl +:+ nl +:+
  "   -w <winsz>      Use a window of <winsz> bytes                   " +:+ Text.to_string TCPConfig.MAX_PAYLOAD_SIZE +:+ nl +:+ nl +:+
  "   -t <tmout>      Set rt_timeout to tmout                         " +:+ Text.to_string TCPConfig.TIMEOUT_DFLT +:+ nl +:+ nl +:+
  "   -d <tundev>     Connect to tun <tundev>                         " +:+ TUN_DFLT +:+ nl +:+ nl +:+
  "   -Lu <loss>      Set uplink loss to <rate> (float in 0..1)       (no loss)" +:+ nl +:+
  "   -Ld <loss>      Set downlink loss to <rate> (float in 0..1)     (no loss)" +:+ nl +:+ nl +:+
  "   -h              Show this message." +:+ nl +:+ nl +:+
  default EmptyString msg +:+ nl.

Definition check_argc (argv : list string) (curr : Z) (err : string) : run unit :=
  if zlen argv <=? curr + 3
  then argv0 <-- arg argv 0 ;; Exit 1 (show_usage argv0 (Some err))
  else Done tt.

Section get_config.
Context (strtof : string -> spec_float) (argv : list string).

(** One round of the loop over the options. *)
Definition parse_option (curr : Z) (o : t) : run (Z * t) :=
  a <-- arg argv curr ;;
  if is_opt "-l" a then Done (curr + 1, o <| listen := true |>)
  else if is_opt "-a" a then
    _ <-- check_argc argv curr "ERROR: -a requires one argument." ;;
    v <-- arg argv (curr + 1) ;;
    Done (curr + 2, o <| source_address := v |>)
  else if is_opt "-s" a then
    _ <-- check_argc argv curr "ERROR: -s requires one argument." ;;
    v <-- arg argv (curr + 1) ;;
    Done (curr + 2, o <| source_port := v |>)
  else if is_opt "-w" a then
    _ <-- check_argc argv curr "ERROR: -w requires one argument." ;;
    v <-- arg argv (curr + 1) ;;
    Done (curr + 2, set_window v o)
  else if is_opt "-t" a then
    _ <-- check_argc argv curr "ERROR: -t requires one argument." ;;
    v <-- arg argv (curr + 1) ;;
    Done (curr + 2, set_timeout v o)
  else if is_opt "-d" a then
    _ <-- check_argc argv curr "ERROR: -t requires one argument." ;;
    v <-- arg argv (curr + 1) ;;
    Done (curr + 2, o <| device := Some v |>)
  else if is_opt "-Lu" a then
    _ <-- check_argc argv curr "ERROR: -Lu requires one argument." ;;
    v <-- arg argv (curr + 1) ;;
    rate <-- loss_rate (strtof v) ;; Done (curr + 2, set_loss_up rate o)
  else if is_opt "-Ld" a then
    _ <-- check_argc argv curr "ERROR: -Lu requires one argument." ;;
    v <-- arg argv (curr + 1) ;;
    rate <-- loss_rate (strtof v) ;; Done (curr + 2, set_loss_dn rate o)
  else if is_opt "-h" a then argv0 <-- arg argv 0 ;; Exit 0 (show_usage argv0 None)
  else argv0 <-- arg argv 0 ;; Exit 1 (show_usage argv0 (Some ("ERROR: unrecognized option " +:+ a))).

(** [random] is the number that [random_device] gives. *)
Definition init (random : Z) : t :=
  mk TCPConfig.default FdAdapterConfig.default false None LOCAL_ADDRESS_DFLT (Text.to_string (u16 random)) EmptyString.

(** The positional arguments. *)
Definition finish `{Resolver} (curr : Z) (o : t) : run t :=
  if listen o then
    port <-- arg argv (curr + 1) ;;
    a <-- try (Address.of_host "0" port) ;;
    let o := o <| c_filt := (c_filt o) <| FdAdapterConfig.source := Address.endpoint a |> |> in
    n <-- try (Address.port a) ;;
    if n =? 0
    then argv0 <-- arg argv 0 ;;
         Exit 1 (show_usage argv0 (Some "ERROR: listen port cannot be zero in server mode."))
    else Done o
  else
    host <-- arg argv curr ;; port <-- arg argv (curr + 1) ;;
    o <-- set_destination host port o ;; set_source (source_address o) (source_port o) o.

Definition get_config `{Resolver} (random : Z) : run t :=
  let argc := zlen argv in
  r <-- options_loop (Z.to_nat argc) parse_option argc 1 (init random) ;;
  finish r.1 r.2.

(** The beginning of [main]. *)
Definition configure `{Resolver} (random : Z) : run t :=
  if zlen argv <? 3
  then argv0 <-- arg argv 0 ;; Exit 1 (show_usage argv0 (Some "ERROR: required arguments are missing."))
  else get_config random.

End get_config.

End TcpIpv4.

(** ** [apps/tcp_ip_ethernet.cc] *)

Module TcpIpEthernet.
Import Options.

Definition TAP_DFLT : string := "tap10".
Definition LOCAL_ADDRESS_DFLT : string := "169.254.10.9".
Definition GATEWAY_DFLT : string := "169.254.10.1".

Definition show_usage (argv0 : string) (msg : option string) : string :=
  "Usage: " +:+ argv0 +:+ " [options] <host> <port>" +:+ nl +:+ nl +:+
  "   Option                                                          Default" +:+ nl +:+
  "   --                                                              --" +:+ nl +:+ nl +:+
  "   -a <addr>       Set IP source address (client mode only)        " +:+ LOCAL_ADDRESS_DFLT +:+ nl +:+
  "   -s <port>       Set TCP source port (client mode only)          (random)" +:+ nl +:+ nl +:+
  "   -n <addr>       Set IP next-hop address                         " +:+ GATEWAY_DFLT +:+ nl +:+
  "   -w <winsz>      Use a window of <winsz> bytes                   " +:+ Text.to_string TCPConfig.MAX_PAYLOAD_SIZE +:+ nl +:+ nl +:+
  "   -t <tmout>      Set rt_timeout to tmout                         " +:+ Text.to_string TCPConfig.TIMEOUT_DFLT +:+ nl +:+ nl +:+
  "   -d <tapdev>     Connect to tap <tapdev>                         " +:+ TAP_DFLT +:+ nl +:+ nl +:+
  "   -h              Show this message." +:+ nl +:+ nl +:+
  default EmptyString msg +:+ nl.

Definition check_argc (argv : list string) (curr : Z) (err : string) : run unit :=
  if zlen argv <=? curr + 3
  then argv0 <-- arg argv 0 ;; Exit 1 (show_usage argv0 (Some err))
  else Done tt.

Section get_config.
Context (argv : list string).

(** One round of the loop over the options. *)
Definition parse_option (curr : Z) (o : t) : run (Z * t) :=
  a <-- arg argv curr ;;
  if is_opt "-a" a then
    _ <-- check_argc argv curr "ERROR: -a requires one argument." ;;
    v <-- arg argv (curr + 1) ;;
    Done (curr + 2, o <| source_address := v |>)
  else if is_opt "-s" a then
    _ <-- check_argc argv curr "ERROR: -s requires one argument." ;;
    v <-- arg argv (curr + 1) ;;
    Done (curr + 2, o <| source_port := v |>)
  else if is_opt "-n" a then
    _ <-- check_argc argv curr "ERROR: -n requires one argument." ;;
    v <-- arg argv (curr + 1) ;;
    Done (curr + 2, o <| next_hop_address := v |>)
  else if is_opt "-w" a then
    _ <-- check_argc argv curr "ERROR: -w requires one argument." ;;
    v <-- arg argv (curr + 1) ;;
    Done (curr + 2, set_window v o)
  else if is_opt "-t" a then
    _ <-- check_argc argv curr "ERROR: -t requires one argument." ;;
    v <-- arg argv (curr + 1) ;;
    Done (curr + 2, set_timeout v o)
  else if is_opt "-d" a then
    _ <-- check_argc argv curr "ERROR: -t requires one argument." ;;
    v <-- arg argv (curr + 1) ;;
    Done (curr + 2, o <| device := Some v |>)
  else if is_opt "-h" a then argv0 <-- arg argv 0 ;; Exit 0 (show_usage argv0 None)
  else argv0 <-- arg argv 0 ;; Exit 1 (show_usage argv0 (Some ("ERROR: unrecognized option " +:+ a))).

(** [random] is the number that [random_device] gives. *)
Definition init (random : Z) : t :=
  mk TCPConfig.default FdAdapterConfig.default false (Some TAP_DFLT) LOCAL_ADDRESS_DFLT (Text.to_string (u16 random))
     GATEWAY_DFLT.

(** The positional arguments; the address of the next hop is returned too. *)
Definition finish `{Resolver} (curr : Z) (o : t) : run (t * Address.t) :=
  host <-- arg argv curr ;; port <-- arg argv (curr + 1) ;;
  o <-- set_destination host port o ;;
  o <-- set_source (source_address o) (source_port o) o ;;
  next_hop <-- try (Address.of_host (next_hop_address o) "0") ;;
  Done (o, next_hop).

Definition get_config `{Resolver} (random : Z) : run (t * Address.t) :=
  let argc := zlen argv in
  r <-- options_loop (Z.to_nat argc) parse_option argc 1 (init random) ;;
  finish r.1 r.2.

(** The beginning of [main]. *)
Definition configure `{Resolver} (random : Z) : run (t * Address.t) :=
  if zlen argv <? 3
  then argv0 <-- arg argv 0 ;; Exit 1 (show_usage argv0 (Some "ERROR: required arguments are missing."))
  else get_config random.

End get_config.

End TcpIpEthernet.

(** ** Properties *)

Module OptionsSpec.
Import Options.

(** The program neither reads outside [argv] nor loops for ever nor is killed, and its
    exit status is one of the two of [cstdlib]; a loss rate out of range is
    undefined. *)
Definition proper {A} (r : run A) : Prop :=
  match r with
  | Undefined BadConversion => True
  | Undefined _ | Diverges | Aborts | Terminates _ => False
  | Exit status _ => (status =? 0) || (status =? 1) = true
  | _ => True
  end.

Lemma arg_in argv i : 0 <= i < zlen argv -> exists a, arg argv i = Done a.
Proof.
  intros Hi. unfold arg. destruct (zget argv i) as [a|] eqn:E; [by exists a|].
  destruct (proj2 (zget_is_Some argv i) Hi) as [x Hx]. congruence.
Qed.

Lemma proper_bind {A B} (r : run A) (k : A -> run B) :
  proper r -> (forall a, r = Done a -> proper (k a)) -> proper (rbind r k).
Proof. destruct r; simpl; auto. Qed.

Lemma proper_try {A} (o : outcome A) : proper (try o).
Proof. by destruct o. Qed.

Lemma proper_loss_rate f : proper (loss_rate f).
Proof. unfold loss_rate, to_uint16. destruct (SFmul _ _ _ _); try done. by destruct (_ && _). Qed.

(** A round of the loop at [curr]: it moves on, and leaves the two positional
    arguments. *)
Definition round_ok (argc curr : Z) (r : run (Z * t)) : Prop :=
  match r with Done (curr', _) => curr < curr' <= argc - 2 | r => proper r end.

Lemma round_bind {A} argc curr (r : run A) (k : A -> run (Z * t)) :
  proper r -> (forall a, r = Done a -> round_ok argc curr (k a)) -> round_ok argc curr (rbind r k).
Proof. destruct r; simpl; auto. Qed.

Lemma options_loop_proper body argc : forall fuel curr o,
  (forall curr o, 1 <= curr -> curr + 2 < argc -> round_ok argc curr (body curr o)) ->
  1 <= curr <= argc - 2 -> argc - curr < Z.of_nat fuel ->
  match options_loop fuel body argc curr o with Done (curr', _) => curr' = argc - 2 | r => proper r end.
Proof.
  intros fuel curr o Hbody. revert curr o.
  induction fuel as [|fuel IH]; intros curr o Hc Hf; [lia|]. cbn [options_loop].
  destruct (2 <? argc - curr) eqn:E; [|lia].
  specialize (Hbody curr o ltac:(lia) ltac:(lia)). destruct (body curr o) as [[curr' o']| | |[]| | | |]; try done.
  cbn [rbind fst snd]. apply IH; cbn in Hbody; lia.
Qed.

(** [in_bounds] steps through a parser: a read inside the bounds succeeds, an
    option that needs an argument has one after [check_argc]. *)
Ltac in_bounds argv :=
  repeat first
    [ progress cbn [rbind round_ok proper]
    | match goal with
      | |- round_ok _ _ (if is_opt _ _ then _ else _) => destruct (is_opt _ _)
      | |- round_ok _ _ (rbind (arg argv ?i) _) =>
          let a := fresh "a" in let E := fresh "E" in
          destruct (arg_in argv i) as [a E]; [lia|]; rewrite E
      | |- round_ok _ _ (rbind (if ?b then _ else _) _) => let E := fresh "E" in destruct b eqn:E
      | |- round_ok _ _ (rbind (rbind (arg argv ?i) _) _) =>
          let a := fresh "a" in let E := fresh "E" in
          destruct (arg_in argv i) as [a E]; [lia|]; rewrite E
      | |- round_ok _ _ (rbind (loss_rate _) _) => apply round_bind; [apply proper_loss_rate|intros ? _]
      end
    | done | lia ].

Lemma udp_round strtof argv curr o :
  1 <= curr -> curr + 2 < zlen argv -> round_ok (zlen argv) curr (TcpUdp.parse_option strtof argv curr o).
Proof. intros. unfold TcpUdp.parse_option, TcpUdp.check_argc. in_bounds argv. Qed.

Lemma ipv4_round strtof argv curr o :
  1 <= curr -> curr + 2 < zlen argv -> round_ok (zlen argv) curr (TcpIpv4.parse_option strtof argv curr o).
Proof. intros. unfold TcpIpv4.parse_option, TcpIpv4.check_argc. in_bounds argv. Qed.

Lemma ethernet_round argv curr o :
  1 <= curr -> curr + 2 < zlen argv -> round_ok (zlen argv) curr (TcpIpEthernet.parse_option argv curr o).
Proof. intros. unfold TcpIpEthernet.parse_option, TcpIpEthernet.check_argc. in_bounds argv. Qed.

Lemma loop_proper {A} body (argv : list string) o (k : Z * t -> run A) :
  3 <= zlen argv ->
  (forall curr o, 1 <= curr -> curr + 2 < zlen argv -> round_ok (zlen argv) curr (body curr o)) ->
  (forall o, proper (k (zlen argv - 2, o))) ->
  proper (rbind (options_loop (Z.to_nat (zlen argv)) body (zlen argv) 1 o) k).
Proof.
  intros Hlen Hbody Hk.
  pose proof (options_loop_proper body (zlen argv) (Z.to_nat (zlen argv)) 1 o Hbody ltac:(lia) ltac:(lia)) as H.
  destruct (options_loop _ _ _ _ _) as [[curr' o']| | |[]| | | |]; simpl in *; try done. subst curr'. apply Hk.
Qed.

Section resolver.
Context `{Resolver}.

Lemma proper_source host service o : proper (set_source host service o).
Proof. apply proper_bind; [apply proper_try|done]. Qed.

Lemma proper_destination host service o : proper (set_destination host service o).
Proof. apply proper_bind; [apply proper_try|done]. Qed.

Lemma proper_missing {A} argv usage : argv <> [] -> proper (argv0 <-- arg argv 0 ;; @Exit A 1 (usage argv0)).
Proof. destruct argv; done. Qed.

(** Whatever the arguments (the name of the program at least), [get_config] ends,
    and no [argv] element is read that is not there. *)
Lemma command_lines_in_bounds (strtof : string -> spec_float) (argv : list string) (random : Z) :
  argv <> [] ->
  proper (TcpUdp.configure strtof argv) /\ proper (TcpIpv4.configure strtof argv random) /\
  proper (TcpIpEthernet.configure argv random).
Proof.
  intros Hne.
  unfold TcpUdp.configure, TcpIpv4.configure, TcpIpEthernet.configure.
  destruct (zlen argv <? 3) eqn:E; [split_and!; by apply proper_missing|].
  destruct (arg_in argv (zlen argv - 2)) as [host Eh]; [lia|].
  destruct (arg_in argv (zlen argv - 1)) as [port Ep]; [lia|].
  assert (arg argv (zlen argv - 2 + 1) = Done port) as Ep' by (rewrite <- Ep; f_equal; lia).
  destruct (arg_in argv 0) as [argv0 E0]; [lia|].
  split_and!; apply loop_proper; [lia|by apply udp_round|intros o|lia|by apply ipv4_round|intros o|lia|
    by apply ethernet_round|intros o]; cbn [fst snd].
  - rewrite Eh, Ep. cbn [rbind]. destruct (listen o); [apply proper_source|apply proper_destination].
  - unfold TcpIpv4.finish. rewrite Eh, Ep'. cbn [rbind]. destruct (listen o).
    + apply proper_bind; [apply proper_try|]. intros a _. apply proper_bind; [apply proper_try|]. intros n _.
      destruct (n =? 0); [|done]. by rewrite E0.
    + apply proper_bind; [apply proper_destination|]. intros; apply proper_source.
  - unfold TcpIpEthernet.finish. rewrite Eh, Ep'. cbn [rbind].
    apply proper_bind; [apply proper_destination|]. intros o1 _.
    apply proper_bind; [apply proper_source|]. intros o2 _. apply proper_bind; [apply proper_try|done].
Qed.

End resolver.

(** ** What the options mean *)

(** The options of [tcp_ipv4], with their values; a loss rate with the number it
    stands for. *)
Inductive opt :=
| Listen
| SourceAddress (address : string)
| SourcePort (port : string)
| Window (winsz : Z)
| Timeout (tmout : Z)
| Device (tundev : string)
| LossUp (loss : string) (rate : Z)
| LossDown (loss : string) (rate : Z).

Definition render (x : opt) : list string :=
  match x with
  | Listen => ["-l"]
  | SourceAddress address => ["-a"; address]
  | SourcePort port => ["-s"; port]
  | Window winsz => ["-w"; Text.to_string winsz]
  | Timeout tmout => ["-t"; Text.to_string tmout]
  | Device tundev => ["-d"; tundev]
  | LossUp loss _ => ["-Lu"; loss]
  | LossDown loss _ => ["-Ld"; loss]
  end.

Definition valid (strtof : string -> spec_float) (x : opt) : Prop :=
  match x with
  | Window winsz => 0 <= winsz <= Text.LONG_MAX
  | Timeout tmout => 0 <= tmout < MAX16
  | LossUp loss rate | LossDown loss rate => loss_rate (strtof loss) = Done rate
  | _ => True
  end.

Definition meaning (o : t) (x : opt) : t :=
  match x with
  | Listen => o <| listen := true |>
  | SourceAddress address => o <| source_address := address |>
  | SourcePort port => o <| source_port := port |>
  | Window winsz => o <| c_fsm := (c_fsm o) <| TCPConfig.recv_capacity := winsz |> |>
  | Timeout tmout => o <| c_fsm := (c_fsm o) <| TCPConfig.rt_timeout := tmout |> |>
  | Device tundev => o <| device := Some tundev |>
  | LossUp _ rate => o <| c_filt := (c_filt o) <| FdAdapterConfig.loss_rate_up := rate |> |>
  | LossDown _ rate => o <| c_filt := (c_filt o) <| FdAdapterConfig.loss_rate_dn := rate |> |>
  end.

Lemma arg_at pre x post : arg (pre ++ x :: post) (zlen pre) = Done x.
Proof.
  unfold arg. rewrite zget_app. replace (zlen pre <? zlen pre) with false by lia. by rewrite Z.sub_diag.
Qed.

Lemma arg_next pre x y post : arg (pre ++ x :: y :: post) (zlen pre + 1) = Done y.
Proof.
  change (x :: y :: post) with ([x] ++ y :: post). rewrite app_assoc.
  replace (zlen pre + 1) with (zlen (pre ++ [x])) by (rewrite zlen_app; done). apply arg_at.
Qed.

(** [known_opts] decides the comparisons with literal options. *)
Ltac known_opts :=
  repeat match goal with
  | |- context [is_opt ?a ?b] => let v := eval vm_compute in (is_opt a b) in change (is_opt a b) with v
  end.

Lemma parse_rendered strtof pre x post o :
  valid strtof x -> 2 <= zlen post ->
  TcpIpv4.parse_option strtof (pre ++ render x ++ post) (zlen pre) o =
    Done (zlen (pre ++ render x), meaning o x).
Proof.
  intros Hv Hpost. pose proof (zlen_nonneg pre). unfold TcpIpv4.parse_option, TcpIpv4.check_argc.
  destruct x; cbn [render app] in *; rewrite arg_at; cbn [rbind]; known_opts;
    try (rewrite !zlen_app, !zlen_cons; replace (_ <=? _) with false by lia; cbn [rbind]; rewrite arg_next;
         cbn [rbind valid] in *);
    try lazymatch type of Hv with _ = _ => rewrite Hv end; unfold set_window, set_timeout, set_loss_up, set_loss_dn;
    rewrite ?Text.strtol_to_string by (auto || unfold Text.LONG_MAX in *; lia);
    cbn [rbind fst meaning]; unfold Text.LONG_MAX in *; rewrite ?u64_small, ?u16_small by lia;
    try (rewrite zlen_app, !zlen_cons, zlen_nil); repeat f_equal; lia.
Qed.

Lemma parse_all strtof host port : forall opts pre o fuel,
  Forall (valid strtof) opts ->
  let argv := pre ++ concat (map render opts) ++ [host; port] in
  (length opts < fuel)%nat ->
  options_loop fuel (TcpIpv4.parse_option strtof argv) (zlen argv) (zlen pre) o =
    Done (zlen argv - 2, fold_left meaning opts o).
Proof.
  induction opts as [|x opts IH]; intros pre o fuel Hv argv Hf; destruct fuel as [|fuel]; try (simpl in *; lia).
  - cbn [options_loop fold_left]. unfold argv. cbn [map concat app]. rewrite zlen_app, !zlen_cons, zlen_nil.
    replace (2 <? _) with false by lia. do 2 f_equal. lia.
  - apply Forall_cons in Hv as [Hx Hv]. cbn [options_loop fold_left].
    assert (argv = pre ++ render x ++ (concat (map render opts) ++ [host; port])) as Eargv
      by (unfold argv; cbn [map concat]; by rewrite !app_assoc).
    assert (2 <= zlen (concat (map render opts) ++ [host; port])) as H2
      by (rewrite zlen_app; pose proof (zlen_nonneg (concat (map render opts))); change (zlen [host; port]) with 2; lia).
    assert (1 <= zlen (render x)) as H1 by (destruct x; simpl; rewrite !zlen_cons; pose_zlen; lia).
    replace (2 <? _) with true by (rewrite Eargv, !zlen_app in *; pose_zlen; lia).
    rewrite Eargv at 1. rewrite parse_rendered by done. cbn [rbind fst snd].
    assert (argv = (pre ++ render x) ++ concat (map render opts) ++ [host; port]) as ->
      by (rewrite Eargv; by rewrite !app_assoc).
    apply IH; [done|simpl in Hf; lia].
Qed.

(** C22: the command line of [tcp_ipv4] is understood: any sequence of options
    with valid values, followed by a host and a port, sets exactly what the
    options say, a later option overriding an earlier one.  Then, without [-l], host
    and port are resolved as the destination and the source is what [-a] and [-s]
    say; with [-l] the host is ignored: the source is the wildcard address "0" with
    the port, which may not be 0. *)
Theorem command_line_understood `{Resolver} (strtof : string -> spec_float) (prog host port : string)
    (opts : list opt) (random : Z) :
  Forall (valid strtof) opts ->
  let argv := prog :: concat (map render opts) ++ [host; port] in
  let o := fold_left meaning opts (TcpIpv4.init random) in
  TcpIpv4.configure strtof argv random =
    if listen o then
      a <-- try (Address.of_host "0" port) ;;
      n <-- try (Address.port a) ;;
      if n =? 0
      then Exit 1 (TcpIpv4.show_usage prog (Some "ERROR: listen port cannot be zero in server mode."))
      else Done (o <| c_filt := (c_filt o) <| FdAdapterConfig.source := Address.endpoint a |> |>)
    else
      o <-- set_destination host port o ;; set_source (source_address o) (source_port o) o.
Proof.
  intros Hv argv o. pose proof (parse_all strtof host port opts [prog] (TcpIpv4.init random)
    (Z.to_nat (zlen argv)) Hv) as Hp. cbn [app] in Hp. fold argv in Hp.
  assert (zlen argv = 3 + zlen (concat (map render opts))) as Hlen
    by (unfold argv; rewrite zlen_cons, zlen_app; change (zlen [host; port]) with 2; lia).
  assert (zlen opts <= zlen (concat (map render opts))) as Hle.
  { clear. induction opts as [|x opts IH]; [done|]. cbn [map concat]. rewrite zlen_app, zlen_cons.
    assert (1 <= zlen (render x)) by (destruct x; simpl; rewrite !zlen_cons; pose_zlen; lia). lia. }
  pose proof (zlen_nonneg (concat (map render opts))).
  unfold TcpIpv4.configure. replace (zlen argv <? 3) with false by lia. unfold TcpIpv4.get_config.
  change (zlen [prog]) with 1 in Hp. rewrite Hp by (unfold zlen in *; lia). cbn [rbind fst snd]. fold o.
  set (pre := prog :: concat (map render opts)).
  assert (zlen argv - 2 = zlen pre) as -> by (unfold pre; rewrite zlen_cons; lia).
  change argv with (pre ++ [host; port]). unfold TcpIpv4.finish.
  rewrite arg_at, arg_next. cbn [rbind]. destruct (listen o); [|done].
  change (arg (pre ++ [host; port]) 0) with (@Done string prog). done.
Qed.

Lemma command_line_understood_witness :
  let _ := Address.numeric_resolver in
  let opts := [Window 5000; Timeout 300; SourcePort "1234"; Window 8000; LossUp "0.5" 32767] in
  let o := fold_left meaning opts (TcpIpv4.init 7) in
  TcpIpv4.configure (fun _ => S754_finite false 8388608 (-24))
    ["tcp_ipv4"; "-w"; "5000"; "-t"; "300"; "-s"; "1234"; "-w"; "8000"; "-Lu"; "0.5"; "10.0.0.2"; "80"] 7 =
    if listen o then
      a <-- try (Address.of_host "0" "80") ;;
      n <-- try (Address.port a) ;;
      if n =? 0
      then Exit 1 (TcpIpv4.show_usage "tcp_ipv4" (Some "ERROR: listen port cannot be zero in server mode."))
      else Done (o <| c_filt := (c_filt o) <| FdAdapterConfig.source := Address.endpoint a |> |>)
    else
      o <-- set_destination "10.0.0.2" "80" o ;; set_source (source_address o) (source_port o) o.
Proof.
  apply (command_line_understood (H := Address.numeric_resolver) (fun _ => S754_finite false 8388608 (-24))
    "tcp_ipv4" "10.0.0.2" "80" [Window 5000; Timeout 300; SourcePort "1234"; Window 8000; LossUp "0.5" 32767]).
  repeat constructor; unfold Text.LONG_MAX; lia || reflexivity.
Defined.

(** The usage message of the three programs gives 1000 bytes, the limit of a
    segment's payload, as the default window; a command line without [-w] leaves
    64000. *)
Example advertised_window :
  match TcpUdp.configure (H := Address.numeric_resolver) (fun _ => S754_nan) ["tcp_udp"; "10.0.0.2"; "80"] with
  | Done o => TCPConfig.recv_capacity (c_fsm o) = 64000
  | _ => False
  end /\ Text.to_string TCPConfig.MAX_PAYLOAD_SIZE = "1000".
Proof. split; reflexivity. Qed.

(** The usage message says that with [-l] the host is the address to bind; it is
    not even looked at. *)
Example listen_host_ignored :
  let configure host := TcpIpv4.configure (H := Address.numeric_resolver) (fun _ => S754_nan) ["tcp_ipv4"; "-l"; host; "80"] 7 in
  configure "10.0.0.2" = configure "no such host" /\
  match configure "10.0.0.2" with
  | Done o => FdAdapterConfig.source (c_filt o) = Endpoint.mk 0 80
  | _ => False
  end.
Proof. vm_compute. split; reflexivity. Qed.

(** A loss rate is not checked to lie between 0 and 1: two is converted out of the
    range of the [uint16_t]. *)
Example loss_rate_unchecked : loss_rate (S754_finite false 8388608 (-22)) = Undefined BadConversion.
Proof. reflexivity. Qed.

End OptionsSpec.
