(* ===== verification/UdpTcpdump.v ===== *)
(** * The packet printers: [apps/udp_tcpdump.cc], [apps/tun.cc]

    [udp_tcpdump] finds TCP segments in the UDP datagrams that pcap captures.  The
    capture library is outside: [pcap] is the record of its answers, of which each
    packet is the bytes captured, and [inet_ntop(3)] is a parameter.  A read outside
    the captured bytes is [Undefined].  Of what goes to [cerr] only the reason a
    packet is skipped is kept. *)
From Stdlib Require Import Ascii.
From S2P Require Import Prelude Text WrappingIntegers Buffer Parser Checksum TCPSegment IPv4 Adapter Address.
From S2P Require Import TCPSender Options Printing.
Import WrappingIntegers.
#[local] Open Scope run_scope.

Module UdpTcpdump.

(** ** Arguments *)

Definition show_usage (argv0 : string) (errmsg : option string) : string :=
  "Usage: " +:+ argv0 +:+ " [-i <intf>] [-F <file>] [-h|--help] <expression>" +:+ nl +:+ nl +:+
  "  -i <intf>    only capture packets from <intf> (default: all)" +:+ nl +:+ nl +:+
  "  -F <file>    reads in a filter expression from <file>" +:+ nl +:+
  "               <expression> is ignored if -F is supplied." +:+ nl +:+ nl +:+
  "  -h, --help   show this message" +:+ nl +:+ nl +:+
  "  <expression> a filter expression in pcap-filter(7) syntax" +:+ nl +:+
  match errmsg with Some errmsg => nl +:+ errmsg | None => EmptyString end +:+ nl.

Definition check_arg (argv : list string) (curr : Z) (errmsg : string) : run unit :=
  if zlen argv <=? curr + 1
  then arg0 <-- arg argv 0 ;; Exit 1 (show_usage arg0 (Some errmsg))
  else Done tt.

(** The loop of [parse_arguments]; the device is [None] for the null pointer. *)
Fixpoint arguments_loop (fuel : nat) (argv : list string) (curr : Z) (dev : option string) :
    run (Z * option string) :=
  match fuel with
  | O => Diverges
  | S fuel =>
      if curr <? zlen argv then
        a <-- arg argv curr ;;
        if Text.strncmp_eq "-i" a 3 then
          _ <-- check_arg argv curr "ERROR: -i requires an argument" ;;
          v <-- arg argv (curr + 1) ;;
          arguments_loop fuel argv (curr + 2) (Some v)
        else if Text.strncmp_eq "-h" a 3 || Text.strncmp_eq "--help" a 7 then
          arg0 <-- arg argv 0 ;; Exit 0 (show_usage arg0 None)
        else Done (curr, dev)
      else Done (curr, dev)
  end.

Definition parse_arguments (argv : list string) : run (Z * option string) :=
  arguments_loop (S (length argv)) argv 1 None.

(** The arguments from [exp_start] on, each followed by a space. *)
Definition filter_expression (argv : list string) (exp_start : Z) : string :=
  fold_right (fun a s => a +:+ " " +:+ s) EmptyString (zdrop exp_start argv).

(** ** Packets *)

Section packets.
Context (inet_ntop : Z -> bytes -> option string).

Definition AF_INET6 : Z := 10.

(** [data[i]] and the [n] bytes at [data + i]. *)
Definition byte_at (data : bytes) (i : Z) : run Z :=
  match zget data i with Some b => Done (byte_val b) | None => Undefined OutOfBounds end.

Definition bytes_at (data : bytes) (i n : Z) : run bytes :=
  if (0 <=? i) && (i + n <=? zlen data) then Done (substr data i n) else Undefined OutOfBounds.

Definition inet4_addr (data : bytes) (i : Z) : run string :=
  addr <-- bytes_at data i 4 ;; Done (default "unknown" (inet_ntop AF_INET addr)).

Definition inet6_addr (data : bytes) (i : Z) : run string :=
  addr <-- bytes_at data i 16 ;; Done (default "unknown" (inet_ntop AF_INET6 addr)).

(** The extension headers of IPv6: the offset of the UDP header, or [None] for
    the result -1. *)
Fixpoint extension_loop (fuel : nat) (len : Z) (data : bytes) (nxt data_offset : Z) : run (option Z) :=
  match fuel with
  | O => Diverges
  | S fuel =>
      if negb (nxt =? 17) then
        if negb (nxt =? 0) && negb (nxt =? 43) && negb (nxt =? 60) then Done None
        else
          nxt <-- byte_at data data_offset ;;
          ext_len <-- byte_at data (data_offset + 1) ;;
          let data_offset := data_offset + 8 * (1 + ext_len) in
          if len <? data_offset + 2 then Done None
          else extension_loop fuel len data nxt data_offset
      else Done (Some data_offset)
  end.

(** The offset of the UDP payload and the two addresses, or [None] for the result
    -1; [len] is the length of [data]. *)
Definition process_ipv4_ipv6 (len : Z) (data : bytes) : run (option (Z * string * string)) :=
  if len <? 1 then Done None
  else
    d0 <-- byte_at data 0 ;;
    let pt := Z.land d0 240 in
    if pt =? 64 then
      let data_offset := Z.land d0 15 * 4 in
      if len <? data_offset then Done None
      else
        proto <-- byte_at data 9 ;;
        if negb (proto =? 17) then Done None
        else
          src <-- inet4_addr data 12 ;;
          dst <-- inet4_addr data 16 ;;
          Done (Some (data_offset + 8, src, dst))
    else if pt =? 96 then
      if len <? 42 then Done None
      else
        nxt <-- byte_at data 6 ;;
        off <-- extension_loop (S (Z.to_nat len)) len data nxt 40 ;;
        match off with
        | None => Done None
        | Some data_offset =>
            src <-- inet6_addr data 8 ;;
            dst <-- inet6_addr data 24 ;;
            Done (Some (data_offset + 8, src, dst))
        end
    else Done None.

(** The link types. *)
Definition DLT_NULL : Z := 0.
Definition DLT_EN10MB : Z := 1.
Definition DLT_RAW : Z := 12.
Definition DLT_LINUX_SLL : Z := 113.
Definition DLT_LINUX_SLL2 : Z := 276.

(** What one round of the loop does: go on after a message on [cerr], print, or
    leave [main]. *)
Inductive round :=
| Skipped (message : string)
| Printed (text : string)
| GiveUp.

(** A link-layer header of [hdr_off] bytes with a 16-bit type at [at_]. *)
Definition link_header (pkt_data : bytes) (hdr_off at_ : Z) : run (Z + round) :=
  if zlen pkt_data <? hdr_off then Done (inr (Skipped "[INFO] Skipping malformed packet."))
  else
    hi <-- byte_at pkt_data at_ ;;
    lo <-- byte_at pkt_data (at_ + 1) ;;
    let pt := u16 (Z.lor (Z.shiftl hi 8) lo) in
    if negb (pt =? 2048) && negb (pt =? 34525) then Done (inr (Skipped "[INFO] Skipping non-IP packet."))
    else Done (inl hdr_off).

(** Where the packet begins, by link type. *)
Definition header_offset (dl_type : Z) (pkt_data : bytes) : run (Z + round) :=
  if dl_type =? DLT_NULL then
    if zlen pkt_data <? 4 then Done (inr (Skipped "[INFO] Skipping malformed packet."))
    else
      pt <-- byte_at pkt_data 3 ;;
      if negb (pt =? 2) && negb (pt =? 24) && negb (pt =? 28) && negb (pt =? 30)
      then Done (inr (Skipped "[INFO] Skipping non-IP packet."))
      else Done (inl 4)
  else if dl_type =? DLT_EN10MB then link_header pkt_data 14 12
  else if dl_type =? DLT_LINUX_SLL then link_header pkt_data 16 14
  else if dl_type =? DLT_LINUX_SLL2 then link_header pkt_data 20 0
  else if negb (dl_type =? DLT_RAW) then Done (inr GiveUp)
  else Done (inl 0).

(** The lines printed for a segment that parsed with result [res]. *)
Definition segment_lines (src dst : string) (res : ParseResult) (seg : TCPSegment.t) (payload_len : Z) : string :=
  let tcp_hdr := TCPSegment.header seg in
  let seqlen := u32 (TCPSegment.length_in_sequence_space seg) in
  src +:+ ":" +:+ Text.to_string (TCPHeader.sport tcp_hdr) +:+ " > " +:+
  dst +:+ ":" +:+ Text.to_string (TCPHeader.dport tcp_hdr) +:+ nl +:+ "    Flags [" +:+
  Printing.flag (TCPHeader.urg tcp_hdr) "U" +:+ Printing.flag (TCPHeader.psh tcp_hdr) "P" +:+
  Printing.flag (TCPHeader.rst tcp_hdr) "R" +:+ Printing.flag (TCPHeader.syn tcp_hdr) "S" +:+
  Printing.flag (TCPHeader.fin tcp_hdr) "F" +:+ Printing.flag (TCPHeader.ack tcp_hdr) "." +:+
  "] cksum 0x" +:+ Text.setw 4 "0" (Text.hex (TCPHeader.cksum tcp_hdr)) +:+
  (if bool_decide (res = NoError) then " (correct)" else " (incorrect!)") +:+
  " seq " +:+ Printing.wrapping 10 (TCPHeader.seqno tcp_hdr) +:+
  (if 0 <? seqlen then ":" +:+ Printing.wrapping 10 (add (TCPHeader.seqno tcp_hdr) seqlen) else "") +:+
  " ack " +:+ Printing.wrapping 10 (TCPHeader.ackno tcp_hdr) +:+
  " win " +:+ Text.to_string (TCPHeader.win tcp_hdr) +:+ " length " +:+ Text.to_string payload_len +:+ nl.

(** The body of the loop over the packets. *)
Definition handle_packet (dl_type : Z) (pkt_data : bytes) : run round :=
  off <-- header_offset dl_type pkt_data ;;
  match off with
  | inr r => Done r
  | inl hdr_off =>
      ip <-- process_ipv4_ipv6 (zlen pkt_data - hdr_off) (zdrop hdr_off pkt_data) ;;
      match ip with
      | None => Done (Skipped "Error parsing IPv4/IPv6 packet. Skipping.")
      | Some (start_off, src, dst) =>
          let payload_off := u64 (hdr_off + start_off) in
          let payload_len := u64 (zlen pkt_data - payload_off) in
          payload <-- bytes_at pkt_data payload_off payload_len ;;
          let '(res, seg) := TCPSegment.parse (Buffer.of_string payload) 0 TCPSegment.default in
          let text :=
            if result_index BadChecksum <? result_index res
            then "(did not recognize TCP header) src: " +:+ src +:+ " dst: " +:+ dst +:+ nl
            else segment_lines src dst res seg payload_len in
          Done (Printed (text +:+ Hexdump.hexdump payload 8))
      end
  end.

End packets.

(** ** Bounds *)

Import OptionsSpec.

Lemma byte_at_in data i : 0 <= i < zlen data -> exists v, byte_at data i = Done v /\ 0 <= v < 256.
Proof.
  intros Hi. unfold byte_at. destruct (zget data i) as [b|] eqn:E.
  - exists (byte_val b). split; [done|apply byte_val_range].
  - destruct (proj2 (zget_is_Some data i) Hi) as [x Hx]. congruence.
Qed.

Lemma bytes_at_in data i n : 0 <= i -> i + n <= zlen data -> bytes_at data i n = Done (substr data i n).
Proof. intros. unfold bytes_at. by replace (_ && _) with true by lia. Qed.

(** The extension headers are followed inside the packet, and to the end. *)
Lemma extension_loop_proper len data : forall fuel nxt off,
  len = zlen data -> 0 <= off -> off + 2 <= len -> len - off < Z.of_nat fuel ->
  proper (extension_loop fuel len data nxt off).
Proof.
  induction fuel as [|fuel IH]; intros nxt off Hlen H0 Hoff Hf; [lia|]. cbn [extension_loop].
  destruct (negb (nxt =? 17)); [|done]. destruct (_ && _ && _); [done|].
  destruct (byte_at_in data off) as (v & -> & _); [lia|]. cbn [rbind].
  destruct (byte_at_in data (off + 1)) as (e & -> & He); [lia|]. cbn [rbind].
  destruct (len <? _) eqn:E; [exact I|]. apply IH; lia.
Qed.

(** C24: parsing a captured packet never reads outside it, and ends, whatever
    its bytes are, if an IPv4 packet is at least as long as its header is without
    options. *)
Theorem process_in_bounds (inet_ntop : Z -> bytes -> option string) (data : bytes) :
  (Z.land (byte_val (hd Corelib.Init.Byte.x00 data)) 240 = 64 -> 20 <= zlen data) ->
  proper (process_ipv4_ipv6 inet_ntop (zlen data) data).
Proof.
  intros H4. unfold process_ipv4_ipv6. destruct (zlen data <? 1) eqn:E; [done|].
  assert (byte_at data 0 = Done (byte_val (hd Corelib.Init.Byte.x00 data))) as -> by (by destruct data).
  cbn [rbind]. set (d0 := byte_val _) in *. destruct (_ =? 64) eqn:E4.
  - specialize (H4 ltac:(lia)). destruct (zlen data <? Z.land d0 15 * 4); [done|].
    destruct (byte_at_in data 9) as (v & -> & _); [lia|]. cbn [rbind]. destruct (negb _); [done|].
    unfold inet4_addr. by rewrite !bytes_at_in by lia.
  - destruct (_ =? 96); [|done]. destruct (zlen data <? 42) eqn:E42; [done|].
    destruct (byte_at_in data 6) as (v & -> & _); [lia|]. cbn [rbind].
    apply proper_bind; [apply extension_loop_proper; lia|]. intros [off|] _; [|done].
    unfold inet6_addr. by rewrite !bytes_at_in by lia.
Qed.

Lemma process_in_bounds_witness :
  proper (process_ipv4_ipv6 (fun _ _ => None) 48
    (be_bytes 1 96 ++ be_bytes 5 0 ++ be_bytes 1 0 ++ be_bytes 33 0 ++ be_bytes 8 1224979098644774912)).
Proof.
  apply (process_in_bounds (fun _ _ => None)
    (be_bytes 1 96 ++ be_bytes 5 0 ++ be_bytes 1 0 ++ be_bytes 33 0 ++ be_bytes 8 1224979098644774912)).
  vm_compute. discriminate.
Defined.

(** The other IPv4 packets are read beyond their end: only the length that the
    header claims, which may be anything, is compared with the length captured. *)
Example short_ipv4_out_of_bounds inet_ntop :
  process_ipv4_ipv6 inet_ntop 1 [byte_of 64] = Undefined OutOfBounds.
Proof. reflexivity. Qed.

(** A packet that ends inside the UDP header gets a payload of nearly 2^64
    bytes. *)
Example short_udp_out_of_bounds :
  handle_packet (fun _ _ => None) DLT_RAW
    (be_bytes 1 69 ++ be_bytes 8 0 ++ be_bytes 1 17 ++ be_bytes 10 0) = Undefined OutOfBounds.
Proof. vm_compute. reflexivity. Qed.

(** The option [-F] of the usage message is taken for the filter expression. *)
Example file_option_unknown :
  parse_arguments ["udp_tcpdump"; "-F"; "file"] = Done (1, None) /\
  filter_expression ["udp_tcpdump"; "-F"; "file"] 1 = "-F file ".
Proof. split; reflexivity. Qed.

(** The arguments are read inside [argv]. *)
Lemma arguments_proper argv : forall fuel curr dev,
  argv <> [] -> 1 <= curr -> zlen argv - curr < Z.of_nat fuel -> (0 < fuel)%nat ->
  proper (arguments_loop fuel argv curr dev).
Proof.
  induction fuel as [|fuel IH]; intros curr dev Hne Hc Hf H0; [lia|]. cbn [arguments_loop].
  assert (0 < zlen argv) by (destruct argv; [done|rewrite zlen_cons; pose_zlen; lia]).
  destruct (arg_in argv 0) as [a0 E0]; [lia|].
  destruct (curr <? zlen argv) eqn:E; [|done]. destruct (arg_in argv curr) as [a ->]; [lia|]. cbn [rbind].
  destruct (Text.strncmp_eq "-i" a 3).
  - unfold check_arg. rewrite E0. destruct (zlen argv <=? curr + 1) eqn:E1; cbn [rbind]; [done|].
    destruct (arg_in argv (curr + 1)) as [v ->]; [lia|]. cbn [rbind]. apply IH; (done || lia).
  - rewrite E0. by destruct (_ || _).
Qed.

Lemma parse_arguments_proper argv : argv <> [] -> proper (parse_arguments argv).
Proof. intros. apply arguments_proper; (done || unfold zlen; lia). Qed.

(** ** What is shown *)












Definition demo_ntop (_ : Z) (addr : bytes) : option string := Some (dotted (be_value addr)).



(** ** The whole program *)

(** One answer of [pcap_next_ex]: 1 for a packet, 0 for a timeout, negative at
    the end (-1 after an error). *)
Record next_reply := mkNext {
  next_ret : Z;
  next_data : bytes }.

(** What libpcap answers.  [pcap_open_live] gives a handle or an error message, and
    [pcap_compile] and [pcap_setfilter] an error message when they fail; a link type
    that the library does not know has no description. *)
Record pcap := mkPcap {
  pcap_open_live : option string -> option string;
  pcap_datalink : Z;
  pcap_datalink_val_to_description : Z -> option string;
  pcap_compile : string -> option string;
  pcap_setfilter : string -> option string;
  pcap_next_ex : list next_reply }.

Section main.
Context (inet_ntop : Z -> bytes -> option string) (lib : pcap).

Definition supported (dlt : Z) : bool :=
  (dlt =? DLT_RAW) || (dlt =? DLT_NULL) || (dlt =? DLT_EN10MB) || (dlt =? DLT_LINUX_SLL) || (dlt =? DLT_LINUX_SLL2).

(** [cout << pcap_datalink_val_to_description(dlt)]. *)
Definition description (dlt : Z) : run string :=
  match pcap_datalink_val_to_description lib dlt with Some s => Done s | None => Undefined NullString end.

(** The lambda that opens the capture; [out] is what [cout] has got so far. *)
Definition open_capture (dev : option string) (out : string) : run (Z * string) :=
  match pcap_open_live lib dev with
  | Some errbuf => Exit 1 (out +:+ nl +:+ "Error initiating capture: " +:+ errbuf +:+ nl)
  | None =>
      let dlt := pcap_datalink lib in
      if negb (supported dlt) then
        text <-- description dlt ;; Exit 1 (out +:+ nl +:+ "Error: unsupported datalink type " +:+ text +:+ nl)
      else
        text <-- description dlt ;; Done (dlt, out +:+ " (type: " +:+ text +:+ ")" +:+ nl)
  end.

(** The loop over the packets: the value that ended it, and the output. *)
Fixpoint capture_loop (dl_type : Z) (replies : list next_reply) (out : string) : run (Z * string) :=
  match replies with
  | [] => Waits
  | r :: replies =>
      if 0 <=? next_ret r then
        if next_ret r =? 0 then capture_loop dl_type replies out
        else
          round <-- handle_packet inet_ntop dl_type (next_data r) ;;
          match round with
          | Skipped _ => capture_loop dl_type replies out
          | Printed text => capture_loop dl_type replies (out +:+ text)
          | GiveUp => Exit 1 out
          end
      else Done (next_ret r, out)
  end.

(** [main]; after [pcap_close] the handle is gone, and [pcap_geterr] reads it. *)
Definition main (argv : list string) : run unit :=
  r <-- parse_arguments argv ;;
  let '(exp_start, dev) := r in
  let out := match dev with Some dev => "Capturing on interface " +:+ dev | None => "Capturing on all interfaces" end in
  r <-- open_capture dev out ;;
  let '(dl_type, out) := r in
  let filter := filter_expression argv exp_start in
  let out := out +:+ "Using filter expression: " +:+ filter +:+ nl in
  match pcap_compile lib filter with
  | Some err => Exit 1 (out +:+ "Error compiling filter expression: " +:+ err +:+ nl)
  | None =>
      match pcap_setfilter lib filter with
      | Some err => Exit 1 (out +:+ "Error configuring packet filter: " +:+ err +:+ nl)
      | None =>
          r <-- capture_loop dl_type (pcap_next_ex lib) out ;;
          let '(next_ret, out) := r in
          if next_ret =? -1 then Undefined UseAfterFree else Exit 0 out
      end
  end.

(** A supported link type is never given up on. *)
Lemma supported_goes_on dl_type pkt_data :
  supported dl_type = true -> handle_packet inet_ntop dl_type pkt_data <> Done GiveUp.
Proof.
  intros Hs. unfold handle_packet.
  assert (forall h t, link_header pkt_data h t <> Done (inr GiveUp)) as Hl.
  { intros h t. unfold link_header. destruct (_ <? _); [done|].
    do 2 (destruct (byte_at _ _); cbn [rbind]; [|done..]). cbv zeta. by destruct (_ && _). }
  assert (header_offset dl_type pkt_data <> Done (inr GiveUp)) as Hh.
  { unfold header_offset. destruct (_ =? DLT_NULL) eqn:E1.
    { destruct (_ <? _); [done|]. destruct (byte_at _ _); cbn [rbind]; [|done..]. by destruct (_ && _). }
    destruct (_ =? DLT_EN10MB) eqn:E2; [apply Hl|]. destruct (_ =? DLT_LINUX_SLL) eqn:E3; [apply Hl|].
    destruct (_ =? DLT_LINUX_SLL2) eqn:E4; [apply Hl|]. unfold supported in Hs. rewrite E1, E2, E3, E4 in Hs.
    by destruct (_ =? DLT_RAW). }
  destruct (header_offset _ _) as [[off|r]| | | | | | |]; cbn [rbind]; try done; [|congruence].
  destruct (process_ipv4_ipv6 _ _ _) as [[[[start src] dst]|]| | | | | | |]; cbn [rbind]; try done. cbv zeta.
  destruct (bytes_at _ _ _); cbn [rbind]; try done. by destruct (TCPSegment.parse _ _ _).
Qed.

(** What is printed for a packet. *)
Definition text_of (r : round) : string := match r with Printed text => text | _ => EmptyString end.

(** What one answer of [pcap_next_ex] leads to; a timeout to nothing. *)
Definition handled (dl_type : Z) (r : next_reply) : run round :=
  if next_ret r =? 0 then Done (Skipped EmptyString) else handle_packet inet_ntop dl_type (next_data r).

(** The loop prints the packets in order, whatever timeouts come between. *)
Lemma capture_loop_prints dl_type last : next_ret last < 0 -> supported dl_type = true ->
  forall replies rounds out,
  Forall (fun r => 0 <= next_ret r) replies ->
  Forall2 (fun r round => handled dl_type r = Done round) replies rounds ->
  capture_loop dl_type (replies ++ [last]) out =
    Done (next_ret last, out +:+ fold_right (fun r s => text_of r +:+ s) EmptyString rounds).
Proof.
  intros Hlast Hs replies rounds out Hr Hh. revert out Hr.
  induction Hh as [|r round replies rounds Hround _ IH]; intros out Hr; cbn [app capture_loop fold_right].
  - replace (0 <=? next_ret last) with false by lia. by rewrite Text.string_app_nil.
  - inversion Hr as [|? ? Hr0 Hr']; subst. replace (0 <=? next_ret r) with true by lia. unfold handled in Hround.
    destruct (next_ret r =? 0); [injection Hround as <-; by apply IH|]. rewrite Hround. cbn [rbind].
    destruct round as [m|text|]; cbn [text_of].
    + by rewrite IH.
    + rewrite IH by done. by rewrite Text.string_app_assoc.
    + destruct (supported_goes_on dl_type (next_data r) Hs Hround).
Qed.

(** A capture that could be opened prints what [handle_packet] says of each
    packet, in order, and returns success when the loop is broken; when it ends by an
    error of libpcap, the message is read from the handle that was just closed. *)
Theorem capture_ends (argv : list string) (exp_start : Z) (dev : option string) (text : string)
    (replies : list next_reply) (rounds : list round) (last : next_reply) :
  parse_arguments argv = Done (exp_start, dev) -> pcap_open_live lib dev = None ->
  supported (pcap_datalink lib) = true -> pcap_datalink_val_to_description lib (pcap_datalink lib) = Some text ->
  pcap_compile lib (filter_expression argv exp_start) = None ->
  pcap_setfilter lib (filter_expression argv exp_start) = None ->
  pcap_next_ex lib = replies ++ [last] -> next_ret last < 0 -> Forall (fun r => 0 <= next_ret r) replies ->
  Forall2 (fun r round => handled (pcap_datalink lib) r = Done round) replies rounds ->
  if next_ret last =? -1 then main argv = Undefined UseAfterFree
  else exists banner, main argv = Exit 0 (banner +:+ fold_right (fun r s => text_of r +:+ s) EmptyString rounds).
Proof.
  intros Ha Ho Hs Ht Hc Hf Hn Hlast Hr Hh. unfold main, open_capture, description.
  rewrite Ha. cbn [rbind]. rewrite Ho, Hs. cbn [negb]. rewrite Ht. cbn [rbind]. rewrite Hc, Hf, Hn.
  rewrite (capture_loop_prints _ last Hlast Hs replies rounds _ Hr Hh). cbn [rbind].
  destruct (next_ret last =? -1); [done|]. by eexists.
Qed.

(** An unsupported link type without a description: a null pointer is printed. *)
Lemma unknown_link_type argv exp_start dev :
  parse_arguments argv = Done (exp_start, dev) -> pcap_open_live lib dev = None ->
  supported (pcap_datalink lib) = false -> pcap_datalink_val_to_description lib (pcap_datalink lib) = None ->
  main argv = Undefined NullString.
Proof.
  intros Ha Ho Hs Ht. unfold main, open_capture, description. rewrite Ha. cbn [rbind]. by rewrite Ho, Hs, Ht.
Qed.

End main.

(** A packet that is not IP, a timeout, and the end of the capture. *)
Definition demo_pcap (next_ret : Z) : pcap :=
  mkPcap (fun _ => None) DLT_RAW (fun _ => Some "Raw IP") (fun _ => None) (fun _ => None)
    [mkNext 1 (str "hello"); mkNext 0 []; mkNext next_ret []].

Example demo_capture_error : main demo_ntop (demo_pcap (-1)) ["udp_tcpdump"; "port"; "53"] = Undefined UseAfterFree.
Proof. vm_compute. reflexivity. Qed.

Example demo_capture_broken :
  main demo_ntop (demo_pcap (-2)) ["udp_tcpdump"; "-i"; "lo"; "udp"] =
    Exit 0 ("Capturing on interface lo (type: Raw IP)" +:+ nl +:+ "Using filter expression: udp " +:+ nl).
Proof. vm_compute. reflexivity. Qed.

End UdpTcpdump.

(** ** [apps/tun.cc] *)

Module Tun.

(** One round of the loop of [main]: what is printed for the packet [buffer]. *)
Definition show_packet (buffer : bytes) : outcome string :=
  let out := nl +:+ nl +:+ "***" +:+ nl +:+ "*** Got packet:" +:+ nl +:+ "***" +:+ nl +:+ Hexdump.hexdump buffer 0 in
  let out := out +:+ "attempting to parse as ipv4 datagram... " in
  let '(res, ip_dgram) := IPv4Datagram.parse (Buffer.of_string buffer) IPv4Datagram.default in
  if bool_decide (res <> NoError) then Ok (out +:+ "failed." +:+ nl)
  else
    let ip := IPv4Datagram.header ip_dgram in
    let out := out +:+ "success! totlen=" +:+ Text.to_string (IPv4Header.len ip) +:+ ", IPv4 header contents:" +:+ nl +:+
               Printing.ipv4_header ip in
    if negb (IPv4Header.proto ip =? IPv4Header.PROTO_TCP) then Ok (out +:+ nl +:+ "Not TCP, skipping." +:+ nl)
    else
      let out := out +:+ nl +:+ "Attempting to parse as a TCP segment... " in
      let! payload := BufferList.to_buffer (IPv4Datagram.payload ip_dgram) in
      let '(res, tcp_seg) := TCPSegment.parse payload (IPv4Header.pseudo_cksum ip) TCPSegment.default in
      if bool_decide (res <> NoError) then Ok (out +:+ "failed." +:+ nl)
      else Ok (out +:+ "success! payload len=" +:+ Text.to_string (Buffer.size (TCPSegment.payload tcp_seg)) +:+
               ", TCP header contents:" +:+ nl +:+ Printing.tcp_header (TCPSegment.header tcp_seg) +:+ nl).

(** No packet makes the program stop: the payload of a parsed datagram is one
    buffer. *)
Lemma show_packet_total buffer : is_Ok (show_packet buffer).
Proof.
  unfold show_packet, IPv4Datagram.parse. cbv zeta. destruct (IPv4Header.parse _ _) as [[r h] p].
  destruct (negb _); [by eexists|]. destruct (bool_decide _); [by eexists|]. destruct (negb _); [by eexists|].
  cbn [IPv4Datagram.payload IPv4Datagram._payload modify BufferList.of_buffer BufferList.to_buffer obind].
  destruct (TCPSegment.parse _ _ _) as [res seg]. destruct (bool_decide (res <> NoError)); by eexists.
Qed.

End Tun.
