(* ===== verification/StackSockets.v ===== *)
(** * Sockets of the whole stack and the programs on top of them:
    [tcp_helpers/tcp_sponge_socket.hh/.cc] (constructors, [CS144TCPSocket],
    [FullStackSocket]), [apps/webget.cc], [apps/tcp_native.cc]
    (the [main] functions are in [Programs.v]).

    [SpongeSocket.v] has what a [TCPSpongeSocket] does once it exists; here it is
    created and configured.  The owner's end of the socket pair and the TCP
    thread's end are [Channel]s: a descriptor with the answers the kernel will
    give on it. *)
From Stdlib Require Import Ascii.
From S2P Require Import Prelude Text Buffer Parser TCPSegment Adapter Address TCPSender FileDescriptor EventLoop.
From S2P Require Import Channel Socket NetworkInterface DatagramAdapter SpongeSocket Options.

(** ** Constructing a [TCPSpongeSocket] *)

Module SocketSetup.

(** The answer to [socketpair(2)]: the two descriptors too. *)
Record pair_reply := mkPair {
  pair_ret : sysret;
  pair_first : Z;
  pair_second : Z }.

Definition socket_pair_helper (reply : pair_reply) : outcome (FDWrapper.t * FDWrapper.t) :=
  let! _ := SystemCall "socketpair" (pair_ret reply) 0 in
  let! first := FileDescriptor.make (pair_first reply) in
  let! second := FileDescriptor.make (pair_second reply) in
  Ok (first, second).

(** What the kernel will answer on a stream descriptor. *)
Record io := mkIo {
  io_reads : list read_reply;
  io_writes : list sysret;
  io_others : list sysret }.

Definition open_channel (w : FDWrapper.t) (i : io) : Channel.t :=
  Channel.mk w (io_reads i) (io_writes i) (io_others i) [] [].

(** The constructor; [getfl] and [setfl] are the answers to [set_blocking]. *)
Definition make {A} `{SocketCalls} (reply : pair_reply) (getfl setfl : sysret) (owner_io thread_io : io)
    (datagram_interface : A) : outcome (TCPSpongeSocket.t A) :=
  let! (first, second) := socket_pair_helper reply in
  let! owner := LocalStreamSocket.of_fd first in
  let! thread_data := LocalStreamSocket.of_fd second in
  let! _ := FileDescriptor.set_blocking getfl setfl false in
  Ok (TCPSpongeSocket.mk (open_channel owner owner_io) (open_channel thread_data thread_io) datagram_interface
        None false false false false).

(** The owner's side of [wait_until_closed] and of the destructor: the first shuts
    the stream down in both directions, the second (if the thread still runs)
    raises the flag that makes it stop. *)
Definition wait_until_closed {A} (s : TCPSpongeSocket.t A) : outcome (TCPSpongeSocket.t A) :=
  let! ch := Channel.shutdown Channel.SHUT_RDWR (TCPSpongeSocket._owner s) in
  Ok (s <| TCPSpongeSocket._owner := ch |>).

Definition destroy {A} (joinable : bool) (s : TCPSpongeSocket.t A) : TCPSpongeSocket.t A :=
  if joinable then s <| TCPSpongeSocket._abort := true |> else s.

(** ** [CS144TCPSocket] and [FullStackSocket] *)

(** [random_private_ethernet_address]; [random] are the numbers drawn. *)
Definition random_private_ethernet_address (random : list Z) : bytes :=
  let addr := map byte_of (ztake 6 random) in
  match addr with
  | [] => []
  | first :: rest =>
      let first := byte_of (Z.lor (byte_val first) 2) in
      let first := byte_of (Z.land (byte_val first) 254) in
      first :: rest
  end.

Definition LOCAL_TAP_IP_ADDRESS : string := "169.254.10.9".
Definition LOCAL_TAP_NEXT_HOP_ADDRESS : string := "169.254.10.1".

Section configurations.
Context `{Resolver} `{SocketCalls}.

(** The two configurations [connect] of either class makes; [source] is its local
    address and [random] the number it draws for the port. *)
Definition connect_config (source : string) (address : Address.t) (random : Z) :
    outcome (TCPConfig.t * FdAdapterConfig.t) :=
  let tcp_config := TCPConfig.default <| TCPConfig.rt_timeout := 100 |> in
  let multiplexer_config := FdAdapterConfig.default in
  let! src := Address.of_host source (Text.to_string (u16 random)) in
  let multiplexer_config := multiplexer_config <| FdAdapterConfig.source := Address.endpoint src |> in
  let multiplexer_config := multiplexer_config <| FdAdapterConfig.destination := Address.endpoint address |> in
  Ok (tcp_config, multiplexer_config).

(** [CS144TCPSocket]: over the TUN device [tun144]. *)
Definition cs144_adapter (i : io) : outcome TunAdapter.t :=
  let! tun := TunTapFD.TunFD "tun144" in
  Ok (TunAdapter.mk FdAdapterBase.default (open_channel tun i)).

Definition cs144_connect (address : Address.t) (random isn : Z) (rounds : list TCPSpongeSocket.round) (base_time : Z)
    (s : TCPSpongeSocket.t TunAdapter.t) :
    outcome (bool * list (EventLoop.Rule (TCPSpongeSocket.t TunAdapter.t)) * TCPSpongeSocket.t TunAdapter.t) :=
  let! (tcp_config, multiplexer_config) := connect_config "169.254.144.9" address random in
  TCPSpongeSocket.connect tcp_config multiplexer_config isn rounds base_time s.

(** [FullStackSocket]: over the TAP device [tap10]. *)
Definition full_stack_adapter (random : list Z) (i : io) : outcome EthernetAdapter.t :=
  let! tap := TunTapFD.TapFD "tap10" in
  let! ip := Address.of_host LOCAL_TAP_IP_ADDRESS "0" in
  let! next_hop := Address.of_host LOCAL_TAP_NEXT_HOP_ADDRESS "0" in
  EthernetAdapter.make (open_channel tap i) (random_private_ethernet_address random) ip next_hop.

Definition full_stack_connect (address : Address.t) (random isn : Z) (rounds : list TCPSpongeSocket.round)
    (base_time : Z) (s : TCPSpongeSocket.t EthernetAdapter.t) :
    outcome (bool * list (EventLoop.Rule (TCPSpongeSocket.t EthernetAdapter.t)) * TCPSpongeSocket.t EthernetAdapter.t) :=
  let! (tcp_config, multiplexer_config) := connect_config LOCAL_TAP_IP_ADDRESS address random in
  TCPSpongeSocket.connect tcp_config multiplexer_config isn rounds base_time s.

End configurations.

(** A fresh socket is one the refinement of [SpongeSocket] starts from: no bytes
    have passed, no connection, no flag. *)
Lemma make_fresh {A} `{SocketCalls} reply getfl setfl o i (a : A) s :
  make reply getfl setfl o i a = Ok s ->
  TCPSpongeSocket._tcp s = None /\ TCPSpongeSocket._datagram_adapter s = a /\
  Channel.taken (TCPSpongeSocket._thread_data s) = [] /\ Channel.written (TCPSpongeSocket._thread_data s) = [] /\
  FDWrapper._fd (Channel.fd (TCPSpongeSocket._owner s)) = pair_first reply /\
  FDWrapper._fd (Channel.fd (TCPSpongeSocket._thread_data s)) = pair_second reply.
Proof.
  unfold make, socket_pair_helper. destruct (SystemCall _ _ _); cbn [obind]; [|done].
  unfold FileDescriptor.make, FDWrapper.make.
  destruct (pair_first reply <? 0); cbn [obind]; [done|]. destruct (pair_second reply <? 0); cbn [obind]; [done|].
  destruct (LocalStreamSocket.of_fd _) as [w1|] eqn:E1; cbn [obind]; [|done].
  destruct (LocalStreamSocket.of_fd (FDWrapper.mk (pair_second reply) _ _ _ _)) as [w2|] eqn:E2; cbn [obind]; [|done].
  apply SocketSpec.of_fd_checked in E1 as [-> _]. apply SocketSpec.of_fd_checked in E2 as [-> _].
  destruct (FileDescriptor.set_blocking _ _ _); cbn [obind]; [|done]. by intros [= <-].
Qed.

(** The random address is a private one: the bit for locally administered
    addresses is set, the one for groups is not, and the other 46 bits are the
    random ones. *)
Lemma random_address_private (random : list Z) :
  6 <= zlen random ->
  let addr := random_private_ethernet_address random in
  zlen addr = 6 /\
  Z.testbit (byte_val (hd Corelib.Init.Byte.x00 addr)) 0 = false /\
  Z.testbit (byte_val (hd Corelib.Init.Byte.x00 addr)) 1 = true /\
  (forall i, 2 <= i < 8 ->
     Z.testbit (byte_val (hd Corelib.Init.Byte.x00 addr)) i = Z.testbit (u8 (hd 0 random)) i) /\
  tail addr = map byte_of (tail (ztake 6 random)).
Proof.
  intros Hlen. destruct random as [|r random]; [by destruct Hlen|]. rewrite zlen_cons in Hlen.
  change (ztake 6 (r :: random)) with (r :: ztake 5 random). unfold random_private_ethernet_address.
  change (ztake 6 (r :: random)) with (r :: ztake 5 random). cbn [map hd tail].
  assert (forall b, byte_val (byte_of (Z.land (byte_val (byte_of (Z.lor (byte_val b) 2))) 254)) =
    Z.land (Z.lor (byte_val b) 2) 254) as Hb by (by intros []).
  rewrite Hb. split_and!.
  - rewrite zlen_cons. unfold zlen, ztake. rewrite length_map, length_take. unfold zlen in Hlen. lia.
  - by rewrite Z.land_spec, andb_false_r.
  - rewrite Z.land_spec, Z.lor_spec. change (Z.testbit 2 1) with true. by rewrite orb_true_r.
  - intros i Hi. rewrite Z.land_spec, Z.lor_spec.
    assert (i = 2 \/ i = 3 \/ i = 4 \/ i = 5 \/ i = 6 \/ i = 7) as Hd by lia.
    assert (Z.testbit 2 i = false /\ Z.testbit 254 i = true) as [-> ->]
      by (repeat destruct Hd as [->|Hd]; subst; done).
    by rewrite orb_false_r, andb_true_r, byte_val_of.
  - done.
Qed.

End SocketSetup.

(** ** [apps/webget.cc] *)

Module Webget.

Definition crlf : string := String "013" (String "010" "").

Definition request (host path : string) : string :=
  "GET " +:+ path +:+ " HTTP/1.1" +:+ crlf +:+ "Host: " +:+ host +:+ crlf +:+ crlf.

(** [while (!socket.eof()) { cout << socket.read(); }], one answer of the kernel
    per round; [None] while it has not answered. *)
Fixpoint print_loop (replies : list read_reply) (ch : Channel.t) (printed : bytes) :
    option (outcome (bytes * Channel.t)) :=
  if FileDescriptor.eof (Channel.fd ch) then Some (Ok (printed, ch))
  else
    match replies with
    | [] => None
    | _ :: replies =>
        match Channel.read 18446744073709551615 ch with
        | Throw e => Some (Throw e)
        | Ok (data, ch) => print_loop replies ch (printed ++ data)
        end
    end.

(** What [get_URL] does on the owner's end of the connected socket: everything
    between [connect] and [wait_until_closed]. *)
Definition exchange (host path : string) (ch : Channel.t) : option (outcome (bytes * Channel.t)) :=
  match Channel.write_all (BufferViewList.of_string (str (request host path))) ch with
  | Throw e => Some (Throw e)
  | Ok (_, ch) =>
      match Channel.shutdown Channel.SHUT_WR ch with
      | Throw e => Some (Throw e)
      | Ok ch => print_loop (Channel.reads ch) ch []
      end
  end.

Lemma print_loop_spec replies : forall ch printed,
  match print_loop replies ch printed with
  | Some (Ok (printed', ch')) =>
      exists got, printed' = printed ++ got /\ Channel.taken ch' = Channel.taken ch ++ got /\
        Channel.written ch' = Channel.written ch /\ FileDescriptor.eof (Channel.fd ch') = true
  | Some (Throw e) => Channel.kernel_fault e
  | None => True
  end.
Proof.
  induction replies as [|r replies IH]; intros ch printed; cbn [print_loop];
    destruct (FileDescriptor.eof (Channel.fd ch)) eqn:E; try done;
    try (exists []; by rewrite !app_nil_r).
  pose proof (Channel.read_spec 18446744073709551615 ch) as Hr.
  destruct (Channel.read _ ch) as [[data ch1]|e]; [|apply Hr; lia]. destruct Hr as (_ & Ht & Hw & _); [lia|].
  specialize (IH ch1 (printed ++ data)). destruct (print_loop replies ch1 _) as [[[printed' ch']|e]|]; [|done..].
  destruct IH as (got & -> & Ht' & Hw' & He). exists (data ++ got).
  rewrite Ht', Ht, Hw', Hw, <- !app_assoc. done.
Qed.

(** What [webget] prints is what the server sent: the request went out
    whole and first, everything read from the socket is printed, in order, and the
    program stops printing only at the end of the stream; only a fault of the
    kernel makes it throw. *)
Lemma exchange_prints_reply (host path : string) (ch : Channel.t) :
  zlen (str (request host path)) < 2147483648 -> Channel.taken ch = [] -> Channel.written ch = [] ->
  match exchange host path ch with
  | Some (Ok (printed, ch')) =>
      Channel.written ch' = str (request host path) /\ Channel.taken ch' = printed /\
      FileDescriptor.eof (Channel.fd ch') = true
  | Some (Throw e) => Channel.kernel_fault e
  | None => True
  end.
Proof.
  intros Hl Ht0 Hw0. unfold exchange.
  assert (concat (BufferViewList.of_string (str (request host path))) = str (request host path)) as Hc
    by apply app_nil_r.
  pose proof (Channel.write_all_spec (BufferViewList.of_string (str (request host path))) ch) as Hw.
  rewrite Hc in Hw. specialize (Hw Hl). destruct (Channel.write_all _ ch) as [[n ch1]|e]; [|done].
  destruct Hw as (_ & Hw & Ht). pose proof (Channel.shutdown_spec ch1) as Hs.
  destruct (Channel.shutdown Channel.SHUT_WR ch1) as [ch2|e]; [|done]. destruct Hs as (Hw2 & Ht2 & _).
  pose proof (print_loop_spec (Channel.reads ch2) ch2 []) as Hp.
  destruct (print_loop _ ch2 []) as [[[printed ch3]|e]|]; [|done..]. destruct Hp as (got & -> & Ht3 & Hw3 & He).
  by rewrite Hw3, Hw2, Hw, Hw0, Ht3, Ht2, Ht, Ht0.
Qed.

End Webget.

(** ** [apps/tcp_native.cc] *)

Module TcpNative.
#[local] Open Scope run_scope.

Definition show_usage (argv0 : string) : string :=
  "Usage: " +:+ argv0 +:+ " [-l] <host> <port>" +:+ nl +:+ nl +:+
  "  -l specifies listen mode; <host>:<port> is the listening address." +:+ nl.

(** The connected socket that [main] copies from and to. *)
Definition socket `{Resolver} `{SocketCalls} (argv : list string) : run FDWrapper.t :=
  let argc := zlen argv in
  let usage := argv0 <-- arg argv 0 ;; Exit 1 (show_usage argv0) in
  if argc <? 3 then usage
  else
    first <-- arg argv 1 ;;
    let server_mode := is_opt "-l" first in
    if server_mode && (argc <? 4) then usage
    else if server_mode then
      host <-- arg argv 2 ;;
      port <-- arg argv 3 ;;
      listening_socket <-- try TCPSocket.make ;;
      _ <-- try (Socket.set_reuseaddr listening_socket) ;;
      address <-- try (Address.of_host host port) ;;
      _ <-- try (Socket.bind address listening_socket) ;;
      _ <-- try (TCPSocket.listen TCPSocket.BACKLOG listening_socket) ;;
      r <-- try (TCPSocket.accept listening_socket) ;;
      Done r.1
    else
      host <-- arg argv 1 ;;
      port <-- arg argv 2 ;;
      connecting_socket <-- try TCPSocket.make ;;
      address <-- try (Address.of_host host port) ;;
      _ <-- try (Socket.connect address connecting_socket) ;;
      Done connecting_socket.

(** It reads only arguments that are there. *)
Lemma socket_proper `{Resolver} `{SocketCalls} argv : argv <> [] -> OptionsSpec.proper (socket argv).
Proof.
  intros Hne. unfold socket. cbv zeta.
  destruct (OptionsSpec.arg_in argv 0) as [a0 ->];
    [destruct argv; [done|rewrite zlen_cons; pose_zlen; lia]|]. cbn [rbind].
  destruct (zlen argv <? 3) eqn:E3; [done|].
  destruct (OptionsSpec.arg_in argv 1) as [a1 ->]; [lia|]. cbn [rbind].
  destruct (OptionsSpec.arg_in argv 2) as [a2 ->]; [lia|].
  destruct (is_opt "-l" a1); cbn [andb].
  - destruct (zlen argv <? 4) eqn:E4; [done|].
    destruct (OptionsSpec.arg_in argv 3) as [a3 ->]; [lia|]. cbn [rbind].
    repeat (apply OptionsSpec.proper_bind; [apply OptionsSpec.proper_try|intros ? _]). done.
  - cbn [rbind]. repeat (apply OptionsSpec.proper_bind; [apply OptionsSpec.proper_try|intros ? _]). done.
Qed.

End TcpNative.
