(* ===== verification/Threads.v ===== *)
(** * The thread of a socket: [tcp_helpers/tcp_sponge_socket.cc]

    A [TCPSpongeSocket] runs [_tcp_main] in a thread of its own.  The two threads
    meet in the kernel (the socket pair, whose answers either side gets are data
    here), in the flag [_abort], and when the owner joins; the thread's last
    [shutdown] also counts on the owner's descriptor, which nothing reads after it.
    An exception that leaves the thread ends the process ([Terminates]).  The thread ends when the
    owner aborts ([abort_joins]) and when the connection is over ([thread_ends]). *)
From S2P Require Import Prelude WrappingIntegers ByteStream StreamReassembler Buffer TCPSegment Adapter TCPReceiver TCPSender.
From S2P Require Import TCPConnection FileDescriptor EventLoop Channel DatagramAdapter SpongeSocket Options StackSockets.
#[local] Open Scope run_scope.

Module Threads.
Import TCPSpongeSocket.

(** The rounds of a thread whose owner does not raise [_abort]. *)
Definition calm (rounds : list round) : list round :=
  map (fun r => mkRound (round_poll r) false (round_time r)) rounds.

(** [_tcp_thread.join()]: the owner goes on when [_tcp_main] has returned. *)
Definition join {A} `{DatagramAdapter A} (rounds : list round) (base_time : Z) (rules : list (EventLoop.Rule (t A)))
    (s : t A) : run (t A) :=
  match _tcp_main rounds base_time rules s with
  | Ok (true, s) => Done s
  | Ok (false, _) => Waits
  | Throw e => Terminates e
  end.

(** The life of a socket after [connect] or [listen_and_accept] has started its
    thread.  [owner] is what the owner does with its end of the socket pair up to the
    call of [wait_until_closed].  When it throws, the destructor raises [_abort]
    and joins, and the exception goes on; [rounds] says when the thread sees the
    flag.  [last] is the answer to the thread's own [shutdown]. *)
Definition with_thread {A B} `{DatagramAdapter A} (rounds : list round) (base_time : Z) (last : sysret)
    (rules : list (EventLoop.Rule (t A))) (s : t A) (owner : Channel.t -> option (outcome (B * Channel.t))) :
    run (B * Channel.t) :=
  let thread := s <| _owner := (_owner s) <| Channel.others := [last] |> |> in
  match owner (_owner s) with
  | None => _ <-- join (calm rounds) base_time rules thread ;; Waits
  | Some (Throw e) => _ <-- join rounds base_time rules thread ;; Uncaught e
  | Some (Ok (b, ch)) =>
      match SocketSetup.wait_until_closed (s <| _owner := ch |>) with
      | Throw e => _ <-- join rounds base_time rules thread ;; Uncaught e
      | Ok s' => _ <-- join (calm rounds) base_time rules thread ;; Done (b, _owner s')
      end
  end.

(** ** The thread ends when the owner aborts *)

Lemma tcp_loop_aborts {A} `{DatagramAdapter A} (rounds : list round) :
  Exists (fun r => round_abort r = true) rounds ->
  forall base_time rules (s : t A),
  match _tcp_loop (fun _ => true) rounds base_time rules s with
  | Ok (ended, _, _) => ended = true
  | Throw _ => True
  end.
Proof.
  induction rounds as [|r rounds IH]; intros Ha base_time rules0 s; [by inversion Ha|]. cbn [_tcp_loop negb].
  destruct (EventLoop.wait_next_event _ _ _) as [[[ret rules1] s1]|]; cbn [obind]; [|done].
  set (s2 := s1 <| _abort := _ |>). replace (_abort s2) with (_abort s1 || round_abort r) by (by destruct s1).
  destruct (_abort s1 || round_abort r) eqn:E; [by destruct ret|].
  apply Exists_cons in Ha as [Ha|Ha]; [by rewrite Ha, orb_true_r in E|].
  assert (match (let! c := tcp s2 in
                 if TCPConnection.active c then
                   let next_time := round_time r in
                   let s := s2 <| _tcp := Some (TCPConnection.tick (u64 (next_time - base_time)) c) |> in
                   let! a := adapter_tick (u64 (next_time - base_time)) (_datagram_adapter s) in
                   _tcp_loop (fun _ => true) rounds next_time rules1 (s <| _datagram_adapter := a |>)
                 else _tcp_loop (fun _ => true) rounds base_time rules1 s2) with
          | Ok (ended, _, _) => ended = true | Throw _ => True end) as Hgo; [|by destruct ret].
  destruct (tcp s2) as [c|]; cbn [obind]; [|done]. destruct (TCPConnection.active c); [|by apply IH].
  cbv zeta. destruct (adapter_tick _ _); cbn [obind]; [by apply IH|done].
Qed.

(** The destructor does not block: once the thread sees [_abort], the join
    returns (or the thread has died of an exception, and the process with it). *)
Lemma abort_joins {A} `{DatagramAdapter A} (rounds : list round) base_time rules (s : t A) :
  Exists (fun r => round_abort r = true) rounds -> join rounds base_time rules s <> Waits.
Proof.
  intros Ha. unfold join, _tcp_main. destruct (negb _); [done|].
  pose proof (tcp_loop_aborts rounds Ha base_time rules s) as Hl.
  destruct (_tcp_loop _ _ _ _ _) as [[[ended rules1] s1]|]; cbn [obind]; [|done]. subst ended.
  by destruct (Channel.shutdown _ _).
Qed.

(** ** The thread leaves the owner's end alone until its loop is over *)

Definition owned {A} (ch : Channel.t) (s : t A) : Prop := _owner s = ch.

Lemma keeps_owner {A} ch (r : EventLoop.Rule (t A)) :
  (forall s, match EventLoop.callback r s with Ok s' => _owner s' = _owner s | Throw _ => True end) ->
  (forall s, match EventLoop.cancel r s with Ok s' => _owner s' = _owner s | Throw _ => True end) ->
  EventLoop.keeps (owned ch) r.
Proof.
  intros Hcb Hc s s' _ Hs [Hr|Hr]; [specialize (Hcb s); rewrite Hr in Hcb|specialize (Hc s); rewrite Hr in Hc];
    unfold owned in *; congruence.
Qed.

Lemma rules_keep_owner {A} `{DatagramAdapter A} ch : Forall (EventLoop.keeps (owned (A := A) ch)) rules.
Proof.
  unfold rules, EventLoop.add_rule. cbn [app].
  repeat (apply Forall_cons_2; [apply keeps_owner; intros s; cbn [EventLoop.callback EventLoop.cancel]|]);
    [..|apply Forall_nil_2].
  - unfold datagram_in_callback. destruct (adapter_read _) as [[]|]; cbn [obind]; [|done].
    destruct (tcp s); cbn [obind]; [|done]. cbv zeta. by destruct (_ && _ && _).
  - done.
  - unfold owner_in_callback. destruct (tcp s) as [c|]; cbn [obind]; [|done].
    destruct (Channel.read _ _) as [[data ch1]|]; cbn [obind]; [|done]. cbv zeta.
    destruct (TCPConnection.write data c). destruct (negb _); [done|]. by destruct (FileDescriptor.eof _).
  - unfold owner_in_cancel. by destruct (tcp s).
  - unfold owner_out_callback. destruct (tcp s) as [c|]; cbn [obind]; [|done]. cbv zeta.
    destruct (Channel.write _ _) as [[n ch1]|]; cbn [obind]; [|done]. destruct (_ || _); [|done].
    by destruct (Channel.shutdown _ _).
  - done.
  - unfold datagram_out_callback. destruct (tcp s) as [c|]; cbn [obind]; [|done]. by destruct (send_all _ _).
  - done.
Qed.

Lemma tcp_loop_owner {A} `{DatagramAdapter A} ch condition rounds : forall base_time rules (s : t A),
  Forall (EventLoop.keeps (owned ch)) rules -> owned ch s ->
  match _tcp_loop condition rounds base_time rules s with Ok (_, _, s') => owned ch s' | Throw _ => True end.
Proof.
  induction rounds as [|r rounds IH]; intros base_time rules0 s Hk Hs; cbn [_tcp_loop]; [done|].
  destruct (negb (condition s)); [done|].
  pose proof (EventLoop.wait_next_event_invariant (owned ch) (round_poll r) rules0 s Hk Hs) as Hw.
  destruct (EventLoop.wait_next_event _ _ _) as [[[ret rules1] s1]|]; cbn [obind]; [|done]. destruct Hw as [H1 Hk1].
  set (s2 := s1 <| _abort := _ |>). assert (owned ch s2) as H2 by (by destruct s1).
  destruct ret; destruct (_abort s2); try done; (destruct (tcp s2) as [c|]; cbn [obind]; [|done]);
    (destruct (TCPConnection.active c); [|by apply IH]); cbv zeta;
    destruct (adapter_tick _ _); cbn [obind]; try done; apply IH; (done || by destruct s2).
Qed.

Lemma connect_owner {A} `{DatagramAdapter A} c_tcp c_ad random rounds base_time (s : t A) :
  match connect c_tcp c_ad random rounds base_time s with Ok (_, _, s') => _owner s' = _owner s | Throw _ => True end.
Proof.
  unfold connect. destruct (bool_decide _); [done|]. unfold _initialize_TCP. cbn [tcp obind _tcp].
  match goal with |- context [tcp ?x] => destruct (tcp x); cbn [obind]; [|done] end.
  destruct (TCPState.neqb _ _); [done|]. apply tcp_loop_owner; [apply rules_keep_owner|done].
Qed.

Lemma listen_owner {A} `{DatagramAdapter A} c_tcp c_ad random rounds base_time (s : t A) :
  match listen_and_accept c_tcp c_ad random rounds base_time s with
  | Ok (_, _, s') => _owner s' = _owner s
  | Throw _ => True
  end.
Proof.
  unfold listen_and_accept. destruct (bool_decide _); [done|]. unfold _initialize_TCP.
  apply tcp_loop_owner; [apply rules_keep_owner|done].
Qed.

(** ** The thread ends when the connection is over *)

Section over.
Context {A : Type} `{DatagramAdapter A}.
Implicit Types (s : t A) (c : TCPConnection.t).

(** The rules that are left: the first, second and fourth may have been
    cancelled. *)
Definition rule_at (i : nat) : list (EventLoop.Rule (t A)) := take 1 (drop i rules).

Definition left_over (b1 b2 b4 : bool) : list (EventLoop.Rule (t A)) :=
  (if b1 then rule_at 0 else []) ++ (if b2 then rule_at 1 else []) ++ rule_at 2 ++ (if b4 then rule_at 3 else []).

(** A connection that is over and stays so while the owner reads the rest: it is
    not the case that reading the last bytes ends the second of its streams. *)
Definition over c : Prop :=
  TCPConnection.active c = false /\
  (ByteStream.buffer_empty (TCPConnection.inbound_stream c) = true \/
   ByteStream.input_ended (TCPConnection.inbound_stream c) = false \/
   ByteStream.eof (TCPSender.stream_in (TCPConnection._sender c)) = false).

Lemma inbound_with f c :
  TCPConnection.inbound_stream (TCPConnection.with_inbound f c) = f (TCPConnection.inbound_stream c).
Proof. by destruct c as [? [] ? ? ? ?]. Qed.

Lemma active_with f c :
  TCPConnection.active (TCPConnection.with_inbound f c) =
  let o := TCPSender.stream_in (TCPConnection._sender c) in
  let i := f (TCPConnection.inbound_stream c) in
  if ByteStream.eof o && ByteStream.eof i then
    if TCPSender.bytes_in_flight (TCPConnection._sender c) =? 0 then
      if negb (TCPConnection._linger_after_streams_finish c) then false
      else TCPConnection.time_since_last_segment_received c <? 10 * TCPConfig.rt_timeout (TCPConnection._cfg c)
    else true
  else if ByteStream.error o || ByteStream.error i then false else true.
Proof. by destruct c as [? [] ? ? ? ?]. Qed.

Lemma over_pop n c : 0 <= n -> over c -> over (TCPConnection.with_inbound (ByteStream.pop_output n) c).
Proof.
  intros Hn [Ha Ho]. unfold over. rewrite inbound_with, active_with. cbv zeta.
  change (TCPConnection._sender (TCPConnection.with_inbound _ c)) with (TCPConnection._sender c).
  replace (TCPConnection.active c) with (TCPConnection.active (TCPConnection.with_inbound (fun i => i) c)) in Ha
    by (by destruct c as [? [[] ?] ? ? ? ?]).
  rewrite active_with in Ha. cbv zeta in Ha.
  set (i := TCPConnection.inbound_stream c) in *. set (o := TCPSender.stream_in _) in *.
  change (ByteStream.error (ByteStream.pop_output n i)) with (ByteStream.error i).
  change (ByteStream.input_ended (ByteStream.pop_output n i)) with (ByteStream.input_ended i).
  destruct Ho as [Ho|[Ho|Ho]].
  - assert (ByteStream.buffer_empty (ByteStream.pop_output n i) = true) as Hp.
    { unfold ByteStream.buffer_empty in *. cbn [ByteStream.pop_output ByteStream._buffer modify].
      apply Z.eqb_eq. apply Z.eqb_eq in Ho. rewrite zlen_zdrop. lia. }
    unfold ByteStream.eof in *. rewrite Ho in Ha. rewrite Hp. change (ByteStream.input_ended (ByteStream.pop_output n i)) with (ByteStream.input_ended i).
    by split; [|left].
  - unfold ByteStream.eof in *. change (ByteStream.input_ended (ByteStream.pop_output n i)) with (ByteStream.input_ended i).
    rewrite Ho, !andb_false_r in *. split; [done|]. by right; left.
  - rewrite Ho in *. cbn [andb] in *. split; [done|]. by right; right.
Qed.

(** What is left to be done: the owner's rest is at most one write, which the kernel
    takes whole. *)
Record ending s c : Prop := {
  end_tcp : _tcp s = Some c;
  end_over : over c;
  end_abort : _abort s = false;
  end_open : FileDescriptor.closed (Channel.fd (_thread_data s)) = false;
  end_others : Forall Channel.succeeds (Channel.others (_thread_data s));
  end_size : ByteStream.buffer_size (TCPConnection.inbound_stream c) <= 65536;
  end_writes : owner_out_interest s = true ->
    exists ws, Channel.writes (_thread_data s) =
      mkSys (ByteStream.buffer_size (TCPConnection.inbound_stream c)) 0 :: ws }.

Lemma pop_all_empty st : ByteStream._buffer (ByteStream.pop_output (ByteStream.buffer_size st) st) = [].
Proof. unfold ByteStream.buffer_size. cbn. rewrite Z.min_id. by apply zdrop_all. Qed.

(** The rule that hands the owner the rest does so, and is finished. *)
Lemma owner_out_finishes s c (c' := TCPConnection.with_inbound (ByteStream.pop_output
      (ByteStream.buffer_size (TCPConnection.inbound_stream c))) c) :
  ending s c -> owner_out_interest s = true ->
  exists s', owner_out_callback s = Ok s' /\ ending s' c' /\ owner_out_interest s' = false /\
    Channel.written (_thread_data s') =
      Channel.written (_thread_data s) ++ ByteStream._buffer (TCPConnection.inbound_stream c) /\
    _datagram_adapter s' = _datagram_adapter s /\ _owner s' = _owner s /\
    FileDescriptor.eof (Channel.fd (_thread_data s')) = FileDescriptor.eof (Channel.fd (_thread_data s)) /\
    FileDescriptor.write_count (Channel.fd (_thread_data s)) <> FileDescriptor.write_count (Channel.fd (_thread_data s')).
Proof.
  intros [Ht Ho Ha Hop Hoth Hsize Hw] Hi. destruct (Hw Hi) as [ws Hws]. clear Hw.
  unfold owner_out_callback, tcp. rewrite Ht. cbn [obind]. cbv zeta.
  set (i := TCPConnection.inbound_stream c) in *. set (m := ByteStream.buffer_size i) in *.
  assert (zlen (ByteStream._buffer i) = m) as Em by done.
  assert (0 <= m) as Hm by apply zlen_nonneg. replace (Z.min 65536 m) with m by lia.
  assert (ByteStream.peek_output m i = ByteStream._buffer i) as ->
    by (unfold ByteStream.peek_output; apply ztake_all; lia).
  rewrite (Channel.write_takes m 0 ws _ _ Hws) by (lia || (intros E0; apply zlen_0_nil; lia)).
  cbn [obind]. cbv zeta. rewrite (ztake_all m) by lia. rewrite inbound_with. fold i c'.
  set (s1 := s <| _thread_data := _ |> <| _tcp := Some c' |>).
  assert (ByteStream._buffer (ByteStream.pop_output m i) = []) as Hb by apply pop_all_empty.
  assert (over c') as Ho' by (by apply over_pop).
  assert (TCPConnection.inbound_stream c' = ByteStream.pop_output m i) as Ei by apply inbound_with.
  assert (forall s', _tcp s' = Some c' -> owner_out_interest s' =
    (ByteStream.eof (ByteStream.pop_output m i) || ByteStream.error (ByteStream.pop_output m i)) && negb (_inbound_shutdown s')) as Hint.
  { intros s' Hs'. unfold owner_out_interest. rewrite Hs', Ei. unfold ByteStream.buffer_empty. by rewrite Hb. }
  assert (ByteStream.buffer_size (TCPConnection.inbound_stream c') <= 65536) as Hsz'
    by (rewrite Ei; unfold ByteStream.buffer_size; rewrite Hb; done).
  destruct (_ || _) eqn:Eend.
  - rewrite Channel.shutdown_succeeds by (by auto). cbn [obind].
    eexists. split; [reflexivity|].
    match goal with |- ending ?x c' /\ _ => set (s2 := x) end.
    assert (owner_out_interest s2 = false) as Hi2 by (rewrite Hint by done; by rewrite andb_false_r).
    split_and!; try done; [|apply Channel.count_changes_twice].
    split; try done; [by apply Channel.hd_succeeds|by rewrite Hi2].
  - exists s1. assert (owner_out_interest s1 = false) as Hi2 by (by rewrite Hint).
    split_and!; try done; [|apply Channel.count_changes]. split; try done. by rewrite Hi2.
Qed.

(** The fourth rule sends what is queued. *)
Lemma datagram_out_finishes s c a :
  ending s c -> send_all (TCPConnection._segments_out c) (_datagram_adapter s) = Ok a ->
  let s' := s <| _datagram_adapter := a |> <| _tcp := Some (c <| TCPConnection._segments_out := [] |>) |> in
  datagram_out_callback s = Ok s' /\ datagram_out_interest s' = false /\
  ending s' (c <| TCPConnection._segments_out := [] |>) /\ owner_out_interest s' = owner_out_interest s.
Proof.
  intros [Ht Ho Ha Hop Hoth Hsize Hw] Hs s'. unfold datagram_out_callback, tcp. rewrite Ht. cbn [obind]. rewrite Hs.
  cbn [obind]. assert (owner_out_interest s' = owner_out_interest s) as Hi
    by (unfold owner_out_interest; rewrite Ht; by destruct c).
  split_and!; try done. split; try done. by rewrite Hi.
Qed.

(** The rules of a connection that is over: the second stays only as long as the
    owner has not closed its end. *)
Definition kept_alive (b2 : bool) s : Prop :=
  FileDescriptor.closed (Channel.fd (_thread_data s)) = false /\
  (b2 = true -> FileDescriptor.eof (Channel.fd (_thread_data s)) = false).

Lemma left_over_pure b1 b2 b4 s :
  kept_alive b2 s -> Forall (fun r => EventLoop.live s r = true \/ EventLoop.cancel r s = Ok s) (left_over b1 b2 b4).
Proof.
  intros [Hc He]. unfold left_over. rewrite !Forall_app. split_and!.
  - destruct b1; [|done]. apply Forall_singleton. by right.
  - destruct b2; [|done]. apply Forall_singleton. left. unfold EventLoop.live. cbn.
    unfold FileDescriptor.duplicate. by rewrite He, Hc.
  - apply Forall_singleton. left. unfold EventLoop.live. cbn. unfold FileDescriptor.duplicate. by rewrite Hc.
  - destruct b4; [|done]. apply Forall_singleton. by right.
Qed.

Lemma left_over_live b1 b2 b4 s :
  kept_alive b2 s -> exists b1', List.filter (EventLoop.live s) (left_over b1 b2 b4) =
    left_over b1' b2 (b4 && negb (FileDescriptor.closed (adapter_fd (_datagram_adapter s)))).
Proof.
  intros [Hc He]. exists (b1 && EventLoop.live s (EventLoop.mkRule (fun s => adapter_fd (_datagram_adapter s)) EventLoop.In
    datagram_in_callback datagram_in_interest no_cancel)).
  unfold left_over. rewrite !List.filter_app.
  assert (List.filter (EventLoop.live s) (rule_at 2) = rule_at 2) as ->.
  { cbn. unfold EventLoop.live. cbn. unfold FileDescriptor.duplicate. by rewrite Hc. }
  f_equal; [|f_equal; [|f_equal]].
  - destruct b1; [|done]. cbn. unfold EventLoop.live. cbn. unfold FileDescriptor.duplicate. by destruct (negb _).
  - destruct b2; [|done]. cbn. unfold EventLoop.live. cbn. unfold FileDescriptor.duplicate. by rewrite He, Hc.
  - destruct b4; [|done]. cbn. unfold EventLoop.live. cbn. unfold FileDescriptor.duplicate. by destruct (negb _).
Qed.

Lemma left_over_interest b1 b2 b4 s c :
  _tcp s = Some c -> TCPConnection.active c = false ->
  existsb (fun r => EventLoop.interest r s) (left_over b1 b2 b4) = owner_out_interest s || (b4 && datagram_out_interest s).
Proof.
  intros Ht Ha. unfold left_over. rewrite !existsb_app.
  assert (datagram_in_interest s = false) as H1 by (unfold datagram_in_interest; by rewrite Ht).
  assert (owner_in_interest s = false) as H2 by (unfold owner_in_interest; by rewrite Ht, Ha).
  destruct b1, b2, b4; cbn; rewrite ?H1, ?H2, ?orb_false_r; done.
Qed.

(** One callback and the check that follows it. *)
Definition serviced (fd : t A -> Z) (callback : t A -> outcome (t A)) (interest : t A -> bool) s : outcome (t A) :=
  let! s' := callback s in
  if (fd s =? fd s') && interest s'
  then Throw (runtime_error
    "EventLoop: busy wait detected: callback did not read/write fd and is still interested")
  else Ok s'.

Lemma left_over_run b1 b2 b4 s c :
  _tcp s = Some c -> TCPConnection.active c = false ->
  EventLoop.run_ready s (left_over b1 b2 b4) s =
    let! s1 := if owner_out_interest s
               then serviced (fun s => FileDescriptor.write_count (Channel.fd (_thread_data s)))
                      owner_out_callback owner_out_interest s
               else Ok s in
    let! s2 := if b4 && datagram_out_interest s
               then serviced (fun s => FileDescriptor.write_count (adapter_fd (_datagram_adapter s)))
                      datagram_out_callback datagram_out_interest s1
               else Ok s1 in
    Ok (left_over b1 b2 b4, s2).
Proof.
  intros Ht Ha.
  assert (datagram_in_interest s = false) as H1 by (unfold datagram_in_interest; by rewrite Ht).
  assert (owner_in_interest s = false) as H2 by (unfold owner_in_interest; by rewrite Ht, Ha).
  destruct b1, b2, b4; cbn [left_over rule_at rules EventLoop.add_rule app take drop EventLoop.run_ready
      EventLoop.interest EventLoop.callback andb]; rewrite ?H1, ?H2; cbn [obind];
    unfold serviced, EventLoop.service_count; cbn [EventLoop.direction EventLoop.fd EventLoop.interest];
    unfold FileDescriptor.duplicate; destruct (owner_out_interest s); cbn [obind];
    try (destruct (owner_out_callback s) as [s1|]; cbn [obind]; [|done]; destruct (_ && _); cbn [obind]; [done|]);
    try done; destruct (datagram_out_interest s); cbn [obind]; try done;
    destruct (datagram_out_callback _) as [s2|]; cbn [obind]; try done; by destruct (_ && _).
Qed.

(** What is queued can be sent. *)
Definition sendable (b4 : bool) s c a : Prop :=
  send_all (TCPConnection._segments_out c) (_datagram_adapter s) = Ok a /\
  (TCPConnection._segments_out c <> [] -> b4 = true /\
   FileDescriptor.closed (adapter_fd (_datagram_adapter s)) = false).

(** Everything has been done: the next round ends the loop. *)
Record finished (b2 : bool) s c : Prop := {
  fin_ending : ending s c;
  fin_owner : owner_out_interest s = false;
  fin_sent : TCPConnection._segments_out c = [];
  fin_alive : kept_alive b2 s }.

Lemma quiet_segments s c :
  _tcp s = Some c -> datagram_out_interest s = negb (bool_decide (TCPConnection._segments_out c = [])).
Proof.
  intros Ht. unfold datagram_out_interest. rewrite Ht.
  destruct (TCPConnection._segments_out c) as [|x l]; [done|]. rewrite zlen_cons. pose_zlen.
  by replace (_ =? 0) with false by lia.
Qed.

(** The part of the round that serves the owner. *)
Lemma owner_served b2 s c :
  ending s c -> kept_alive b2 s ->
  exists s1 c1,
    (if owner_out_interest s
     then serviced (fun s => FileDescriptor.write_count (Channel.fd (_thread_data s))) owner_out_callback owner_out_interest s
     else Ok s) = Ok s1 /\
    ending s1 c1 /\ owner_out_interest s1 = false /\ kept_alive b2 s1 /\
    TCPConnection._segments_out c1 = TCPConnection._segments_out c /\
    Channel.written (_thread_data s1) =
      Channel.written (_thread_data s) ++ ByteStream._buffer (TCPConnection.inbound_stream c) /\
    _datagram_adapter s1 = _datagram_adapter s /\ _owner s1 = _owner s.
Proof.
  intros He [Hc Hk]. destruct (owner_out_interest s) eqn:Ei.
  - destruct (owner_out_finishes s c He Ei) as (s1 & E1 & He1 & Hi1 & Hw & Had & Hown & Heof & Hcount).
    unfold serviced. rewrite E1. cbn [obind]. rewrite Hi1, andb_false_r.
    eexists _, _. split; [reflexivity|]. split_and!; try done. split; [apply (end_open _ _ He1)|by rewrite Heof].
  - exists s, c. split_and!; try done. unfold owner_out_interest in Ei. rewrite (end_tcp _ _ He) in Ei.
    apply orb_false_iff in Ei as [Ei _]. apply negb_false_iff, Z.eqb_eq, zlen_0_nil in Ei. by rewrite Ei, app_nil_r.
Qed.

(** The part that sends. *)
Lemma datagrams_sent s c a :
  ending s c -> owner_out_interest s = false -> send_all (TCPConnection._segments_out c) (_datagram_adapter s) = Ok a ->
  exists s1 c1,
    (if datagram_out_interest s
     then serviced (fun s => FileDescriptor.write_count (adapter_fd (_datagram_adapter s)))
            datagram_out_callback datagram_out_interest s
     else Ok s) = Ok s1 /\
    ending s1 c1 /\ owner_out_interest s1 = false /\ TCPConnection._segments_out c1 = [] /\
    _thread_data s1 = _thread_data s /\ _datagram_adapter s1 = a /\ _owner s1 = _owner s.
Proof.
  intros He Hi Hs. rewrite (quiet_segments s c (end_tcp _ _ He)).
  destruct (TCPConnection._segments_out c) as [|x l] eqn:El.
  - exists s, c. injection Hs as <-. done.
  - cbn [bool_decide decide_rel decide list_eq_dec negb]. rewrite <- El in Hs.
    destruct (datagram_out_finishes s c a He Hs) as (E1 & Hd & He1 & Hi1). unfold serviced. rewrite E1. cbn [obind].
    rewrite Hd, andb_false_r. eexists _, _. split; [reflexivity|]. split_and!; try done. by rewrite Hi1.
Qed.

Lemma first_round poll b1 b2 b4 s c a :
  ending s c -> kept_alive b2 s -> sendable b4 s c a -> EventLoop.poll_ready poll ->
  exists ret b1' b4' s' c', EventLoop.wait_next_event poll (left_over b1 b2 b4) s = Ok (ret, left_over b1' b2 b4', s') /\
    ret <> EventLoop.Timeout /\ finished b2 s' c' /\
    Channel.written (_thread_data s') =
      Channel.written (_thread_data s) ++ ByteStream._buffer (TCPConnection.inbound_stream c) /\
    _datagram_adapter s' = a /\ _owner s' = _owner s.
Proof.
  intros He Hk [Hs Hb4] Hp. pose proof (end_tcp _ _ He) as Ht. destruct (end_over _ _ He) as [Ha _].
  rewrite (EventLoop.wait_next_event_ready _ _ _ Hp (left_over_pure b1 b2 b4 s Hk)). cbv zeta.
  destruct (left_over_live b1 b2 b4 s Hk) as [b1' ->]. set (b4' := b4 && _).
  rewrite (left_over_interest b1' b2 b4' s c Ht Ha), (left_over_run b1' b2 b4' s c Ht Ha).
  assert (b4' && datagram_out_interest s = datagram_out_interest s) as ->.
  { rewrite (quiet_segments s c Ht). destruct (TCPConnection._segments_out c) as [|x l]; [by rewrite andb_false_r|].
    destruct Hb4 as [-> Hc]; [done|]. unfold b4'. by rewrite Hc. }
  destruct (owner_served b2 s c He Hk) as (s1 & c1 & E1 & He1 & Hi1 & Hk1 & Hseg & Hw & Had & Hown).
  assert (datagram_out_interest s = datagram_out_interest s1) as Ed
    by (rewrite (quiet_segments s c Ht), (quiet_segments s1 c1 (end_tcp _ _ He1)); by rewrite Hseg).
  destruct (datagrams_sent s1 c1 a He1 Hi1) as (s2 & c2 & E2 & He2 & Hi2 & Hseg2 & Htd & Had2 & Hown2); [by rewrite Hseg, Had|].
  rewrite <- Ed in E2. rewrite E1. cbn [obind]. rewrite E2. cbn [obind].
  assert (finished b2 s2 c2) as Hf by (split; try done; unfold kept_alive in *; by rewrite Htd).
  destruct (owner_out_interest s || datagram_out_interest s) eqn:Ew.
  - eexists _, b1', b4', s2, c2. split; [reflexivity|]. split_and!; (done || congruence).
  - apply orb_false_iff in Ew as [Ew1 Ew2]. rewrite Ew1 in E1. injection E1 as <-. rewrite Ew2 in E2.
    injection E2 as <-. eexists _, b1', b4', s, c2. split; [reflexivity|]. by split_and!.
Qed.

Lemma last_round poll b1 b2 b4 s c :
  finished b2 s c -> EventLoop.poll_ready poll ->
  exists b1' b4', EventLoop.wait_next_event poll (left_over b1 b2 b4) s = Ok (EventLoop.Exit, left_over b1' b2 b4', s).
Proof.
  intros [He Hi Hs Hk] Hp. pose proof (end_tcp _ _ He) as Ht. destruct (end_over _ _ He) as [Ha _].
  rewrite (EventLoop.wait_next_event_ready _ _ _ Hp (left_over_pure b1 b2 b4 s Hk)). cbv zeta.
  destruct (left_over_live b1 b2 b4 s Hk) as [b1' ->]. rewrite (left_over_interest _ _ _ s c Ht Ha), Hi.
  rewrite (quiet_segments s c Ht), Hs. cbn. rewrite andb_false_r. by eexists _, _.
Qed.

Lemma tcp_loop_over r1 r2 rounds base_time b1 b2 b4 s c a :
  ending s c -> kept_alive b2 s -> sendable b4 s c a ->
  Forall (fun r => EventLoop.poll_ready (round_poll r) /\ round_abort r = false) [r1; r2] ->
  exists rs s', _tcp_loop (fun _ => true) (r1 :: r2 :: rounds) base_time (left_over b1 b2 b4) s = Ok (true, rs, s') /\
    Channel.written (_thread_data s') =
      Channel.written (_thread_data s) ++ ByteStream._buffer (TCPConnection.inbound_stream c) /\
    _datagram_adapter s' = a /\ _owner s' = _owner s.
Proof.
  intros He Hk Hs Hr. inversion Hr as [|? ? [Hp1 Ha1] Hr2]; subst. inversion Hr2 as [|? ? [Hp2 Ha2] _]; subst.
  destruct (first_round _ b1 b2 b4 s c a He Hk Hs Hp1) as (ret & b1' & b4' & s1 & c1 & E1 & Hret & Hf & Hw & Had & Hown).
  destruct (last_round _ b1' b2 b4' s1 c1 Hf Hp2) as (b1'' & b4'' & E2).
  pose proof (end_abort _ _ (fin_ending _ _ _ Hf)) as Hab. pose proof (end_tcp _ _ (fin_ending _ _ _ Hf)) as Ht.
  destruct (end_over _ _ (fin_ending _ _ _ Hf)) as [Hact _].
  assert (s1 <| _abort := _abort s1 || false |> = s1) as Es by (rewrite orb_false_r; by destruct s1).
  cbn [_tcp_loop negb]. rewrite E1. cbn [obind]. rewrite Ha1, Es, Hab. destruct ret; [|done|].
  - unfold tcp. rewrite Ht. cbn [obind]. rewrite Hact. rewrite E2. cbn [obind]. rewrite Ha2, Es.
    by eexists _, _.
  - by eexists _, _.
Qed.

(** C16: a connection that is over ends its thread.  Let the connection be inactive
    (both streams finished, or a reset or too many retransmissions), and such that
    reading the rest does not end the second of its streams ([over]; a reset that
    reading takes back is [TCPConnection.reset_undone_by_reading]); let the rule that
    serves the owner be left (the others may have been cancelled), the owner's pipe
    be open, the rest for the owner fit one write of at most 64 KiB that the kernel
    takes whole, the shutdowns succeed, and the adapter accept the queued segments.
    Then two rounds in which [poll] reports every descriptor ready for exactly what
    was asked are enough: the bytes that the owner has not got yet are handed to it,
    all queued segments are sent, in order, the loop finds nothing to wait for, the
    connection is destroyed, and the owner's join returns. *)
Theorem thread_ends (r1 r2 : round) (rounds : list round) (base_time : Z) (b1 b2 b4 : bool) (s : t A)
    (c : TCPConnection.t) (a : A) :
  ending s c -> kept_alive b2 s -> sendable b4 s c a -> Forall Channel.succeeds (Channel.others (_owner s)) ->
  Forall (fun r => EventLoop.poll_ready (round_poll r) /\ round_abort r = false) [r1; r2] ->
  exists s', join (r1 :: r2 :: rounds) base_time (left_over b1 b2 b4) s = Done s' /\
    Channel.written (_thread_data s') =
      Channel.written (_thread_data s) ++ ByteStream._buffer (TCPConnection.inbound_stream c) /\
    _datagram_adapter s' = a /\ _tcp s' = None.
Proof.
  intros He Hk Hs Ho Hr.
  destruct (tcp_loop_over r1 r2 rounds base_time b1 b2 b4 s c a He Hk Hs Hr) as (rs & s1 & E & Hw & Had & Hown).
  unfold join, _tcp_main. rewrite (end_tcp _ _ He). rewrite bool_decide_eq_true_2 by done. cbn [negb].
  rewrite E. cbn [obind]. rewrite Channel.shutdown_succeeds by (rewrite ?Hown; auto). cbn [obind].
  eexists. split; [reflexivity|]. done.
Qed.

(** A reset that comes while the owner is slow.  The inbound rule shuts its end of
    the pipe down as soon as the stream is in error, also when the kernel has
    taken only a part of the buffered bytes; the rule stays interested, and writes
    the rest to a descriptor that is shut down for writing. *)
Theorem backlog_after_shutdown (s : t A) (c : TCPConnection.t) (n : Z) (ws : list sysret) :
  let i := TCPConnection.inbound_stream c in
  _tcp s = Some c -> ByteStream.error i = true -> 0 < n < Z.min 65536 (ByteStream.buffer_size i) ->
  Channel.writes (_thread_data s) = mkSys n 0 :: ws -> Forall Channel.succeeds (Channel.others (_thread_data s)) ->
  exists s', owner_out_callback s = Ok s' /\ _inbound_shutdown s' = true /\ owner_out_interest s' = true.
Proof.
  intros i Ht He Hn Hw Ho. unfold owner_out_callback, tcp. rewrite Ht. cbn [obind]. cbv zeta. fold i.
  assert (zlen (ByteStream.peek_output (Z.min 65536 (ByteStream.buffer_size i)) i) =
    Z.min 65536 (ByteStream.buffer_size i)) as Hl
    by (unfold ByteStream.peek_output, ByteStream.buffer_size; rewrite zlen_ztake; pose_zlen; lia).
  rewrite (Channel.write_takes n 0 ws) by (done || lia). cbn [obind].
  rewrite inbound_with. change (ByteStream.error (ByteStream.pop_output n _)) with (ByteStream.error i).
  rewrite He, orb_true_r. rewrite Channel.shutdown_succeeds by auto. cbn [obind].
  eexists. split; [reflexivity|]. split; [done|]. unfold owner_out_interest. cbn [_tcp modify].
  rewrite inbound_with. fold i. apply orb_true_iff. left. apply negb_true_iff, Z.eqb_neq.
  unfold ByteStream.buffer_size in Hn. cbn. rewrite zlen_zdrop. lia.
Qed.

End over.

(** Two bytes are buffered and two acknowledgements queued when the reset comes; the
    owner has closed its end already. *)
Definition demo_over : TCPConnection.t :=
  TCPConnection.segment_received TCPConnection.demo_rst
    (TCPConnection.segment_received (TCPConnection.demo_ack 1 6 1000 false (str "hi")) TCPConnection.demo_syn_rcvd).

Definition demo_thread : t TunAdapter.t :=
  mk (demo_channel 3 []) (demo_channel 4 [mkSys 2 0])
    (TunAdapter.mk (FdAdapterBase.mk demo_ad false) (demo_channel 5 [mkSys 40 0; mkSys 40 0])) (Some demo_over)
    false false true false.

Definition ready (pollfds : list EventLoop.pollfd) : EventLoop.poll_reply :=
  EventLoop.mkPollReply (mkSys 1 0) (map EventLoop.events pollfds).

Lemma thread_ends_witness :
  exists s', join [mkRound ready false 10; mkRound ready false 20] 0 (left_over true false true) demo_thread = Done s' /\
    Channel.written (_thread_data s') = [] ++ str "hi" /\
    (match send_all (TCPConnection._segments_out demo_over) (_datagram_adapter demo_thread) with
     | Ok a => _datagram_adapter s' = a /\ zlen (Channel.written (TunAdapter._tun a)) = 80
     | Throw _ => False end) /\
    _tcp s' = None.
Proof.
  destruct (send_all (TCPConnection._segments_out demo_over) (_datagram_adapter demo_thread)) as [a|] eqn:Es;
    [|vm_compute in Es; discriminate Es].
  destruct (thread_ends (mkRound ready false 10) (mkRound ready false 20) [] 0 true false true demo_thread demo_over a)
    as (s' & E & Hw & Had & Ht).
  - split.
    + reflexivity.
    + split; [vm_compute; reflexivity|]. right. left. vm_compute. reflexivity.
    + reflexivity.
    + reflexivity.
    + apply Forall_nil_2.
    + vm_compute. discriminate.
    + intros _. eexists. vm_compute. reflexivity.
  - split; [reflexivity|discriminate].
  - split; [exact Es|]. intros _. split; reflexivity.
  - apply Forall_nil_2.
  - repeat (apply Forall_cons_2; [split; [intros pollfds; split; [reflexivity|cbn; lia]|reflexivity]|]). apply Forall_nil_2.
  - exists s'. split; [exact E|]. split; [rewrite Hw; vm_compute; reflexivity|]. split; [|exact Ht].
    split; [exact Had|]. vm_compute in Es. injection Es as <-. vm_compute. reflexivity.
Defined.

End Threads.
