(* ===== verification/Programs.v ===== *)
(** * The programs: the [main] functions of [apps/webget.cc], [apps/tcp_native.cc],
    [apps/tcp_udp.cc], [apps/tcp_ipv4.cc], [apps/tcp_ip_ethernet.cc], [apps/tun.cc]
    and [apps/udp_tcpdump.cc]

    The programs put the components together: arguments, socket, TCP thread, copying,
    and the handler for exceptions.  [Waits] is a program that has not returned: the
    answers given to it have run out.

    The environment of a run is the record [env].  libpcap is a record of its
    answers, [strerror(3)], [gai_strerror(3)], [strtof(3)] and [inet_ntop(3)] are
    parameters. *)
From Stdlib Require Import Ascii SpecFloat.
From S2P Require Import Prelude Random Text WrappingIntegers Buffer Parser TCPSegment Adapter Address TCPSender.
From S2P Require Import TCPConnection FileDescriptor EventLoop.
From S2P Require Import Channel Socket NetworkInterface DatagramAdapter StreamCopy SpongeSocket Options Printing.
From S2P Require Import UdpTcpdump StackSockets Threads.
#[local] Open Scope run_scope.

Definition EXIT_SUCCESS : Z := 0.
Definition EXIT_FAILURE : Z := 1.

(** ** The programs *)

Module Programs.
Import TCPSpongeSocket.

(** What the rest of the system does in a run. *)
Record env := mkEnv {
  pair : SocketSetup.pair_reply;
  getfl : sysret;
  setfl : sysret;
  owner_io : SocketSetup.io;
  thread_io : SocketSetup.io;
  device_io : SocketSetup.io;
  datagrams : list recv_reply;
  sends : list sysret;
  entropy : list Z;
  draws : nat;
  ethernet : list Z;
  port : Z;
  isn : Z;
  opening : list round;
  opening_time : Z;
  serving : list round;
  serving_time : Z;
  last : sysret;
  flags : list (sysret * sysret);
  polls : list (list EventLoop.pollfd -> EventLoop.poll_reply);
  stdin : SocketSetup.io;
  stdout : SocketSetup.io }.

Section programs.
Context `{Resolver} `{SocketCalls} (strerror gai_strerror : Z -> string) (strtof : string -> spec_float) (e : env).

(** [what()] of an exception; [tagged_error] puts the attempt before the message. *)
Definition what (ex : exn) : string :=
  match ex with
  | out_of_range w | runtime_error w | invalid_argument w => w
  | unix_error attempt errno => attempt +:+ ": " +:+ strerror errno
  | gai_error attempt code => attempt +:+ ": " +:+ gai_strerror code
  end.

(** [catch (const exception &e)] of the programs. *)
Definition catch_exception {A} (prefix : string) (r : run A) : run A :=
  match r with
  | Uncaught ex => Exit EXIT_FAILURE (prefix +:+ what ex +:+ nl)
  | r => r
  end.

(** A socket from its construction to the end of its thread; [open] is [connect] or
    [listen_and_accept]. *)
Definition use_socket {A B} `{DatagramAdapter A} (adapter : A)
    (open : t A -> outcome (bool * list (EventLoop.Rule (t A)) * t A))
    (owner : Channel.t -> option (outcome (B * Channel.t))) : run (B * Channel.t) :=
  s <-- try (SocketSetup.make (pair e) (getfl e) (setfl e) (owner_io e) (thread_io e) adapter) ;;
  r <-- try (open s) ;;
  let '(opened, rules, s) := r in
  if opened then Threads.with_thread (serving e) (serving_time e) (last e) rules s owner else Waits.

(** [bidirectional_stream_copy] on the owner's end, with the terminal. *)
Definition terminal (fd : Z) (i : SocketSetup.io) : Channel.t :=
  SocketSetup.open_channel (FDWrapper.mk fd false false 0 0) i.

Definition copy (ch : Channel.t) : option (outcome (StreamCopy.t * Channel.t)) :=
  match StreamCopy.bidirectional_stream_copy (flags e) (polls e) ch (terminal 0 (stdin e)) (terminal 1 (stdout e)) with
  | Throw ex => Some (Throw ex)
  | Ok (false, _) => None
  | Ok (true, s) => Some (Ok (s, StreamCopy.socket s))
  end.

(** [connect] or [listen_and_accept]. *)
Definition open_socket {A} `{DatagramAdapter A} (listen : bool) (c_fsm : TCPConfig.t) (c_filt : FdAdapterConfig.t) (s : t A) :
    outcome (bool * list (EventLoop.Rule (t A)) * t A) :=
  if listen then listen_and_accept c_fsm c_filt (isn e) (Threads.calm (opening e)) (opening_time e) s
  else connect c_fsm c_filt (isn e) (Threads.calm (opening e)) (opening_time e) s.

(** [_rand] of [LossyFdAdapter]: the numbers it is going to draw. *)
Definition losses : list Z := Random.draws (draws e) (Random.get_random_generator (entropy e)).

(** [apps/webget.cc] *)
Definition webget_get_URL (host path : string) : run (bytes * Channel.t) :=
  adapter <-- try (SocketSetup.cs144_adapter (device_io e)) ;;
  s <-- try (SocketSetup.make (pair e) (getfl e) (setfl e) (owner_io e) (thread_io e) adapter) ;;
  addr <-- try (Address.of_host host "http") ;;
  r <-- try (SocketSetup.cs144_connect addr (port e) (isn e) (Threads.calm (opening e)) (opening_time e) s) ;;
  let '(opened, rules, s) := r in
  if opened then Threads.with_thread (serving e) (serving_time e) (last e) rules s (Webget.exchange host path) else Waits.

Definition webget_main (argv : list string) : run (bytes * Channel.t) :=
  catch_exception ""
    (if zlen argv <=? 0 then Aborts
     else if negb (zlen argv =? 3) then
       argv0 <-- arg argv 0 ;;
       Exit EXIT_FAILURE ("Usage: " +:+ argv0 +:+ " HOST PATH" +:+ nl +:+
                          String "009" "Example: " +:+ argv0 +:+ " stanford.edu /class/cs144" +:+ nl)
     else
       host <-- arg argv 1 ;;
       path <-- arg argv 2 ;;
       webget_get_URL host path).

(** [apps/tcp_native.cc] *)
Definition tcp_native_main (argv : list string) : run StreamCopy.t :=
  catch_exception "Exception: "
    (w <-- TcpNative.socket argv ;;
     match copy (SocketSetup.open_channel w (owner_io e)) with
     | None => Waits
     | Some o => r <-- try o ;; Done r.1
     end).

(** [apps/tcp_udp.cc] *)
Definition tcp_udp_main (argv : list string) : run (StreamCopy.t * Channel.t) :=
  catch_exception "Exception: "
    (o <-- TcpUdp.configure strtof argv ;;
     udp_sock <-- try UDPSocket.make ;;
     _ <-- (if Options.listen o
            then try (Socket.bind (Address.of_endpoint (FdAdapterConfig.source (Options.c_filt o))) udp_sock)
            else Done tt) ;;
     let adapter := LossyAdapter.mk losses (UDPAdapter.mk FdAdapterBase.default udp_sock (datagrams e) (sends e) []) in
     use_socket adapter (open_socket (Options.listen o) (Options.c_fsm o) (Options.c_filt o)) copy).

(** [apps/tcp_ipv4.cc] *)
Definition tcp_ipv4_main (argv : list string) : run (StreamCopy.t * Channel.t) :=
  catch_exception "Exception: "
    (o <-- TcpIpv4.configure strtof argv (port e) ;;
     tun <-- try (TunTapFD.TunFD (match Options.device o with None => TcpIpv4.TUN_DFLT | Some name => name end)) ;;
     let adapter := LossyAdapter.mk losses
                      (TunAdapter.mk FdAdapterBase.default (SocketSetup.open_channel tun (device_io e))) in
     use_socket adapter (open_socket (Options.listen o) (Options.c_fsm o) (Options.c_filt o)) copy).

(** [apps/tcp_ip_ethernet.cc]; the random address is made as that of
    [FullStackSocket] is. *)
Definition tcp_ip_ethernet_main (argv : list string) : run (StreamCopy.t * Channel.t) :=
  catch_exception "Exception: "
    (r <-- TcpIpEthernet.configure argv (port e) ;;
     let '(o, next_hop) := r in
     name <-- (match Options.device o with Some name => Done name | None => Undefined NullString end) ;;
     tap <-- try (TunTapFD.TapFD name) ;;
     adapter <-- try (EthernetAdapter.make (SocketSetup.open_channel tap (device_io e))
                        (SocketSetup.random_private_ethernet_address (ethernet e))
                        (Address.of_endpoint (FdAdapterConfig.source (Options.c_filt o))) next_hop) ;;
     use_socket adapter (open_socket false (Options.c_fsm o) (Options.c_filt o)) copy).

(** [apps/tun.cc]: the loop has no end of its own. *)
Fixpoint tun_loop (replies : list read_reply) (tun : Channel.t) (out : string) : run unit :=
  match replies with
  | [] => Waits
  | _ :: replies =>
      match Channel.read 18446744073709551615 tun with
      | Throw ex => Exit EXIT_FAILURE (out +:+ "Exception: " +:+ what ex +:+ nl)
      | Ok (buffer, tun) =>
          match Tun.show_packet buffer with
          | Throw ex => Exit EXIT_FAILURE (out +:+ "Exception: " +:+ what ex +:+ nl)
          | Ok text => tun_loop replies tun (out +:+ text)
          end
      end
  end.

Definition tun_main : run unit :=
  catch_exception "Exception: "
    (tun <-- try (TunTapFD.TunFD "tun144") ;;
     tun_loop (SocketSetup.io_reads (device_io e)) (SocketSetup.open_channel tun (device_io e)) EmptyString).

(** ** How the programs end *)

Import OptionsSpec.

(** A part of a program: it is [proper], what it gives satisfies [Q], and if an
    exception leaves its thread, [F] holds of it. *)
Definition gives {A} (F : exn -> Prop) (Q : A -> Prop) (r : run A) : Prop :=
  match r with Done a => Q a | Terminates ex => F ex | r => proper r end.

(** A whole program: no exception leaves [main], it exits with one of the two
    statuses, and only [F] can kill it. *)
Definition main_ok {A} (F : exn -> Prop) (Q : A -> Prop) (r : run A) : Prop :=
  match r with Uncaught _ => False | r => gives F Q r end.

(** [poll] reports no error condition on a descriptor of the TCP thread. *)
Definition clean : Prop := Forall (fun r => EventLoop.poll_clean (round_poll r)) (opening e ++ serving e).

(** What can leave the TCP thread: a system call or the adapter has failed. *)
Definition thread_fault (A : Type) `{DatagramAdapter A} (ex : exn) : Prop := clean -> fault (A := A) ex.

Lemma gives_bind {A B} F (P : A -> Prop) (Q : B -> Prop) (r : run A) (k : A -> run B) :
  gives F P r -> (forall a, P a -> gives F Q (k a)) -> gives F Q (rbind r k).
Proof. destruct r; simpl; auto. Qed.

Lemma gives_try {A} F (o : outcome A) : gives F (fun a => o = Ok a) (try o).
Proof. by destruct o. Qed.

Lemma gives_proper {A} F (r : run A) : proper r -> gives F (fun _ => True) r.
Proof. by destruct r. Qed.

Lemma catch_ok {A} F (Q : A -> Prop) prefix r : gives F Q r -> main_ok F Q (catch_exception prefix r).
Proof. by destruct r. Qed.

(** What a part that returns has computed. *)
Definition done_with {A} (P : A -> Prop) (r : run A) : Prop := forall a, r = Done a -> P a.

Lemma done_bind {A B} (P : B -> Prop) (r : run A) (k : A -> run B) :
  (forall a, r = Done a -> done_with P (k a)) -> done_with P (rbind r k).
Proof. intros Hk b. destruct r; simpl; try done. intros Hb. by apply (Hk a). Qed.

Lemma gives_done {A} F (P : A -> Prop) (r : run A) : proper r -> done_with P r -> gives F P r.
Proof. intros Hp Hd. destruct r; try done. by apply Hd. Qed.

Lemma options_loop_done (P : Options.t -> Prop) body argc :
  (forall curr o, P o -> done_with (fun r => P r.2) (body curr o)) ->
  forall fuel curr o, P o -> done_with (fun r => P r.2) (Options.options_loop fuel body argc curr o).
Proof.
  intros Hb. induction fuel as [|fuel IH]; intros curr o Ho; cbn [Options.options_loop]; [done|].
  destruct (_ <? _); [|by intros ? [= <-]]. apply done_bind. intros r Hr. apply IH. exact (Hb curr o Ho r Hr).
Qed.

(** One option after the other: what each branch of [parse_option] does. *)
Ltac each_option H := repeat match goal with
  | |- done_with _ (rbind _ _) => apply done_bind; intros ? _
  | |- done_with _ (if ?b then _ else _) => destruct b
  | |- done_with _ (Done _) => intros ? [= <-]; first [exact H|by eexists]
  | |- done_with _ (Exit _ _) => done
  end.

(** The positional arguments. *)
Ltac positional := repeat match goal with
  | |- done_with _ (rbind _ _) => apply done_bind; intros ? ?
  | |- done_with _ (if ?b then _ else _) => destruct b
  | |- done_with _ (Exit _ _) => done
  end;
  repeat match goal with H : rbind (try ?o) _ = Done _ |- _ => destruct o; simplify_eq/= end;
  try by intros ? [= <-].

(** No option sets the capacity of the outbound stream. *)
Definition default_capacity (o : Options.t) : Prop :=
  TCPConfig.send_capacity (Options.c_fsm o) = TCPConfig.send_capacity TCPConfig.default.

Lemma udp_capacity argv : done_with default_capacity (TcpUdp.configure strtof argv).
Proof.
  unfold TcpUdp.configure. destruct (_ <? _); [by apply done_bind|].
  unfold TcpUdp.get_config. apply done_bind. intros [curr o] Hl. assert (default_capacity o) as Ho.
  { refine (options_loop_done default_capacity _ _ _ _ _ _ _ _ Hl); [|done].
    clear. intros curr o Ho. unfold TcpUdp.parse_option. each_option Ho. }
  cbn [fst snd]. unfold Options.set_destination, Options.set_source. positional.
Qed.

Lemma ipv4_capacity argv random : done_with default_capacity (TcpIpv4.configure strtof argv random).
Proof.
  unfold TcpIpv4.configure. destruct (_ <? _); [by apply done_bind|].
  unfold TcpIpv4.get_config. apply done_bind. intros [curr o] Hl. assert (default_capacity o) as Ho.
  { refine (options_loop_done default_capacity _ _ _ _ _ _ _ _ Hl); [|done].
    clear. intros curr o Ho. unfold TcpIpv4.parse_option. each_option Ho. }
  cbn [fst snd]. unfold TcpIpv4.finish, Options.set_destination, Options.set_source. positional.
Qed.

(** The name of the TAP device is never the null pointer. *)
Lemma ethernet_configured argv random :
  done_with (fun r => is_Some (Options.device r.1) /\ default_capacity r.1) (TcpIpEthernet.configure argv random).
Proof.
  unfold TcpIpEthernet.configure. destruct (_ <? _); [by apply done_bind|].
  unfold TcpIpEthernet.get_config. apply done_bind. intros [curr o] Hl.
  assert (is_Some (Options.device o) /\ default_capacity o) as Ho.
  { refine (options_loop_done (fun o => is_Some (Options.device o) /\ default_capacity o) _ _ _ _ _ _ _ _ Hl); [|by split; [eexists|]].
    clear. intros curr o [Hd Hc]. unfold TcpIpEthernet.parse_option.
    assert (forall v, is_Some (Options.device (o <| Options.device := Some v |>)) /\ default_capacity o) as Hv by (split; [by eexists|done]).
    each_option (conj Hd Hc). }
  cbn [fst snd]. unfold TcpIpEthernet.finish, Options.set_destination, Options.set_source. positional.
Qed.

Lemma join_gives {A B} `{DatagramAdapter A} F (Q : B -> Prop) rounds base_time rules (s : t A) (k : t A -> run B) :
  (forall ex, _tcp_main rounds base_time rules s = Throw ex -> F ex) ->
  (forall s', gives F Q (k s')) -> gives F Q (rbind (Threads.join rounds base_time rules s) k).
Proof.
  intros Hf Hk. unfold Threads.join. destruct (_tcp_main _ _ _ _) as [[[] s']|]; [apply Hk|done|by apply Hf].
Qed.

(** What the thread of an open socket can throw, whatever happens to the owner's end. *)
Definition throws_only {A} `{DatagramAdapter A} (F : exn -> Prop) (rounds : list round) base_time rules (s : t A) : Prop :=
  forall owner ex, _tcp_main rounds base_time rules (s <| _owner := owner |>) = Throw ex \/
    _tcp_main (Threads.calm rounds) base_time rules (s <| _owner := owner |>) = Throw ex -> F ex.

(** What the owner got from the socket, and its end of the pair, which has been
    shut down. *)
Lemma with_thread_gives {A B} `{DatagramAdapter A} F (Q : B -> Channel.t -> Prop) rounds base_time answer rules (s : t A)
    (owner : Channel.t -> option (outcome (B * Channel.t))) :
  throws_only F rounds base_time rules s ->
  match owner (_owner s) with Some (Ok (b, ch)) => Q b ch | _ => True end ->
  gives F (fun r => exists ch, Q r.1 ch /\ Channel.shutdown Channel.SHUT_RDWR ch = Ok r.2)
    (Threads.with_thread rounds base_time answer rules s owner).
Proof.
  intros Hf Hq. unfold Threads.with_thread. cbv zeta.
  set (thread := s <| _owner := _ |>).
  assert (forall ex, _tcp_main rounds base_time rules thread = Throw ex -> F ex) as Hrun by (intros ex Hx; eapply Hf; by left).
  assert (forall ex, _tcp_main (Threads.calm rounds) base_time rules thread = Throw ex -> F ex) as Hcalm
    by (intros ex Hx; eapply Hf; by right).
  destruct (owner (_owner s)) as [[[b ch]|ex]|]; [|by apply join_gives..].
  unfold SocketSetup.wait_until_closed. cbn [_owner modify].
  destruct (Channel.shutdown Channel.SHUT_RDWR _) as [ch'|ex] eqn:Es; cbn [obind]; [|by apply join_gives].
  apply join_gives; [done|]. intros s'. exists ch. by destruct s.
Qed.

Lemma make_owner {A} `{DatagramAdapter A} (a : A) s :
  SocketSetup.make (pair e) (getfl e) (setfl e) (owner_io e) (thread_io e) a = Ok s ->
  Channel.taken (_owner s) = [] /\ Channel.written (_owner s) = [] /\ fresh (record s).
Proof.
  unfold SocketSetup.make. destruct (SocketSetup.socket_pair_helper _) as [[]|]; cbn [obind]; [|done].
  do 2 (destruct (LocalStreamSocket.of_fd _); cbn [obind]; [|done]).
  destruct (FileDescriptor.set_blocking _ _ _); cbn [obind]; [|done]. by intros [= <-].
Qed.

Lemma clean_rounds : clean ->
  Forall (fun r => EventLoop.poll_clean (round_poll r)) (Threads.calm (opening e) ++ serving e) /\
  Forall (fun r => EventLoop.poll_clean (round_poll r)) (Threads.calm (opening e) ++ Threads.calm (serving e)).
Proof. intros [Hop Hsv]%Forall_app. split; apply Forall_app; split; try done; unfold Threads.calm; by apply Forall_map. Qed.

(** Opening a fresh socket leaves the owner's end alone, and the thread can only throw
    what [thread_fault] allows. *)
Definition opens {A} `{DatagramAdapter A} (open : t A -> outcome (bool * list (EventLoop.Rule (t A)) * t A)) : Prop :=
  forall s, fresh (record s) ->
    match open s with
    | Ok (_, rules, s') => _owner s' = _owner s /\ throws_only (thread_fault A) (serving e) (serving_time e) rules s'
    | Throw _ => True
    end.

Lemma either_opens {A} `{DatagramAdapterLaws A} (active_open : bool) c_tcp c_ad :
  0 <= TCPConfig.send_capacity c_tcp < MAX64 ->
  opens (A := A) (fun s => (if active_open then connect else listen_and_accept) c_tcp c_ad (isn e)
    (Threads.calm (opening e)) (opening_time e) s).
Proof.
  intros Hcap s Hf.
  assert (match (if active_open then connect else listen_and_accept) c_tcp c_ad (isn e) (Threads.calm (opening e)) (opening_time e) s with
    | Ok (_, _, s') => _owner s' = _owner s | Throw _ => True end) as Ho
    by (destruct active_open; [apply Threads.connect_owner|apply Threads.listen_owner]).
  pose proof (fun rounds2 owner => thread_faults active_open c_tcp c_ad (isn e) (Threads.calm (opening e)) rounds2
    (opening_time e) (serving_time e) s owner Hf Hcap) as Ht.
  destruct (_ c_tcp c_ad _ _ _ s) as [[[opened rules0] s1]|]; [|done]. split; [done|].
  intros owner ex Hx [Hr Hc]%clean_rounds. destruct Hx as [Hx|Hx].
  - specialize (Ht _ owner Hr). by rewrite Hx in Ht.
  - specialize (Ht _ owner Hc). by rewrite Hx in Ht.
Qed.

Lemma open_socket_opens {A} `{DatagramAdapterLaws A} listen c_fsm c_filt :
  0 <= TCPConfig.send_capacity c_fsm < MAX64 -> opens (A := A) (open_socket listen c_fsm c_filt).
Proof.
  intros Hcap s Hf. pose proof (either_opens (negb listen) c_fsm c_filt Hcap s Hf) as Ho.
  unfold open_socket. by destruct listen.
Qed.

Lemma use_socket_gives {A B} `{DatagramAdapter A} (Q : B -> Channel.t -> Prop) (a : A) open owner :
  opens open ->
  (forall ch, Channel.taken ch = [] -> Channel.written ch = [] ->
     match owner ch with Some (Ok (b, ch')) => Q b ch' | _ => True end) ->
  gives (thread_fault A) (fun r => exists ch, Q r.1 ch /\ Channel.shutdown Channel.SHUT_RDWR ch = Ok r.2)
    (use_socket a open owner).
Proof.
  intros Ho Hq. unfold use_socket. eapply gives_bind; [apply gives_try|]. intros s Hs. apply make_owner in Hs as (Ht & Hw & Hf).
  eapply gives_bind; [apply gives_try|]. intros [[opened rules0] s1] Hs1. specialize (Ho s Hf). rewrite Hs1 in Ho.
  destruct opened; [|done]. destruct Ho as [Ho Hth]. apply with_thread_gives; [done|]. apply Hq; congruence.
Qed.

(** The copy of the owner's end loses nothing. *)
Lemma copy_gives ch :
  Channel.taken ch = [] -> Channel.written ch = [] ->
  match copy ch with Some (Ok (s, ch')) => StreamCopy.copying s /\ ch' = StreamCopy.socket s | _ => True end.
Proof.
  intros Ht Hw. unfold copy, StreamCopy.bidirectional_stream_copy. cbv zeta.
  do 3 (destruct (FileDescriptor.set_blocking _ _ _); cbn [obind]; [|done]).
  pose proof (StreamCopy.copy_loop_keeps (polls e) StreamCopy.rules _ StreamCopy.rules_keep
    (StreamCopy.make_copying ch (terminal 0 (stdin e)) (terminal 1 (stdout e)) eq_refl Hw Ht eq_refl)) as Hc.
  by destruct (StreamCopy.copy_loop _ _ _) as [[[] s]|].
Qed.

(** A program that copies between the terminal and its socket. *)
Definition copied (r : StreamCopy.t * Channel.t) : Prop :=
  StreamCopy.copying r.1 /\ Channel.shutdown Channel.SHUT_RDWR (StreamCopy.socket r.1) = Ok r.2.

Lemma use_socket_copies {A} `{DatagramAdapterLaws A} (a : A) o :
  default_capacity o ->
  gives (thread_fault A) copied (use_socket a (open_socket (Options.listen o) (Options.c_fsm o) (Options.c_filt o)) copy).
Proof.
  intros Ho. pose proof (use_socket_gives (fun s ch => StreamCopy.copying s /\ ch = StreamCopy.socket s) a
    (open_socket (Options.listen o) (Options.c_fsm o) (Options.c_filt o)) copy) as Hu.
  assert (0 <= TCPConfig.send_capacity (Options.c_fsm o) < MAX64) as Hcap by (rewrite Ho; done).
  specialize (Hu (open_socket_opens _ _ _ Hcap) copy_gives).
  destruct (use_socket _ _ _); try done. destruct Hu as (ch & [Hc ->] & Hs). done.
Qed.

Lemma tcp_native_ok argv : argv <> [] -> main_ok (fun _ => False) StreamCopy.copying (tcp_native_main argv).
Proof.
  intros Hne. apply catch_ok. eapply gives_bind; [by apply gives_proper, TcpNative.socket_proper|]. intros w _.
  pose proof (copy_gives (SocketSetup.open_channel w (owner_io e)) eq_refl eq_refl) as Hc.
  destruct (copy _) as [[[s ch]|]|]; [|done..]. apply Hc.
Qed.

Lemma tcp_udp_ok argv : argv <> [] ->
  main_ok (thread_fault (LossyAdapter.t UDPAdapter.t)) copied (tcp_udp_main argv).
Proof.
  intros Hne. apply catch_ok. eapply gives_bind.
  { apply gives_done; [by apply (command_lines_in_bounds strtof argv 0)|apply udp_capacity]. }
  intros o Ho. eapply gives_bind; [apply gives_try|]. intros sock _.
  eapply (gives_bind _ (fun _ => True)); [destruct (Options.listen o); [apply gives_proper, proper_try|done]|].
  intros _ _. by apply use_socket_copies.
Qed.

Lemma tcp_ipv4_ok argv : argv <> [] ->
  main_ok (thread_fault (LossyAdapter.t TunAdapter.t)) copied (tcp_ipv4_main argv).
Proof.
  intros Hne. apply catch_ok. eapply gives_bind.
  { apply gives_done; [by apply (command_lines_in_bounds strtof argv (port e))|apply ipv4_capacity]. }
  intros o Ho. eapply gives_bind; [apply gives_try|]. intros tun _. by apply use_socket_copies.
Qed.

Lemma tcp_ip_ethernet_ok argv : argv <> [] -> main_ok (thread_fault EthernetAdapter.t) copied (tcp_ip_ethernet_main argv).
Proof.
  intros Hne. apply catch_ok. eapply gives_bind.
  { apply gives_done; [by apply (command_lines_in_bounds strtof argv (port e))|apply ethernet_configured]. }
  intros [o next_hop] [[name Hname] Hcap]. cbn [fst] in Hname, Hcap. rewrite Hname. cbn [rbind].
  do 2 (eapply gives_bind; [apply gives_try|]; intros ? _).
  pose proof (use_socket_gives (fun s ch => StreamCopy.copying s /\ ch = StreamCopy.socket s) a0
    (open_socket false (Options.c_fsm o) (Options.c_filt o)) copy) as Hu.
  assert (0 <= TCPConfig.send_capacity (Options.c_fsm o) < MAX64) as Hc by (rewrite Hcap; done).
  specialize (Hu (open_socket_opens _ _ _ Hc) copy_gives).
  destruct (use_socket _ _ _); try done. destruct Hu as (ch & [Hcp ->] & Hs). done.
Qed.

(** [webget] has sent its request and printed the whole answer. *)
Definition fetched (argv : list string) (r : bytes * Channel.t) : Prop :=
  exists name host path, argv = [name; host; path] /\
    Channel.written r.2 = str (Webget.request host path) /\ Channel.taken r.2 = r.1 /\
    FileDescriptor.eof (Channel.fd r.2) = true.

Lemma shutdown_both ch ch' :
  Channel.shutdown Channel.SHUT_RDWR ch = Ok ch' ->
  Channel.written ch' = Channel.written ch /\ Channel.taken ch' = Channel.taken ch /\
  FileDescriptor.eof (Channel.fd ch') = FileDescriptor.eof (Channel.fd ch).
Proof.
  unfold Channel.shutdown. destruct (SystemCall _ _ _); cbn [obind]; [|done].
  change (Channel.SHUT_RDWR =? Channel.SHUT_RD) with false. change (Channel.SHUT_RDWR =? Channel.SHUT_WR) with false.
  change (Channel.SHUT_RDWR =? Channel.SHUT_RDWR) with true. cbv iota. by intros [= <-].
Qed.

Lemma str_app (a b : string) : str (a +:+ b) = str a ++ str b.
Proof.
  unfold str, String.list_byte_of_string. rewrite <- map_app. f_equal. induction a as [|c a IH]; [done|].
  exact (f_equal (cons c) IH).
Qed.

Lemma request_length host path :
  zlen (str host) <= 131072 -> zlen (str path) <= 131072 -> zlen (str (Webget.request host path)) < 2147483648.
Proof.
  intros Hh Hp. unfold Webget.request, Webget.crlf. rewrite !str_app, !zlen_app.
  repeat match goal with |- context [zlen (str (String ?a ?s))] =>
    let n := eval vm_compute in (zlen (str (String a s))) in change (zlen (str (String a s))) with n end. lia.
Qed.

Lemma get_URL_gives name host path :
  zlen (str host) <= 131072 -> zlen (str path) <= 131072 ->
  gives (thread_fault TunAdapter.t) (fetched [name; host; path]) (webget_get_URL host path).
Proof.
  intros Hh Hp. unfold webget_get_URL. eapply gives_bind; [apply gives_try|]. intros a _.
  eapply gives_bind; [apply gives_try|]. intros s Hs. apply make_owner in Hs as (Ht & Hw & Hf).
  eapply gives_bind; [apply gives_try|]. intros addr _. eapply gives_bind; [apply gives_try|].
  intros [[opened rules0] s1] Hs1. destruct opened; [|done].
  assert (_owner s1 = _owner s /\ throws_only (thread_fault TunAdapter.t) (serving e) (serving_time e) rules0 s1) as [Eo Hth].
  { unfold SocketSetup.cs144_connect in Hs1. destruct (SocketSetup.connect_config _ _ _) as [[c_tcp c_ad]|] eqn:Ec; [|done].
    cbn [obind] in Hs1. assert (0 <= TCPConfig.send_capacity c_tcp < MAX64) as Hcap.
    { unfold SocketSetup.connect_config in Ec. destruct (Address.of_host _ _); [|done]. by injection Ec as <- <-. }
    pose proof (either_opens true c_tcp c_ad Hcap s Hf) as Ho. cbv beta iota in Ho. by rewrite Hs1 in Ho. }
  pose proof (Webget.exchange_prints_reply host path (_owner s1) (request_length _ _ Hh Hp)) as Hx.
  rewrite Eo in Hx. specialize (Hx Ht Hw). rewrite <- Eo in Hx.
  pose proof (with_thread_gives (thread_fault TunAdapter.t) (fun printed ch => Channel.written ch = str (Webget.request host path) /\
    Channel.taken ch = printed /\ FileDescriptor.eof (Channel.fd ch) = true) (serving e) (serving_time e) (last e) rules0 s1
    (Webget.exchange host path) Hth) as Hg.
  destruct (Threads.with_thread _ _ _ _ _ _) as [[printed ch']| | | | | | |]; try (apply Hg; by destruct (Webget.exchange _ _ _) as [[[]|]|]).
  destruct Hg as (ch & (H1 & H2 & H3) & [E1 [E2 E3]]%shutdown_both); [by destruct (Webget.exchange _ _ _) as [[[]|]|]|].
  exists name, host, path. cbn [fst snd] in *. by rewrite E1, E2, E3.
Qed.

Lemma webget_ok argv :
  argv <> [] -> Forall (fun a => zlen (str a) <= 131072) argv ->
  main_ok (thread_fault TunAdapter.t) (fetched argv) (webget_main argv).
Proof.
  intros Hne Hl. apply catch_ok. destruct argv as [|name [|host [|path [|x argv]]]]; [done|done|done| |].
  - cbn. inversion Hl as [|? ? _ Hl1]; subst. inversion Hl1 as [|? ? Hh Hl2]; subst. inversion Hl2; subst.
    by apply get_URL_gives.
  - rewrite !zlen_cons. pose proof (zlen_nonneg argv). replace (_ <=? 0) with false by lia.
    replace (_ =? 3) with false by lia. done.
Qed.

(** [tun] never returns by itself: it shows every packet it reads, in order,
    until a system call fails. *)
Lemma tun_loop_shows replies : forall tun out,
  match tun_loop replies tun out with
  | Exit status printed =>
      status = EXIT_FAILURE /\ exists packets texts ex,
        Forall2 (fun packet text => Tun.show_packet packet = Ok text) packets texts /\ Channel.kernel_fault ex /\
        printed = out +:+ fold_right String.append EmptyString texts +:+ "Exception: " +:+ what ex +:+ nl
  | Waits => True
  | _ => False
  end.
Proof.
  induction replies as [|r replies IH]; intros tun out; cbn [tun_loop]; [done|].
  pose proof (Channel.read_spec 18446744073709551615 tun ltac:(lia)) as Hr.
  destruct (Channel.read _ tun) as [[packet tun']|ex].
  - destruct (Tun.show_packet_total packet) as [text Ht]. rewrite Ht. specialize (IH tun' (out +:+ text)).
    destruct (tun_loop _ _ _) as [|status printed| | | | | |]; try done.
    destruct IH as (? & packets & texts & ex & Hp & Hf & ->). split; [done|]. exists (packet :: packets), (text :: texts), ex.
    split_and!; [by constructor|done|]. cbn [fold_right]. by rewrite !Text.string_app_assoc.
  - split; [done|]. exists [], [], ex. by split_and!; [constructor| |].
Qed.

Lemma tun_main_fails :
  match tun_main with Exit status _ => status = EXIT_FAILURE | Waits => True | _ => False end.
Proof.
  unfold tun_main. destruct (TunTapFD.TunFD _) as [w|]; [|done]. cbn [try rbind].
  pose proof (tun_loop_shows (SocketSetup.io_reads (device_io e)) (SocketSetup.open_channel w (device_io e)) EmptyString) as Hl.
  destruct (tun_loop _ _ _); try done. apply Hl.
Qed.

(** C23: the five programs with a socket are safe to run.  Whatever the arguments
    (as [execve(2)] passes them: at least the name, none longer than 128 KiB), the
    kernel, the peer and the scheduler do: no program reads an argument that is not
    there, loops in its argument parsing or calls [abort]; no exception leaves
    [main]; the only undefined behaviour is a loss rate out of range.  An
    exception that leaves the TCP thread kills the process; when [poll] reports no
    error condition to that thread, it is the exception of a system call or of the
    adapter, never one of the library's own checks ([fault]).  When the program
    returns it returns one of the two statuses, and success of [webget] means that it
    has sent its request whole and printed everything up to the end of the answer,
    success of the others that what was written is, in both directions, the beginning
    of what was read, and all of it but the bytes still buffered as long as that
    buffer's input has not ended ([StreamCopy.copying]). *)
Theorem programs_safe (argv : list string) :
  argv <> [] -> Forall (fun a => zlen (str a) <= 131072) argv ->
  main_ok (thread_fault TunAdapter.t) (fetched argv) (webget_main argv) /\
  main_ok (fun _ => False) StreamCopy.copying (tcp_native_main argv) /\
  main_ok (thread_fault (LossyAdapter.t UDPAdapter.t)) copied (tcp_udp_main argv) /\
  main_ok (thread_fault (LossyAdapter.t TunAdapter.t)) copied (tcp_ipv4_main argv) /\
  main_ok (thread_fault EthernetAdapter.t) copied (tcp_ip_ethernet_main argv).
Proof.
  intros Hne Hl. split_and!;
    [by apply webget_ok|by apply tcp_native_ok|by apply tcp_udp_ok|by apply tcp_ipv4_ok|by apply tcp_ip_ethernet_ok].
Qed.

End programs.

(** ** A run of [webget]

    The peer accepts the connection, answers with five bytes and closes; the
    thread ends after both streams have, and [main] returns. *)

Definition demo_resolver : Resolver := {|
  getaddrinfo node service hints :=
    @getaddrinfo Address.numeric_resolver node (if bool_decide (service = "http") then "80" else service) hints;
  getnameinfo := @getnameinfo Address.numeric_resolver |}.

Definition demo_calls : SocketCalls := {|
  sys_socket _ _ _ := mkSys 3 0;
  sys_getsockopt _ _ option := mkOpt (mkSys 0 0) 1 4;
  sys_setsockopt _ _ _ _ _ := mkSys 0 0;
  sys_bind _ _ _ := mkSys 0 0;
  sys_connect _ _ _ := mkSys 0 0;
  sys_listen _ _ := mkSys 0 0;
  sys_accept _ := mkSys 4 0;
  sys_getsockname _ := mkName (mkSys 0 0) [] 0;
  sys_getpeername _ := mkName (mkSys 0 0) [] 0;
  sys_open _ _ := mkSys 5 0;
  sys_tunsetiff _ _ _ := mkSys 0 0 |}.

(** A datagram from the server to port 4000 of [tun144]. *)
Definition demo_datagram (syn fin : bool) (seqno ackno : Z) (payload : bytes) : read_reply :=
  let server := FdAdapterBase.mk (FdAdapterConfig.mk (Endpoint.mk 16909060 80) (Endpoint.mk 2852032521 4000) 0 0) false in
  let h := TCPHeader.default <| TCPHeader.seqno := WrappingIntegers.mkWrapping seqno |>
             <| TCPHeader.ackno := WrappingIntegers.mkWrapping ackno |> <| TCPHeader.ack := true |>
             <| TCPHeader.syn := syn |> <| TCPHeader.fin := fin |> <| TCPHeader.win := 1000 |> in
  match TCPOverIPv4OverTunFdAdapter.write (TCPSegment.mk h (Buffer.of_string payload)) server with
  | Ok (out, _) => let data := BufferList.concatenate out in mkRead (mkSys (zlen data) 0) data
  | Throw _ => mkRead Channel.again []
  end.

Definition demo_round (rs : list Z) : round := mkRound (EventLoop.demo_poll rs) false 0.

Definition demo_env : env :=
  let request := str (Webget.request "1.2.3.4" "/hello") in
  let len := zlen request in
  mkEnv (SocketSetup.mkPair (mkSys 0 0) 6 7) (mkSys 0 0) (mkSys 0 0)
    (SocketSetup.mkIo [mkRead (mkSys 5 0) (str "hello"); mkRead (mkSys 0 0) []] [mkSys len 0] [])
    (SocketSetup.mkIo [mkRead (mkSys len 0) request; mkRead (mkSys 0 0) []] [mkSys 5 0] [])
    (SocketSetup.mkIo [demo_datagram true false 100 1 []; demo_datagram false true 101 (1 + len) (str "hello");
                       demo_datagram false false 107 (2 + len) []]
       [mkSys 40 0; mkSys 40 0; mkSys (40 + len) 0; mkSys 40 0; mkSys 40 0] [])
    [] [] [] 0 [] 4000 0
    [demo_round [0; 0; 0; 4]; demo_round [1; 0; 0; 0]] 0
    [demo_round [0; 1; 0; 4]; demo_round [1; 0; 0; 0]; demo_round [0; 1; 4; 4]; demo_round [1; 0; 0]; demo_round []] 0
    (mkSys 0 0) [] [] (SocketSetup.mkIo [] [] []) (SocketSetup.mkIo [] [] []).

Definition demo_argv : list string := ["webget"; "1.2.3.4"; "/hello"].

Example demo_webget :
  match @webget_main demo_resolver demo_calls (fun _ => EmptyString) (fun _ => EmptyString) demo_env demo_argv with
  | Done (printed, _) => printed = str "hello"
  | _ => False
  end.
Proof. vm_compute. reflexivity. Qed.

Lemma programs_safe_witness :
  let run {A} (f : Resolver -> SocketCalls -> (Z -> string) -> (Z -> string) -> A) :=
    f demo_resolver demo_calls (fun _ => EmptyString) (fun _ => EmptyString) in
  main_ok (thread_fault demo_env TunAdapter.t) (fetched demo_argv) (run (@webget_main) demo_env demo_argv) /\
  main_ok (fun _ => False) StreamCopy.copying (run (@tcp_native_main) demo_env demo_argv) /\
  main_ok (thread_fault demo_env (LossyAdapter.t UDPAdapter.t)) copied
    (run (@tcp_udp_main) (fun _ => S754_nan) demo_env demo_argv) /\
  main_ok (thread_fault demo_env (LossyAdapter.t TunAdapter.t)) copied
    (run (@tcp_ipv4_main) (fun _ => S754_nan) demo_env demo_argv) /\
  main_ok (thread_fault demo_env EthernetAdapter.t) copied (run (@tcp_ip_ethernet_main) demo_env demo_argv).
Proof.
  apply (@programs_safe demo_resolver demo_calls (fun _ => EmptyString) (fun _ => EmptyString) (fun _ => S754_nan)
    demo_env demo_argv).
  - discriminate.
  - repeat (apply Forall_cons_2; [vm_compute; discriminate|]). apply Forall_nil_2.
Defined.

End Programs.
